(* ===== verification/_CoqProject ===== *)
-Q . S2P
Prelude.v
GoStrings.v
GoFloat.v
GoTime.v
GoDuration.v
Json.v
GoNumber.v
Sanitize.v
Types.v
Codec.v
Request.v
ColdStore.v
FSM.v
Snapshot.v
Replication.v
TimingWheel.v
WheelProps.v
WheelTime.v
Store.v
StoreProps.v
StatusTracker.v
Pruning.v
Limits.v
SlotQueue.v
SlotQueueProps.v
ExecutionManager.v
Webhook.v
Worker.v
WorkerProps.v
Evictor.v
Gateway.v
Config.v
Bootstrap.v
Api.v
ApiProps.v
Delivery.v
Restart.v
EndToEnd.v
NodeRules.v
System.v
Simulator.v
Lifecycle.v
Metrics.v
Instrumentation.v
Metered.v
Logger.v
HttpMetrics.v
Router.v
RouterProps.v
Setup.v
Shutdown.v
Startup.v
CommandLine.v
Interfaces.v
Wasm.v
WorkerMetrics.v
Integration.v
