(* ===== verification/Prelude.v ===== *)
(** * A verified model of Scheduled-DB

    Scheduled-DB ([src/]) is a job scheduler: clients create jobs over HTTP,
    a Raft log replicates them, and the leader calls the webhook of a job when
    it is due. This library models that program and proves what it does. This
    file holds what all others use: Go integers, the state and error monad
    with its loops and its rules, iteration over Go maps, and errors.

    ** The program and its model

    Data and encodings.
    - [GoStrings], [GoFloat], [GoTime], [GoDuration], [GoNumber], [Json]: the
      parts of Go's standard library the program uses ([strconv], binary64
      floats, [time.Parse], [time.ParseDuration], [encoding/json] on document
      trees).
    - [Types], [Codec]: records, constants, [Clone] and [Validate] of
      [store/types], and their JSON form, [omitempty] included.
    - [Request]: [CreateJobRequest], [ParseTimestamp] and [ToJob] of
      [types/job.go].

    Replicated state.
    - [ColdStore]: the interface [ColdSlotStore] with its laws, and
      [cold_store.go] as an instance over a database.
    - [FSM]: [fsm.go] and [Apply] of [raft_adapter.go], one definition per
      command and per query; [Snapshot]: [Persist] and [Restore].
      [Replication]: replicas and restarts of the state machine.
    - [Store]: the node ([store.go]): leader checks, log writes, membership.
      [StoreProps] has the rules with which everything above is verified.
      [Interfaces]: the Go interfaces of [store/interfaces.go] as classes, the
      node as their instance, and the contract of maps and counters behind them.

    Scheduling.
    - [TimingWheel]: every operation of [timing_wheel.go]; [WheelProps] shows
      its shape is kept and no slot is lost, [WheelTime] when slots come out.
    - [SlotQueue]: [persistent_slots.go] and the event handler of [app.go];
      properties in [SlotQueueProps].
    - [StatusTracker]: [status_tracker.go] over the interface [StatusStore],
      which the node implements; [Pruning]: its goroutine that prunes.
    - [Limits]: size calculator, memory tracker, job counter, limit manager.
    - [ExecutionManager], [Worker] (properties in [WorkerProps]) and
      [Evictor]: [execution_manager.go], a tick of [worker.go], a round of
      [slot_eviction.go]. [Webhook]: the unused client of [store/webhook.go].
    - [Delivery]: a tick of the worker through queue, wheel, execution manager
      and store, put together; [EndToEnd]: from the request over HTTP through
      many ticks to the webhook; [Restart]: a process that starts with a store
      full of jobs and an empty queue.
    - [NodeRules] and [System]: one invariant through every operation of a node,
      and what can be said of a node whatever happens to it.
    - [Lifecycle]: starting and stopping worker and evictor, and
      [monitorLeadership], as state machines.

    The way in.
    - [Sanitize]: the redaction of error messages in [handlers.go].
    - [Gateway]: requests and responses, the proxy to the leader,
      authentication and cross-origin headers ([handlers.go], [router.go]).
    - [Api]: the handlers of [job_handlers.go] and [cluster_handlers.go];
      properties in [ApiProps].
    - [Router]: the table, the middleware and the way of a request through
      [router.go]; its behaviour end to end in [RouterProps].
    - [Bootstrap]: the discovery callbacks, [peerTracker], [waitForBootstrap]
      and [derivePeerID] of [app.go], and [address_provider.go].
    - [Simulator]: clock, executor, worker and session of
      [internal/simulator]; [Wasm]: the functions [cmd/wasm] gives a browser.

    Starting and stopping.
    - [Config]: environment variables, memory limit, wheel configuration and
      topologies of [cmd/scheduled-db/main.go].
    - [CommandLine]: the flags of [main] and the parser of the flag package.
    - [Startup]: what [main] makes of its flags, [NewApp], [App.Start] and the
      opening of the store ([NewStoreWithColdSpilling]).
    - [Shutdown]: the signal handlers of [main] and [app.go] and [App.Stop], as
      a transition function over interleaved goroutines.

    Metrics and logging.
    - [Metrics]: every instrument and method of [metrics.go]; [Instrumentation]
      the helpers around them; [Setup] the exporters; [HttpMetrics] the
      middleware of the package; [Integration] its examples of use.
    - [Metered] and [WorkerMetrics]: the code of the node, limits, handlers,
      execution manager and worker with the metrics it records, over the node
      and the telemetry of its process.
    - [Logger]: levels, lines and job counters of [logger.go].

    ** How code becomes definitions

    A Go function that changes state is a computation [M W A] that maps a
    state to [None], a panic, or to a result and a new state; an error is a
    value of the result. Integers are in [Z] and every [int64] operation wraps
    through [i64]; division by zero and an index out of range are panics. A
    mutex makes an operation atomic, so it is one function of the state it
    protects. Iterating over a map goes through [GoRange], an arbitrary
    permutation: theorems hold for every order.

    The state of a node is the record [Node]: state machine, queue, cancel
    functions, and the trace of calls that leave the process. Raft, the clock
    and the HTTP client are third-party: class [Env] gives what they answer at
    every step, and the log entries of other goroutines and nodes that get in
    between. [healthy_env] is the environment of a leader whose entries are
    committed and where nobody else writes. An operation is one step of a node:
    what other goroutines do meanwhile is seen through their log entries only.
    Other third-party code is a class too: [Cron], [Bolt], [Rand], [Cluster],
    [PkgCluster], [HTTP], [Mux] for the router, [Meter], [Reader] and [OTel] for
    OpenTelemetry, [Machine] for files, names, databases and Raft while the
    process starts.

    JSON documents are trees. A key that a client repeats in a request is
    decoded as Go does, member by member. Documents the program writes for
    itself (log entries, snapshots) repeat no key and hold no [null] for a
    record: their decoders take the last member of a name, and read a [null]
    record as the zero record, where Go would put a nil pointer into the map;
    nil and empty slices are one list.

    Code that records metrics is modelled twice, without and with them: the
    first is what the other theorems are about, and [erases] says the second
    does the same. Measured durations are arguments.

    ** What is proved

    - State machine: the invariant of every reachable state, status changes
      only along [validTransitions], finished jobs stay finished, what an
      error changes, snapshots round trip for hot slots and lose cold ones.
    - Replication: snapshot and rest of the log are worth the whole log when
      the cold store is as it was at the snapshot; replicas answer alike
      whatever their cold stores are made of; a cold store that is kept on
      disk, or is full, breaks both.
    - Store: what each write does in every environment, exactly; to a client
      of its interfaces, all their methods included, a healthy node with a
      working cold store is a few maps and two counters.
    - Wheel: no call panics or loops, no slot is lost, none comes out early,
      and an advance of at most a turn hands out exactly what is due.
    - Queue: a job is filed where it belongs and taken out again, what
      [GetNextSlot] and [LoadJobs] do; a due slot can be dropped.
    - Execution and worker: at most one webhook call per [Execute], its
      outcome recorded, only due jobs called; the claim is not exclusive.
    - The whole node: in every environment, after any requests, ticks, entries,
      snapshots and restarts, the next step returns, keeps the invariants and
      calls at most webhooks of known jobs that are due.
    - Delivery: ticks before a job is due call nothing, and a tick from its time
      to the end of the window of its slot calls its webhook exactly once and
      removes it; so a request that was answered 200 leads to one webhook. Left
      out is a tick during which the job becomes due or the window ends. After
      a restart nothing is executed, because nothing fills the queue from the
      store.
    - Tracker, limits, evictor: timeouts and capacity are exact; eviction is
      invisible to readers when no slot is both hot and archived.
    - API: which requests become a job, creating, deleting and cancelling in
      full (a refused cancellation is answered 200 as well), listing by status,
      followers only forward, who may join, when a node is unhealthy, the proxy
      and authentication.
    - Bootstrap: exactly one node takes itself for the initiator when all have
      found each other; what the wait for peers needs; what reaches Raft. The
      monitor of leadership can still bootstrap others ([Lifecycle]).
    - Routing: every method and clean path runs the handler the API names, and
      no other; what a request goes through from router to answer; bodies over
      the limit are refused.
    - Lifecycle: the worker never panics on [Stop]; the evictor does on the
      second loss of leadership.
    - Command line: every setting has the flag, the variable, the default and
      the field that the documentation gives it, flags win over the
      environment and that over the defaults; what goes unnoticed in it.
    - Starting and stopping: what is open after a start that failed, parts that
      agree with each other; a signal ends the process in finitely many steps
      even if libraries hang, and what each exit code means, the panic at the
      second loss of leadership included.
    - Pruning only thins histories, and loses an attempt recorded meanwhile.
    - Metrics: every measurement is well typed, none changes what the program
      does; the queue gauges move by what the replicated counters move by, every
      execution is counted once, a creation twice; gauges that are set
      accumulate.
    - Logging: at levels that print them, the report lines and the counters
      account for every executed and failed job once.
    - Simulator: a tick executes due jobs once; through its own interface the
      simulator never executes anything, and a browser can end the session
      only with something that is no number.

    ** Bounds and fuel

    [advance_loop] gets as many steps as there are gaps between the bases,
    [cascade] one more than there are levels, the matcher of [Sanitize] and the
    reader of [GoDuration] the length of their input; [wheel_calls_total] shows
    the first two suffice for every call on a default wheel,
    [parse_pieces_fuel] the last one. Running out counts as a panic, so every
    theorem that a call returns covers it. Gaps of the default wheel are 1 to
    1000000 seconds, which keeps its coverage within [int64].

    ** Not modelled

    The inside of Raft, its transport and the files of the databases; name
    resolution and listening sockets; the strategies of the discovery library.
    The second names that [store/types.go] gives to what [store/types] declares,
    and the logger that [pkgcluster_adapter.go] hands to a library. What a page
    does with the answers of [cmd/wasm], the reading of JSON text and the
    printing of floats there, which are parameters. Log lines outside [Router]
    and [Logger], the periodic debug line of [monitorLeadership] included, and
    accessors that return a field. Messages of library errors are opaque
    strings. *)

From stdpp Require Export base gmap sets list strings pretty sorting.
From Stdlib Require Export ZArith Lia.

#[global] Open Scope Z_scope.

(** ** Go machine integers

    [int64] (and [int] on 64-bit targets) values are kept as [Z]; every
    arithmetic result goes through [i64], two's-complement wrap-around. *)

Definition two63 : Z := 9223372036854775808.

Definition two64 : Z := 18446744073709551616.

Definition i64 (z : Z) : Z := (z + two63) mod two64 - two63.

Definition in64 (z : Z) : Prop := - two63 <= z < two63.

#[export] Instance in64_dec z : Decision (in64 z).
Proof. unfold in64. apply _. Defined.

(** Go's integer division truncates towards zero; dividing by zero panics,
    which [None] stands for. *)
Definition go_quot (a b : Z) : option Z :=
  if decide (b = 0) then None else Some (i64 (Z.quot a b)).

Definition go_rem (a b : Z) : option Z :=
  if decide (b = 0) then None else Some (i64 (Z.rem a b)).

Section int64.

Lemma i64_id z : in64 z → i64 z = z.
Proof.
  unfold in64, i64, two63, two64. intros ?.
  rewrite Z.mod_small by lia. lia.
Qed.

Lemma i64_in64 z : in64 (i64 z).
Proof.
  unfold in64, i64, two63, two64.
  pose proof (Z.mod_pos_bound (z + 9223372036854775808) 18446744073709551616).
  lia.
Qed.

Lemma i64_idemp z : i64 (i64 z) = i64 z.
Proof. apply i64_id, i64_in64. Qed.

Lemma i64_plus_l a b : i64 (i64 a + b) = i64 (a + b).
Proof.
  unfold i64. f_equal.
  replace ((a + two63) mod two64 - two63 + b + two63)
    with ((a + two63) mod two64 + b) by lia.
  rewrite Zplus_mod_idemp_l. f_equal. lia.
Qed.

Lemma quot_in64 a b : in64 a → 0 < b → in64 (Z.quot a b).
Proof.
  intros Ha Hb. unfold in64 in *.
  destruct (Z.le_gt_cases 0 a).
  - pose proof (Z.quot_pos a b). pose proof (Z.quot_le_upper_bound a b a).
    assert (a ≤ b * a) by nia. unfold two63 in *. lia.
  - pose proof (Z.quot_opp_l a b). pose proof (Z.quot_pos (- a) b).
    pose proof (Z.quot_le_upper_bound (- a) b (- a)).
    assert (- a ≤ b * - a) by nia. unfold two63 in *. lia.
Qed.

Lemma go_quot_pos a b : in64 a → 0 < b → go_quot a b = Some (Z.quot a b).
Proof.
  intros Ha Hb. unfold go_quot. rewrite decide_False by lia. f_equal.
  by apply i64_id, quot_in64.
Qed.

Lemma go_quot_zero a : go_quot a 0 = None.
Proof. done. Qed.

Lemma go_rem_nonneg a b :
  in64 b → 0 <= a → 0 < b → go_rem a b = Some (a mod b).
Proof.
  intros Hb Ha ?. unfold go_rem. rewrite decide_False by lia. f_equal.
  rewrite Z.rem_mod_nonneg by lia. apply i64_id.
  pose proof (Z.mod_pos_bound a b). unfold in64, two63 in *. lia.
Qed.

End int64.

(** ** Errors

    A Go [error] is its message and the sentinels that [errors.Is] finds in
    its chain: [fmt.Errorf] with [%w] keeps the chain, with [%v] drops it. *)

Inductive sentinel :=
  | SErrNotLeader | SErrNotFound | SErrColdStoreNotEnabled | SErrSlotNotFound
  | SDeadlineExceeded | SCanceled.

#[export] Instance sentinel_eq_dec : EqDecision sentinel.
Proof. solve_decision. Defined.

Record error := Err { Error : string; chain : list sentinel }.

#[export] Instance error_eq_dec : EqDecision error.
Proof. solve_decision. Defined.

Definition errors_New (msg : string) : error := Err msg [].

Definition errors_Is (e : error) (s : sentinel) : bool := bool_decide (s ∈ chain e).

(** [fmt.Errorf(prefix + "%w" + suffix, e)] *)
Definition wrapf (prefix : string) (e : error) : error :=
  Err (prefix +:+ Error e) (chain e).

(** [fmt.Errorf(prefix + "%v" + suffix, e)] *)
Definition flatf (prefix : string) (e : error) : error :=
  Err (prefix +:+ Error e) [].

(** ** Stateful computations

    A Go call reads and writes a state [W] and either returns or panics
    ([None]). *)

Definition M (W A : Type) : Type := W → option (A * W).

Definition mreturn {W A} (a : A) : M W A := λ w, Some (a, w).

Definition mthen {W A B} (c : M W A) (k : A → M W B) : M W B :=
  λ w, match c w with Some (a, w') => k a w' | None => None end.

Definition panic {W A} : M W A := λ _, None.

Definition gets {W A} (f : W → A) : M W A := λ w, Some (f w, w).

Definition modify {W} (f : W → W) : M W unit := λ w, Some (tt, f w).

(** A step that may panic but does not touch the state. *)
Definition lift_opt {W A} (o : option A) : M W A :=
  λ w, match o with Some a => Some (a, w) | None => None end.

Declare Scope go_scope.
Delimit Scope go_scope with go.

Notation "x <- c ;; k" := (mthen c (λ x, k))
  (at level 100, c at next level, right associativity) : go_scope.
Notation "c ;; k" := (mthen c (λ _, k))
  (at level 100, right associativity) : go_scope.

(** [for _, x := range l { body }] *)
Fixpoint for_each {W A} (body : A → M W unit) (l : list A) : M W unit :=
  match l with
  | [] => mreturn tt
  | x :: l => mthen (body x) (λ _, for_each body l)
  end.

(** The same loop with variables [acc] that the body assigns. *)
Fixpoint for_acc {W A B} (body : A → B → M W B) (l : list A) (acc : B) : M W B :=
  match l with
  | [] => mreturn acc
  | x :: l => mthen (body x acc) (λ acc, for_acc body l acc)
  end.

(** A loop that returns from the function when the body says so. *)
Fixpoint for_until {W A} (body : A → M W bool) (l : list A) : M W bool :=
  match l with
  | [] => mreturn false
  | x :: l => mthen (body x) (λ stop : bool, if stop then mreturn true else for_until body l)
  end.

Section monad.

Context {W A B C : Type}.

Lemma mthen_ret (a : A) (k : A → M W B) w : mthen (mreturn a) k w = k a w.
Proof. done. Qed.

Lemma mthen_assoc (c : M W A) (f : A → M W B) (g : B → M W C) w :
  mthen (mthen c f) g w = mthen c (λ a, mthen (f a) g) w.
Proof. unfold mthen. by destruct (c w) as [[]|]. Qed.

Lemma mthen_some (c : M W A) (k : A → M W B) w a w' :
  c w = Some (a, w') → mthen c k w = k a w'.
Proof. unfold mthen. by intros ->. Qed.

End monad.

(** A loop whose body preserves [P] and never panics preserves [P]. *)
Lemma for_each_inv {W A} (P : W → Prop) (body : A → M W unit) l w :
  (∀ x w, x ∈ l → P w → ∃ w', body x w = Some (tt, w') ∧ P w') →
  P w → ∃ w', for_each body l w = Some (tt, w') ∧ P w'.
Proof.
  revert w. induction l as [|x l IH]; intros w Hb Hw; [by exists w|].
  destruct (Hb x w) as (w1 & E1 & H1); [set_solver|done|].
  destruct (IH w1) as (w2 & E2 & H2); [set_solver|done|].
  exists w2. simpl. unfold mthen. by rewrite E1.
Qed.

(** The loop rule: [I l acc w] holds when the elements [l] are done. *)
Lemma for_acc_ind {W A B} (I : list A → B → W → Prop) (body : A → B → M W B) l acc w :
  I [] acc w →
  (∀ l1 x l2 acc w, l = l1 ++ x :: l2 → I l1 acc w →
     ∃ acc' w', body x acc w = Some (acc', w') ∧ I (l1 ++ [x]) acc' w') →
  ∃ acc' w', for_acc body l acc w = Some (acc', w') ∧ I l acc' w'.
Proof.
  intros H0 Hstep.
  assert (∀ l2 l1 acc w, l = l1 ++ l2 → I l1 acc w →
    ∃ acc' w', for_acc body l2 acc w = Some (acc', w') ∧ I l acc' w') as Hgen.
  { intros l2. induction l2 as [|x l2 IH]; intros l1 acc1 w1 Hl Hw1.
    - exists acc1, w1. rewrite app_nil_r in Hl. by subst.
    - destruct (Hstep l1 x l2 acc1 w1 Hl Hw1) as (acc2 & w2 & E & H2). simpl. unfold mthen.
      rewrite E. apply (IH (l1 ++ [x])); [by rewrite <-app_assoc|done]. }
  by apply (Hgen l []).
Qed.

(** The same for a loop without variables. *)
Lemma for_each_ind {W A} (I : list A → W → Prop) (body : A → M W unit) l w :
  I [] w →
  (∀ l1 x l2 w, l = l1 ++ x :: l2 → I l1 w →
     ∃ w', body x w = Some (tt, w') ∧ I (l1 ++ [x]) w') →
  ∃ w', for_each body l w = Some (tt, w') ∧ I l w'.
Proof.
  intros H0 Hstep.
  assert (∀ l2 l1 w, l = l1 ++ l2 → I l1 w →
    ∃ w', for_each body l2 w = Some (tt, w') ∧ I l w') as Hgen.
  { intros l2. induction l2 as [|x l2 IH]; intros l1 w1 Hl Hw1.
    - exists w1. rewrite app_nil_r in Hl. by subst.
    - destruct (Hstep l1 x l2 w1 Hl Hw1) as (w2 & E & H2). simpl. unfold mthen.
      rewrite E. apply (IH (l1 ++ [x])); [by rewrite <-app_assoc|done]. }
  by apply (Hgen l []).
Qed.

(** ** Total correctness

    [returns c w Q]: from [w] the call returns, and its result and final state
    satisfy [Q]. *)

Definition returns {W A} (c : M W A) (w : W) (Q : A → W → Prop) : Prop :=
  ∃ a w', c w = Some (a, w') ∧ Q a w'.

Section returns.

Context {W A B : Type}.

Implicit Types (w : W) (Q : A → W → Prop) (R : B → W → Prop).

Lemma returns_ret (a : A) w Q : Q a w → returns (mreturn a) w Q.
Proof. intros Hq. by exists a, w. Qed.

Lemma returns_gets (f : W → A) w Q : Q (f w) w → returns (gets f) w Q.
Proof. intros Hq. by exists (f w), w. Qed.

Lemma returns_modify (f : W → W) w (Q : unit → W → Prop) : Q tt (f w) → returns (modify f) w Q.
Proof. intros Hq. by exists tt, (f w). Qed.

Lemma returns_lift (o : option A) (a : A) w Q : o = Some a → Q a w → returns (lift_opt o) w Q.
Proof. intros -> Hq. by exists a, w. Qed.

Lemma returns_bind (c : M W A) (k : A → M W B) w R :
  returns c w (λ a w', returns (k a) w' R) → returns (mthen c k) w R.
Proof. intros (a & w' & E & H). unfold returns, mthen. by rewrite E. Qed.

Lemma returns_mono (c : M W A) w Q Q' :
  returns c w Q → (∀ a w', Q a w' → Q' a w') → returns c w Q'.
Proof. intros (a & w' & E & H) HQ. exists a, w'. auto. Qed.

End returns.

(** A loop whose body may panic, over a state passed along. *)
Fixpoint ofold {W A} (body : A → W → option W) (l : list A) (w : W) : option W :=
  match l with
  | [] => Some w
  | x :: l => w' ← body x w; ofold body l w'
  end.

Lemma ofold_app {W A} (body : A → W → option W) l1 l2 w :
  ofold body (l1 ++ l2) w = ofold body l1 w ≫= ofold body l2.
Proof.
  revert w. induction l1 as [|x l1 IH]; intros w; [done|]. simpl.
  destruct (body x w) as [w1|]; simpl; [apply IH|done].
Qed.

(** The loop rule: [I l w] holds when the elements [l] are done. *)
Lemma ofold_ind {W A} (I : list A → W → Prop) (body : A → W → option W) l w :
  I [] w →
  (∀ l1 x l2 w, l = l1 ++ x :: l2 → I l1 w → ∃ w', body x w = Some w' ∧ I (l1 ++ [x]) w') →
  ∃ w', ofold body l w = Some w' ∧ I l w'.
Proof.
  intros H0 Hstep.
  assert (∀ l2 l1 w, l = l1 ++ l2 → I l1 w → ∃ w', ofold body l2 w = Some w' ∧ I l w') as Hgen.
  { intros l2. induction l2 as [|x l2 IH]; intros l1 w1 Hl Hw1.
    - exists w1. rewrite app_nil_r in Hl. by subst.
    - destruct (Hstep l1 x l2 w1 Hl Hw1) as (w2 & E & H2). simpl. rewrite E. simpl.
      apply (IH (l1 ++ [x])); [by rewrite <-app_assoc|done]. }
  by apply (Hgen l []).
Qed.

(** ** Go maps

    Iterating a Go map visits every entry once, in an order the language
    leaves open; [range_perm] is that order. *)

Class GoRange := {
  range_perm : ∀ {A : Type}, list A → list A;
  range_perm_ok : ∀ {A : Type} (l : list A), range_perm l ≡ₚ l }.

Definition sorted_range : GoRange :=
  {| range_perm A l := l; range_perm_ok A l := Permutation_refl l |}.

Section range.

Context `{GoRange}.

Definition range_set `{Countable K} (X : gset K) : list K := range_perm (elements X).

Definition range_map `{Countable K} {V} (m : gmap K V) : list (K * V) :=
  range_perm (map_to_list m).

Lemma elem_of_range_set `{Countable K} (X : gset K) x : x ∈ range_set X ↔ x ∈ X.
Proof. unfold range_set. by rewrite range_perm_ok, elem_of_elements. Qed.

Lemma range_set_NoDup `{Countable K} (X : gset K) : NoDup (range_set X).
Proof. unfold range_set. rewrite range_perm_ok. apply NoDup_elements. Qed.

Lemma elem_of_range_map `{Countable K} {V} (m : gmap K V) k v :
  (k, v) ∈ range_map m ↔ m !! k = Some v.
Proof. unfold range_map. by rewrite range_perm_ok, elem_of_map_to_list. Qed.

Lemma range_map_NoDup `{Countable K} {V} (m : gmap K V) : NoDup (range_map m).*1.
Proof. unfold range_map. rewrite range_perm_ok. apply NoDup_fst_map_to_list. Qed.

End range.

(** ** Slices *)

(** [s[i]]: an index out of range panics. *)
Definition go_index {A} (l : list A) (i : Z) : option A :=
  if decide (0 <= i) then l !! Z.to_nat i else None.

(** [append(s[:i], s[i+1:]...)] at the first [i] with [s[i] == x], if any. *)
Fixpoint remove_first `{EqDecision A} (x : A) (l : list A) : list A :=
  match l with
  | [] => []
  | y :: l => if decide (y = x) then l else y :: remove_first x l
  end.

Section slices.

Context {A : Type}.

Lemma go_index_Some (l : list A) i x :
  go_index l i = Some x ↔ 0 <= i ∧ l !! Z.to_nat i = Some x.
Proof. unfold go_index. case_decide; naive_solver. Qed.

Lemma go_index_lt (l : list A) i : 0 <= i < Z.of_nat (length l) → is_Some (go_index l i).
Proof.
  intros ?. unfold go_index. rewrite decide_True by lia.
  apply lookup_lt_is_Some. lia.
Qed.

Lemma go_index_of_nat (l : list A) n : go_index l (Z.of_nat n) = l !! n.
Proof. unfold go_index. rewrite decide_True by lia. by rewrite Nat2Z.id. Qed.

Context `{!EqDecision A}.

Lemma remove_first_notin (x : A) l : x ∉ l → remove_first x l = l.
Proof.
  induction l as [|y l IH]; [done|]. intros Hx. simpl.
  rewrite decide_False by set_solver. f_equal. set_solver.
Qed.

Lemma remove_first_perm (x : A) l : x ∈ l → l ≡ₚ x :: remove_first x l.
Proof.
  induction l as [|y l IH]; [set_solver|]. intros Hx. simpl.
  case_decide; subst; [done|]. rewrite (IH ltac:(set_solver)) at 1. apply perm_swap.
Qed.

Lemma remove_first_app_last (x : A) l : x ∉ l → remove_first x (l ++ [x]) = l.
Proof.
  induction l as [|y l IH]; simpl; intros Hx.
  - by rewrite decide_True.
  - rewrite decide_False by set_solver. f_equal. apply IH. set_solver.
Qed.

Lemma elem_of_remove_first (x y : A) l :
  y ∈ remove_first x l → y ∈ l.
Proof.
  induction l as [|z l IH]; simpl; [done|]. case_decide; set_solver.
Qed.

Lemma elem_of_remove_first_ne (x y : A) l :
  x ≠ y → y ∈ remove_first x l ↔ y ∈ l.
Proof.
  intros ?. induction l as [|z l IH]; simpl; [done|]. case_decide; set_solver.
Qed.

Lemma NoDup_remove_first (x : A) l : NoDup l → x ∉ remove_first x l.
Proof.
  induction 1 as [|y l Hy Hl IH]; simpl; [set_solver|].
  case_decide; subst; set_solver.
Qed.

End slices.
