(* ===== verification/GoStrings.v ===== *)
(** * The parts of Go's [strconv], [fmt] and [strings] that the program uses

    Go strings are byte sequences: [string] is Stdlib's list of 8-bit
    characters, so [len(s)] is [String.length s]. Decimal printing is stdpp's
    [pretty]; this file adds the parsers and their round trips. *)

From S2P Require Import Prelude.
From Stdlib Require Import Ascii.

(** ** Decimal integers *)

Definition digit_val (c : ascii) : option Z :=
  let n := Z.of_nat (nat_of_ascii c) in
  if decide (48 <= n <= 57) then Some (n - 48) else None.

(** The value of the digits at the front of [s], and what follows them. *)
Fixpoint scan_digits (acc : Z) (s : string) : Z * string :=
  match s with
  | EmptyString => (acc, EmptyString)
  | String c s' =>
      match digit_val c with
      | Some d => scan_digits (acc * 10 + d) s'
      | None => (acc, s)
      end
  end.

(** An optional sign. *)
Definition scan_sign (s : string) : bool * string :=
  match s with
  | String "-" s' => (true, s')
  | String "+" s' => (false, s')
  | _ => (false, s)
  end.

Definition starts_with_digit (s : string) : bool :=
  match s with
  | String c _ => bool_decide (is_Some (digit_val c))
  | EmptyString => false
  end.

(** A signed run of digits at the front of [s], in [int64] range. *)
Definition scan_int64 (s : string) : option (Z * string) :=
  let '(neg, s1) := scan_sign s in
  if starts_with_digit s1 then
    let '(n, rest) := scan_digits 0 s1 in
    let v := if neg then - n else n in
    if decide (in64 v) then Some (v, rest) else None
  else None.

(** [strconv.ParseInt(s, 10, 64)]: the whole string is the number. *)
Definition ParseInt (s : string) : option Z :=
  match scan_int64 s with
  | Some (v, EmptyString) => Some v
  | _ => None
  end.

(** White space [fmt] skips before a verb (the single-byte ones). *)
Definition is_space (c : ascii) : bool :=
  match nat_of_ascii c with
  | 9%nat | 11%nat | 12%nat | 13%nat | 32%nat => true
  | _ => false
  end.

Fixpoint skip_space (s : string) : string :=
  match s with
  | String c s' => if is_space c then skip_space s' else s
  | EmptyString => s
  end.

(** [fmt.Sscanf(s, "%d", &v)]: leading blanks are skipped and anything after
    the digits is left unread. *)
Definition Sscanf_d (s : string) : option Z :=
  fst <$> scan_int64 (skip_space s).

(** [strings.Contains(s, sub)] *)
Fixpoint Contains (s sub : string) : bool :=
  String.prefix sub s ||
  match s with
  | EmptyString => false
  | String _ s => Contains s sub
  end.

(** ** Round trips *)

Section decimal.

Lemma digit_val_pretty (x : N) :
  (x < 10)%N → digit_val (pretty_N_char x) = Some (Z.of_N x).
Proof.
  intros Hx.
  assert (x = 0 ∨ x = 1 ∨ x = 2 ∨ x = 3 ∨ x = 4 ∨ x = 5 ∨ x = 6 ∨ x = 7
    ∨ x = 8 ∨ x = 9)%N as Hc by lia.
  by destruct_or! Hc; subst.
Qed.

Lemma pretty_char_no_sign (x : N) :
  (x < 10)%N → pretty_N_char x ≠ "-"%char ∧ pretty_N_char x ≠ "+"%char
    ∧ is_space (pretty_N_char x) = false.
Proof.
  intros Hx.
  assert (x = 0 ∨ x = 1 ∨ x = 2 ∨ x = 3 ∨ x = 4 ∨ x = 5 ∨ x = 6 ∨ x = 7
    ∨ x = 8 ∨ x = 9)%N as Hc by lia.
  by destruct_or! Hc; subst.
Qed.

(** Scanning the decimal expansion of [x] in front of [s]. *)
Lemma scan_digits_pretty_go (x : N) s acc :
  ∃ p, scan_digits acc (pretty_N_go x s) = scan_digits (acc * p + Z.of_N x) s
    ∧ 1 <= p.
Proof.
  revert s acc. induction (N.lt_wf_0 x) as [x _ IH]; intros s acc.
  destruct (decide (x = 0%N)) as [->|Hx].
  - exists 1. rewrite pretty_N_go_0. split; [f_equal; lia|lia].
  - rewrite pretty_N_go_step by lia.
    destruct (IH (x / 10)%N ltac:(apply N.div_lt; lia)
      (String (pretty_N_char (x mod 10)) s) acc) as (p & -> & Hp).
    exists (p * 10). split; [|lia]. simpl.
    rewrite digit_val_pretty by (by apply N.mod_lt). f_equal.
    pose proof (N.div_mod x 10 ltac:(lia)) as E. apply (f_equal Z.of_N) in E.
    rewrite N2Z.inj_add, N2Z.inj_mul in E. rewrite E. change (Z.of_N 10) with 10. ring.
Qed.

Lemma pretty_N_go_head (x : N) s :
  (0 < x)%N → ∃ d s', (d < 10)%N ∧ pretty_N_go x s = String (pretty_N_char d) s'.
Proof.
  revert s. induction (N.lt_wf_0 x) as [x _ IH]; intros s Hx.
  rewrite pretty_N_go_step by lia.
  destruct (decide (x / 10 = 0)%N) as [E|E].
  - rewrite E, pretty_N_go_0. exists (x mod 10)%N, s.
    split; [by apply N.mod_lt|done].
  - apply IH; [apply N.div_lt; lia|by apply N.neq_0_lt_0].
Qed.

Lemma pretty_N_head (x : N) :
  ∃ d s', (d < 10)%N ∧ pretty x = String (pretty_N_char d) s'.
Proof.
  unfold pretty, pretty_N. case_decide as Hx.
  - exists 0%N, "". done.
  - apply pretty_N_go_head. lia.
Qed.

Lemma scan_digits_pretty (x : N) : scan_digits 0 (pretty x) = (Z.of_N x, "").
Proof.
  unfold pretty, pretty_N. case_decide as Hx; [by subst|].
  destruct (scan_digits_pretty_go x "" 0) as (p & -> & _). done.
Qed.

Lemma scan_sign_digit d s' :
  (d < 10)%N →
  scan_sign (String (pretty_N_char d) s') = (false, String (pretty_N_char d) s').
Proof.
  intros Hd.
  assert (d = 0 ∨ d = 1 ∨ d = 2 ∨ d = 3 ∨ d = 4 ∨ d = 5 ∨ d = 6 ∨ d = 7
    ∨ d = 8 ∨ d = 9)%N as Hc by lia.
  by destruct_or! Hc; subst.
Qed.

Lemma starts_with_digit_char d s' :
  (d < 10)%N → starts_with_digit (String (pretty_N_char d) s') = true.
Proof. intros Hd. simpl. by rewrite digit_val_pretty. Qed.

Lemma scan_int64_pretty_N (x : N) :
  in64 (Z.of_N x) → scan_int64 (pretty x) = Some (Z.of_N x, "").
Proof.
  intros Hx. unfold scan_int64.
  destruct (pretty_N_head x) as (d & s' & Hd & E).
  rewrite E, scan_sign_digit, starts_with_digit_char by done.
  rewrite <-E, scan_digits_pretty. by rewrite decide_True.
Qed.

Lemma scan_int64_pretty_neg (x : N) :
  in64 (- Z.of_N x) → scan_int64 ("-" +:+ pretty x) = Some (- Z.of_N x, "").
Proof.
  intros Hx. unfold scan_int64.
  replace (scan_sign ("-" +:+ pretty x)) with (true, pretty x) by done.
  destruct (pretty_N_head x) as (d & s' & Hd & E).
  rewrite E, starts_with_digit_char by done.
  rewrite <-E, scan_digits_pretty. by rewrite decide_True.
Qed.

Lemma scan_int64_pretty (z : Z) : in64 z → scan_int64 (pretty z) = Some (z, "").
Proof.
  intros Hz. destruct z as [|p|p]; [done|..].
  - apply (scan_int64_pretty_N (N.pos p)); done.
  - apply (scan_int64_pretty_neg (N.pos p)); done.
Qed.

Lemma ParseInt_pretty (z : Z) : in64 z → ParseInt (pretty z) = Some z.
Proof. intros Hz. unfold ParseInt. by rewrite scan_int64_pretty. Qed.

Lemma skip_space_pretty (z : Z) : skip_space (pretty z) = pretty z.
Proof.
  destruct z as [|p|p]; [done| |done].
  destruct (pretty_N_head (N.pos p)) as (d & s' & Hd & E).
  change (pretty (Z.pos p)) with (pretty (N.pos p)). rewrite E. simpl.
  destruct (pretty_char_no_sign d) as (_ & _ & ->); done.
Qed.

Lemma Sscanf_d_pretty (z : Z) : in64 z → Sscanf_d (pretty z) = Some z.
Proof.
  intros Hz. unfold Sscanf_d. by rewrite skip_space_pretty, scan_int64_pretty.
Qed.

Lemma pretty_Z_ne_empty (z : Z) : pretty z ≠ "".
Proof.
  destruct z as [|p|p]; [done| |done].
  destruct (pretty_N_head (N.pos p)) as (d & s' & Hd & E).
  change (pretty (Z.pos p)) with (pretty (N.pos p)). by rewrite E.
Qed.

Lemma scan_int64_in64 s z rest : scan_int64 s = Some (z, rest) → in64 z.
Proof.
  unfold scan_int64. destruct (scan_sign s) as [neg s1]. destruct (starts_with_digit s1); [|done].
  destruct (scan_digits 0 s1) as [n r]. case_decide; [|done]. by intros [= <- _].
Qed.

Lemma ParseInt_in64 s z : ParseInt s = Some z → in64 z.
Proof.
  unfold ParseInt. destruct (scan_int64 s) as [[v [|c rest]]|] eqn:E; [|done..].
  intros [= <-]. by eapply scan_int64_in64.
Qed.

Lemma Sscanf_d_in64 s z : Sscanf_d s = Some z → in64 z.
Proof.
  unfold Sscanf_d. destruct (scan_int64 _) as [[v rest]|] eqn:E; [|done].
  intros [= <-]. by eapply scan_int64_in64.
Qed.

End decimal.

#[export] Hint Resolve pretty_Z_ne_empty : core.
