(* ===== verification/GoFloat.v ===== *)
(** * Go's float64 and time.Duration

    [float64] is IEEE-754 binary64: the executable [SpecFloat] of the standard
    library with 53 bits of precision, so no axiom about primitive floats is
    needed. A [time.Duration] is a number of nanoseconds in an [int64]; the
    program always turns it into whole seconds with [int64(d.Seconds())],
    which goes through a float. *)

From S2P Require Import Prelude.
From Stdlib Require Import SpecFloat.

Definition float64 : Type := spec_float.

(** [float64(z)] *)
Definition f_of_Z (z : Z) : float64 := binary_normalize 53 1024 z 0 false.

Definition f_add : float64 → float64 → float64 := SFadd 53 1024.

Definition f_mul : float64 → float64 → float64 := SFmul 53 1024.

Definition f_div : float64 → float64 → float64 := SFdiv 53 1024.

Definition f_ltb : float64 → float64 → bool := SFltb.

(** [int64(f)]: truncation; a value out of range or not a number converts to
    the smallest [int64], what amd64 and arm64 hardware differ on is only this
    case. *)
Definition f_trunc (f : float64) : Z :=
  match f with
  | S754_zero _ => 0
  | S754_finite s m e =>
      let v := if decide (0 <= e) then Z.pos m * 2 ^ e else Z.pos m / 2 ^ (- e) in
      let v := if s then - v else v in
      if decide (in64 v) then v else - two63
  | _ => - two63
  end.

Definition Second : Z := 1000000000.

(** [func (d Duration) Seconds() float64] *)
Definition Duration_Seconds (d : Z) : float64 :=
  f_add (f_of_Z (Z.quot d Second)) (f_div (f_of_Z (Z.rem d Second)) (f_of_Z Second)).

(** [int64(d.Seconds())] *)
Definition secs (d : Z) : Z := f_trunc (Duration_Seconds d).

Section exact.

Lemma digits2_iter_xO (p n : positive) :
  digits2_pos (Pos.iter xO p n) = (digits2_pos p + n)%positive.
Proof.
  induction n as [|n IH] using Pos.peano_ind; simpl; [lia|].
  rewrite Pos.iter_succ. simpl. lia.
Qed.

Lemma Zpos_iter_xO (p n : positive) :
  Z.pos (Pos.iter xO p n) = Z.pos p * 2 ^ Z.pos n.
Proof.
  induction n as [|n IH] using Pos.peano_ind; simpl; [lia|].
  rewrite Pos.iter_succ, Pos2Z.inj_xO, IH, Pos2Z.inj_succ, Z.pow_succ_r by lia.
  lia.
Qed.

Lemma digits2_pos_lt (p : positive) : Z.pos p < 2 ^ Z.pos (digits2_pos p).
Proof.
  induction p as [p IH|p IH|]; simpl; [..|done];
    rewrite Pos2Z.inj_succ, Z.pow_succ_r by lia; lia.
Qed.

Lemma digits2_pos_ge (p : positive) : 2 ^ (Z.pos (digits2_pos p) - 1) <= Z.pos p.
Proof.
  induction p as [p IH|p IH|]; simpl; [..|done];
    rewrite Pos2Z.inj_succ;
    replace (Z.succ (Z.pos (digits2_pos p)) - 1)
      with (Z.succ (Z.pos (digits2_pos p) - 1)) by lia;
    rewrite Z.pow_succ_r by lia; lia.
Qed.

Lemma digits2_pos_bound (p : positive) k :
  0 <= k → Z.pos p < 2 ^ k → Z.pos (digits2_pos p) <= k.
Proof.
  intros Hk Hp. pose proof (digits2_pos_ge p) as H.
  destruct (Z.le_gt_cases (Z.pos (digits2_pos p)) k); [done|].
  assert (2 ^ k <= 2 ^ (Z.pos (digits2_pos p) - 1))
    by (apply Z.pow_le_mono_r; lia). lia.
Qed.

(** A mantissa of exactly 53 digits is not rounded. *)
Lemma round_aux_exact (m : positive) e :
  Z.pos (digits2_pos m) = 53 → -1074 <= e <= 971 →
  binary_round_aux 53 1024 false (Z.pos m) e loc_Exact = S754_finite false m e.
Proof.
  intros Hm He. unfold binary_round_aux, shr_fexp, fexp, emin. simpl Zdigits2.
  rewrite Hm. replace (Z.max (53 + e - 53) (3 - 1024 - 53) - e) with 0 by lia.
  simpl. rewrite Hm.
  replace (Z.max (53 + e - 53) (3 - 1024 - 53) - e) with 0 by lia. simpl.
  destruct (Z.leb_spec e (1024 - 53)); [done|lia].
Qed.

Lemma f_of_Z_pos (p : positive) :
  Z.pos p < 2 ^ 53 → ∃ m e, f_of_Z (Z.pos p) = S754_finite false m e ∧
    -53 <= e <= 0 ∧ Z.pos m = Z.pos p * 2 ^ (- e).
Proof.
  intros Hp. pose proof (digits2_pos_bound p 53 ltac:(lia) Hp) as Hd.
  unfold f_of_Z, binary_normalize, binary_round, fexp, emin.
  set (d := Z.pos (digits2_pos p)) in *.
  replace (Z.max (d + 0 - 53) (3 - 1024 - 53)) with (d - 53) by lia.
  unfold shl_align. replace (d - 53 - 0) with (d - 53) by lia.
  destruct (d - 53) as [|q|q] eqn:E; [|lia|].
  - rewrite round_aux_exact by lia. exists p, 0. split_and!; [done|lia..].
  - rewrite round_aux_exact; [|rewrite digits2_iter_xO; lia|lia].
    exists (Pos.iter xO p q), (Z.neg q). split_and!; [done|lia..|].
    by rewrite Zpos_iter_xO.
Qed.

Lemma f_trunc_of_Z z : 0 <= z < 2 ^ 53 → f_trunc (f_of_Z z) = z.
Proof.
  intros Hz. destruct z as [|p|p]; [done| |lia].
  destruct (f_of_Z_pos p) as (m & e & -> & He & Hm); [lia|].
  assert (in64 (Z.pos p)) by (unfold in64, two63; lia).
  simpl. destruct (decide (0 <= e)).
  - assert (e = 0) as -> by lia. rewrite Hm.
    replace (Z.pos p * 2 ^ (- 0) * 2 ^ 0) with (Z.pos p) by lia.
    by rewrite decide_True.
  - rewrite Hm, Z.div_mul by (apply Z.pow_nonzero; lia). by rewrite decide_True.
Qed.

Lemma f_add_zero_r z : 0 <= z < 2 ^ 53 → f_add (f_of_Z z) (S754_zero false) = f_of_Z z.
Proof.
  intros Hz. destruct z as [|p|p]; [done| |lia].
  by destruct (f_of_Z_pos p) as (m & e & -> & _); [lia|].
Qed.

(** Durations of a whole number of seconds convert exactly. *)
Lemma secs_whole k : 0 <= k < 2 ^ 53 → secs (k * Second) = k.
Proof.
  intros Hk. unfold secs, Duration_Seconds.
  rewrite Z.quot_mul, Z.rem_mul by done.
  change (f_div (f_of_Z 0) (f_of_Z Second)) with (S754_zero false).
  rewrite f_add_zero_r by done. by apply f_trunc_of_Z.
Qed.

End exact.
