(* ===== verification/GoTime.v ===== *)
(** * The part of Go's [time.Parse] that the program uses

    A layout is a list of chunks, as [nextStdChunk] splits it; the parser
    reads the chunks from left to right. Only whole seconds are kept: the
    program always takes [Unix()] of the result, which drops the fraction. *)

From S2P Require Import Prelude GoStrings.
From Stdlib Require Import Ascii.

Inductive chunk :=
  | CLit (s : string)
  | CYear (* 2006 *)
  | CMonth (* 01 *)
  | CDay (* 02 *)
  | CHour (* 15 *)
  | CMinute (* 04 *)
  | CSecond (* 05 *)
  | CZoneZ (* Z07:00 *)
  | CZone. (* -07:00 *)

Record civil := mkCivil {
  c_year : Z;
  c_month : Z;
  c_day : Z;
  c_hour : Z;
  c_min : Z;
  c_sec : Z;
  c_offset : Z }.

(** ** The calendar *)

Definition isLeap (y : Z) : bool :=
  (y mod 4 =? 0) && (negb (y mod 100 =? 0) || (y mod 400 =? 0)).

(** Days before the first of each month in a year that is not leap. *)
Definition daysBefore (m : Z) : Z :=
  default 0 ([0; 31; 59; 90; 120; 151; 181; 212; 243; 273; 304; 334; 365] !! Z.to_nat m).

Definition daysIn (m y : Z) : Z :=
  if decide (m = 2) then (if isLeap y then 29 else 28)
  else daysBefore m - daysBefore (m - 1).

(** Leap days in the years 1 to [y]. *)
Definition leap_days (y : Z) : Z := y / 4 - y / 100 + y / 400.

(** Days since 1970-01-01. *)
Definition day_number (y m d : Z) : Z :=
  365 * (y - 1970) + leap_days (y - 1) - leap_days 1969 + daysBefore (m - 1)
  + (if isLeap y && (3 <=? m) then 1 else 0) + (d - 1).

(** [Date(...).Unix()], less the zone offset. *)
Definition civil_unix (c : civil) : Z :=
  day_number (c_year c) (c_month c) (c_day c) * 86400
  + c_hour c * 3600 + c_min c * 60 + c_sec c - c_offset c.

(** ** The parser *)

Definition cutspace : string → string :=
  fix go s := match s with String " " s' => go s' | _ => s end.

(** [skip(value, prefix)]; a run of blanks in the prefix, which no layout has,
    counts as one. *)
Fixpoint skip (value prefix : string) : option string :=
  match prefix with
  | EmptyString => Some value
  | String " " p =>
      match value with
      | String " " _ | EmptyString => skip (cutspace value) p
      | _ => None
      end
  | String c p =>
      match value with
      | String c' v => if decide (c' = c) then skip v p else None
      | EmptyString => None
      end
  end.

(** [getnum(s, fixed)] *)
Definition getnum (s : string) (fixed : bool) : option (Z * string) :=
  match s with
  | String a s1 =>
      x ← digit_val a;
      match s1 with
      | String b s2 =>
          match digit_val b with
          | Some y => Some (x * 10 + y, s2)
          | None => if fixed then None else Some (x, s1)
          end
      | EmptyString => if fixed then None else Some (x, s1)
      end
  | EmptyString => None
  end.

(** Four digits. *)
Definition get_year (s : string) : option (Z * string) :=
  ab ← getnum s true;
  cd ← getnum ab.2 true;
  Some (ab.1 * 100 + cd.1, cd.2).

Fixpoint drop_digits (s : string) : string :=
  match s with
  | String c s' => match digit_val c with Some _ => drop_digits s' | None => s end
  | EmptyString => s
  end.

(** A fraction after the seconds, although the layout has none. *)
Definition drop_fraction (s : string) : string :=
  match s with
  | String c s' =>
      if bool_decide (c = "."%char ∨ c = ","%char) && starts_with_digit s' then drop_digits s' else s
  | EmptyString => s
  end.

(** [+hh:mm] or [-hh:mm] *)
Definition get_offset (s : string) : option (Z * string) :=
  match s with
  | String sign s =>
      h ← getnum s true;
      s ← skip h.2 ":";
      m ← getnum s true;
      if decide (h.1 > 24 ∨ m.1 > 60) then None
      else
        let off := (h.1 * 60 + m.1) * 60 in
        if decide (sign = "+"%char) then Some (off, m.2)
        else if decide (sign = "-"%char) then Some (- off, m.2)
        else None
  | EmptyString => None
  end.

Definition get_zone (s : string) : option (Z * string) :=
  match s with String "Z" s => Some (0, s) | _ => get_offset s end.

Definition in_range (lo hi : Z) (r : Z * string) : option (Z * string) :=
  if decide (lo <= r.1 <= hi) then Some r else None.

(** What one chunk reads. *)
Definition parse_chunk (ch : chunk) (s : string) (c : civil) : option (string * civil) :=
  let '(mkCivil y mo d h mi sec off) := c in
  match ch with
  | CLit p => s' ← skip s p; Some (s', c)
  | CYear => r ← get_year s; Some (r.2, mkCivil r.1 mo d h mi sec off)
  | CMonth => r ← getnum s true; r ← in_range 1 12 r; Some (r.2, mkCivil y r.1 d h mi sec off)
  | CDay => r ← getnum s true; Some (r.2, mkCivil y mo r.1 h mi sec off)
  | CHour => r ← getnum s false; r ← in_range 0 23 r; Some (r.2, mkCivil y mo d r.1 mi sec off)
  | CMinute => r ← getnum s true; r ← in_range 0 59 r; Some (r.2, mkCivil y mo d h r.1 sec off)
  | CSecond =>
      r ← getnum s true; r ← in_range 0 59 r;
      Some (drop_fraction r.2, mkCivil y mo d h mi r.1 off)
  | CZoneZ => r ← get_zone s; Some (r.2, mkCivil y mo d h mi sec r.1)
  | CZone => r ← get_offset s; Some (r.2, mkCivil y mo d h mi sec r.1)
  end.

Fixpoint parse_chunks (layout : list chunk) (s : string) (c : civil) : option civil :=
  match layout with
  | [] => if decide (s = "") then Some c else None
  | ch :: layout => r ← parse_chunk ch s c; parse_chunks layout r.1 r.2
  end.

(** [time.Parse(layout, value)] followed by [Unix()]; [None] for an error. *)
Definition time_Parse (layout : list chunk) (value : string) : option Z :=
  c ← parse_chunks layout value (mkCivil 0 1 1 0 0 0 0);
  if decide (1 <= c_day c <= daysIn (c_month c) (c_year c)) then Some (civil_unix c) else None.

Definition date_time (sep : string) : list chunk :=
  [CYear; CLit "-"; CMonth; CLit "-"; CDay; CLit sep; CHour; CLit ":"; CMinute; CLit ":"; CSecond].

(** [time.RFC3339] is [2006-01-02T15:04:05Z07:00]. *)
Definition RFC3339 : list chunk := date_time "T" ++ [CZoneZ].

(** ** Facts *)

Section calendar.

(** The day after, as a calendar shows it. *)
Definition next_day (y m d : Z) : Z * Z * Z :=
  if decide (d < daysIn m y) then (y, m, d + 1)
  else if decide (m < 12) then (y, m + 1, 1)
  else (y + 1, 1, 1).

Lemma leap_days_step y : leap_days y = leap_days (y - 1) + (if isLeap y then 1 else 0).
Proof.
  unfold leap_days, isLeap. destruct (Z.eqb_spec (y mod 4) 0), (Z.eqb_spec (y mod 100) 0),
    (Z.eqb_spec (y mod 400) 0); simpl; Z.to_euclidean_division_equations; lia.
Qed.

Lemma month_cases m (P : Z → Prop) :
  P 1 → P 2 → P 3 → P 4 → P 5 → P 6 → P 7 → P 8 → P 9 → P 10 → P 11 → P 12 → 1 <= m <= 12 → P m.
Proof.
  intros. assert (m = 1 ∨ m = 2 ∨ m = 3 ∨ m = 4 ∨ m = 5 ∨ m = 6 ∨ m = 7 ∨ m = 8 ∨ m = 9 ∨ m = 10
    ∨ m = 11 ∨ m = 12) as Hm by lia. by destruct_or! Hm; subst.
Qed.

Lemma day_number_month y m :
  1 <= m <= 12 → day_number y (m + 1) 1 = day_number y m (daysIn m y) + 1.
Proof.
  intros Hm. unfold day_number. pattern m. apply month_cases; [..|done];
    unfold daysIn; simpl; destruct (isLeap y); unfold daysBefore; simpl; lia.
Qed.

Lemma day_number_year y : day_number (y + 1) 1 1 = day_number y 13 1.
Proof.
  unfold day_number. replace (y + 1 - 1) with y by lia. rewrite (leap_days_step y).
  rewrite !andb_false_r, andb_true_r. change (daysBefore (1 - 1)) with 0.
  change (daysBefore (13 - 1)) with 365. lia.
Qed.

(** [day_number] counts the days of the calendar. *)
Lemma day_number_next y m d :
  1 <= m <= 12 → 1 <= d <= daysIn m y →
  let '(y', m', d') := next_day y m d in day_number y' m' d' = day_number y m d + 1.
Proof.
  intros Hm Hd. unfold next_day. destruct (decide (d < daysIn m y)).
  - unfold day_number. lia.
  - assert (d = daysIn m y) as -> by lia. rewrite <-day_number_month by done.
    destruct (decide (m < 12)); [done|]. assert (m = 12) as -> by lia. apply day_number_year.
Qed.

End calendar.

(** ** Printing *)

Definition digit (n : Z) : ascii := ascii_of_nat (Z.to_nat (48 + n)).

Definition two_digits (n : Z) (s : string) : string :=
  String (digit (n / 10)) (String (digit (n mod 10)) s).

(** A zone of whole minutes, as [Z07:00] prints it. *)
Definition print_zone (off : Z) : string :=
  if decide (off = 0) then "Z"
  else let a := Z.abs off / 60 in
    String (if decide (0 < off) then "+" else "-")
      (two_digits (a / 60) (String ":" (two_digits (a mod 60) ""))).

Definition print_civil (c : civil) : string :=
  two_digits (c_year c / 100) (two_digits (c_year c mod 100) (String "-"
    (two_digits (c_month c) (String "-" (two_digits (c_day c) (String "T"
      (two_digits (c_hour c) (String ":" (two_digits (c_min c) (String ":"
        (two_digits (c_sec c) (print_zone (c_offset c))))))))))))).

(** A date of the calendar and a time of the day, in a zone of whole minutes. *)
Definition civil_ok (c : civil) : Prop :=
  0 <= c_year c <= 9999 ∧ 1 <= c_month c <= 12 ∧ 1 <= c_day c <= daysIn (c_month c) (c_year c) ∧
  0 <= c_hour c <= 23 ∧ 0 <= c_min c <= 59 ∧ 0 <= c_sec c <= 59 ∧
  c_offset c mod 60 = 0 ∧ - 86400 <= c_offset c <= 86400.

Section printing.

#[local] Arguments two_digits : simpl never.
#[local] Arguments getnum : simpl never.
#[local] Arguments get_year : simpl never.
#[local] Arguments get_zone : simpl never.
#[local] Arguments in_range : simpl never.

Lemma digit_val_digit n : 0 <= n < 10 → digit_val (digit n) = Some n.
Proof.
  intros Hn. assert (n = 0 ∨ n = 1 ∨ n = 2 ∨ n = 3 ∨ n = 4 ∨ n = 5 ∨ n = 6 ∨ n = 7 ∨ n = 8 ∨ n = 9)
    as Hc by lia. by destruct_or! Hc; subst.
Qed.

Lemma two_digits_bound n : 0 <= n < 100 → 0 <= n / 10 < 10 ∧ 0 <= n mod 10 < 10.
Proof. intros ?. Z.to_euclidean_division_equations; lia. Qed.

Lemma getnum_two_digits n s fixed : 0 <= n < 100 → getnum (two_digits n s) fixed = Some (n, s).
Proof.
  intros Hn. destruct (two_digits_bound n Hn). unfold getnum, two_digits. simpl.
  rewrite !digit_val_digit by done. simpl.
  do 2 f_equal. pose proof (Z.div_mod n 10). lia.
Qed.

Lemma get_year_two_digits y s :
  0 <= y <= 9999 → get_year (two_digits (y / 100) (two_digits (y mod 100) s)) = Some (y, s).
Proof.
  intros Hy. unfold get_year.
  assert (0 <= y / 100 < 100 ∧ 0 <= y mod 100 < 100) as [? ?]
    by (Z.to_euclidean_division_equations; lia).
  rewrite getnum_two_digits by done. simpl.
  rewrite getnum_two_digits by done. simpl. do 2 f_equal. pose proof (Z.div_mod y 100). lia.
Qed.

Lemma get_offset_print sign off s :
  0 <= off <= 86400 → off mod 60 = 0 → sign = "+"%char ∨ sign = "-"%char →
  get_offset (String sign (two_digits (off / 60 / 60) (String ":" (two_digits (off / 60 mod 60) s))))
    = Some (if decide (sign = "+"%char) then off else - off, s).
Proof.
  intros Hoff Hmod Hsign. unfold get_offset.
  assert (0 <= off / 60 / 60 <= 24 ∧ 0 <= off / 60 mod 60 < 60) as [? ?]
    by (Z.to_euclidean_division_equations; lia).
  rewrite getnum_two_digits by lia. simpl. rewrite getnum_two_digits by lia. simpl. rewrite decide_False by lia.
  replace ((off / 60 / 60 * 60 + off / 60 mod 60) * 60) with off
    by (Z.to_euclidean_division_equations; lia).
  by destruct Hsign as [->| ->].
Qed.

Lemma get_zone_print off :
  - 86400 <= off <= 86400 → off mod 60 = 0 → get_zone (print_zone off) = Some (off, "").
Proof.
  intros Hoff Hmod. unfold print_zone. case_decide; [by subst|].
  assert (Z.abs off mod 60 = 0) by (Z.to_euclidean_division_equations; lia).
  destruct (decide (0 < off)).
  - rewrite Z.abs_eq in * by lia. unfold get_zone. rewrite get_offset_print by (lia || auto). done.
  - rewrite Z.abs_neq in * by lia. unfold get_zone. rewrite get_offset_print by (lia || auto).
    simpl. do 2 f_equal. lia.
Qed.

(** The zone starts with none of the characters of a fraction. *)
Lemma drop_fraction_zone off : drop_fraction (print_zone off) = print_zone off.
Proof. unfold print_zone. repeat case_decide; done. Qed.

(** Reading a number of two digits and checking its range. *)
Lemma in_range_ok lo hi n s : lo <= n <= hi → in_range lo hi (n, s) = Some (n, s).
Proof. intros ?. unfold in_range. by rewrite decide_True. Qed.

Lemma daysIn_le m y : 1 <= m <= 12 → daysIn m y <= 31.
Proof.
  intros Hm. pattern m. apply month_cases; [..|done]; unfold daysIn; simpl; destruct (isLeap y); done.
Qed.

(** [time.Parse] reads back what it prints. *)
Lemma time_Parse_print c : civil_ok c → time_Parse RFC3339 (print_civil c) = Some (civil_unix c).
Proof.
  intros (Hy & Hmo & Hd & Hh & Hmi & Hs & Hz & Hz').
  pose proof (daysIn_le (c_month c) (c_year c) Hmo).
  assert (parse_chunks RFC3339 (print_civil c) (mkCivil 0 1 1 0 0 0 0) = Some c) as E.
  { unfold print_civil. destruct c as [y mo d h mi sec off]. simpl in *.
    rewrite get_year_two_digits by lia. simpl.
    repeat (rewrite getnum_two_digits by lia; simpl; rewrite ?in_range_ok by lia; simpl).
    by rewrite drop_fraction_zone, get_zone_print. }
  unfold time_Parse. rewrite E. simpl. by rewrite decide_True.
Qed.

End printing.

(** ** Times fit an [int64] *)

Section range.

(** What the chunks leave in the fields. *)
Definition civil_range (c : civil) : Prop :=
  0 <= c_year c <= 9999 ∧ 1 <= c_month c <= 12 ∧ 0 <= c_day c <= 99 ∧ 0 <= c_hour c <= 99 ∧
  0 <= c_min c <= 99 ∧ 0 <= c_sec c <= 99 ∧ -100000 <= c_offset c <= 100000.

Lemma digit_val_range a x : digit_val a = Some x → 0 <= x <= 9.
Proof. unfold digit_val. case_decide; [|done]. intros [= <-]. lia. Qed.

Lemma getnum_range s fixed v t : getnum s fixed = Some (v, t) → 0 <= v <= 99.
Proof.
  unfold getnum. destruct s as [|a s]; [done|].
  destruct (digit_val a) as [x|] eqn:Ea; [|done]. apply digit_val_range in Ea. simpl.
  destruct s as [|b s]; [|destruct (digit_val b) as [y|] eqn:Eb].
  - destruct fixed; [done|]. intros [= <- _]. lia.
  - apply digit_val_range in Eb. intros [= <- _]. lia.
  - destruct fixed; [done|]. intros [= <- _]. lia.
Qed.

Lemma get_year_range s v t : get_year s = Some (v, t) → 0 <= v <= 9999.
Proof.
  unfold get_year. destruct (getnum s true) as [[a s1]|] eqn:E1; [|done]. simpl.
  destruct (getnum s1 true) as [[b s2]|] eqn:E2; [|done]. simpl. intros [= <- _].
  apply getnum_range in E1, E2. lia.
Qed.

Lemma get_offset_range s v t : get_offset s = Some (v, t) → -100000 <= v <= 100000.
Proof.
  unfold get_offset. destruct s as [|sign s]; [done|].
  destruct (getnum s true) as [[h s1]|] eqn:E1; [|done]. simpl. destruct s1 as [|c s1]; [done|].
  destruct (decide (c = ":"%char)); [|done]. simpl. destruct (getnum s1 true) as [[m s2]|] eqn:E2; [|done]. simpl.
  apply getnum_range in E1, E2. repeat case_decide; try done; intros [= <- _]; lia.
Qed.

Lemma get_zone_range s v t : get_zone s = Some (v, t) → -100000 <= v <= 100000.
Proof.
  unfold get_zone. destruct s as [|c s]; [done|].
  destruct (decide (c = "Z"%char)) as [->|Hc]; [intros [= <- _]; lia|].
  assert (get_zone (String c s) = get_offset (String c s)) as E
    by (destruct c as [[] [] [] [] [] [] [] []]; try done; by destruct Hc).
  unfold get_zone in E. rewrite E. apply get_offset_range.
Qed.

Lemma in_range_range lo hi r v t : in_range lo hi r = Some (v, t) → r = (v, t) ∧ lo <= v <= hi.
Proof. unfold in_range. case_decide; [|done]. by intros [= ->]. Qed.

Lemma parse_chunk_range ch s c s' c' :
  parse_chunk ch s c = Some (s', c') → civil_range c → civil_range c'.
Proof.
  unfold civil_range. destruct c as [y mo d h mi sec off]. intros E Hc. simpl in Hc.
  destruct ch; simpl in E; simplify_option_eq; repeat match goal with
    | H : getnum _ _ = Some ?r |- _ => destruct r; apply getnum_range in H
    | H : get_year _ = Some ?r |- _ => destruct r; apply get_year_range in H
    | H : get_zone _ = Some ?r |- _ => destruct r; apply get_zone_range in H
    | H : get_offset _ = Some ?r |- _ => destruct r; apply get_offset_range in H
    | H : in_range _ _ _ = Some ?r |- _ => destruct r; apply in_range_range in H as [[= -> ->] ?]
    end; simpl in *; lia.
Qed.

Lemma parse_chunks_range layout s c c' :
  parse_chunks layout s c = Some c' → civil_range c → civil_range c'.
Proof.
  revert s c. induction layout as [|ch layout IH]; intros s c E Hc; simpl in E.
  - case_decide; [|done]. by injection E as <-.
  - destruct (parse_chunk ch s c) as [[s1 c1]|] eqn:E1; [|done]. simpl in E.
    eapply IH; [exact E|]. by eapply parse_chunk_range.
Qed.

Lemma daysBefore_range m : 1 <= m <= 12 → 0 <= daysBefore (m - 1) <= 365.
Proof. intros Hm. pattern m. apply month_cases; [..|done]; unfold daysBefore; simpl; lia. Qed.

Lemma time_Parse_in64 layout s t : time_Parse layout s = Some t → in64 t.
Proof.
  unfold time_Parse. destruct (parse_chunks _ _ _) as [c|] eqn:E; [|done]. simpl.
  apply parse_chunks_range in E; [|unfold civil_range; simpl; lia].
  destruct E as (Hy & Hm & Hd & Hh & Hmi & Hs & Ho). case_decide; [|done]. intros [= <-].
  unfold civil_unix, day_number. pose proof (daysBefore_range _ Hm).
  assert (-10000 <= leap_days (c_year c - 1) - leap_days 1969 <= 10000)
    by (unfold leap_days; Z.to_euclidean_division_equations; lia).
  unfold in64, two63. destruct (isLeap _ && _); lia.
Qed.

End range.
