(* ===== verification/GoDuration.v ===== *)
(** * [time.ParseDuration]

    Durations in environment variables and flags: a sequence of decimal
    numbers, each with an optional fraction and a unit. The result is an
    [int64] of nanoseconds; sums are formed in a [uint64] with explicit
    overflow checks, and a fraction goes through a [float64]. *)

From S2P Require Import Prelude GoStrings GoFloat.
From Stdlib Require Import Ascii.

(** [1 << 63], the magnitude of the smallest [int64]. *)
Definition max_magnitude : Z := two63.

(** [leadingInt]: its overflow checks fail exactly when the whole number is
    above [1 << 63]. *)
Definition leadingInt (s : string) : option (Z * string) :=
  let (x, rem) := scan_digits 0 s in
  if decide (x <= max_magnitude) then Some (x, rem) else None.

(** [leadingFraction]: digits beyond the precision are read and dropped. *)
Fixpoint leadingFraction (x : Z) (scale : float64) (overflow : bool) (s : string)
    : Z * float64 * string :=
  match s with
  | EmptyString => (x, scale, EmptyString)
  | String c s' =>
      match digit_val c with
      | None => (x, scale, s)
      | Some d =>
          let y := x * 10 + d in
          if overflow || bool_decide (x > (two63 - 1) `quot` 10) || bool_decide (y > max_magnitude)
          then leadingFraction x scale true s'
          else leadingFraction y (f_mul scale (f_of_Z 10)) false s'
      end
  end.

(** The unit: everything up to the next digit or period. *)
Fixpoint leadingUnit (s : string) : string * string :=
  match s with
  | EmptyString => (EmptyString, EmptyString)
  | String c s' =>
      if bool_decide (c = "."%char) || bool_decide (is_Some (digit_val c)) then (EmptyString, s)
      else let (u, rem) := leadingUnit s' in (String c u, rem)
  end.

(** The two ways to write a micro sign, in UTF-8. *)
Definition micro_sign : string := String (ascii_of_nat 194) (String (ascii_of_nat 181) EmptyString).
Definition greek_mu : string := String (ascii_of_nat 206) (String (ascii_of_nat 188) EmptyString).

Definition unitMap : list (string * Z) :=
  [("ns", 1); ("us", 1000); (micro_sign +:+ "s", 1000); (greek_mu +:+ "s", 1000);
   ("ms", 1000000); ("s", Second); ("m", 60 * Second); ("h", 3600 * Second)].

Fixpoint unit_value (u : string) (l : list (string * Z)) : option Z :=
  match l with
  | [] => None
  | (k, v) :: l => if decide (u = k) then Some v else unit_value u l
  end.

(** The fraction after a period: its digits, its scale and whether there were
    any. *)
Definition scan_fraction (s : string) : Z * float64 * string * bool :=
  match s with
  | String "." s' =>
      let '(f, scale, rem) := leadingFraction 0 (f_of_Z 1) false s' in
      (f, scale, rem, starts_with_digit s')
  | _ => (0, f_of_Z 1, s, false)
  end.

(** One round of the loop: a number with its unit. *)
Definition parse_piece (s : string) : option (Z * string) :=
  '(v, s1) ← leadingInt s;
  let '(f, scale, s2, post) := scan_fraction s1 in
  if starts_with_digit s || post then
    let (u, rem) := leadingUnit s2 in
    unit ← unit_value u unitMap;
    if decide (v > max_magnitude `quot` unit) then None
    else
      let v := v * unit in
      let v := if decide (f > 0) then v + f_trunc (f_mul (f_of_Z f) (f_div (f_of_Z unit) scale)) else v in
      if decide (v > max_magnitude) then None else Some (v, rem)
  else None.

(** The loop, with the length of the text as fuel: a round takes at least the
    unit. *)
Fixpoint parse_pieces (fuel : nat) (d : Z) (s : string) : option Z :=
  match s with
  | EmptyString => Some d
  | String _ _ =>
      match fuel with
      | O => None
      | S fuel =>
          '(v, rem) ← parse_piece s;
          if decide (d + v > max_magnitude) then None else parse_pieces fuel (d + v) rem
      end
  end.

Definition ParseDuration (s : string) : option Z :=
  let (neg, s) := scan_sign s in
  if decide (s = "0") then Some 0
  else if decide (s = "") then None
  else
    d ← parse_pieces (String.length s) 0 s;
    if neg then Some (- d) else if decide (d > two63 - 1) then None else Some d.

(** ** Properties *)

(** A round takes something away, so the fuel is enough. *)
Lemma scan_digits_length acc s : (String.length (scan_digits acc s).2 <= String.length s)%nat.
Proof.
  revert acc. induction s as [|c s IH]; intros acc; [done|]. simpl.
  destruct (digit_val c); simpl; [|done]. specialize (IH (acc * 10 + z)). lia.
Qed.

Lemma leadingFraction_length x f o s : (String.length (leadingFraction x f o s).2 <= String.length s)%nat.
Proof.
  revert x f o. induction s as [|c s IH]; intros x f o; [done|]. simpl.
  destruct (digit_val c); simpl; [|done].
  case_match; etrans; try apply IH; simpl; lia.
Qed.

Lemma leadingUnit_length s :
  (String.length (leadingUnit s).1 + String.length (leadingUnit s).2 = String.length s)%nat.
Proof.
  induction s as [|c s IH]; [done|]. simpl. case_match; [done|].
  destruct (leadingUnit s) as [u rem]. simpl in *. lia.
Qed.

Lemma unit_value_nonempty u v : unit_value u unitMap = Some v → u ≠ "" ∧ 0 < v.
Proof.
  intros E. cbn in E. repeat (case_decide; [subst; simplify_eq; split; [done|unfold Second; lia]|]). done.
Qed.

Lemma scan_fraction_length s : (String.length (scan_fraction s).1.2 <= String.length s)%nat.
Proof.
  destruct s as [|c s]; [done|]. unfold scan_fraction.
  destruct c as [[] [] [] [] [] [] [] []]; try done.
  pose proof (leadingFraction_length 0 (f_of_Z 1) false s) as Hl.
  destruct (leadingFraction _ _ _ s) as [[f sc] rem]. simpl in *. lia.
Qed.

Lemma parse_piece_length s v rem : parse_piece s = Some (v, rem) → (String.length rem < String.length s)%nat.
Proof.
  unfold parse_piece, leadingInt. intros E. pose proof (scan_digits_length 0 s) as H1.
  destruct (scan_digits 0 s) as [x s1]. simpl in H1. case_decide; [|done]. cbn [mbind option_bind] in E.
  pose proof (scan_fraction_length s1) as H2.
  destruct (scan_fraction s1) as [[[f sc] s2] post]. simpl in H2. case_match; [|done].
  pose proof (leadingUnit_length s2) as H3. destruct (leadingUnit s2) as [u rem']. simpl in H3.
  destruct (unit_value u unitMap) as [k|] eqn:Eu; [|done]. apply unit_value_nonempty in Eu as [Hu _].
  cbn [mbind option_bind] in E. repeat case_decide; simplify_eq; destruct u; try done; simpl in *; lia.
Qed.

(** More fuel than the length of the text changes nothing. *)
Lemma parse_pieces_fuel fuel d s :
  (String.length s <= fuel)%nat → parse_pieces fuel d s = parse_pieces (String.length s) d s.
Proof.
  revert d s. induction fuel as [fuel IH] using lt_wf_ind; intros d s Hs.
  destruct s as [|c s]; [by destruct fuel|]. destruct fuel as [|fuel]; [simpl in Hs; lia|].
  change (String.length (String c s)) with (S (String.length s)). cbn [parse_pieces].
  destruct (parse_piece (String c s)) as [[v rem]|] eqn:E; [|done]. simpl.
  apply parse_piece_length in E. simpl in E, Hs. case_decide; [done|].
  rewrite (IH fuel) by lia. symmetry. apply (IH (String.length s)); lia.
Qed.

(** *** Numbers with their units *)

(** How a list of whole numbers with units is written, and what it means. *)
Fixpoint print_pieces (l : list (N * string)) : string :=
  match l with
  | [] => EmptyString
  | (n, u) :: l => pretty n +:+ u +:+ print_pieces l
  end.

Definition piece_value (p : N * string) : Z := Z.of_N p.1 * default 0 (unit_value p.2 unitMap).

Definition pieces_value (l : list (N * string)) : Z := foldr (λ p d, piece_value p + d) 0 l.

Definition known_unit (p : N * string) : Prop := is_Some (unit_value p.2 unitMap).

(** No unit begins with, or contains, a digit, a sign or a period. *)
Definition unit_char (c : ascii) : Prop := digit_val c = None ∧ c ≠ "."%char.

Fixpoint all_chars (P : ascii → Prop) (s : string) : Prop :=
  match s with EmptyString => True | String c s => P c ∧ all_chars P s end.

Lemma known_unit_chars u : is_Some (unit_value u unitMap) → all_chars unit_char u.
Proof.
  intros [v E]. cbn in E.
  repeat (case_decide; [subst; by repeat split|]). done.
Qed.

Lemma leadingUnit_app u s :
  all_chars unit_char u → (s = "" ∨ starts_with_digit s = true) → leadingUnit (u +:+ s) = (u, s).
Proof.
  intros Hu Hs. induction u as [|c u IH].
  - change (leadingUnit s = ("", s)). destruct s as [|c s]; [done|]. destruct Hs as [?|Hd]; [done|].
    simpl in Hd |- *. by rewrite Hd, orb_true_r.
  - destruct Hu as [[Hc Hp] Hu]. change (String c u +:+ s) with (String c (u +:+ s)). simpl.
    rewrite IH by done. rewrite bool_decide_false by done.
    rewrite bool_decide_false by (rewrite Hc; by intros [? ?]). done.
Qed.

Lemma scan_digits_app acc d s :
  all_chars (λ c, is_Some (digit_val c)) d → starts_with_digit s = false →
  scan_digits acc (d +:+ s) = ((scan_digits acc d).1, s).
Proof.
  intros Hd Hs. revert acc. induction d as [|c d IH]; intros acc.
  - change ((scan_digits acc s) = (acc, s)). destruct s as [|c s]; [done|]. simpl in Hs |- *.
    destruct (digit_val c); [|done]. by rewrite bool_decide_true in Hs.
  - destruct Hd as [[x Hx] Hd]. change (String c d +:+ s) with (String c (d +:+ s)).
    simpl. rewrite Hx. by apply IH.
Qed.

Lemma digits_of_pretty_go (x : N) s :
  all_chars (λ c, is_Some (digit_val c)) s → all_chars (λ c, is_Some (digit_val c)) (pretty_N_go x s).
Proof.
  revert s. induction (N.lt_wf_0 x) as [x _ IH]; intros s Hs.
  destruct (decide (x = 0%N)) as [->|Hx]; [by rewrite pretty_N_go_0|].
  rewrite pretty_N_go_step by lia. apply IH; [apply N.div_lt; lia|].
  split; [|done]. rewrite digit_val_pretty by (by apply N.mod_lt). by eexists.
Qed.

Lemma digits_of_pretty (x : N) : all_chars (λ c, is_Some (digit_val c)) (pretty x).
Proof.
  unfold pretty, pretty_N. case_decide; [by repeat split; eexists|by apply digits_of_pretty_go].
Qed.

(** What follows a number does not change how it begins. *)
Lemma pretty_app_head (x : N) s :
  ∃ d s', (d < 10)%N ∧ pretty x +:+ s = String (pretty_N_char d) s'.
Proof. destruct (pretty_N_head x) as (d & s' & Hd & ->). by exists d, (s' +:+ s). Qed.

Lemma print_pieces_head l : print_pieces l = "" ∨ starts_with_digit (print_pieces l) = true.
Proof.
  destruct l as [|[n u] l]; [by left|right]. simpl.
  destruct (pretty_app_head n (u +:+ print_pieces l)) as (d & s' & Hd & ->). by apply starts_with_digit_char.
Qed.

Lemma unit_no_digit u s :
  u ≠ "" → all_chars unit_char u →
  starts_with_digit (u +:+ s) = false ∧ scan_fraction (u +:+ s) = (0, f_of_Z 1, u +:+ s, false).
Proof.
  destruct u as [|c u]; [done|]. intros _ [[Hc Hp] _]. change (String c u +:+ s) with (String c (u +:+ s)).
  simpl. split; [by rewrite bool_decide_false by (rewrite Hc; by intros [? ?])|].
  destruct c as [[] [] [] [] [] [] [] []]; done.
Qed.

Lemma parse_piece_print (n : N) u l k :
  unit_value u unitMap = Some k → Z.of_N n * k <= max_magnitude →
  parse_piece (pretty n +:+ u +:+ print_pieces l) = Some (Z.of_N n * k, print_pieces l).
Proof.
  intros Eu Hk. pose proof (unit_value_nonempty _ _ Eu) as [Hne Hpos].
  assert (all_chars unit_char u) as Hu by (apply known_unit_chars; by exists k).
  destruct (unit_no_digit u (print_pieces l) Hne Hu) as [Hd Hf].
  unfold parse_piece, leadingInt.
  rewrite scan_digits_app by (done || apply digits_of_pretty). rewrite scan_digits_pretty. cbn [fst].
  rewrite decide_True by (unfold max_magnitude, two63 in *; nia). cbn [mbind option_bind].
  rewrite Hf. destruct (pretty_app_head n (u +:+ print_pieces l)) as (d & s' & Hd' & Ed). rewrite Ed.
  rewrite starts_with_digit_char by done. cbn [orb].
  rewrite leadingUnit_app by (done || apply print_pieces_head).
  rewrite Eu. cbn [mbind option_bind].
  rewrite decide_False.
  - rewrite (decide_False (P := 0 > 0)) by lia. by rewrite decide_False by lia.
  - intros Hgt. rewrite Z.quot_div_nonneg in Hgt by (unfold max_magnitude, two63; lia).
    assert (Z.of_N n <= max_magnitude / k) by (apply Z.div_le_lower_bound; lia). lia.
Qed.

Lemma pieces_value_nonneg l : Forall known_unit l → 0 <= pieces_value l.
Proof.
  induction 1 as [|[n u] l [k Hk] _ IH]; [done|]. cbn -[piece_value] in IH |- *. unfold piece_value at 1. simpl in *.
  rewrite Hk. apply unit_value_nonempty in Hk as [_ ?]. unfold pieces_value in IH. simpl. nia.
Qed.

Lemma parse_pieces_print fuel d l :
  (String.length (print_pieces l) <= fuel)%nat → Forall known_unit l → 0 <= d →
  d + pieces_value l <= max_magnitude →
  parse_pieces fuel d (print_pieces l) = Some (d + pieces_value l).
Proof.
  intros Hf Hl. revert fuel d Hf. induction Hl as [|[n u] l [k Hk] Hl IH]; intros fuel d Hf Hd Hle.
  - unfold pieces_value in *. simpl in *. rewrite Z.add_0_r. by destruct fuel.
  - simpl in Hk. pose proof (unit_value_nonempty _ _ Hk) as [_ Hpos].
    pose proof (pieces_value_nonneg l Hl) as Hnn.
    assert (pieces_value ((n, u) :: l) = Z.of_N n * k + pieces_value l) as Ev
      by (unfold pieces_value, piece_value; simpl; by rewrite Hk).
    pose proof (parse_piece_print n u l k Hk ltac:(nia)) as Ep.
    pose proof (parse_piece_length _ _ _ Ep) as Hlen. cbn [print_pieces] in Hf |- *.
    destruct (pretty_app_head n (u +:+ print_pieces l)) as (c & s' & _ & Es). rewrite Es in *.
    destruct fuel as [|fuel]; [simpl in Hf; lia|]. cbn [parse_pieces]. rewrite Ep. cbn [mbind option_bind].
    rewrite decide_False by nia. rewrite IH by (simpl in *; lia || nia). f_equal. lia.
Qed.

(** A duration is read as it is meant. A number, or several one after the
    other, each with its unit, parse to the sum of their nanoseconds, as long
    as that fits an [int64]. *)
Theorem parse_duration_value l :
  l ≠ [] → Forall known_unit l → pieces_value l < two63 →
  ParseDuration (print_pieces l) = Some (pieces_value l).
Proof.
  intros Hne Hl Hv. pose proof (pieces_value_nonneg l Hl) as Hnn. unfold ParseDuration.
  destruct l as [|[n u] l]; [done|].
  assert (scan_sign (print_pieces ((n, u) :: l)) = (false, print_pieces ((n, u) :: l))) as ->.
  { simpl. destruct (pretty_app_head n (u +:+ print_pieces l)) as (d & s' & Hd & ->). by apply scan_sign_digit. }
  pose proof (parse_pieces_print (String.length (print_pieces ((n, u) :: l))) 0 ((n, u) :: l) ltac:(done) Hl ltac:(lia)
    ltac:(unfold max_magnitude; lia)) as E. rewrite Z.add_0_l in E.
  case_decide as H0; [rewrite H0 in E; discriminate E|].
  case_decide as H1; [simpl in H1; destruct (pretty_app_head n (u +:+ print_pieces l)) as (d & s' & _ & E');
    rewrite E' in H1; discriminate H1|].
  rewrite E. cbn [mbind option_bind]. by rewrite decide_False by lia.
Qed.

Lemma parse_duration_value_witness :
  print_pieces [(1%N, "h"); (30%N, "m")] = "1h30m" ∧
  ParseDuration (print_pieces [(1%N, "h"); (30%N, "m")]) = Some (90 * 60 * Second).
Proof.
  split; [reflexivity|].
  apply (parse_duration_value [(1%N, "h"); (30%N, "m")]); [discriminate| |reflexivity].
  repeat constructor; eexists; reflexivity.
Defined.

(** A number without a unit is not a duration. *)
Lemma duration_needs_unit (n : N) : n ≠ 0%N → ParseDuration (pretty n) = None.
Proof.
  intros Hn. unfold ParseDuration.
  destruct (pretty_N_head n) as (d & s' & Hd & E). rewrite E, scan_sign_digit by done. rewrite <-E.
  rewrite decide_False.
  2:{ intros E0. pose proof (scan_digits_pretty n) as Es. rewrite E0 in Es. change (scan_digits 0 "0") with (0, "") in Es.
    injection Es as Es. lia. }
  rewrite decide_False by (by rewrite E).
  assert (parse_piece (pretty n) = None) as Ep.
  { unfold parse_piece, leadingInt. rewrite scan_digits_pretty. case_decide; [|done]. cbn [mbind option_bind].
    simpl. by destruct (starts_with_digit _ || false). }
  rewrite E in *. cbn [String.length parse_pieces]. by rewrite Ep.
Qed.
