(* ===== verification/Json.v ===== *)
(** * The parts of [encoding/json] that the program uses

    A JSON document is kept as a tree. Numbers are kept as the literal the
    encoder writes: an [int64] by its decimal expansion, a [float64] that
    came out of a request by the shortest literal Go prints for it, so equal
    values have equal literals. [JUnsupported] stands for a Go value the
    encoder refuses (NaN, an infinity, a channel, a function) with the message
    of its error. [text] is the compact output of [json.Marshal]. *)

From S2P Require Import Prelude GoStrings.
From Stdlib Require Import Ascii.

Inductive json :=
  | JNull
  | JBool (b : bool)
  | JNum (lit : string)
  | JStr (s : string)
  | JArr (l : list json)
  | JObj (l : list (string * json))
  | JUnsupported (msg : string).

Section json_ind.

Variable P : json → Prop.
Hypothesis HNull : P JNull.
Hypothesis HBool : ∀ b, P (JBool b).
Hypothesis HNum : ∀ s, P (JNum s).
Hypothesis HStr : ∀ s, P (JStr s).
Hypothesis HArr : ∀ l, Forall P l → P (JArr l).
Hypothesis HObj : ∀ l, Forall (λ kv, P kv.2) l → P (JObj l).
Hypothesis HUns : ∀ s, P (JUnsupported s).

(** The induction principle that descends into arrays and objects. *)
Fixpoint json_nested_ind (j : json) : P j :=
  match j with
  | JNull => HNull
  | JBool b => HBool b
  | JNum s => HNum s
  | JStr s => HStr s
  | JArr l => HArr l
      ((fix go l : Forall P l :=
        match l with
        | [] => Forall_nil_2 P
        | x :: l => Forall_cons_2 P x l (json_nested_ind x) (go l)
        end) l)
  | JObj l => HObj l
      ((fix go l : Forall (λ kv, P kv.2) l :=
        match l with
        | [] => Forall_nil_2 _
        | kv :: l => Forall_cons_2 _ kv l (json_nested_ind kv.2) (go l)
        end) l)
  | JUnsupported s => HUns s
  end.

End json_ind.

(** ** Text *)

Definition byte_of (c : ascii) : Z := Z.of_nat (nat_of_ascii c).

Definition between (lo hi z : Z) : bool := (lo <=? z) && (z <=? hi).

Definition hd_byte (s : string) : Z :=
  match s with String c _ => byte_of c | EmptyString => -1 end.

Definition tl_string (s : string) : string :=
  match s with String _ s => s | EmptyString => EmptyString end.

(** Length in bytes of the valid multi-byte UTF-8 sequence at the front of [s]. *)
Definition rune_len (s : string) : option nat :=
  let b0 := hd_byte s in
  let b1 := hd_byte (tl_string s) in
  let b2 := hd_byte (tl_string (tl_string s)) in
  let b3 := hd_byte (tl_string (tl_string (tl_string s))) in
  let cont := between 128 191 in
  if between 194 223 b0 && cont b1 then Some 2%nat
  else if (b0 =? 224) && between 160 191 b1 && cont b2 then Some 3%nat
  else if (between 225 236 b0 || between 238 239 b0) && cont b1 && cont b2 then Some 3%nat
  else if (b0 =? 237) && between 128 159 b1 && cont b2 then Some 3%nat
  else if (b0 =? 240) && between 144 191 b1 && cont b2 && cont b3 then Some 4%nat
  else if between 241 243 b0 && cont b1 && cont b2 && cont b3 then Some 4%nat
  else if (b0 =? 244) && between 128 143 b1 && cont b2 && cont b3 then Some 4%nat
  else None.

(** U+2028 and U+2029, which the encoder escapes. *)
Definition line_sep (s : string) : option string :=
  if (hd_byte s =? 226) && (hd_byte (tl_string s) =? 128) then
    let b2 := hd_byte (tl_string (tl_string s)) in
    if b2 =? 168 then Some "\u2028" else if b2 =? 169 then Some "\u2029" else None
  else None.

Definition hex_digit (n : Z) : ascii :=
  ascii_of_nat (Z.to_nat (if n <? 10 then 48 + n else 87 + n)).

Definition u00 (b : Z) : string :=
  "\u00" +:+ String (hex_digit (b / 16)) (String (hex_digit (b mod 16)) "").

(** A single byte below 0x80. *)
Definition escape_ascii (c : ascii) : string :=
  let b := byte_of c in
  if b =? 34 then String "\" (String c "")
  else if b =? 92 then "\\"
  else if b =? 8 then "\b"
  else if b =? 12 then "\f"
  else if b =? 10 then "\n"
  else if b =? 13 then "\r"
  else if b =? 9 then "\t"
  else if (b <? 32) || (b =? 60) || (b =? 62) || (b =? 38) then u00 b
  else String c "".

Inductive escape_mode := Copying (n : nat) | Dropping (n : nat).

(** The body of a JSON string literal, with HTML escaping on. *)
Fixpoint escape (m : escape_mode) (s : string) : string :=
  match s with
  | EmptyString => EmptyString
  | String c s' =>
      match m with
      | Copying (S n) => String c (escape (Copying n) s')
      | Dropping (S n) => escape (Dropping n) s'
      | _ =>
          if byte_of c <? 128 then escape_ascii c +:+ escape (Copying 0) s'
          else match line_sep s with
               | Some e => e +:+ escape (Dropping 2) s'
               | None =>
                   match rune_len s with
                   | Some n => String c (escape (Copying (n - 1)) s')
                   | None => "\ufffd" +:+ escape (Copying 0) s'
                   end
               end
      end
  end.

Definition dquote : string := String (ascii_of_nat 34) "".

Definition quoted (s : string) : string := dquote +:+ escape (Copying 0) s +:+ dquote.

Fixpoint comma_sep (l : list string) : string :=
  match l with
  | [] => ""
  | [x] => x
  | x :: l => x +:+ "," +:+ comma_sep l
  end.

Fixpoint text (j : json) : string :=
  match j with
  | JNull | JUnsupported _ => "null"
  | JBool true => "true"
  | JBool false => "false"
  | JNum lit => lit
  | JStr s => quoted s
  | JArr l => "[" +:+ comma_sep (text <$> l) +:+ "]"
  | JObj l => "{" +:+ comma_sep ((λ kv, quoted kv.1 +:+ ":" +:+ text kv.2) <$> l) +:+ "}"
  end.

(** The message of the first value the encoder refuses. *)
Fixpoint unsupported (j : json) : option string :=
  match j with
  | JUnsupported msg => Some msg
  | JArr l => foldr (λ x acc, match unsupported x with Some m => Some m | None => acc end) None l
  | JObj l =>
      foldr (λ kv acc, match unsupported kv.2 with Some m => Some m | None => acc end) None l
  | _ => None
  end.

(** [json.Marshal] up to the choice of representation: the document, or the
    error. *)
Definition Marshal (j : json) : json + error :=
  match unsupported j with Some m => inr (errors_New m) | None => inl j end.

(** What the decoder reports; only that it is an error matters to the program. *)
Definition decode_error : error := errors_New "json: cannot unmarshal".

(** ** Objects *)

Definition lower (c : ascii) : ascii :=
  let b := byte_of c in
  if between 65 90 b then ascii_of_nat (Z.to_nat (b + 32)) else c.

(** The decoder matches object keys to field names without regard to case. *)
Fixpoint fold_eq (a b : string) : bool :=
  match a, b with
  | EmptyString, EmptyString => true
  | String x a, String y b => bool_decide (lower x = lower y) && fold_eq a b
  | _, _ => false
  end.

Definition orelse {A} (o1 o2 : option A) : option A :=
  match o1 with Some a => Some a | None => o2 end.

(** The value the decoder leaves in the field: the last matching member. *)
Fixpoint field (name : string) (l : list (string * json)) : option json :=
  match l with
  | [] => None
  | (k, v) :: l => orelse (field name l) (if fold_eq k name then Some v else None)
  end.

(** Members that [omitempty] drops. *)
Definition omit_str (k s : string) : list (string * json) :=
  if decide (s = "") then [] else [(k, JStr s)].

Definition omit_int (k : string) (z : Z) : list (string * json) :=
  if decide (z = 0) then [] else [(k, JNum (pretty z))].

Definition omit_opt {A} (k : string) (enc : A → json) (o : option A) : list (string * json) :=
  match o with None => [] | Some a => [(k, enc a)] end.

Definition omit_list {A} (k : string) (enc : A → json) (l : list A) : list (string * json) :=
  match l with [] => [] | _ => [(k, JArr (enc <$> l))] end.

(** Decoders: an absent member or [null] leaves the zero value. *)
Definition get_str (o : option json) : option string :=
  match o with
  | None | Some JNull => Some ""
  | Some (JStr s) => Some s
  | _ => None
  end.

Definition get_int (o : option json) : option Z :=
  match o with
  | None | Some JNull => Some 0
  | Some (JNum lit) => ParseInt lit
  | _ => None
  end.

Definition get_bool (o : option json) : option bool :=
  match o with
  | None | Some JNull => Some false
  | Some (JBool b) => Some b
  | _ => None
  end.

Definition get_ptr {A} (dec : json → option A) (o : option json) : option (option A) :=
  match o with
  | None | Some JNull => Some None
  | Some j => Some <$> dec j
  end.

Definition get_list {A} (dec : json → option A) (o : option json) : option (list A) :=
  match o with
  | None | Some JNull => Some []
  | Some (JArr l) => mapM dec l
  | _ => None
  end.

Definition dec_int (j : json) : option Z := get_int (Some j).

Definition dec_str (j : json) : option string := get_str (Some j).

(** Maps: the encoder writes the members sorted by key; for integer keys the
    key is the decimal literal. *)
Definition key_le (a b : string * json) : Prop := String.le a.1 b.1.

#[export] Instance key_le_dec a b : Decision (key_le a b).
Proof. unfold key_le. apply _. Defined.

Definition enc_map `{Countable K} {V} (key : K → string) (enc : V → json) (m : gmap K V) : json :=
  JObj (merge_sort key_le ((λ kv, (key kv.1, enc kv.2)) <$> map_to_list m)).

Definition dec_members {K V} (key : string → option K) (dec : json → option V)
    (l : list (string * json)) : option (list (K * V)) :=
  mapM (λ kv, k ← key kv.1; v ← dec kv.2; Some (k, v)) l.

(** Later members overwrite earlier ones. *)
Definition dec_map `{Countable K} {V} (key : string → option K) (dec : json → option V)
    (j : json) : option (gmap K V) :=
  match j with
  | JObj l => kvs ← dec_members key dec l; Some (list_to_map (reverse kvs))
  | _ => None
  end.

(** A map field: absent or [null] leaves the nil map. *)
Definition get_map `{Countable K} {V} (key : string → option K) (dec : json → option V)
    (o : option json) : option (option (gmap K V)) :=
  get_ptr (dec_map key dec) o.

(** ** Round trips *)

Section fields.

Lemma orelse_None_r {A} (o : option A) : orelse o None = o.
Proof. by destruct o. Qed.

Lemma field_app n l1 l2 : field n (l1 ++ l2) = orelse (field n l2) (field n l1).
Proof.
  induction l1 as [|[k v] l1 IH]; simpl; [by destruct (field n l2)|].
  rewrite IH. by destruct (field n l2).
Qed.

Lemma field_one n k v : field n [(k, v)] = if fold_eq k n then Some v else None.
Proof. done. Qed.

Lemma field_omit_str n k s :
  field n (omit_str k s) =
    if fold_eq k n then (if decide (s = "") then None else Some (JStr s)) else None.
Proof. unfold omit_str. by repeat case_decide; destruct (fold_eq k n) eqn:E; simpl; rewrite ?E. Qed.

Lemma field_omit_int n k z :
  field n (omit_int k z) =
    if fold_eq k n then (if decide (z = 0) then None else Some (JNum (pretty z))) else None.
Proof. unfold omit_int. by repeat case_decide; destruct (fold_eq k n) eqn:E; simpl; rewrite ?E. Qed.

Lemma field_omit_opt {A} n k (enc : A → json) o :
  field n (omit_opt k enc o) = if fold_eq k n then enc <$> o else None.
Proof. by destruct o; simpl; destruct (fold_eq k n). Qed.

Lemma field_omit_list {A} n k (enc : A → json) l :
  field n (omit_list k enc l) =
    if fold_eq k n then (match l with [] => None | _ => Some (JArr (enc <$> l)) end) else None.
Proof. by destruct l; simpl; destruct (fold_eq k n). Qed.

Lemma get_str_omit s :
  get_str (if decide (s = "") then None else Some (JStr s)) = Some s.
Proof. by case_decide; subst. Qed.

Lemma get_int_pretty z : in64 z → get_int (Some (JNum (pretty z))) = Some z.
Proof. apply ParseInt_pretty. Qed.

Lemma get_int_omit z :
  in64 z → get_int (if decide (z = 0) then None else Some (JNum (pretty z))) = Some z.
Proof. intros ?. case_decide; subst; [done|by apply get_int_pretty]. Qed.

Lemma mapM_dec_enc {A} (enc : A → json) dec (l : list A) :
  Forall (λ a, dec (enc a) = Some a) l → mapM dec (enc <$> l) = Some l.
Proof.
  intros Hl. apply mapM_Some, Forall2_fmap_l.
  induction Hl; constructor; done.
Qed.

Lemma get_list_enc {A} (enc : A → json) dec (l : list A) :
  Forall (λ a, dec (enc a) = Some a) l → get_list dec (Some (JArr (enc <$> l))) = Some l.
Proof. apply mapM_dec_enc. Qed.

Lemma get_list_omit {A} (enc : A → json) dec (l : list A) :
  Forall (λ a, dec (enc a) = Some a) l →
  get_list dec (match l with [] => None | _ => Some (JArr (enc <$> l)) end) = Some l.
Proof. destruct l; [done|]. apply get_list_enc. Qed.

Lemma get_ptr_omit {A} (enc : A → json) dec (o : option A) :
  (∀ a, enc a ≠ JNull) → (∀ a, o = Some a → dec (enc a) = Some a) →
  get_ptr dec (enc <$> o) = Some o.
Proof.
  intros Hn Hd. destruct o as [a|]; [|done]. simpl.
  specialize (Hn a). specialize (Hd a eq_refl).
  destruct (enc a); try done; by rewrite Hd.
Qed.

End fields.

Section maps.

Context `{Countable K} {V : Type}.
Context (key : K → string) (key' : string → option K).
Context (enc : V → json) (dec : json → option V).

Lemma dec_members_enc (l : list (K * V)) :
  Forall (λ kv, key' (key kv.1) = Some kv.1 ∧ dec (enc kv.2) = Some kv.2) l →
  dec_members key' dec ((λ kv, (key kv.1, enc kv.2)) <$> l) = Some l.
Proof.
  intros Hl. apply mapM_Some, Forall2_fmap_l.
  induction Hl as [|[k v] l [Hk Hv] _ IH]; constructor; [|done].
  simpl in *. by rewrite Hk, Hv.
Qed.

Lemma dec_enc_map (m : gmap K V) :
  map_Forall (λ k v, key' (key k) = Some k ∧ dec (enc v) = Some v) m →
  dec_map key' dec (enc_map key enc m) = Some m.
Proof.
  intros Hm. unfold dec_map, enc_map.
  pose proof (merge_sort_Permutation key_le
    ((λ kv, (key kv.1, enc kv.2)) <$> map_to_list m)) as Hp.
  apply Permutation_map_inv in Hp as (l & El & Hl).
  rewrite El. change (map ?f l) with (f <$> l).
  assert (NoDup l.*1) as Hnd by (rewrite <-Hl; apply NoDup_fst_map_to_list).
  rewrite dec_members_enc; simpl.
  - f_equal. rewrite <-(list_to_map_to_list m). apply list_to_map_proper.
    + rewrite fmap_reverse. rewrite reverse_Permutation. done.
    + rewrite reverse_Permutation. by symmetry.
  - rewrite <-Hl. apply Forall_forall. intros [k v] Hkv%elem_of_map_to_list.
    by apply Hm.
Qed.

End maps.
