(* ===== verification/GoNumber.v ===== *)
(** * Numbers on a command line: [strconv.ParseInt(s, 0, 64)] and [strconv.ParseFloat]

    The flag package reads integers in the base their prefix names, and
    floats, in decimal or hexadecimal. Both take underscores between digits.
    A decimal number is rounded once, to the nearest float: the quotient of
    two integers by [SFdiv], whose operands need not be rounded themselves. *)

From S2P Require Import Prelude GoStrings GoFloat Json.
From Stdlib Require Import Ascii SpecFloat.

(** ** Characters *)

(** [lower]: the bit that tells a small letter from a capital. *)
Definition lower (c : ascii) : ascii := ascii_of_nat (Z.to_nat (Z.lor (byte_of c) 32)).

Fixpoint lower_all (s : string) : string :=
  match s with EmptyString => EmptyString | String c s => String (lower c) (lower_all s) end.

(** The value of a digit in the bases up to 36. *)
Definition digit36 (c : ascii) : option Z :=
  match digit_val c with
  | Some d => Some d
  | None => if between 97 122 (byte_of (lower c)) then Some (byte_of (lower c) - 87) else None
  end.

Definition digit_in (base : Z) (c : ascii) : option Z :=
  d ← digit36 c; if decide (d < base) then Some d else None.

(** ** Underscores *)

(** What [underscoreOK] saw last. *)
Inductive saw := SawNothing | SawDigit | SawUnderscore | SawOther.

Fixpoint underscores_ok (hex : bool) (last : saw) (s : string) : bool :=
  match s with
  | EmptyString => match last with SawUnderscore => false | _ => true end
  | String c s =>
      if bool_decide (is_Some (digit_in (if hex then 16 else 10) c)) then underscores_ok hex SawDigit s
      else if decide (c = "_"%char) then
        match last with SawDigit => underscores_ok hex SawUnderscore s | _ => false end
      else match last with SawUnderscore => false | _ => underscores_ok hex SawOther s end
  end.

Definition underscoreOK (s : string) : bool :=
  match (scan_sign s).2 with
  | String "0" (String c rest) =>
      if decide (lower c ∈ ["b"; "o"; "x"]%char)
      then underscores_ok (bool_decide (lower c = "x"%char)) SawDigit rest
      else underscores_ok false SawNothing (String "0" (String c rest))
  | s => underscores_ok false SawNothing s
  end.

Fixpoint has_underscore (s : string) : bool :=
  match s with EmptyString => false | String c s => bool_decide (c = "_"%char) || has_underscore s end.

Fixpoint drop_underscores (s : string) : string :=
  match s with
  | EmptyString => EmptyString
  | String c s => if decide (c = "_"%char) then drop_underscores s else String c (drop_underscores s)
  end.

(** A number without its underscores, if they are where they may be. *)
Definition plain_number (s : string) : option string :=
  if has_underscore s then if underscoreOK s then Some (drop_underscores s) else None else Some s.

(** ** Integers *)

(** The base a prefix names, and the digits after it. *)
Definition base_prefix (s : string) : Z * string :=
  match s with
  | String "0" (String c (String _ _ as digits)) =>
      if decide (lower c = "b"%char) then (2, digits)
      else if decide (lower c = "o"%char) then (8, digits)
      else if decide (lower c = "x"%char) then (16, digits)
      else (8, String c digits)
  | String "0" digits => (8, digits)
  | _ => (10, s)
  end.

(** The loop of [ParseUint]; a number out of range is refused at the end. *)
Fixpoint digits_value (base acc : Z) (s : string) : option Z :=
  match s with
  | EmptyString => Some acc
  | String c s => d ← digit_in base c; digits_value base (acc * base + d) s
  end.

(** [strconv.ParseInt(s, 0, 64)] *)
Definition ParseInt_base0 (s : string) : option Z :=
  let '(neg, s1) := scan_sign s in
  if decide (s1 = "") then None
  else
    s1 ← plain_number s1;
    let '(base, digits) := base_prefix s1 in
    n ← digits_value base 0 digits;
    let v := if (neg : bool) then - n else n in
    if decide (in64 v) then Some v else None.

(** ** Floats *)

(** Infinities and not a number, in any case. *)
Definition special (s : string) : option float64 :=
  let '(neg, s1) := scan_sign s in
  if decide (lower_all s1 ∈ ["inf"; "infinity"]) then Some (S754_infinity neg)
  else if decide (lower_all s = "nan") then Some S754_nan else None.

(** The digits at the front, how many there were, and the rest. *)
Fixpoint scan_base (base acc count : Z) (s : string) : Z * Z * string :=
  match s with
  | EmptyString => (acc, count, EmptyString)
  | String c s' =>
      match digit_in base c with
      | Some d => scan_base base (acc * base + d) (count + 1) s'
      | None => (acc, count, s)
      end
  end.

(** A mantissa: its digits as one number, how many followed the point, and
    the rest. *)
Definition scan_mantissa (base : Z) (s : string) : option (Z * Z * string) :=
  let '(m1, n1, r1) := scan_base base 0 0 s in
  let '(m2, n2, r2) := match r1 with String "." r => scan_base base m1 0 r | _ => (m1, 0, r1) end in
  if decide (n1 + n2 = 0) then None else Some (m2, n2, r2).

(** [if e < 10000 { e = e*10 + int(s[i]) - '0' }] *)
Fixpoint exponent_digits (e : Z) (s : string) : option Z :=
  match s with
  | EmptyString => Some e
  | String c s => d ← digit_val c; exponent_digits (if decide (e < 10000) then e * 10 + d else e) s
  end.

(** The exponent after [marker], to the end of the text. *)
Definition scan_exponent (marker : ascii) (s : string) : option Z :=
  match s with
  | String c rest =>
      if decide (lower c = marker) then
        let '(neg, digits) := scan_sign rest in
        if decide (digits = "") then None
        else e ← exponent_digits 0 digits; Some (if (neg : bool) then - e else e)
      else None
  | EmptyString => None
  end.

(** [m * 10^e], rounded to the nearest. *)
Definition f_decimal (m e : Z) : float64 :=
  if decide (0 <= e) then f_of_Z (m * 10 ^ e)
  else
    match m, 10 ^ (- e) with
    | Z.pos p, Z.pos q => f_div (S754_finite false p 0) (S754_finite false q 0)
    | _, _ => S754_zero false
    end.

Definition f_opp : float64 → float64 := SFopp.

(** A value that overflows is an error. *)
Definition in_range (f : float64) : option float64 :=
  match f with S754_infinity _ => None | f => Some f end.

Definition read_float (s : string) : option float64 :=
  let '(neg, s1) := scan_sign s in
  f ← match s1 with
      | String "0" (String c (String _ _ as digits)) =>
          if decide (lower c = "x"%char) then
            '(m, fraction, rest) ← scan_mantissa 16 digits;
            e ← scan_exponent "p"%char rest;
            in_range (binary_normalize 53 1024 m (e - 4 * fraction) false)
          else
            '(m, fraction, rest) ← scan_mantissa 10 s1;
            e ← (if decide (rest = "") then Some 0 else scan_exponent "e"%char rest);
            in_range (f_decimal m (e - fraction))
      | _ =>
          '(m, fraction, rest) ← scan_mantissa 10 s1;
          e ← (if decide (rest = "") then Some 0 else scan_exponent "e"%char rest);
          in_range (f_decimal m (e - fraction))
      end;
  Some (if (neg : bool) then f_opp f else f).

(** [strconv.ParseFloat(s, 64)] *)
Definition ParseFloat (s : string) : option float64 :=
  match special s with
  | Some f => Some f
  | None => s ← plain_number s; read_float s
  end.

(** ** Decimal numbers read the same everywhere *)

Section decimal.

Lemma digit_in_10 c : digit_in 10 c = digit_val c.
Proof. destruct c as [[] [] [] [] [] [] [] []]; vm_compute; reflexivity. Qed.

Lemma digit_val_no_underscore c d : digit_val c = Some d → c ≠ "_"%char.
Proof. intros E ->. by vm_compute in E. Qed.

Lemma digits_value_10 acc s n : scan_digits acc s = (n, "") → digits_value 10 acc s = Some n.
Proof.
  revert acc. induction s as [|c s IH]; intros acc; simpl; [by intros [= ->]|].
  rewrite digit_in_10. destruct (digit_val c); [apply IH|done].
Qed.

Lemma scan_base_10 acc k s n :
  scan_digits acc s = (n, "") → scan_base 10 acc k s = (n, k + Z.of_nat (String.length s), "").
Proof.
  revert acc k. induction s as [|c s IH]; intros acc k; simpl.
  - intros [= ->]. do 2 f_equal. lia.
  - rewrite digit_in_10. destruct (digit_val c); [|done]. intros E. rewrite (IH _ _ E). do 2 f_equal. lia.
Qed.

Lemma digits_no_underscore acc s n : scan_digits acc s = (n, "") → has_underscore s = false.
Proof.
  revert acc. induction s as [|c s IH]; intros acc; simpl; [done|].
  destruct (digit_val c) eqn:E; [|done]. intros Hs. rewrite (IH _ Hs).
  by rewrite bool_decide_false by (by eapply digit_val_no_underscore).
Qed.

Lemma plain_number_pretty (x : N) : plain_number (pretty x) = Some (pretty x).
Proof. unfold plain_number. by rewrite (digits_no_underscore 0 _ _ (scan_digits_pretty x)). Qed.

(** A positive number does not start with a zero. *)
Lemma pretty_N_go_head_pos (x : N) s :
  (0 < x)%N → ∃ d s', (0 < d < 10)%N ∧ pretty_N_go x s = String (pretty_N_char d) s'.
Proof.
  revert s. induction (N.lt_wf_0 x) as [x _ IH]; intros s Hx. rewrite pretty_N_go_step by lia.
  destruct (decide (x / 10 = 0)%N) as [E|E].
  - rewrite E, pretty_N_go_0. exists (x mod 10)%N, s. split; [|done].
    pose proof (N.mod_lt x 10). pose proof (N.div_mod x 10). lia.
  - apply IH; [apply N.div_lt; lia|by apply N.neq_0_lt_0].
Qed.

Lemma pretty_pos_head (x : N) :
  (0 < x)%N → ∃ d s', (0 < d < 10)%N ∧ pretty x = String (pretty_N_char d) s'.
Proof. intros Hx. unfold pretty, pretty_N. rewrite decide_False by lia. by apply pretty_N_go_head_pos. Qed.

(** The ten digits, for facts about a single character. *)
Ltac digit_cases d :=
  assert (d = 1 ∨ d = 2 ∨ d = 3 ∨ d = 4 ∨ d = 5 ∨ d = 6 ∨ d = 7 ∨ d = 8 ∨ d = 9)%N as Hcases by lia;
  destruct_or! Hcases; subst d.

Lemma base_prefix_pretty (x : N) : (0 < x)%N → base_prefix (pretty x) = (10, pretty x).
Proof. intros Hx. destruct (pretty_pos_head x Hx) as (d & s & Hd & ->). by digit_cases d. Qed.

Lemma ParseInt_base0_pretty_N (x : N) (neg : bool) :
  let v := if neg then - Z.of_N x else Z.of_N x in
  in64 v →
  ParseInt_base0 (if neg then "-" +:+ pretty x else pretty x) = Some v.
Proof.
  intros v Hv. unfold ParseInt_base0.
  assert (scan_sign (if neg then "-" +:+ pretty x else pretty x) = (neg, pretty x)) as ->.
  { destruct neg; [done|]. destruct (pretty_N_head x) as (d & s' & Hd & ->). by apply scan_sign_digit. }
  rewrite decide_False by (destruct (pretty_N_head x) as (? & ? & _ & ->); done).
  rewrite plain_number_pretty. cbn [mbind option_bind].
  destruct (decide (x = 0%N)) as [->|Hx]; [by destruct neg|].
  rewrite base_prefix_pretty, (digits_value_10 _ _ _ (scan_digits_pretty x)) by lia.
  cbn [mbind option_bind]. by rewrite decide_True.
Qed.

(** An [int64] in decimal, without prefix, is read as itself. *)
Lemma ParseInt_base0_pretty (z : Z) : in64 z → ParseInt_base0 (pretty z) = Some z.
Proof.
  destruct z as [|p|p]; intros Hz; [done|..].
  - by apply (ParseInt_base0_pretty_N (N.pos p) false).
  - by apply (ParseInt_base0_pretty_N (N.pos p) true).
Qed.

Lemma ParseInt_base0_in64 s z : ParseInt_base0 s = Some z → in64 z.
Proof.
  unfold ParseInt_base0. destruct (scan_sign s) as [neg s1]. case_decide; [done|].
  destruct (plain_number s1) as [s2|]; [|done]. cbn [mbind option_bind].
  destruct (base_prefix s2) as [b ds]. destruct (digits_value b 0 ds); [|done]. cbn [mbind option_bind].
  case_decide; [|done]. by intros [= <-].
Qed.

Lemma f_of_Z_finite z : 0 <= z < 2 ^ 53 → in_range (f_of_Z z) = Some (f_of_Z z).
Proof.
  intros Hz. destruct z as [|p|p]; [done| |lia].
  by destruct (f_of_Z_pos p) as (m & e & -> & _); [lia|].
Qed.

(** A whole number below 2^53 is read exactly. *)
Lemma ParseFloat_pretty (z : Z) : 0 <= z < 2 ^ 53 → ParseFloat (pretty z) = Some (f_of_Z z).
Proof.
  intros Hz. destruct z as [|p|p]; [done| |lia]. change (pretty (Z.pos p)) with (pretty (N.pos p)).
  set (x := N.pos p). destruct (pretty_pos_head x) as (d & s & Hd & E); [done|].
  assert (special (pretty x) = None) as Hs by (rewrite E; by digit_cases d).
  unfold ParseFloat. rewrite Hs, plain_number_pretty. cbn [mbind option_bind].
  assert (read_float (pretty x) =
    '(m, fraction, rest) ← scan_mantissa 10 (pretty x);
    e ← (if decide (rest = "") then Some 0 else scan_exponent "e"%char rest);
    in_range (f_decimal m (e - fraction))) as ->.
  { rewrite E. unfold read_float. rewrite scan_sign_digit by lia.
    digit_cases d; by destruct (scan_mantissa _ _) as [[[m fr] rest]|]; cbn [mbind option_bind];
      [destruct (decide _); cbn [mbind option_bind]; [destruct (in_range _)|
        destruct (scan_exponent _ _); cbn [mbind option_bind]; [destruct (in_range _)|]]|]. }
  unfold scan_mantissa. rewrite (scan_base_10 _ _ _ _ (scan_digits_pretty x)).
  rewrite decide_False by (rewrite E; simpl; lia). cbn [mbind option_bind].
  rewrite decide_True by done. cbn [mbind option_bind]. unfold f_decimal. rewrite decide_True by done.
  change (10 ^ (0 - 0)) with 1. rewrite Z.mul_1_r. by apply f_of_Z_finite.
Qed.

End decimal.
