(* ===== verification/Sanitize.v ===== *)
(** * Error messages for clients: [sanitizeError] of [handlers.go]

    The three regular expressions of the file are kept as syntax trees and
    run by a backtracking matcher with the leftmost-first rule of Go's
    [regexp]. Every class is made of ASCII characters and [.] of everything
    but a newline, so matching bytes and matching runes agree.
    [net.ParseIP] is translated from its parsers for the two families. *)

From S2P Require Import Prelude GoStrings Json.
From Stdlib Require Import Ascii.

(** ** Regular expressions *)

Inductive re :=
  | Eps
  | Cls (p : ascii → bool)
  | Cat (a b : re)
  | Alt (a b : re)
  | Star (greedy : bool) (a : re).

Definition Plus (a : re) : re := Cat a (Star true a).

Definition Opt (a : re) : re := Alt a Eps.

Definition Chr (c : ascii) : re := Cls (λ x, bool_decide (x = c)).

Fixpoint Lit (s : string) : re :=
  match s with EmptyString => Eps | String c s => Cat (Chr c) (Lit s) end.

Fixpoint Alts (l : list string) : re :=
  match l with [] => Cls (λ _, false) | [s] => Lit s | s :: l => Alt (Lit s) (Alts l) end.

(** What is left of the input after the match that the rule prefers among
    those [k] can go on from. A round of a star consumes at least a
    character, so the length of the input bounds the rounds. *)
Fixpoint run_re (r : re) (k : list ascii → option (list ascii)) (s : list ascii)
    : option (list ascii) :=
  match r with
  | Eps => k s
  | Cls p => match s with c :: s' => if p c then k s' else None | [] => None end
  | Cat a b => run_re a (run_re b k) s
  | Alt a b => orelse (run_re a k s) (run_re b k s)
  | Star greedy a =>
      (fix star (n : nat) (s : list ascii) : option (list ascii) :=
         match n with
         | O => k s
         | S n =>
             let again :=
               run_re a (λ s', if decide (length s' < length s)%nat then star n s' else None) s in
             if greedy then orelse again (k s) else orelse (k s) again
         end) (length s) s
  end.

(** [r.ReplaceAllStringFunc(s, f)] for an expression that matches no empty
    string. *)
Fixpoint replace_all (n : nat) (r : re) (f : list ascii → list ascii) (s : list ascii)
    : list ascii :=
  match n, s with
  | S n, c :: s' =>
      match run_re r Some s with
      | Some rest =>
          if decide (length rest < length s)%nat then
            f (take (length s - length rest) s) ++ replace_all n r f rest
          else c :: replace_all n r f s'
      | None => c :: replace_all n r f s'
      end
  | _, _ => s
  end.

Definition chars (s : string) : list ascii := String.list_ascii_of_string s.

Definition unchars (l : list ascii) : string := String.string_of_list_ascii l.

Lemma unchars_chars s : unchars (chars s) = s.
Proof. apply String.string_of_list_ascii_of_string. Qed.

Lemma chars_unchars l : chars (unchars l) = l.
Proof. apply String.list_ascii_of_string_of_list_ascii. Qed.

Definition ReplaceAllStringFunc (r : re) (f : string → string) (s : string) : string :=
  unchars (replace_all (String.length s) r (λ l, chars (f (unchars l))) (chars s)).

(** ** The expressions *)

Definition is_digit (c : ascii) : bool := between 48 57 (byte_of c).

Definition is_hex (c : ascii) : bool :=
  is_digit c || between 97 102 (byte_of c) || between 65 70 (byte_of c).

(** [[\w.-]] *)
Definition is_path_char (c : ascii) : bool :=
  is_digit c || between 97 122 (byte_of c) || between 65 90 (byte_of c) ||
  bool_decide (c ∈ ["_"; "."; "-"]%char).

Definition d13 : re := Cat (Cls is_digit) (Opt (Cat (Cls is_digit) (Opt (Cls is_digit)))).

(** [(?::\d+)?] *)
Definition opt_port : re := Opt (Cat (Chr ":") (Plus (Cls is_digit))).

Definition ipPattern : re :=
  let octet := Cat d13 (Chr ".") in
  Alt (Cat octet (Cat octet (Cat octet (Cat d13 opt_port))))
      (Cat (Opt (Chr "[")) (Cat (Plus (Cls (λ c, is_hex c || bool_decide (c = ":"%char))))
         (Cat (Opt (Chr "]")) opt_port))).

Definition pathPattern : re :=
  Cat (Plus (Cat (Chr "/") (Plus (Cls is_path_char))))
    (Cat (Opt (Chr "/")) (Cat (Star true (Cls is_path_char))
       (Cat (Chr ".") (Alts ["db"; "log"; "tmp"; "snap"; "dat"; "bin"])))).

(** [[\s:]] *)
Definition is_sep (c : ascii) : bool :=
  bool_decide (byte_of c ∈ [9; 10; 12; 13; 32; 58]).

Definition raftPattern : re :=
  Cat (Alts ["raft"; "Raft"]) (Cat (Plus (Cls is_sep))
    (Cat (Star false (Cls (λ c, negb (byte_of c =? 10))))
      (Cat (Alts ["address"; "peer"; "server"; "node"; "leader"; "follower"; "candidate"])
        (Cat (Star true (Cls is_sep))
          (Plus (Cls (λ c, is_path_char c || bool_decide (c ∈ [":"; "["; "]"]%char)))))))).

(** ** [net.ParseIP] *)

(** [strings.Split(s, sep)] for a separator of one character. *)
Fixpoint split_on (sep : ascii) (s : list ascii) : list (list ascii) :=
  match s with
  | [] => [[]]
  | c :: s =>
      if decide (c = sep) then [] :: split_on sep s
      else match split_on sep s with x :: l => (c :: x) :: l | [] => [[c]] end
  end.

(** Up to three digits with no leading zero, at most 255. *)
Definition octet_ok (l : list ascii) : bool :=
  negb (bool_decide (l = [])) && forallb is_digit l &&
  bool_decide (length l = 1%nat ∨ head l ≠ Some "0"%char) &&
  (foldl (λ v c, v * 10 + (byte_of c - 48)) 0 l <=? 255).

Definition parseIPv4 (s : list ascii) : bool :=
  let parts := split_on "." s in
  bool_decide (length parts = 4%nat) && forallb octet_ok parts.

(** The hexadecimal digits at the front of [s]. *)
Fixpoint hex_run (s : list ascii) : nat :=
  match s with c :: s => if is_hex c then S (hex_run s) else O | [] => O end.

(** [i] counts bytes of the address, [ellipsis] tells whether a [::] was seen;
    sixteen bytes are at most eight rounds. *)
Fixpoint parse_groups (fuel : nat) (i : Z) (ellipsis : bool) (s : list ascii) : bool :=
  match fuel with
  | O => false
  | S fuel =>
      let finish (i : Z) (ellipsis : bool) (s : list ascii) :=
        bool_decide (s = []) && (if decide (i < 16) then ellipsis else negb ellipsis) in
      if decide (i < 16) then
        let off := hex_run s in
        if decide (off = 0 ∨ 4 < off)%nat then false
        else
          match drop off s with
          | "."%char :: _ =>
              if decide ((ellipsis = false ∧ i ≠ 12) ∨ i + 4 > 16) then false
              else parseIPv4 s && finish (i + 4) ellipsis []
          | [] => finish (i + 2) ellipsis []
          | ":"%char :: [] => false
          | ":"%char :: ":"%char :: s' =>
              if ellipsis then false
              else match s' with
                   | [] => finish (i + 2) true []
                   | _ => parse_groups fuel (i + 2) true s'
                   end
          | ":"%char :: s' => parse_groups fuel (i + 2) ellipsis s'
          | _ => false
          end
      else finish i ellipsis s
  end.

Definition parseIPv6 (s : list ascii) : bool :=
  match s with
  | ":"%char :: ":"%char :: [] => true
  | ":"%char :: ":"%char :: s => parse_groups 9 0 true s
  | _ => parse_groups 9 0 false s
  end.

(** An address with a zone is refused, and so is everything with [%]. *)
Definition ParseIP (s : string) : bool :=
  let l := chars s in
  if decide ("%"%char ∈ l) then false
  else match filter (λ c, c = "."%char ∨ c = ":"%char) l with
       | "."%char :: _ => parseIPv4 l
       | ":"%char :: _ => parseIPv6 l
       | _ => false
       end.

(** ** sanitizeError *)

(** [strings.LastIndex(s, ":")], and the two sides of it. *)
Fixpoint last_colon (s : string) : option (string * string) :=
  match s with
  | EmptyString => None
  | String c s' =>
      match last_colon s' with
      | Some (a, b) => Some (String c a, b)
      | None => if decide (c = ":"%char) then Some ("", s) else None
      end
  end.

Definition HasPrefix (s p : string) : bool := String.prefix p s.

Definition HasSuffix (s p : string) : bool :=
  bool_decide (String.length p <= String.length s)%nat &&
  bool_decide (String.substring (String.length s - String.length p) (String.length p) s = p).

(** The replacement function of the first pass. *)
Definition redact_ip (m : string) : string :=
  let '(host, port) :=
    match last_colon m with
    | Some (EmptyString, _) | None => (m, "")
    | Some (a, b) => (a, b)
    end in
  let host := if HasPrefix host "[" && HasSuffix host "]"
              then String.substring 1 (String.length host - 2) host else host in
  if ParseIP host then (if decide (port ≠ "") then "[addr]:<port>" else "[addr]") else m.

(** [strings.ReplaceAll(s, old, new)] for a non-empty [old]. *)
Definition ReplaceAll (s old new : string) : string := ReplaceAllStringFunc (Lit old) (λ _, new) s.

Definition sanitizeError (err : option error) : string :=
  match err with
  | None => ""
  | Some e =>
      let msg := Error e in
      let msg := ReplaceAllStringFunc ipPattern redact_ip msg in
      let msg := ReplaceAllStringFunc pathPattern (λ _, "[path]") msg in
      let msg := ReplaceAllStringFunc raftPattern (λ _, "[raft error]") msg in
      let msg := ReplaceAll msg "scheduled-db" "[service]" in
      ReplaceAll msg ".svc.cluster.local" ""
  end.

Definition safeErrorMessage (prefix : string) (err : option error) (isClientError : bool) : string :=
  if isClientError then
    let sanitized := sanitizeError err in
    if decide (sanitized = "") then prefix else prefix +:+ ": " +:+ sanitized
  else prefix.

(** ** Examples *)

Definition sanitize (msg : string) : string := sanitizeError (Some (errors_New msg)).

Example sanitize_ipv4 : sanitize "dial 10.0.0.7:7000: no 10.0.0.8" = "dial [addr]:<port>: no [addr]".
Proof. vm_compute. reflexivity. Qed.

Example sanitize_ipv6_port : sanitize "dial [::1]:7000" = "dial [addr]:<port>".
Proof. vm_compute. reflexivity. Qed.

Example sanitize_path : sanitize "open /data/raft/raft.db: no" = "open [path]: no".
Proof. vm_compute. reflexivity. Qed.

(** A bare IPv6 address keeps its last group as a port and what is left is
    no address, so it goes to the client as it is; and taking out the domain
    can put the service name together again. *)
Theorem sanitize_lets_through :
  sanitize "no route to fe80::1" = "no route to fe80::1" ∧
  sanitize "no route to 2001:db8:0:0:0:0:0:1" = "no route to 2001:db8:0:0:0:0:0:1" ∧
  sanitize "scheduled-.svc.cluster.localdb" = "scheduled-db".
Proof. vm_compute. auto. Qed.
