(* ===== verification/Types.v ===== *)
(** * Data types of [internal/store/types]

    [JobType], [JobStatus] and [CommandType] are Go string types, so they are
    strings here with the program's constants; pointers are options; nil and
    empty slices are both []; a nil map is [None]. The cron library is
    third-party code: class [Cron] is its parser and its [Schedule.Next], on
    Unix seconds. *)

From S2P Require Import Prelude GoStrings Json.

(** ** status.go *)

Definition StatusPending : string := "pending".
Definition StatusInProgress : string := "in_progress".
Definition StatusCompleted : string := "completed".
Definition StatusFailed : string := "failed".
Definition StatusCancelled : string := "cancelled".
Definition StatusTimeout : string := "timeout".

Record ExecutionAttempt := mkAttempt {
  att_AttemptNum : Z;
  att_StartTime : Z;
  att_EndTime : Z;
  att_NodeID : string;
  att_Status : string;
  att_HTTPStatus : Z;
  att_ResponseTime : Z;
  att_ErrorMessage : string;
  att_ErrorType : string }.

Record JobExecutionState := mkState {
  es_JobID : string;
  es_Status : string;
  es_AttemptCount : Z;
  es_CreatedAt : Z;
  es_FirstAttemptAt : Z;
  es_LastAttemptAt : Z;
  es_CompletedAt : Z;
  es_CancelledAt : Z;
  es_CancellationReason : string;
  es_ExecutingNodeID : string;
  es_Attempts : list ExecutionAttempt }.

(** [func (s *JobExecutionState) Clone()]: field by field, with a fresh copy
    of the attempts. *)
Definition JobExecutionState_Clone (s : JobExecutionState) : JobExecutionState :=
  mkState (es_JobID s) (es_Status s) (es_AttemptCount s) (es_CreatedAt s)
    (es_FirstAttemptAt s) (es_LastAttemptAt s) (es_CompletedAt s) (es_CancelledAt s)
    (es_CancellationReason s) (es_ExecutingNodeID s) (es_Attempts s).

(** ** slot.go *)

Record SlotData := mkSlotData {
  slot_Key : Z;
  slot_MinTime : Z;
  slot_MaxTime : Z;
  slot_JobIDs : list string }.

Definition SlotData_Clone (s : SlotData) : SlotData :=
  mkSlotData (slot_Key s) (slot_MinTime s) (slot_MaxTime s) (slot_JobIDs s).

Definition set_JobIDs (ids : list string) (s : SlotData) : SlotData :=
  mkSlotData (slot_Key s) (slot_MinTime s) (slot_MaxTime s) ids.

(** ** job.go *)

Definition JobUnico : string := "unico".
Definition JobRecurrente : string := "recurrente".

Record Job := mkJob {
  job_ID : string;
  job_Type : string;
  job_Timestamp : option Z;
  job_CronExpr : string;
  job_LastDate : option Z;
  job_CreatedAt : Z;
  job_WebhookURL : string;
  job_Payload : option (gmap string json) }.

(** [func (j *Job) Clone()]: the payload map is rebuilt entry by entry. *)
Definition Job_Clone (j : Job) : Job :=
  mkJob (job_ID j) (job_Type j) (job_Timestamp j) (job_CronExpr j) (job_LastDate j)
    (job_CreatedAt j) (job_WebhookURL j)
    (match job_Payload j with
     | None => None
     | Some p => Some (list_to_map (map_to_list p))
     end).

Definition set_CreatedAt (t : Z) (j : Job) : Job :=
  mkJob (job_ID j) (job_Type j) (job_Timestamp j) (job_CronExpr j) (job_LastDate j)
    t (job_WebhookURL j) (job_Payload j).

Class Cron := {
  Schedule : Type;
  cron_parse : string → Schedule + error;
  cron_next : Schedule → Z → Z }.

(** Unix seconds of Go's zero time, which [Next] returns when no time matches. *)
Definition zero_time_unix : Z := -62135596800.

(** [Next] is documented to return a later time, or the zero time. *)
Class CronLaws `{Cron} : Prop := {
  cron_next_later : ∀ (s : Schedule) t, t < cron_next s t ∨ cron_next s t = zero_time_unix }.

(** [func (j *Job) Validate() error], with [now] for [time.Now().Unix()]. *)
Definition Job_Validate `{Cron} (now : Z) (j : Job) : option error :=
  if decide (job_ID j = "") then Some (errors_New "job ID is required")
  else if decide (job_Type j ≠ JobUnico ∧ job_Type j ≠ JobRecurrente) then
    Some (errors_New ("invalid job type: " +:+ job_Type j))
  else
    let unico_err :=
      if decide (job_Type j = JobUnico) then
        match job_Timestamp j with
        | None => Some (errors_New "timestamp is required for unico jobs")
        | Some ts =>
            if decide (ts <= now) then Some (errors_New "timestamp must be in the future")
            else None
        end
      else None in
    match unico_err with
    | Some e => Some e
    | None =>
        if decide (job_Type j = JobRecurrente) then
          if decide (job_CronExpr j = "") then
            Some (errors_New "cron_expression is required for recurrente jobs")
          else
            match cron_parse (job_CronExpr j) with
            | inr e => Some (flatf "invalid cron expression: " e)
            | inl _ => None
            end
        else None
    end.

(** ** command.go *)

Definition CommandCreateJob : string := "create_job".
Definition CommandDeleteJob : string := "delete_job".
Definition CommandCreateSlot : string := "create_slot".
Definition CommandDeleteSlot : string := "delete_slot".
Definition CommandArchiveSlot : string := "archive_slot".
Definition CommandUnarchiveSlot : string := "unarchive_slot".
Definition CommandUpdateJobStatus : string := "update_job_status".
Definition CommandRecordAttempt : string := "record_attempt".
Definition CommandPruneAttempts : string := "prune_attempts".
Definition CommandUpdateMemoryUsage : string := "update_memory_usage".
Definition CommandUpdateJobCount : string := "update_job_count".

Record StatusCommand := mkStatusCommand {
  sc_JobID : string;
  sc_Status : string;
  sc_NodeID : string;
  sc_Attempt : option ExecutionAttempt;
  sc_Timestamp : Z;
  sc_CancellationReason : string }.

Record Command := mkCommand {
  cmd_Type : string;
  cmd_Job : option Job;
  cmd_ID : string;
  cmd_Slot : option SlotData;
  cmd_ColdSlot : option SlotData;
  cmd_StatusCommand : option StatusCommand;
  cmd_Attempts : list ExecutionAttempt;
  cmd_MemoryDelta : Z;
  cmd_JobCountDelta : Z }.

(** [Command{Type: t}], and the composite literals of the callers. *)
Definition command (t : string) : Command := mkCommand t None "" None None None [] 0 0.

Definition cmd_create_job (j : Job) : Command :=
  mkCommand CommandCreateJob (Some j) "" None None None [] 0 0.

Definition cmd_with_id (t id : string) : Command :=
  mkCommand t None id None None None [] 0 0.

Definition cmd_create_slot (s : SlotData) : Command :=
  mkCommand CommandCreateSlot None "" (Some s) None None [] 0 0.

Definition cmd_archive (s : SlotData) : Command :=
  mkCommand CommandArchiveSlot None "" None (Some s) None [] 0 0.

Definition cmd_status (t : string) (sc : StatusCommand) : Command :=
  mkCommand t None "" None None (Some sc) [] 0 0.

Definition cmd_prune (sc : StatusCommand) (kept : list ExecutionAttempt) : Command :=
  mkCommand CommandPruneAttempts None "" None None (Some sc) kept 0 0.

Definition cmd_memory (delta : Z) : Command :=
  mkCommand CommandUpdateMemoryUsage None "" None None None [] delta 0.

Definition cmd_job_count (delta : Z) : Command :=
  mkCommand CommandUpdateJobCount None "" None None None [] 0 delta.

(** ** Facts *)

Section clone.

Lemma Job_Clone_id j : Job_Clone j = j.
Proof.
  destruct j as [? ? ? ? ? ? ? [p|]]; unfold Job_Clone; simpl; [|done].
  by rewrite list_to_map_to_list.
Qed.

Lemma JobExecutionState_Clone_id s : JobExecutionState_Clone s = s.
Proof. by destruct s. Qed.

Lemma SlotData_Clone_id s : SlotData_Clone s = s.
Proof. by destruct s. Qed.

Lemma clone_map_id {K V} `{Countable K} (f : V → V) (m : gmap K V) :
  (∀ v, f v = v) → f <$> m = m.
Proof. intros Hf. rewrite <-(map_fmap_id m) at 2. by apply map_fmap_ext. Qed.

End clone.

Section validate.

Context `{Cron}.

(** What [Validate] accepts. *)
Definition job_valid (now : Z) (j : Job) : Prop :=
  job_ID j ≠ "" ∧
  ((job_Type j = JobUnico ∧ ∃ ts, job_Timestamp j = Some ts ∧ now < ts) ∨
   (job_Type j = JobRecurrente ∧ job_CronExpr j ≠ "" ∧
      ∃ s, cron_parse (job_CronExpr j) = inl s)).

Lemma Job_Validate_spec now j : Job_Validate now j = None ↔ job_valid now j.
Proof.
  unfold Job_Validate, job_valid.
  destruct (decide (job_ID j = "")); [naive_solver|].
  destruct (decide (job_Type j = JobUnico)) as [E|E].
  - rewrite decide_False by tauto. rewrite decide_False by (by rewrite E).
    rewrite E. destruct (job_Timestamp j) as [ts|]; [|naive_solver].
    case_decide; split; try naive_solver lia.
  - destruct (decide (job_Type j = JobRecurrente)) as [E'|E'];
      [|rewrite decide_True by tauto; naive_solver].
    rewrite decide_False by tauto.
    destruct (decide (job_CronExpr j = "")); [naive_solver|].
    destruct (cron_parse (job_CronExpr j)) as [s|e]; naive_solver.
Qed.

End validate.

(** A cron library with one schedule: every full minute. *)
Definition every_minute : Cron := {|
  Schedule := unit;
  cron_parse := λ _, inl tt;
  cron_next := λ _ t, 60 * (t / 60 + 1) |}.

Lemma every_minute_laws : @CronLaws every_minute.
Proof.
  split. intros s t. left. simpl. pose proof (Z.mod_pos_bound t 60). pose proof (Z.div_mod t 60). lia.
Qed.
