(* ===== verification/Codec.v ===== *)
(** * JSON encoding of the store types

    The struct tags of [internal/store/types] ([omitempty] included) as
    encoders and decoders on JSON documents. This is the form in which
    commands travel through the Raft log and states through snapshots. The
    lemmas at the end are the round trips: the only value that changes is an
    empty, non-nil payload map, which [omitempty] turns into nil. *)

From S2P Require Import Prelude GoStrings Json Types.

(** ** Encoders *)

Definition enc_Attempt (a : ExecutionAttempt) : json := JObj (
  [("attempt_num", JNum (pretty (att_AttemptNum a)));
   ("start_time", JNum (pretty (att_StartTime a)))] ++
  omit_int "end_time" (att_EndTime a) ++
  [("node_id", JStr (att_NodeID a)); ("status", JStr (att_Status a))] ++
  omit_int "http_status" (att_HTTPStatus a) ++
  omit_int "response_time_ms" (att_ResponseTime a) ++
  omit_str "error_message" (att_ErrorMessage a) ++
  omit_str "error_type" (att_ErrorType a)).

Definition enc_State (s : JobExecutionState) : json := JObj (
  [("job_id", JStr (es_JobID s)); ("status", JStr (es_Status s));
   ("attempt_count", JNum (pretty (es_AttemptCount s)));
   ("created_at", JNum (pretty (es_CreatedAt s)))] ++
  omit_int "first_attempt_at" (es_FirstAttemptAt s) ++
  omit_int "last_attempt_at" (es_LastAttemptAt s) ++
  omit_int "completed_at" (es_CompletedAt s) ++
  omit_int "cancelled_at" (es_CancelledAt s) ++
  omit_str "cancellation_reason" (es_CancellationReason s) ++
  omit_str "executing_node_id" (es_ExecutingNodeID s) ++
  [("attempts", JArr (enc_Attempt <$> es_Attempts s))]).

Definition enc_Slot (s : SlotData) : json := JObj
  [("key", JNum (pretty (slot_Key s))); ("min_time", JNum (pretty (slot_MinTime s)));
   ("max_time", JNum (pretty (slot_MaxTime s)));
   ("job_ids", JArr (JStr <$> slot_JobIDs s))].

Definition enc_payload (p : gmap string json) : json := enc_map id id p.

(** [omitempty] on a map drops nil and empty maps alike. *)
Definition omit_map (k : string) (p : option (gmap string json)) : list (string * json) :=
  match p with
  | None => []
  | Some p => if decide (p = ∅) then [] else [(k, enc_payload p)]
  end.

Definition enc_Job (j : Job) : json := JObj (
  [("id", JStr (job_ID j)); ("type", JStr (job_Type j))] ++
  omit_opt "timestamp" (λ z, JNum (pretty z)) (job_Timestamp j) ++
  omit_str "cron_expression" (job_CronExpr j) ++
  omit_opt "last_date" (λ z, JNum (pretty z)) (job_LastDate j) ++
  [("created_at", JNum (pretty (job_CreatedAt j)))] ++
  omit_str "webhook_url" (job_WebhookURL j) ++
  omit_map "payload" (job_Payload j)).

Definition enc_StatusCommand (c : StatusCommand) : json := JObj (
  [("job_id", JStr (sc_JobID c)); ("status", JStr (sc_Status c))] ++
  omit_str "node_id" (sc_NodeID c) ++
  omit_opt "attempt" enc_Attempt (sc_Attempt c) ++
  [("timestamp", JNum (pretty (sc_Timestamp c)))] ++
  omit_str "cancellation_reason" (sc_CancellationReason c)).

Definition enc_Command (c : Command) : json := JObj (
  [("type", JStr (cmd_Type c))] ++
  omit_opt "job" enc_Job (cmd_Job c) ++
  omit_str "id" (cmd_ID c) ++
  omit_opt "slot" enc_Slot (cmd_Slot c) ++
  omit_opt "cold_slot" enc_Slot (cmd_ColdSlot c) ++
  omit_opt "status_command" enc_StatusCommand (cmd_StatusCommand c) ++
  omit_list "attempts" enc_Attempt (cmd_Attempts c) ++
  omit_int "memory_delta" (cmd_MemoryDelta c) ++
  omit_int "job_count_delta" (cmd_JobCountDelta c)).

(** ** Decoders *)

(** The members of an object; [null] leaves the zero struct. *)
Definition members (j : json) : option (list (string * json)) :=
  match j with JObj l => Some l | JNull => Some [] | _ => None end.

Definition dec_Attempt (j : json) : option ExecutionAttempt :=
  l ← members j;
  num ← get_int (field "attempt_num" l);
  st ← get_int (field "start_time" l);
  et ← get_int (field "end_time" l);
  node ← get_str (field "node_id" l);
  status ← get_str (field "status" l);
  http ← get_int (field "http_status" l);
  rt ← get_int (field "response_time_ms" l);
  em ← get_str (field "error_message" l);
  ety ← get_str (field "error_type" l);
  Some (mkAttempt num st et node status http rt em ety).

Definition dec_State (j : json) : option JobExecutionState :=
  l ← members j;
  id ← get_str (field "job_id" l);
  status ← get_str (field "status" l);
  count ← get_int (field "attempt_count" l);
  created ← get_int (field "created_at" l);
  first ← get_int (field "first_attempt_at" l);
  last ← get_int (field "last_attempt_at" l);
  completed ← get_int (field "completed_at" l);
  cancelled ← get_int (field "cancelled_at" l);
  reason ← get_str (field "cancellation_reason" l);
  node ← get_str (field "executing_node_id" l);
  atts ← get_list dec_Attempt (field "attempts" l);
  Some (mkState id status count created first last completed cancelled reason node atts).

Definition dec_Slot (j : json) : option SlotData :=
  l ← members j;
  key ← get_int (field "key" l);
  mn ← get_int (field "min_time" l);
  mx ← get_int (field "max_time" l);
  ids ← get_list dec_str (field "job_ids" l);
  Some (mkSlotData key mn mx ids).

Definition dec_Job (j : json) : option Job :=
  l ← members j;
  id ← get_str (field "id" l);
  type ← get_str (field "type" l);
  ts ← get_ptr dec_int (field "timestamp" l);
  cron ← get_str (field "cron_expression" l);
  last ← get_ptr dec_int (field "last_date" l);
  created ← get_int (field "created_at" l);
  url ← get_str (field "webhook_url" l);
  payload ← get_map Some Some (field "payload" l);
  Some (mkJob id type ts cron last created url payload).

(** [Job.ToBytes] and [JobFromBytes], with documents for bytes. *)
Definition ToBytes (j : Job) : json + error := Marshal (enc_Job j).

Definition JobFromBytes (data : json) : Job + error :=
  match dec_Job data with Some j => inl j | None => inr decode_error end.

Definition dec_StatusCommand (j : json) : option StatusCommand :=
  l ← members j;
  id ← get_str (field "job_id" l);
  status ← get_str (field "status" l);
  node ← get_str (field "node_id" l);
  att ← get_ptr dec_Attempt (field "attempt" l);
  ts ← get_int (field "timestamp" l);
  reason ← get_str (field "cancellation_reason" l);
  Some (mkStatusCommand id status node att ts reason).

Definition dec_Command (j : json) : option Command :=
  l ← members j;
  type ← get_str (field "type" l);
  job ← get_ptr dec_Job (field "job" l);
  id ← get_str (field "id" l);
  slot ← get_ptr dec_Slot (field "slot" l);
  cold ← get_ptr dec_Slot (field "cold_slot" l);
  sc ← get_ptr dec_StatusCommand (field "status_command" l);
  atts ← get_list dec_Attempt (field "attempts" l);
  mem ← get_int (field "memory_delta" l);
  cnt ← get_int (field "job_count_delta" l);
  Some (mkCommand type job id slot cold sc atts mem cnt).

(** ** Values that survive the round trip *)

Definition attempt_ok (a : ExecutionAttempt) : Prop :=
  in64 (att_AttemptNum a) ∧ in64 (att_StartTime a) ∧ in64 (att_EndTime a) ∧
  in64 (att_HTTPStatus a) ∧ in64 (att_ResponseTime a).

Definition state_ok (s : JobExecutionState) : Prop :=
  in64 (es_AttemptCount s) ∧ in64 (es_CreatedAt s) ∧ in64 (es_FirstAttemptAt s) ∧
  in64 (es_LastAttemptAt s) ∧ in64 (es_CompletedAt s) ∧ in64 (es_CancelledAt s) ∧
  Forall attempt_ok (es_Attempts s).

Definition slot_ok (s : SlotData) : Prop :=
  in64 (slot_Key s) ∧ in64 (slot_MinTime s) ∧ in64 (slot_MaxTime s).

Definition opt_in64 (o : option Z) : Prop := ∀ z, o = Some z → in64 z.

(** The integers of a job are machine integers. *)
Definition job_ints_ok (j : Job) : Prop :=
  opt_in64 (job_Timestamp j) ∧ opt_in64 (job_LastDate j) ∧ in64 (job_CreatedAt j).

Definition payload_norm (p : option (gmap string json)) : option (gmap string json) :=
  match p with None => None | Some p => if decide (p = ∅) then None else Some p end.

(** What a job becomes on its way through the log. *)
Definition job_norm (j : Job) : Job :=
  mkJob (job_ID j) (job_Type j) (job_Timestamp j) (job_CronExpr j) (job_LastDate j)
    (job_CreatedAt j) (job_WebhookURL j)
    (payload_norm (job_Payload j)).

Definition job_ok (j : Job) : Prop := job_ints_ok j ∧ job_Payload j ≠ Some ∅.

Definition status_command_ok (c : StatusCommand) : Prop :=
  in64 (sc_Timestamp c) ∧ (∀ a, sc_Attempt c = Some a → attempt_ok a).

Definition command_norm (c : Command) : Command :=
  mkCommand (cmd_Type c) (job_norm <$> cmd_Job c) (cmd_ID c) (cmd_Slot c) (cmd_ColdSlot c)
    (cmd_StatusCommand c) (cmd_Attempts c) (cmd_MemoryDelta c) (cmd_JobCountDelta c).

Definition command_ok (c : Command) : Prop :=
  (∀ j, cmd_Job c = Some j → job_ints_ok j) ∧
  (∀ s, cmd_Slot c = Some s → slot_ok s) ∧ (∀ s, cmd_ColdSlot c = Some s → slot_ok s) ∧
  (∀ s, cmd_StatusCommand c = Some s → status_command_ok s) ∧
  Forall attempt_ok (cmd_Attempts c) ∧ in64 (cmd_MemoryDelta c) ∧ in64 (cmd_JobCountDelta c).

(** ** Round trips *)

(** Evaluate the field lookups of a decoder on an encoder's output. *)
Ltac eval_fold_eq :=
  repeat match goal with
  | |- context [fold_eq ?a ?b] =>
      let r := eval vm_compute in (fold_eq a b) in change (fold_eq a b) with r
  end.

Ltac eval_fields :=
  cbn [members mbind option_bind];
  rewrite ?field_app, ?field_omit_str, ?field_omit_int, ?field_omit_opt, ?field_omit_list;
  cbn [field]; eval_fold_eq; cbn [orelse]; rewrite ?orelse_None_r;
  cbn [orelse].

(** Discharge the field equations one after the other. *)
Ltac run_decoder :=
  repeat first
    [ progress cbn [mbind option_bind get_str fmap option_fmap option_map]
    | rewrite get_str_omit
    | rewrite get_int_omit by done
    | rewrite get_int_pretty by done ].

Section codec.

Lemma dec_enc_Attempt a : attempt_ok a → dec_Attempt (enc_Attempt a) = Some a.
Proof.
  intros (? & ? & ? & ? & ?). destruct a; simpl in *. unfold dec_Attempt, enc_Attempt.
  eval_fields. run_decoder. done.
Qed.

Lemma dec_enc_State s : state_ok s → dec_State (enc_State s) = Some s.
Proof.
  intros (? & ? & ? & ? & ? & ? & Hatt). destruct s; simpl in *.
  unfold dec_State, enc_State. eval_fields. run_decoder.
  rewrite get_list_enc; [done|]. by eapply Forall_impl, dec_enc_Attempt.
Qed.

Lemma dec_enc_Slot s : slot_ok s → dec_Slot (enc_Slot s) = Some s.
Proof.
  intros (? & ? & ?). destruct s; simpl in *. unfold dec_Slot, enc_Slot.
  eval_fields. run_decoder. rewrite get_list_enc; [done|]. by apply Forall_true.
Qed.

Lemma field_omit_map n k p :
  field n (omit_map k p) = if fold_eq k n then enc_payload <$> payload_norm p else None.
Proof.
  destruct p as [p|]; simpl; [|by destruct (fold_eq k n)].
  by case_decide; simpl; destruct (fold_eq k n).
Qed.

Lemma get_payload_enc p :
  get_map Some Some (enc_payload <$> payload_norm p) = Some (payload_norm p).
Proof.
  apply get_ptr_omit; [done|]. intros q _. unfold enc_payload.
  apply dec_enc_map. by intros k v _.
Qed.

Lemma get_int_ptr_omit o :
  opt_in64 o → get_ptr dec_int ((λ z, JNum (pretty z)) <$> o) = Some o.
Proof.
  intros Ho. apply get_ptr_omit; [done|]. intros z ->. by apply get_int_pretty, Ho.
Qed.

Lemma dec_enc_Job j : job_ints_ok j → dec_Job (enc_Job j) = Some (job_norm j).
Proof.
  intros (? & ? & ?). destruct j; simpl in *. unfold dec_Job, enc_Job.
  eval_fields. rewrite ?field_omit_map. eval_fold_eq. cbn [orelse]. run_decoder.
  rewrite !get_int_ptr_omit by done. run_decoder. by rewrite get_payload_enc.
Qed.

Lemma job_bytes_roundtrip j data :
  job_ints_ok j → ToBytes j = inl data → JobFromBytes data = inl (job_norm j).
Proof.
  intros Hj. unfold ToBytes, Marshal. destruct (unsupported _); [done|]. intros [= <-].
  unfold JobFromBytes. by rewrite dec_enc_Job.
Qed.

Lemma dec_enc_StatusCommand c :
  status_command_ok c → dec_StatusCommand (enc_StatusCommand c) = Some c.
Proof.
  intros (? & Ha). destruct c; simpl in *. unfold dec_StatusCommand, enc_StatusCommand.
  eval_fields. run_decoder.
  rewrite get_ptr_omit; [by run_decoder|done|]. intros a E. apply dec_enc_Attempt, Ha, E.
Qed.

Lemma get_job_ptr (o : option Job) :
  (∀ j, o = Some j → job_ints_ok j) →
  get_ptr dec_Job (enc_Job <$> o) = Some (job_norm <$> o).
Proof.
  intros Ho. destruct o as [j|]; [|done].
  transitivity (Some <$> dec_Job (enc_Job j)); [done|].
  by rewrite dec_enc_Job by auto.
Qed.

Lemma get_slot_ptr (o : option SlotData) :
  (∀ s, o = Some s → slot_ok s) → get_ptr dec_Slot (enc_Slot <$> o) = Some o.
Proof. intros Ho. apply get_ptr_omit; [done|]. intros s ->. by apply dec_enc_Slot, Ho. Qed.

Lemma get_status_ptr (o : option StatusCommand) :
  (∀ s, o = Some s → status_command_ok s) →
  get_ptr dec_StatusCommand (enc_StatusCommand <$> o) = Some o.
Proof.
  intros Ho. apply get_ptr_omit; [done|]. intros s ->. by apply dec_enc_StatusCommand, Ho.
Qed.

Lemma dec_enc_Command c :
  command_ok c → dec_Command (enc_Command c) = Some (command_norm c).
Proof.
  intros (? & ? & ? & ? & ? & ? & ?). destruct c; simpl in *.
  unfold dec_Command, enc_Command. eval_fields. run_decoder.
  rewrite get_job_ptr by done. run_decoder. rewrite !get_slot_ptr by done. run_decoder.
  rewrite get_status_ptr by done. run_decoder.
  rewrite get_list_omit; [by run_decoder|]. by eapply Forall_impl, dec_enc_Attempt.
Qed.

Lemma job_norm_ok j : job_ok j → job_norm j = j.
Proof.
  intros [_ Hp]. destruct j as [? ? ? ? ? ? ? [p|]]; unfold job_norm; simpl in *; [|done].
  by rewrite decide_False by congruence.
Qed.

Lemma job_norm_is_ok j : job_ints_ok j → job_ok (job_norm j).
Proof.
  intros Hj. split; [done|]. unfold job_norm. simpl.
  destruct (job_Payload j) as [p|]; simpl; [|done]. case_decide; congruence.
Qed.

End codec.

(** ** Encodable documents

    Only a payload can hold a value that [json.Marshal] refuses. *)

Definition plain (j : json) : Prop := unsupported j = None.

Section plain.

Lemma plain_arr l : Forall plain l → plain (JArr l).
Proof. unfold plain. simpl. induction 1 as [|x l Hx Hl IH]; simpl; [done|]. by rewrite Hx. Qed.

Lemma plain_obj l : Forall (λ kv, plain kv.2) l → plain (JObj l).
Proof. unfold plain. simpl. induction 1 as [|x l Hx Hl IH]; simpl; [done|]. by rewrite Hx. Qed.

Lemma plain_arr_map {A} (enc : A → json) l : (∀ x, plain (enc x)) → plain (JArr (enc <$> l)).
Proof. intros He. apply plain_arr, Forall_fmap, Forall_true. intros x. apply He. Qed.

Lemma plain_omit_str k s : Forall (λ kv, plain kv.2) (omit_str k s).
Proof. unfold omit_str. case_decide; repeat constructor. Qed.

Lemma plain_omit_int k z : Forall (λ kv, plain kv.2) (omit_int k z).
Proof. unfold omit_int. case_decide; repeat constructor. Qed.

Lemma plain_omit_opt {A} k (enc : A → json) o :
  (∀ x, o = Some x → plain (enc x)) → Forall (λ kv, plain kv.2) (omit_opt k enc o).
Proof. intros He. destruct o as [x|]; repeat constructor. by apply He. Qed.

Lemma plain_omit_list {A} k (enc : A → json) l :
  (∀ x, plain (enc x)) → Forall (λ kv, plain kv.2) (omit_list k enc l).
Proof.
  intros He. destruct l as [|x l]; repeat constructor. by apply (plain_arr_map enc (x :: l)).
Qed.

Lemma plain_Attempt a : plain (enc_Attempt a).
Proof.
  apply plain_obj. rewrite !Forall_app. split_and!; auto using plain_omit_str, plain_omit_int;
    repeat constructor.
Qed.

Lemma plain_Slot s : plain (enc_Slot s).
Proof. apply plain_obj. repeat constructor. by apply plain_arr_map. Qed.

Lemma plain_StatusCommand c : plain (enc_StatusCommand c).
Proof.
  apply plain_obj. rewrite !Forall_app. split_and!; auto using plain_omit_str;
    [repeat constructor| |repeat constructor].
  apply plain_omit_opt. intros; apply plain_Attempt.
Qed.

Lemma plain_Command c :
  (∀ j, cmd_Job c = Some j → plain (enc_Job j)) → plain (enc_Command c).
Proof.
  intros Hj. apply plain_obj. rewrite !Forall_app.
  split_and!; auto using plain_omit_str, plain_omit_int, plain_omit_opt, plain_omit_list,
    plain_Attempt, plain_Slot, plain_StatusCommand. repeat constructor.
Qed.

Lemma Marshal_plain j : plain j → Marshal j = inl j.
Proof. unfold plain, Marshal. by intros ->. Qed.

(** A command without a job always marshals. *)
Lemma Marshal_Command c : cmd_Job c = None → Marshal (enc_Command c) = inl (enc_Command c).
Proof. intros E. apply Marshal_plain, plain_Command. by rewrite E. Qed.

Lemma plain_member n l v : plain (JObj l) → field n l = Some v → plain v.
Proof.
  unfold plain. simpl. induction l as [|[k x] l IH]; [done|]. simpl.
  destruct (unsupported x) eqn:E; [done|]. intros Hl. destruct (field n l) as [y|]; simpl.
  - intros [= <-]. by apply IH.
  - by destruct (fold_eq k n); [intros [= <-]|].
Qed.

Lemma plain_in l k v : plain (JObj l) → (k, v) ∈ l → plain v.
Proof.
  unfold plain. simpl. induction l as [|[k' x] l IH]; [set_solver|]. simpl.
  destruct (unsupported x) eqn:E; [done|]. intros Hl [[= -> ->]|Hin]%elem_of_cons; auto.
Qed.

Lemma dec_members_in {V} (dec : json → option V) l kvs :
  dec_members Some dec l = Some kvs →
  ∀ k v, (k, v) ∈ kvs → ∃ j, (k, j) ∈ l ∧ dec j = Some v.
Proof.
  unfold dec_members. intros E%mapM_Some k v Hin.
  apply (Forall2_flip) in E. apply list_elem_of_lookup in Hin as [i Hi].
  destruct (Forall2_lookup_l _ _ _ _ _ E Hi) as ([k' j] & Hj & Hd). simpl in Hd.
  destruct (dec j) as [v'|] eqn:Ed; [|done]. injection Hd as -> ->.
  exists j. split; [by eapply list_elem_of_lookup_2|done].
Qed.

(** The values of a payload that came out of a document are plain. *)
Lemma get_payload_plain o p :
  (∀ j, o = Some j → plain j) → get_map Some (λ j : json, Some j) o = Some (Some p) →
  map_Forall (λ _ v, plain v) p.
Proof.
  intros Ho E. unfold get_map, get_ptr in E. destruct o as [[| | | | |l|]|]; try done.
  specialize (Ho _ eq_refl). unfold dec_map in E.
  destruct (dec_members Some Some l) as [kvs|] eqn:Ek; [|done]. injection E as <-.
  intros k v Hv. apply elem_of_list_to_map_2 in Hv. rewrite elem_of_reverse in Hv.
  destruct (dec_members_in _ _ _ Ek _ _ Hv) as (j & Hj & [= <-]). by eapply plain_in.
Qed.

Lemma plain_payload p : map_Forall (λ _ v, plain v) p → plain (enc_payload p).
Proof.
  intros Hp. apply plain_obj. apply Forall_forall. intros [k v] Hin.
  rewrite merge_sort_Permutation in Hin. apply list_elem_of_fmap in Hin as ([k' v'] & [= -> ->] & Hin).
  apply elem_of_map_to_list in Hin. by apply (Hp k').
Qed.

Lemma plain_Job j : (∀ p, job_Payload j = Some p → map_Forall (λ _ v, plain v) p) → plain (enc_Job j).
Proof.
  intros Hp. apply plain_obj. rewrite !Forall_app.
  split_and!; auto using plain_omit_str; try (by repeat constructor); try (by apply plain_omit_opt).
  unfold omit_map. destruct (job_Payload j) as [p|]; [|constructor]. case_decide; [constructor|].
  repeat constructor. by apply plain_payload, Hp.
Qed.

End plain.

(** ** What a decoder lets through

    Every integer that was read is a machine integer, and every value that was
    read from a document [json.Marshal] accepts is one it accepts again. *)

Section decoded.

Lemma get_int_in64 o z : get_int o = Some z → in64 z.
Proof.
  destruct o as [[]|]; simpl; try done; try apply ParseInt_in64;
    intros [= <-]; unfold in64, two63; lia.
Qed.

Lemma get_ptr_some {A} (dec : json → option A) o x :
  get_ptr dec o = Some (Some x) → ∃ j, o = Some j ∧ dec j = Some x.
Proof.
  destruct o as [j|]; [|done]. intros E. exists j. split; [done|].
  destruct j; simpl in E; try done; destruct (dec _); simpl in E; congruence.
Qed.

Lemma get_ptr_int o z : get_ptr dec_int o = Some z → opt_in64 z.
Proof.
  intros E y ->. apply get_ptr_some in E as (j & _ & E). by apply (get_int_in64 (Some j)).
Qed.

Lemma get_list_forall {A} (dec : json → option A) (P : A → Prop) o l :
  (∀ j x, dec j = Some x → P x) → get_list dec o = Some l → Forall P l.
Proof.
  intros Hd. destruct o as [[| | | |js| |]|]; simpl; try done; try (intros [= <-]; constructor).
  intros E%mapM_Some. induction E; constructor; by eauto.
Qed.

(** Opens a decoder into the fields it has read. *)
Ltac read_fields :=
  simplify_option_eq;
  repeat match goal with
  | H : get_int _ = Some _ |- _ => apply get_int_in64 in H
  | H : get_ptr dec_int _ = Some _ |- _ => apply get_ptr_int in H
  end.

Lemma dec_Attempt_ok j a : dec_Attempt j = Some a → attempt_ok a.
Proof. unfold dec_Attempt. intros E. by read_fields. Qed.

Lemma dec_State_ok j s : dec_State j = Some s → state_ok s.
Proof.
  unfold dec_State. intros E. read_fields. split_and!; try done. simpl.
  eapply get_list_forall; [apply dec_Attempt_ok|done].
Qed.

Lemma dec_Slot_ok j s : dec_Slot j = Some s → slot_ok s.
Proof. unfold dec_Slot. intros E. by read_fields. Qed.

Lemma dec_Job_ints j job : dec_Job j = Some job → job_ints_ok job.
Proof. unfold dec_Job. intros E. by read_fields. Qed.

Lemma dec_StatusCommand_ok j c : dec_StatusCommand j = Some c → status_command_ok c.
Proof.
  unfold dec_StatusCommand. intros E. read_fields. split; [done|]. simpl. intros a ->.
  match goal with H : get_ptr dec_Attempt _ = _ |- _ => apply get_ptr_some in H as (? & _ & ?) end.
  by eapply dec_Attempt_ok.
Qed.

(** What a job that was read can hold. *)
Definition payload_plain (j : Job) : Prop :=
  ∀ p, job_Payload j = Some p → map_Forall (λ _ v, plain v) p.

Lemma dec_Job_payload j job : plain j → dec_Job j = Some job → payload_plain job.
Proof.
  intros Hj E p Hp. unfold dec_Job in E. destruct (members j) as [l|] eqn:El; [|done].
  simplify_option_eq. eapply get_payload_plain; [|done]. intros v Hv.
  destruct j; try done; simplify_eq/=. by eapply plain_member.
Qed.

Lemma dec_Command_ok j c : dec_Command j = Some c → command_ok c.
Proof.
  unfold dec_Command. intros E. read_fields. unfold command_ok. simpl.
  split_and!; try done; try (intros x ->;
    match goal with H : get_ptr _ _ = Some (Some x) |- _ => apply get_ptr_some in H as (? & _ & ?) end).
  - by eapply dec_Job_ints.
  - by eapply dec_Slot_ok.
  - by eapply dec_Slot_ok.
  - by eapply dec_StatusCommand_ok.
  - eapply get_list_forall; [apply dec_Attempt_ok|done].
Qed.

Lemma dec_Command_payload j c job :
  plain j → dec_Command j = Some c → cmd_Job c = Some job → payload_plain job.
Proof.
  intros Hj E Ejob. unfold dec_Command in E. destruct (members j) as [l|] eqn:El; [|done].
  simplify_option_eq.
  match goal with H : get_ptr dec_Job _ = _ |- _ => apply get_ptr_some in H as (d & Hd & ?) end.
  eapply dec_Job_payload; [|done]. destruct j; try done; simplify_eq/=.
  by eapply plain_member.
Qed.

End decoded.
