(* ===== verification/Request.v ===== *)
(** * Requests to create a job: [CreateJobRequest] of [types/job.go]

    The time of the call and the fresh identifier of the [uuid] package are
    arguments of [ToJob]. *)

From S2P Require Import Prelude GoStrings GoTime Json Types Codec.
From Stdlib Require Import Ascii.

Record CreateJobRequest := mkCreateJobRequest {
  req_ID : string;
  req_Type : string;
  req_Timestamp : string;
  req_CronExpr : string;
  req_LastDate : string;
  req_WebhookURL : string;
  req_Payload : option (gmap string json) }.

(** A client may write a key more than once. Every member that names a field
    is decoded over what the ones before it have left: a string replaces it and
    [null] does nothing; the members of an object are added to a map and [null]
    makes it nil. Another type is an error, whatever follows. *)
Definition named (name : string) (l : list (string * json)) : list json :=
  snd <$> filter (λ kv, fold_eq kv.1 name = true) l.

Definition read_str (name : string) (l : list (string * json)) : option string :=
  ofold (λ j s, match j with JNull => Some s | JStr s => Some s | _ => None end) (named name l) "".

Definition decode_over (j : json) (p : option (gmap string json)) : option (option (gmap string json)) :=
  match j with
  | JNull => Some None
  | JObj m => Some (Some (list_to_map (reverse m) ∪ default ∅ p))
  | _ => None
  end.

Definition read_map (name : string) (l : list (string * json)) : option (option (gmap string json)) :=
  ofold decode_over (named name l) None.

(** [json.NewDecoder(body).Decode(&req)] *)
Definition dec_CreateJobRequest (j : json) : option CreateJobRequest :=
  l ← members j;
  id ← read_str "id" l;
  type ← read_str "type" l;
  ts ← read_str "timestamp" l;
  cron ← read_str "cron_expression" l;
  last ← read_str "last_date" l;
  url ← read_str "webhook_url" l;
  payload ← read_map "payload" l;
  Some (mkCreateJobRequest id type ts cron last url payload).

(** The values of a payload that came out of a document are plain. *)
Lemma read_map_plain name l p :
  plain (JObj l) → read_map name l = Some (Some p) → map_Forall (λ _ v, plain v) p.
Proof.
  unfold read_map. intros Hl.
  assert (Forall plain (named name l)) as Hn.
  { apply Forall_forall. intros j ([k v] & -> & [_ Hin]%list_elem_of_filter)%list_elem_of_fmap.
    by eapply plain_in. }
  assert (∀ p0 : gmap string json, None = Some p0 → map_Forall (λ _ v, plain v) p0) as H0 by done.
  revert H0. generalize (None : option (gmap string json)).
  induction Hn as [|j js Hj _ IH]; intros o Ho E; simpl in E; [injection E as ->; by apply Ho|].
  destruct j as [| | | | |m|]; try done; cbn [decode_over mbind option_bind] in E; (eapply IH; [|exact E]); [done|].
  intros p0 [= <-]. apply map_Forall_union_2.
  - intros k v Hv. apply elem_of_list_to_map_2 in Hv. rewrite elem_of_reverse in Hv. by eapply plain_in.
  - destruct o as [p1|]; [by apply Ho|apply map_Forall_empty].
Qed.

(** In [+07:00] no part of the layout is special to [time.Parse]: it is text
    to match. *)
Definition layouts : list (list chunk) :=
  [date_time "T" ++ [CZoneZ]; date_time "T" ++ [CZone]; date_time "T" ++ [CLit "+07:00"];
   date_time " "].

(** The first layout that fits. *)
Fixpoint try_layouts (l : list (list chunk)) (ts : string) : option Z :=
  match l with
  | [] => None
  | layout :: l => match time_Parse layout ts with Some t => Some t | None => try_layouts l ts end
  end.

Definition ParseTimestamp (ts : string) : Z + error :=
  if decide (ts = "") then inl 0
  else
    match ParseInt ts with
    | Some epoch => inl epoch
    | None =>
        match time_Parse RFC3339 ts with
        | Some t => inl t
        | None =>
            match try_layouts layouts ts with
            | Some t => inl t
            | None => inr (errors_New ("invalid timestamp format: " +:+ ts))
            end
        end
    end.

(** [if cond && s != "" { ts, err := ParseTimestamp(s); if err != nil {...}; ... }] *)
Definition parse_if (cond : bool) (s msg : string) (job : Job) (f : Z → Job → Job) : Job + error :=
  if cond && bool_decide (s ≠ "") then
    match ParseTimestamp s with
    | inr e => inr (flatf msg e)
    | inl ts => inl (f ts job)
    end
  else inl job.

Definition set_Timestamp (t : Z) (j : Job) : Job :=
  mkJob (job_ID j) (job_Type j) (Some t) (job_CronExpr j) (job_LastDate j) (job_CreatedAt j)
    (job_WebhookURL j) (job_Payload j).

Definition set_LastDate (t : Z) (j : Job) : Job :=
  mkJob (job_ID j) (job_Type j) (job_Timestamp j) (job_CronExpr j) (Some t) (job_CreatedAt j)
    (job_WebhookURL j) (job_Payload j).

Definition ToJob (now : Z) (uuid : string) (r : CreateJobRequest) : Job + error :=
  let job := mkJob (if decide (req_ID r = "") then uuid else req_ID r) (req_Type r) None
    (req_CronExpr r) None now (req_WebhookURL r) (req_Payload r) in
  let unico := bool_decide (req_Type r = JobUnico) in
  let recurrente := bool_decide (req_Type r = JobRecurrente) in
  match parse_if unico (req_Timestamp r) "invalid timestamp: " job set_Timestamp with
  | inr e => inr e
  | inl job =>
      match parse_if recurrente (req_Timestamp r) "invalid timestamp: " job set_CreatedAt with
      | inr e => inr e
      | inl job => parse_if recurrente (req_LastDate r) "invalid last_date: " job set_LastDate
      end
  end.

(** ** Timestamps *)

Section timestamps.

#[local] Arguments digit_val : simpl never.

Lemma scan_sign_digit_val c s d : digit_val c = Some d → scan_sign (String c s) = (false, String c s).
Proof. destruct c as [[] [] [] [] [] [] [] []]; done. Qed.

Lemma ParseInt_print_civil c : civil_ok c → ParseInt (print_civil c) = None.
Proof.
  intros (Hy & _). unfold print_civil. generalize (two_digits (c_month c)). intros f. unfold two_digits.
  assert (0 <= c_year c / 100 < 100 ∧ 0 <= c_year c mod 100 < 100) as [H1 H2]
    by (Z.to_euclidean_division_equations; lia).
  destruct (two_digits_bound _ H1), (two_digits_bound _ H2). unfold ParseInt, scan_int64.
  erewrite scan_sign_digit_val by (by apply digit_val_digit). simpl. rewrite !digit_val_digit by done.
  simpl. change (digit_val "-"%char) with (@None Z). by case_decide.
Qed.

Lemma print_civil_ne_empty c : print_civil c ≠ "".
Proof. done. Qed.

(** C30: [ParseTimestamp] inverts both ways of writing a time: every [int64]
    in decimal is that number of seconds, and every date and time of the
    years 0 to 9999 in a zone of whole minutes, written as RFC 3339, is its
    Unix time. *)
Theorem parse_timestamp_roundtrip z c :
  in64 z → civil_ok c →
  ParseTimestamp (pretty z) = inl z ∧ ParseTimestamp (print_civil c) = inl (civil_unix c).
Proof.
  intros Hz Hc. unfold ParseTimestamp. rewrite !decide_False by done. split.
  - by rewrite ParseInt_pretty.
  - by rewrite ParseInt_print_civil, time_Parse_print.
Qed.

Lemma parse_timestamp_roundtrip_witness :
  print_civil (mkCivil 2024 2 29 23 59 59 (-19800)) = "2024-02-29T23:59:59-05:30" ∧
  ParseTimestamp (pretty (-5)) = inl (-5) ∧
  ParseTimestamp "2024-02-29T23:59:59-05:30" = inl 1709270999.
Proof.
  split; [vm_compute; reflexivity|].
  apply (parse_timestamp_roundtrip (-5) (mkCivil 2024 2 29 23 59 59 (-19800))).
  - unfold in64, two63. lia.
  - unfold civil_ok; simpl. unfold daysIn. simpl. change (isLeap 2024) with true. split_and!; try lia. done.
Defined.

End timestamps.

(** ** What the conversion keeps *)

Section to_job.

Lemma ParseTimestamp_in64 s t : ParseTimestamp s = inl t → in64 t.
Proof.
  unfold ParseTimestamp. case_decide; [intros [= <-]; unfold in64, two63; lia|].
  destruct (ParseInt s) eqn:E1; [intros [= <-]; by eapply ParseInt_in64|].
  destruct (time_Parse RFC3339 s) eqn:E2; [intros [= <-]; by eapply time_Parse_in64|].
  assert (∀ l t, try_layouts l s = Some t → in64 t) as Hl.
  { intros l. induction l as [|lay l IH]; [done|]. intros t'. simpl.
    destruct (time_Parse lay s) eqn:E3; [intros [= <-]; by eapply time_Parse_in64|apply IH]. }
  destruct (try_layouts layouts s) eqn:E3; [|done]. intros [= <-]. by eapply Hl.
Qed.

Lemma parse_if_inl cond s msg job f j' (R : Job → Prop) :
  parse_if cond s msg job f = inl j' → R job → (∀ t, in64 t → R (f t job)) → R j'.
Proof.
  unfold parse_if. intros E Hj Hf. destruct (cond && bool_decide (s ≠ "")); [|by injection E as <-].
  destruct (ParseTimestamp s) as [t|] eqn:Et; [|done]. injection E as <-.
  by eapply Hf, ParseTimestamp_in64.
Qed.

(** The fields of the request that the job has, and times that fit. *)
Lemma ToJob_inl now uuid r j :
  ToJob now uuid r = inl j → in64 now → uuid ≠ "" →
  job_ID j ≠ "" ∧ job_ints_ok j ∧ job_Payload j = req_Payload r ∧ job_Type j = req_Type r.
Proof.
  intros E Hnow Hu. unfold ToJob in E.
  set (R := λ j, job_ID j ≠ "" ∧ job_ints_ok j ∧ job_Payload j = req_Payload r ∧ job_Type j = req_Type r).
  set (j0 := mkJob _ _ _ _ _ _ _ _) in E.
  assert (R j0) as H0.
  { unfold R, j0, job_ints_ok. simpl. split_and!; [by destruct (decide (req_ID r = ""))|by intros ? [=]|by intros ? [=]|done..]. }
  assert (∀ f, f = set_Timestamp ∨ f = set_CreatedAt ∨ f = set_LastDate →
    ∀ j t, R j → in64 t → R (f t j)) as Hset.
  { intros f Hf j' t (? & (? & ? & ?) & ? & ?) Ht.
    destruct Hf as [-> | [-> | ->]]; unfold R, job_ints_ok; simpl; split_and!; try done;
      by intros ? [= <-]. }
  destruct (parse_if _ _ _ j0 set_Timestamp) as [j1|] eqn:E1; [|done].
  destruct (parse_if _ _ _ j1 set_CreatedAt) as [j2|] eqn:E2; [|done].
  assert (R j1) as H1 by (eapply (parse_if_inl _ _ _ _ _ _ R E1); auto).
  assert (R j2) as H2 by (eapply (parse_if_inl _ _ _ _ _ _ R E2); auto).
  eapply (parse_if_inl _ _ _ _ _ _ R E); auto.
Qed.

End to_job.

(** ** Accepted requests *)

Section accepted.

Context `{Cron}.

(** A field that is left out or holds a time. *)
Definition time_or_empty (s : string) : Prop := s = "" ∨ ∃ t, ParseTimestamp s = inl t.

(** C37: Which requests become a job. Converted at one reading of the clock
    and validated at a later one, a request is accepted exactly if it is a
    one-off job with a time that lies in the future, or a recurring one with
    a cron expression that parses and a first and a last time that are times
    if they are given. *)
Theorem request_accepted_iff now now' uuid r :
  uuid ≠ "" →
  (∃ j, ToJob now uuid r = inl j ∧ Job_Validate now' j = None) ↔
  (req_Type r = JobUnico ∧ req_Timestamp r ≠ "" ∧
     ∃ ts, ParseTimestamp (req_Timestamp r) = inl ts ∧ now' < ts) ∨
  (req_Type r = JobRecurrente ∧ req_CronExpr r ≠ "" ∧ (∃ s, cron_parse (req_CronExpr r) = inl s) ∧
     time_or_empty (req_Timestamp r) ∧ time_or_empty (req_LastDate r)).
Proof.
  intros Hu. setoid_rewrite Job_Validate_spec. unfold ToJob, parse_if, job_valid, time_or_empty.
  assert ((if decide (req_ID r = "") then uuid else req_ID r) ≠ "") as Hid by (by case_decide).
  destruct (decide (req_Type r = JobUnico)) as [E|E].
  - rewrite (bool_decide_true (req_Type r = JobUnico)) by done.
    rewrite (bool_decide_false (req_Type r = JobRecurrente)) by (by rewrite E).
    rewrite E. simpl. case_bool_decide as Ht; simpl; [|naive_solver].
    destruct (ParseTimestamp (req_Timestamp r)) as [ts|e]; simpl; [|naive_solver].
    split; [|intros Hr; eexists; split; [done|]; simpl; naive_solver].
    intros (j & [= <-] & _ & Hj). simpl in Hj. naive_solver.
  - rewrite (bool_decide_false (req_Type r = JobUnico)) by done. simpl.
    destruct (decide (req_Type r = JobRecurrente)) as [E'|E'].
    2:{ rewrite (bool_decide_false (req_Type r = JobRecurrente)) by done. simpl. naive_solver. }
    rewrite (bool_decide_true (req_Type r = JobRecurrente)) by done. rewrite E'. simpl.
    repeat case_bool_decide; simpl; destruct (ParseTimestamp (req_Timestamp r)) as [ts|e];
      destruct (ParseTimestamp (req_LastDate r)) as [ld|e']; simpl; naive_solver.
Qed.

End accepted.

Definition ex_request : CreateJobRequest :=
  mkCreateJobRequest "" JobRecurrente "" "* * * * *" "2030-01-01T00:00:00Z" "" None.

Lemma request_accepted_iff_witness :
  ∃ j, ToJob 100 "u" ex_request = inl j ∧ @Job_Validate every_minute 101 j = None.
Proof.
  apply (@request_accepted_iff every_minute); [done|]. right.
  split_and!; [done|done|by exists tt|by left|]. right. eexists. vm_compute. reflexivity.
Defined.
