(* ===== verification/ColdStore.v ===== *)
(** * Cold slot store: the [ColdSlotStore] interface and [cold_store.go]

    [ColdSlotStore] is the interface [fsm.go] declares; [ColdSlotStoreLaws]
    is what the state machine relies on. [BoltColdSlotStore] implements it on
    top of bbolt, a third-party key/value store that class [Bolt] stands for:
    one bucket from byte strings to byte strings, with transactions that may
    fail. The lemmas show that the implementation satisfies the interface's
    laws; the eight-byte big-endian keys of [itob] are what keeps slots
    apart. *)

From S2P Require Import Prelude GoStrings Json Types Codec.

(** ** The interface *)

Class ColdSlotStore (CS : Type) := {
  PutColdSlot : Z → SlotData → CS → CS * option error;
  GetColdSlot : Z → CS → option SlotData + error;
  DeleteColdSlot : Z → CS → CS * option error }.

(** [cold_at cs k] is the slot stored under [k]; a failed operation changes
    nothing. *)
Class ColdSlotStoreLaws (CS : Type) `{ColdSlotStore CS} := {
  cold_at : CS → Z → option SlotData;
  put_cold_at : ∀ k d cs k', in64 k → in64 k' → slot_ok d →
    cold_at (PutColdSlot k d cs).1 k' =
      match (PutColdSlot k d cs).2 with
      | None => if decide (k = k') then Some d else cold_at cs k'
      | Some _ => cold_at cs k'
      end;
  get_cold_at : ∀ k cs o, GetColdSlot k cs = inl o → o = cold_at cs k;
  delete_cold_at : ∀ k cs k', in64 k → in64 k' →
    cold_at (DeleteColdSlot k cs).1 k' =
      match (DeleteColdSlot k cs).2 with
      | None => if decide (k = k') then None else cold_at cs k'
      | Some _ => cold_at cs k'
      end }.

(** ** bbolt *)

Class Bolt (DB : Type) := {
  bolt_has_bucket : DB → bool;
  bolt_view_err : DB → option error;
  bolt_get : list Z → DB → option json;
  bolt_put : list Z → json → DB → DB * option error;
  bolt_delete : list Z → DB → DB * option error }.

(** A committed transaction is the map update, a failed one rolls back. *)
Class BoltLaws (DB : Type) `{Bolt DB} : Prop := {
  bolt_put_bucket : ∀ k v db, bolt_has_bucket (bolt_put k v db).1 = bolt_has_bucket db;
  bolt_delete_bucket : ∀ k db, bolt_has_bucket (bolt_delete k db).1 = bolt_has_bucket db;
  bolt_put_get : ∀ k v db k', bolt_get k' (bolt_put k v db).1 =
    match (bolt_put k v db).2 with
    | None => if decide (k = k') then Some v else bolt_get k' db
    | Some _ => bolt_get k' db
    end;
  bolt_delete_get : ∀ k db k', bolt_get k' (bolt_delete k db).1 =
    match (bolt_delete k db).2 with
    | None => if decide (k = k') then None else bolt_get k' db
    | Some _ => bolt_get k' db
    end }.

(** ** cold_store.go *)

(** [byte(v >> s)] *)
Definition byte_shift (v s : Z) : Z := Z.land (Z.shiftr v s) 255.

Definition itob (v : Z) : list Z :=
  [byte_shift v 56; byte_shift v 48; byte_shift v 40; byte_shift v 32;
   byte_shift v 24; byte_shift v 16; byte_shift v 8; byte_shift v 0].

Definition be_value (l : list Z) : Z := foldl (λ acc b, acc * 256 + b) 0 l.

Section itob.

Lemma byte_shift_div v s : 0 <= s → byte_shift v s = v / 2 ^ s mod 256.
Proof.
  intros ?. unfold byte_shift. rewrite Z.shiftr_div_pow2 by done.
  change 255 with (Z.ones 8). by rewrite Z.land_ones.
Qed.

Lemma be_value_itob v : be_value (itob v) = v mod two64.
Proof.
  unfold be_value, itob, two64. simpl. rewrite !byte_shift_div by lia.
  change (2 ^ 56) with 72057594037927936. change (2 ^ 48) with 281474976710656.
  change (2 ^ 40) with 1099511627776. change (2 ^ 32) with 4294967296.
  change (2 ^ 24) with 16777216. change (2 ^ 16) with 65536.
  change (2 ^ 8) with 256. change (2 ^ 0) with 1.
  Z.to_euclidean_division_equations. lia.
Qed.

Lemma itob_inj v w : in64 v → in64 w → itob v = itob w → v = w.
Proof.
  intros Hv Hw E%(f_equal be_value). rewrite !be_value_itob in E.
  unfold in64, two63, two64 in *.
  pose proof (Z.div_mod v 18446744073709551616). pose proof (Z.div_mod w 18446744073709551616).
  Z.to_euclidean_division_equations. lia.
Qed.

End itob.

Section BoltColdSlotStore.

Context {DB : Type} `{Bolt DB}.

Definition PutColdSlot_bolt (key : Z) (data : SlotData) (b : DB) : DB * option error :=
  match Marshal (enc_Slot data) with
  | inr e => (b, Some (flatf ("failed to marshal cold slot " +:+ pretty key +:+ ": ") e))
  | inl serialized =>
      if bolt_has_bucket b then bolt_put (itob key) serialized b
      else (b, Some (errors_New "cold slots bucket not found"))
  end.

Definition GetColdSlot_bolt (key : Z) (b : DB) : option SlotData + error :=
  match bolt_view_err b with
  | Some e => inr e
  | None =>
      if bolt_has_bucket b then
        match bolt_get (itob key) b with
        | None => inl None
        | Some data =>
            match dec_Slot data with
            | Some s => inl (Some s)
            | None =>
                inr (flatf ("failed to unmarshal cold slot " +:+ pretty key +:+ ": ") decode_error)
            end
        end
      else inr (errors_New "cold slots bucket not found")
  end.

Definition DeleteColdSlot_bolt (key : Z) (b : DB) : DB * option error :=
  if bolt_has_bucket b then bolt_delete (itob key) b else (b, None).

#[export] Instance BoltColdSlotStore : ColdSlotStore DB := {|
  PutColdSlot := PutColdSlot_bolt;
  GetColdSlot := GetColdSlot_bolt;
  DeleteColdSlot := DeleteColdSlot_bolt |}.

Definition bolt_cold_at (b : DB) (k : Z) : option SlotData :=
  if bolt_has_bucket b then bolt_get (itob k) b ≫= dec_Slot else None.

Lemma Marshal_enc_Slot d : Marshal (enc_Slot d) = inl (enc_Slot d).
Proof.
  unfold Marshal. simpl. by induction (slot_JobIDs d); simpl.
Qed.

Context `{!BoltLaws DB}.

Lemma put_bolt_cold_at k d b k' :
  in64 k → in64 k' → slot_ok d →
  bolt_cold_at (PutColdSlot_bolt k d b).1 k' =
    match (PutColdSlot_bolt k d b).2 with
    | None => if decide (k = k') then Some d else bolt_cold_at b k'
    | Some _ => bolt_cold_at b k'
    end.
Proof.
  intros Hk Hk' Hd. unfold PutColdSlot_bolt. rewrite Marshal_enc_Slot.
  destruct (bolt_has_bucket b) eqn:Eb; [|done].
  unfold bolt_cold_at. rewrite bolt_put_bucket, Eb, bolt_put_get.
  destruct (bolt_put (itob k) (enc_Slot d) b).2; [done|].
  destruct (decide (k = k')) as [->|Hne].
  - rewrite decide_True by done. simpl. by apply dec_enc_Slot.
  - rewrite decide_False; [done|]. intros E. by apply Hne, itob_inj.
Qed.

Lemma get_bolt_cold_at k b o : GetColdSlot_bolt k b = inl o → o = bolt_cold_at b k.
Proof.
  unfold GetColdSlot_bolt, bolt_cold_at. destruct (bolt_view_err b); [done|].
  destruct (bolt_has_bucket b); [|done].
  destruct (bolt_get (itob k) b) as [data|]; simpl; [|naive_solver].
  destruct (dec_Slot data); naive_solver.
Qed.

Lemma delete_bolt_cold_at k b k' :
  in64 k → in64 k' →
  bolt_cold_at (DeleteColdSlot_bolt k b).1 k' =
    match (DeleteColdSlot_bolt k b).2 with
    | None => if decide (k = k') then None else bolt_cold_at b k'
    | Some _ => bolt_cold_at b k'
    end.
Proof.
  intros Hk Hk'. unfold DeleteColdSlot_bolt, bolt_cold_at.
  destruct (bolt_has_bucket b) eqn:Eb; simpl; rewrite ?Eb; [|by case_decide].
  rewrite bolt_delete_bucket, Eb, bolt_delete_get.
  destruct (bolt_delete (itob k) b).2; [done|].
  destruct (decide (k = k')) as [->|Hne]; [by rewrite decide_True|].
  rewrite decide_False; [done|]. intros E. by apply Hne, itob_inj.
Qed.

#[export] Instance BoltColdSlotStoreLaws : ColdSlotStoreLaws DB := {|
  cold_at := bolt_cold_at;
  put_cold_at := put_bolt_cold_at;
  get_cold_at := get_bolt_cold_at;
  delete_cold_at := delete_bolt_cold_at |}.

End BoltColdSlotStore.

(** ** An in-memory bucket

    The smallest store that satisfies the assumptions about bbolt. *)

Section MemBolt.

Definition MemBolt : Type := gmap (list Z) json.

#[export] Instance MemBolt_Bolt : Bolt MemBolt := {|
  bolt_has_bucket _ := true;
  bolt_view_err _ := None;
  bolt_get k (db : gmap (list Z) json) := db !! k;
  bolt_put k v (db : gmap (list Z) json) := (<[k:=v]> db, None);
  bolt_delete k (db : gmap (list Z) json) := (delete k db, None) |}.

#[export] Instance MemBolt_BoltLaws : BoltLaws MemBolt.
Proof.
  split; try done; intros; simpl.
  - apply lookup_insert.
  - apply lookup_delete.
Qed.

End MemBolt.
