(* ===== verification/FSM.v ===== *)
(** * The replicated state machine: [fsm.go] and [raft_adapter.go]

    [FSM] is the state; [applyCommandInternal] the command dispatcher with
    every branch of [fsm.go], errors included; [FSM_Apply], [GetSnapshot],
    [Persist] and [Restore] the Raft adapter. The mutex makes each operation
    atomic, so operations are functions of the state. The type of the cold
    store is a parameter, as the Go interface is. *)

From S2P Require Import Prelude GoStrings Json Types Codec ColdStore.

(** ** Sentinel errors of [errors.go] *)

Definition ErrNotLeader : error := Err "not leader" [SErrNotLeader].
Definition ErrNotFound : error := Err "not found" [SErrNotFound].
Definition ErrColdStoreNotEnabled : error :=
  Err "cold store not enabled" [SErrColdStoreNotEnabled].
Definition ErrSlotNotFound : error := Err "slot not found" [SErrSlotNotFound].

Definition NotLeaderError (context : string) : error :=
  if decide (context = "") then ErrNotLeader else wrapf (context +:+ ": ") ErrNotLeader.

(** ** State *)

Record FSM (CS : Type) := mkFSM {
  f_jobs : gmap string Job;
  f_slots : gmap Z SlotData;
  f_coldSlotMeta : gmap Z bool;
  f_coldStore : option CS;
  f_executionStates : gmap string JobExecutionState;
  f_memoryUsage : Z;
  f_jobCount : Z }.

Arguments mkFSM {CS}.
Arguments f_jobs {CS}.
Arguments f_slots {CS}.
Arguments f_coldSlotMeta {CS}.
Arguments f_coldStore {CS}.
Arguments f_executionStates {CS}.
Arguments f_memoryUsage {CS}.
Arguments f_jobCount {CS}.

(** What [applyCommandInternal] returns as an [interface{}]. *)
Inductive ApplyResult :=
  | RNil
  | RJob (j : Job)
  | RSlot (s : SlotData)
  | RInt (z : Z)
  | RErr (e : error).

Definition of_error (e : option error) : ApplyResult :=
  match e with None => RNil | Some e => RErr e end.

(** ** The status state machine *)

Definition validTransitions : gmap string (list string) :=
  list_to_map
    [(StatusPending, [StatusInProgress; StatusCancelled]);
     (StatusInProgress, [StatusCompleted; StatusFailed; StatusTimeout; StatusCancelled]);
     (StatusTimeout, [StatusInProgress]);
     (StatusFailed, [StatusInProgress]);
     (StatusCompleted, []);
     (StatusCancelled, [])].

Definition validateStateTransition (from to : string) : option error :=
  match validTransitions !! from with
  | None => Some (errors_New ("unknown status: " +:+ from))
  | Some allowed =>
      if decide (to ∈ allowed) then None
      else Some (errors_New ("invalid state transition from " +:+ from +:+ " to " +:+ to))
  end.

(** ** Operations *)

Section FSM.

Context {CS : Type} `{ColdSlotStore CS} `{GoRange}.

Implicit Types f : FSM CS.

Definition set_jobs (m : gmap string Job) f : FSM CS :=
  mkFSM m (f_slots f) (f_coldSlotMeta f) (f_coldStore f) (f_executionStates f)
    (f_memoryUsage f) (f_jobCount f).

Definition set_slots (m : gmap Z SlotData) f : FSM CS :=
  mkFSM (f_jobs f) m (f_coldSlotMeta f) (f_coldStore f) (f_executionStates f)
    (f_memoryUsage f) (f_jobCount f).

Definition set_coldSlotMeta (m : gmap Z bool) f : FSM CS :=
  mkFSM (f_jobs f) (f_slots f) m (f_coldStore f) (f_executionStates f)
    (f_memoryUsage f) (f_jobCount f).

Definition set_coldStore (cs : option CS) f : FSM CS :=
  mkFSM (f_jobs f) (f_slots f) (f_coldSlotMeta f) cs (f_executionStates f)
    (f_memoryUsage f) (f_jobCount f).

Definition set_executionStates (m : gmap string JobExecutionState) f : FSM CS :=
  mkFSM (f_jobs f) (f_slots f) (f_coldSlotMeta f) (f_coldStore f) m
    (f_memoryUsage f) (f_jobCount f).

Definition set_memoryUsage (z : Z) f : FSM CS :=
  mkFSM (f_jobs f) (f_slots f) (f_coldSlotMeta f) (f_coldStore f) (f_executionStates f)
    z (f_jobCount f).

Definition set_jobCount (z : Z) f : FSM CS :=
  mkFSM (f_jobs f) (f_slots f) (f_coldSlotMeta f) (f_coldStore f) (f_executionStates f)
    (f_memoryUsage f) z.

Definition NewFSM : FSM CS := mkFSM ∅ ∅ ∅ None ∅ 0 0.

Definition NewFSMWithColdStore (cs : CS) : FSM CS := mkFSM ∅ ∅ ∅ (Some cs) ∅ 0 0.

(** A fresh pending entry. *)
Definition pending_state (id : string) (created : Z) : JobExecutionState :=
  mkState id StatusPending 0 created 0 0 0 0 "" "" [].

(** The field updates of [applyStatusUpdate] once the transition is valid. *)
Definition update_status (c : StatusCommand) (s : JobExecutionState) : JobExecutionState :=
  let st := sc_Status c in
  if decide (st = StatusInProgress) then
    mkState (es_JobID s) st (i64 (es_AttemptCount s + 1)) (es_CreatedAt s)
      (if decide (es_FirstAttemptAt s = 0) then sc_Timestamp c else es_FirstAttemptAt s)
      (sc_Timestamp c) (es_CompletedAt s) (es_CancelledAt s) (es_CancellationReason s)
      (sc_NodeID c) (es_Attempts s)
  else if decide (st = StatusCompleted ∨ st = StatusFailed) then
    mkState (es_JobID s) st (es_AttemptCount s) (es_CreatedAt s) (es_FirstAttemptAt s)
      (es_LastAttemptAt s) (sc_Timestamp c) (es_CancelledAt s) (es_CancellationReason s)
      "" (es_Attempts s)
  else if decide (st = StatusCancelled) then
    mkState (es_JobID s) st (es_AttemptCount s) (es_CreatedAt s) (es_FirstAttemptAt s)
      (es_LastAttemptAt s) (sc_Timestamp c) (sc_Timestamp c) (sc_CancellationReason c)
      "" (es_Attempts s)
  else if decide (st = StatusTimeout) then
    mkState (es_JobID s) st (es_AttemptCount s) (es_CreatedAt s) (es_FirstAttemptAt s)
      (es_LastAttemptAt s) (es_CompletedAt s) (es_CancelledAt s) (es_CancellationReason s)
      "" (es_Attempts s)
  else
    mkState (es_JobID s) st (es_AttemptCount s) (es_CreatedAt s) (es_FirstAttemptAt s)
      (es_LastAttemptAt s) (es_CompletedAt s) (es_CancelledAt s) (es_CancellationReason s)
      (es_ExecutingNodeID s) (es_Attempts s).

(** A missing entry is created, and stays, before the transition is checked. *)
Definition applyStatusUpdate (c : StatusCommand) f : option error * FSM CS :=
  let '(state, f1) :=
    match f_executionStates f !! sc_JobID c with
    | Some s => (s, f)
    | None =>
        let s := pending_state (sc_JobID c) (sc_Timestamp c) in
        (s, set_executionStates (<[sc_JobID c := s]> (f_executionStates f)) f)
    end in
  match validateStateTransition (es_Status state) (sc_Status c) with
  | Some e => (Some e, f1)
  | None =>
      (None, set_executionStates
               (<[sc_JobID c := update_status c state]> (f_executionStates f1)) f1)
  end.

Definition set_Attempts (l : list ExecutionAttempt) (s : JobExecutionState) : JobExecutionState :=
  mkState (es_JobID s) (es_Status s) (es_AttemptCount s) (es_CreatedAt s)
    (es_FirstAttemptAt s) (es_LastAttemptAt s) (es_CompletedAt s) (es_CancelledAt s)
    (es_CancellationReason s) (es_ExecutingNodeID s) l.

Definition state_not_found (id : string) : error :=
  wrapf ("execution state not found for job " +:+ id +:+ ": ") ErrNotFound.

Definition applyRecordAttempt (c : StatusCommand) f : option error * FSM CS :=
  match f_executionStates f !! sc_JobID c with
  | None => (Some (state_not_found (sc_JobID c)), f)
  | Some s =>
      match sc_Attempt c with
      | None => (Some (errors_New "attempt is required for record attempt command"), f)
      | Some a =>
          (None, set_executionStates
             (<[sc_JobID c := set_Attempts (es_Attempts s ++ [a]) s]> (f_executionStates f)) f)
      end
  end.

Definition applyPruneAttempts (c : StatusCommand) (kept : list ExecutionAttempt) f
    : option error * FSM CS :=
  match f_executionStates f !! sc_JobID c with
  | None => (Some (state_not_found (sc_JobID c)), f)
  | Some s =>
      (None, set_executionStates
         (<[sc_JobID c := set_Attempts kept s]> (f_executionStates f)) f)
  end.

(** [newVal := counter.Add(delta); if newVal < 0 { counter.Store(0) }] *)
Definition clamp_add (v delta : Z) : Z :=
  let newVal := i64 (v + delta) in if decide (newVal < 0) then 0 else newVal.

Definition applyMemoryUpdate (delta : Z) f : ApplyResult * FSM CS :=
  let v := clamp_add (f_memoryUsage f) delta in (RInt v, set_memoryUsage v f).

Definition applyJobCountUpdate (delta : Z) f : ApplyResult * FSM CS :=
  let v := clamp_add (f_jobCount f) delta in (RInt v, set_jobCount v f).

(** The branches of the dispatcher, one per command. *)

Definition applyCreateJob (cmd : Command) f : ApplyResult * FSM CS :=
  match cmd_Job cmd with
  | None => (RErr (errors_New "job is required for create command"), f)
  | Some j =>
      (RJob j,
       set_executionStates
         (<[job_ID j := pending_state (job_ID j) (job_CreatedAt j)]> (f_executionStates f))
         (set_jobs (<[job_ID j := j]> (f_jobs f)) f))
  end.

Definition applyDeleteJob (cmd : Command) f : ApplyResult * FSM CS :=
  if decide (cmd_ID cmd = "") then
    (RErr (errors_New "job ID is required for delete command"), f)
  else
    (RNil, set_executionStates (delete (cmd_ID cmd) (f_executionStates f))
             (set_jobs (delete (cmd_ID cmd) (f_jobs f)) f)).

Definition applyCreateSlot (cmd : Command) f : ApplyResult * FSM CS :=
  match cmd_Slot cmd with
  | None => (RErr (errors_New "slot is required for create slot command"), f)
  | Some s => (RSlot s, set_slots (<[slot_Key s := s]> (f_slots f)) f)
  end.

Definition applyDeleteSlot (cmd : Command) f : ApplyResult * FSM CS :=
  if decide (cmd_ID cmd = "") then
    (RErr (errors_New "slot key is required for delete slot command"), f)
  else
    match Sscanf_d (cmd_ID cmd) with
    | None => (RErr (errors_New ("invalid slot key: " +:+ cmd_ID cmd)), f)
    | Some key =>
        let f1 := set_coldSlotMeta (delete key (f_coldSlotMeta f))
                    (set_slots (delete key (f_slots f)) f) in
        (RNil, match f_coldStore f1 with
               | None => f1
               | Some cs => set_coldStore (Some (DeleteColdSlot key cs).1) f1
               end)
    end.

Definition applyArchiveSlot (cmd : Command) f : ApplyResult * FSM CS :=
  match cmd_ColdSlot cmd with
  | None => (RErr (errors_New "cold slot data is required for archive slot command"), f)
  | Some d =>
      match f_coldStore f with
      | None => (RErr ErrColdStoreNotEnabled, f)
      | Some cs =>
          let key := slot_Key d in
          let '(cs', err) := PutColdSlot key d cs in
          let f1 := set_coldStore (Some cs') f in
          match err with
          | Some e =>
              (RErr (flatf ("failed to archive slot " +:+ pretty key +:+ " to cold store: ") e), f1)
          | None =>
              (RNil, set_coldSlotMeta (<[key := true]> (f_coldSlotMeta f1))
                       (set_slots (delete key (f_slots f1)) f1))
          end
      end
  end.

Definition applyUnarchiveSlot (cmd : Command) f : ApplyResult * FSM CS :=
  if decide (cmd_ID cmd = "") then
    (RErr (errors_New "slot key is required for unarchive slot command"), f)
  else
    match f_coldStore f with
    | None => (RErr ErrColdStoreNotEnabled, f)
    | Some cs =>
        match Sscanf_d (cmd_ID cmd) with
        | None => (RErr (errors_New ("invalid slot key: " +:+ cmd_ID cmd)), f)
        | Some key =>
            match GetColdSlot key cs with
            | inr e =>
                (RErr (flatf ("failed to unarchive slot " +:+ pretty key
                              +:+ " from cold store: ") e), f)
            | inl o =>
                let f1 := match o with
                          | Some d => set_slots (<[key := d]> (f_slots f)) f
                          | None => f
                          end in
                let f2 := set_coldStore (Some (DeleteColdSlot key cs).1) f1 in
                (RNil, set_coldSlotMeta (delete key (f_coldSlotMeta f2)) f2)
            end
        end
    end.

(** [switch cmd.Type { ... }] *)
Definition applyCommandInternal (cmd : Command) f : ApplyResult * FSM CS :=
  let t := cmd_Type cmd in
  let on_status (what : string) (k : StatusCommand → option error * FSM CS) :=
    match cmd_StatusCommand cmd with
    | None => (RErr (errors_New ("status command is required for " +:+ what)), f)
    | Some sc => let '(e, f') := k sc in (of_error e, f')
    end in
  if decide (t = CommandCreateJob) then applyCreateJob cmd f
  else if decide (t = CommandDeleteJob) then applyDeleteJob cmd f
  else if decide (t = CommandCreateSlot) then applyCreateSlot cmd f
  else if decide (t = CommandDeleteSlot) then applyDeleteSlot cmd f
  else if decide (t = CommandArchiveSlot) then applyArchiveSlot cmd f
  else if decide (t = CommandUnarchiveSlot) then applyUnarchiveSlot cmd f
  else if decide (t = CommandUpdateJobStatus) then
    on_status "update job status" (λ sc, applyStatusUpdate sc f)
  else if decide (t = CommandRecordAttempt) then
    on_status "record attempt" (λ sc, applyRecordAttempt sc f)
  else if decide (t = CommandPruneAttempts) then
    on_status "prune attempts" (λ sc, applyPruneAttempts sc (cmd_Attempts cmd) f)
  else if decide (t = CommandUpdateMemoryUsage) then applyMemoryUpdate (cmd_MemoryDelta cmd) f
  else if decide (t = CommandUpdateJobCount) then applyJobCountUpdate (cmd_JobCountDelta cmd) f
  else (RErr (errors_New ("unknown command type: " +:+ t)), f).

(** ** Queries *)

Definition FSM_GetJob (id : string) f : option Job := Job_Clone <$> f_jobs f !! id.

Definition FSM_GetAllJobs f : gmap string Job := Job_Clone <$> f_jobs f.

(** A hot slot, else the cold one when the metadata says it is cold. *)
Definition FSM_GetSlot (key : Z) f : option SlotData :=
  match f_slots f !! key with
  | Some s => Some (SlotData_Clone s)
  | None =>
      if default false (f_coldSlotMeta f !! key) then
        match f_coldStore f with
        | None => None
        | Some cs =>
            match GetColdSlot key cs with
            | inl (Some d) => Some (SlotData_Clone d)
            | _ => None
            end
        end
      else None
  end.

Definition FSM_GetAllSlots f : gmap Z SlotData := SlotData_Clone <$> f_slots f.

Definition FSM_IsSlotCold (key : Z) f : bool := default false (f_coldSlotMeta f !! key).

Definition FSM_GetColdSlotKeys f : list Z := (range_map (f_coldSlotMeta f)).*1.

Definition FSM_GetHotSlotCount f : Z := Z.of_nat (size (f_slots f)).

Definition FSM_GetColdSlotCount f : Z := Z.of_nat (size (f_coldSlotMeta f)).

Definition FSM_GetExecutionState (id : string) f : option JobExecutionState :=
  JobExecutionState_Clone <$> f_executionStates f !! id.

Definition FSM_GetAllExecutionStates f : gmap string JobExecutionState :=
  JobExecutionState_Clone <$> f_executionStates f.

Definition FSM_GetMemoryUsage f : Z := f_memoryUsage f.

Definition FSM_GetJobCount f : Z := f_jobCount f.

(** ** [raft_adapter.go]: log entries *)

Definition FSM_Apply (data : json) f : ApplyResult * FSM CS :=
  match dec_Command data with
  | None => (RErr (flatf "failed to unmarshal command: " decode_error), f)
  | Some cmd => applyCommandInternal cmd f
  end.

(** The state after the entries of a log. *)
Definition run_log (log : list json) f : FSM CS :=
  foldl (λ f data, (FSM_Apply data f).2) f log.

End FSM.

(** ** Properties *)

Section FSM_props.

Context {CS : Type} `{ColdSlotStore CS}.

Implicit Types f : FSM CS.

(** Every result of the dispatcher is the result of one branch. *)
Lemma applyCommand_cases (P : ApplyResult * FSM CS → Prop) cmd f :
  (∀ e, P (RErr e, f)) →
  (cmd_Type cmd = CommandCreateJob → P (applyCreateJob cmd f)) →
  (cmd_Type cmd = CommandDeleteJob → P (applyDeleteJob cmd f)) →
  P (applyCreateSlot cmd f) → P (applyDeleteSlot cmd f) →
  P (applyArchiveSlot cmd f) → P (applyUnarchiveSlot cmd f) →
  (∀ sc, P (of_error (applyStatusUpdate sc f).1, (applyStatusUpdate sc f).2)) →
  (∀ sc, P (of_error (applyRecordAttempt sc f).1, (applyRecordAttempt sc f).2)) →
  (∀ sc l, P (of_error (applyPruneAttempts sc l f).1, (applyPruneAttempts sc l f).2)) →
  (∀ d, P (applyMemoryUpdate d f)) → (∀ d, P (applyJobCountUpdate d f)) →
  P (applyCommandInternal cmd f).
Proof.
  intros Herr Hcj Hdj Hcs Hds Has Hus Hsu Hra Hpa Hm Hc. unfold applyCommandInternal.
  repeat case_decide; auto; destruct (cmd_StatusCommand cmd) as [sc|]; auto.
  - specialize (Hsu sc). by destruct (applyStatusUpdate sc f).
  - specialize (Hra sc). by destruct (applyRecordAttempt sc f).
  - specialize (Hpa sc (cmd_Attempts cmd)). by destruct (applyPruneAttempts sc _ f).
Qed.

(** *** The state invariant *)

Definition known_status (s : string) : Prop := is_Some (validTransitions !! s).

(** A pending entry has never run; only a running one names a node; only a
    cancelled one carries cancellation data. *)
Record state_inv (s : JobExecutionState) : Prop := {
  si_known : known_status (es_Status s);
  si_pending : es_Status s = StatusPending →
    es_AttemptCount s = 0 ∧ es_FirstAttemptAt s = 0 ∧ es_LastAttemptAt s = 0 ∧
    es_CompletedAt s = 0;
  si_node : es_Status s ≠ StatusInProgress → es_ExecutingNodeID s = "";
  si_cancel : es_Status s ≠ StatusCancelled →
    es_CancelledAt s = 0 ∧ es_CancellationReason s = "" }.

Record fsm_inv f : Prop := {
  fi_jobs : map_Forall (λ id j, job_ID j = id) (f_jobs f);
  fi_states : map_Forall (λ id s, es_JobID s = id ∧ state_inv s) (f_executionStates f);
  fi_dom : dom (f_jobs f) ⊆ dom (f_executionStates f);
  fi_mem : 0 <= f_memoryUsage f < two63;
  fi_count : 0 <= f_jobCount f < two63 }.

Lemma pending_state_inv id t : state_inv (pending_state id t).
Proof. split; simpl; try done. by exists [StatusInProgress; StatusCancelled]. Qed.

Lemma valid_target_known from to : validateStateTransition from to = None → known_status to.
Proof.
  unfold validateStateTransition, known_status.
  destruct (validTransitions !! from) as [allowed|] eqn:E; [|done].
  case_decide as Hin; [|done]. intros _.
  apply elem_of_list_to_map_2 in E.
  repeat (apply elem_of_cons in E as [E|E]; [simplify_eq;
    repeat (apply elem_of_cons in Hin as [->|Hin]; [by eexists|]);
    by apply elem_of_nil in Hin|]).
  by apply elem_of_nil in E.
Qed.

(** Which statuses a valid transition can leave. *)
Lemma transition_source from to :
  validateStateTransition from to = None →
  to ≠ StatusPending ∧ from ≠ StatusCompleted ∧ from ≠ StatusCancelled ∧
  (to = StatusInProgress ∨ to = StatusCompleted ∨ to = StatusFailed ∨
   to = StatusTimeout ∨ to = StatusCancelled).
Proof.
  unfold validateStateTransition.
  destruct (validTransitions !! from) as [allowed|] eqn:E; [|done].
  case_decide as Hin; [|done]. intros _.
  apply elem_of_list_to_map_2 in E.
  repeat (apply elem_of_cons in E as [E|E]; [simplify_eq;
    repeat (apply elem_of_cons in Hin as [->|Hin]; [by auto 10|]);
    by apply elem_of_nil in Hin|]).
  by apply elem_of_nil in E.
Qed.

Lemma update_status_status c s : es_Status (update_status c s) = sc_Status c.
Proof. unfold update_status. by repeat case_decide. Qed.

Lemma update_status_JobID c s : es_JobID (update_status c s) = es_JobID s.
Proof. unfold update_status. by repeat case_decide. Qed.

Lemma update_status_inv c s :
  validateStateTransition (es_Status s) (sc_Status c) = None →
  state_inv s → state_inv (update_status c s).
Proof.
  intros Hv [Hk Hp Hn Hc]. pose proof (transition_source _ _ Hv) as (? & ? & ? & Hs).
  split.
  - rewrite update_status_status. by eapply valid_target_known.
  - rewrite update_status_status. done.
  - rewrite update_status_status. intros ?. unfold update_status.
    repeat case_decide; simpl; try done. tauto.
  - rewrite update_status_status. intros ?. unfold update_status.
    by repeat case_decide; simpl; auto.
Qed.

Lemma set_Attempts_inv l s : state_inv s → state_inv (set_Attempts l s).
Proof. by intros [? ? ? ?]; split. Qed.

Lemma clamp_add_range v d : 0 <= clamp_add v d < two63.
Proof.
  unfold clamp_add. pose proof (i64_in64 (v + d)) as Hr. unfold in64 in Hr.
  case_decide; unfold two63 in *; lia.
Qed.

(** Overwriting one entry keeps the invariant. *)
Lemma fsm_inv_insert_state f id s :
  fsm_inv f → es_JobID s = id → state_inv s →
  fsm_inv (set_executionStates (<[id := s]> (f_executionStates f)) f).
Proof.
  intros [Hj Hs Hd Hm Hc] ? ?. split; simpl; auto.
  - by apply map_Forall_insert_2.
  - rewrite dom_insert_L. set_solver.
Qed.

Lemma applyStatusUpdate_inv sc f : fsm_inv f → fsm_inv (applyStatusUpdate sc f).2.
Proof.
  intros Hf. unfold applyStatusUpdate.
  destruct (f_executionStates f !! sc_JobID sc) as [s|] eqn:E.
  - destruct (fi_states _ Hf _ _ E) as [? ?].
    destruct (validateStateTransition _ _) eqn:V; simpl; [done|].
    apply fsm_inv_insert_state; [done|by rewrite update_status_JobID|by apply update_status_inv].
  - assert (fsm_inv (set_executionStates
      (<[sc_JobID sc := pending_state (sc_JobID sc) (sc_Timestamp sc)]> (f_executionStates f)) f))
      as Hf1 by (apply fsm_inv_insert_state; auto using pending_state_inv).
    destruct (validateStateTransition _ _) eqn:V; simpl; [done|].
    apply (fsm_inv_insert_state (set_executionStates _ f)); [done|..].
    + by rewrite update_status_JobID.
    + apply update_status_inv; auto using pending_state_inv.
Qed.

Lemma apply_inv cmd f : fsm_inv f → fsm_inv (applyCommandInternal cmd f).2.
Proof.
  intros Hf. pose proof Hf as [Hj Hs Hd Hm Hc].
  apply applyCommand_cases; intros; simpl; try done.
  - unfold applyCreateJob. destruct (cmd_Job cmd) as [j|]; [|done].
    split; simpl; auto.
    + by apply map_Forall_insert_2.
    + apply map_Forall_insert_2; auto using pending_state_inv.
    + rewrite !dom_insert_L. set_solver.
  - unfold applyDeleteJob. case_decide; [done|]. split; simpl; auto.
    + by apply map_Forall_delete.
    + by apply map_Forall_delete.
    + rewrite !dom_delete_L. set_solver.
  - unfold applyCreateSlot. destruct (cmd_Slot cmd); [|done]. by split.
  - unfold applyDeleteSlot. repeat case_match; simpl; by split.
  - unfold applyArchiveSlot. repeat case_match; simpl; by split.
  - unfold applyUnarchiveSlot. repeat case_match; simpl; by split.
  - by apply applyStatusUpdate_inv.
  - unfold applyRecordAttempt.
    destruct (f_executionStates f !! sc_JobID sc) as [s|] eqn:E; [|done].
    destruct (Hs _ _ E). destruct (sc_Attempt sc); [|done].
    apply fsm_inv_insert_state; auto using set_Attempts_inv.
  - unfold applyPruneAttempts.
    destruct (f_executionStates f !! sc_JobID sc) as [s|] eqn:E; [|done].
    destruct (Hs _ _ E). apply fsm_inv_insert_state; auto using set_Attempts_inv.
  - split; simpl; auto using clamp_add_range.
  - split; simpl; auto using clamp_add_range.
Qed.

Lemma run_log_inv log f : fsm_inv f → fsm_inv (run_log log f).
Proof.
  unfold run_log. revert f. induction log as [|data log IH]; intros f Hf; [done|].
  apply IH. unfold FSM_Apply. destruct (dec_Command data); [by apply apply_inv|done].
Qed.

(** The empty state machine, with or without cold spilling. *)
Definition initial_fsm (cs : option CS) : FSM CS :=
  match cs with None => NewFSM | Some cs => NewFSMWithColdStore cs end.

Lemma initial_fsm_inv cs : fsm_inv (initial_fsm cs).
Proof.
  destruct cs; (split; simpl;
    [apply map_Forall_empty|apply map_Forall_empty|done|unfold two63; lia|unfold two63; lia]).
Qed.

(** C1: whatever entries the log holds (well formed or not), the state machine
    that applied them from empty satisfies [fsm_inv]: jobs and execution
    states are filed under their own ids, every job has an execution state,
    every status is one of the six, a pending entry has no attempts, only an
    in-progress entry names an executing node, only a cancelled one carries
    cancellation data, and both counters are non-negative [int64]s. *)
Theorem reachable_fsm_inv (log : list json) (cs : option CS) :
  fsm_inv (run_log log (initial_fsm cs)).
Proof. apply run_log_inv, initial_fsm_inv. Qed.

(** *** Status changes *)

Definition status_of (id : string) f : option string :=
  es_Status <$> f_executionStates f !! id.

(** The command (re)creates or deletes job [id]. *)
Definition replaces (id : string) (cmd : Command) : Prop :=
  (cmd_Type cmd = CommandCreateJob ∧ ∃ j, cmd_Job cmd = Some j ∧ job_ID j = id) ∨
  (cmd_Type cmd = CommandDeleteJob ∧ cmd_ID cmd = id).

(** The execution entry of [id] after a command that does not replace it:
    unchanged, moved along a valid transition, given other attempts, or new. *)
Inductive entry_step (o : option JobExecutionState) : option JobExecutionState → Prop :=
  | entry_same : entry_step o o
  | entry_moved s sc :
      o = Some s → validateStateTransition (es_Status s) (sc_Status sc) = None →
      entry_step o (Some (update_status sc s))
  | entry_attempts s l : o = Some s → entry_step o (Some (set_Attempts l s))
  | entry_new s : o = None → entry_step o (Some s).

Lemma applyStatusUpdate_entry sc f id :
  entry_step (f_executionStates f !! id) (f_executionStates (applyStatusUpdate sc f).2 !! id).
Proof.
  unfold applyStatusUpdate. destruct (decide (id = sc_JobID sc)) as [->|Hne].
  - destruct (f_executionStates f !! sc_JobID sc) as [s|] eqn:E.
    + destruct (validateStateTransition _ _) eqn:V; simpl; [rewrite E; constructor|].
      rewrite lookup_insert_eq. by apply (entry_moved _ s).
    + destruct (validateStateTransition _ _) eqn:V; simpl;
        rewrite lookup_insert_eq; by constructor.
  - destruct (f_executionStates f !! sc_JobID sc) as [s|] eqn:E;
      destruct (validateStateTransition _ _); simpl; rewrite ?lookup_insert_ne by done;
      constructor.
Qed.

Lemma apply_entry_step cmd f id :
  ¬ replaces id cmd →
  entry_step (f_executionStates f !! id)
    (f_executionStates (applyCommandInternal cmd f).2 !! id).
Proof.
  intros Hr. apply applyCommand_cases; intros; simpl; try constructor.
  - unfold applyCreateJob. destruct (cmd_Job cmd) as [j|] eqn:E; simpl; [|constructor].
    rewrite lookup_insert_ne; [constructor|]. intros <-. apply Hr. left. eauto.
  - unfold applyDeleteJob. case_decide; simpl; [constructor|].
    rewrite lookup_delete_ne; [constructor|]. intros E. apply Hr. by right.
  - unfold applyCreateSlot. case_match; constructor.
  - unfold applyDeleteSlot. repeat case_match; constructor.
  - unfold applyArchiveSlot. repeat case_match; constructor.
  - unfold applyUnarchiveSlot. repeat case_match; constructor.
  - apply applyStatusUpdate_entry.
  - unfold applyRecordAttempt.
    destruct (f_executionStates f !! sc_JobID sc) as [s|] eqn:E; [|constructor].
    destruct (sc_Attempt sc); simpl; [|constructor].
    destruct (decide (id = sc_JobID sc)) as [->|];
      [rewrite lookup_insert_eq, E; by econstructor|].
    rewrite lookup_insert_ne by done. constructor.
  - unfold applyPruneAttempts.
    destruct (f_executionStates f !! sc_JobID sc) as [s|] eqn:E; simpl; [|constructor].
    destruct (decide (id = sc_JobID sc)) as [->|];
      [rewrite lookup_insert_eq, E; by econstructor|].
    rewrite lookup_insert_ne by done. constructor.
Qed.

(** C2: a command moves the status of a job only along [validTransitions]: the
    status after it is the status before it, or one the table allows, unless
    the command creates or deletes that very job. *)
Theorem status_moves_along_table cmd f id s s' :
  ¬ replaces id cmd →
  status_of id f = Some s →
  status_of id (applyCommandInternal cmd f).2 = Some s' →
  s' = s ∨ validateStateTransition s s' = None.
Proof.
  intros Hr. unfold status_of. pose proof (apply_entry_step cmd f id Hr) as Hstep.
  inversion Hstep as [E|es sc E V E'|es l E E'|es E E']; rewrite E; simpl;
    intros; simplify_eq/=; auto.
  rewrite update_status_status. by right.
Qed.

(** What a finished entry keeps: everything but the recorded attempts. *)
Definition core (s : JobExecutionState) : JobExecutionState := set_Attempts [] s.

Definition log_replaces (id : string) (data : json) : Prop :=
  ∃ cmd, dec_Command data = Some cmd ∧ replaces id cmd.

Lemma terminal_step cmd f id s :
  ¬ replaces id cmd → f_executionStates f !! id = Some s →
  es_Status s = StatusCompleted ∨ es_Status s = StatusCancelled →
  ∃ s', f_executionStates (applyCommandInternal cmd f).2 !! id = Some s' ∧ core s' = core s.
Proof.
  intros Hr Hs Ht. pose proof (apply_entry_step cmd f id Hr) as Hstep.
  rewrite Hs in Hstep. inversion Hstep as [E|es sc E V E'|es l E E'|es E E']; simplify_eq.
  - eauto.
  - apply transition_source in V as (? & ? & ? & ?). naive_solver.
  - eauto.
Qed.

(** C3: completed and cancelled are final. Through any log in which the job is
    not created again or deleted, the entry of a completed or cancelled job
    keeps every field but the list of recorded attempts: status, node,
    attempt count and all timestamps. *)
Theorem terminal_states_are_final log f id s :
  f_executionStates f !! id = Some s →
  es_Status s = StatusCompleted ∨ es_Status s = StatusCancelled →
  Forall (λ data, ¬ log_replaces id data) log →
  ∃ s', f_executionStates (run_log log f) !! id = Some s' ∧ core s' = core s.
Proof.
  unfold run_log. revert f s.
  induction log as [|data log IH]; intros f s Hs Ht Hlog; [by eauto|].
  apply Forall_cons in Hlog as [Hd Hlog]. simpl. unfold FSM_Apply at 2.
  destruct (dec_Command data) as [cmd|] eqn:E; [|by eapply IH].
  destruct (terminal_step cmd f id s) as (s1 & H1 & C1); [|done..|].
  { intros Hr. apply Hd. by exists cmd. }
  destruct (IH _ _ H1) as (s2 & H2 & C2); [|done|exists s2; by rewrite C2, C1].
  apply (f_equal es_Status) in C1. simpl in C1. by rewrite C1.
Qed.

(** *** Errors *)

(** C24: a command that returns an error leaves the state machine as it was,
    with two exceptions that the code has: a status update for an unknown job
    leaves a fresh pending entry behind even when its transition is refused,
    and a failed archive only touches the cold store's handle. *)
Theorem apply_error_effect cmd f e f' :
  applyCommandInternal cmd f = (RErr e, f') →
  f' = f ∨
  (∃ sc, cmd_StatusCommand cmd = Some sc ∧ f_executionStates f !! sc_JobID sc = None ∧
     f' = set_executionStates
            (<[sc_JobID sc := pending_state (sc_JobID sc) (sc_Timestamp sc)]>
               (f_executionStates f)) f) ∨
  (∃ cs', f' = set_coldStore (Some cs') f).
Proof.
  unfold applyCommandInternal, applyCreateJob, applyDeleteJob, applyCreateSlot,
    applyDeleteSlot, applyArchiveSlot, applyUnarchiveSlot, applyStatusUpdate,
    applyRecordAttempt, applyPruneAttempts, applyMemoryUpdate, applyJobCountUpdate.
  intros E. repeat first [case_match; simplify_eq/= | case_decide; simplify_eq/=]; eauto 10.
Qed.

End FSM_props.

(** ** Hot and cold slots *)

Section cold_slots.

Context {CS : Type} `{ColdSlotStoreLaws CS}.

Implicit Types f : FSM CS.

(** The cold store answers reads. *)
Definition readable (cs : CS) : Prop := ∀ k, ∃ o, GetColdSlot k cs = inl o.

Lemma readable_get cs k : readable cs → GetColdSlot k cs = inl (cold_at cs k).
Proof. intros Hr. destruct (Hr k) as [o Ho]. rewrite Ho. by rewrite (get_cold_at _ _ _ Ho). Qed.

Lemma archive_result f cs cs' d :
  f_coldStore f = Some cs → PutColdSlot (slot_Key d) d cs = (cs', None) →
  applyCommandInternal (cmd_archive d) f =
    (RNil, set_coldSlotMeta (<[slot_Key d := true]> (f_coldSlotMeta f))
             (set_slots (delete (slot_Key d) (f_slots f)) (set_coldStore (Some cs') f))).
Proof.
  intros Hcs Hput. unfold applyCommandInternal. simpl.
  unfold applyArchiveSlot. simpl. by rewrite Hcs, Hput.
Qed.

Lemma unarchive_result f cs k :
  in64 k → f_coldStore f = Some cs → readable cs →
  applyCommandInternal (cmd_with_id CommandUnarchiveSlot (pretty k)) f =
    (RNil,
     set_coldSlotMeta (delete k (f_coldSlotMeta f))
       (set_coldStore (Some (DeleteColdSlot k cs).1)
          (match cold_at cs k with
           | Some d => set_slots (<[k := d]> (f_slots f)) f
           | None => f
           end))).
Proof.
  intros Hk Hcs Hr. unfold applyCommandInternal. simpl. unfold applyUnarchiveSlot. simpl.
  rewrite decide_False by apply pretty_Z_ne_empty.
  rewrite Hcs, Sscanf_d_pretty, readable_get by done. by destruct (cold_at cs k).
Qed.

(** Archiving a slot that the cold store accepts moves it out of the hot
    map and keeps it readable: [GetSlot] still returns the same data, now
    through the cold store, and the key counts as cold. *)
Theorem archive_keeps_slot_readable f cs cs' d :
  f_coldStore f = Some cs → slot_ok d → readable cs' →
  PutColdSlot (slot_Key d) d cs = (cs', None) →
  let f' := (applyCommandInternal (cmd_archive d) f).2 in
  f_slots f' !! slot_Key d = None ∧ FSM_IsSlotCold (slot_Key d) f' = true ∧
  FSM_GetSlot (slot_Key d) f' = Some d.
Proof.
  intros Hcs Hd Hr Hput. simpl. rewrite (archive_result _ _ _ _ Hcs Hput). simpl.
  unfold FSM_IsSlotCold, FSM_GetSlot. simpl.
  rewrite lookup_delete_eq, lookup_insert_eq. split_and!; [done..|]. simpl.
  rewrite readable_get by done.
  pose proof (put_cold_at (slot_Key d) d cs (slot_Key d)) as E.
  rewrite Hput in E. simpl in E. rewrite E by (done || by apply Hd).
  rewrite decide_True by done. by rewrite SlotData_Clone_id.
Qed.

(** Unarchiving what was archived is the identity on the hot map: the slot
    is back with the data it had, and the key is no longer cold. The slot key
    travels as decimal text and is parsed back. *)
Theorem archive_unarchive_roundtrip f cs cs' d :
  f_coldStore f = Some cs → slot_ok d → readable cs' →
  f_slots f !! slot_Key d = Some d → f_coldSlotMeta f !! slot_Key d = None →
  PutColdSlot (slot_Key d) d cs = (cs', None) →
  let f1 := (applyCommandInternal (cmd_archive d) f).2 in
  let f2 := (applyCommandInternal
               (cmd_with_id CommandUnarchiveSlot (pretty (slot_Key d))) f1).2 in
  f_slots f2 = f_slots f ∧ f_coldSlotMeta f2 = f_coldSlotMeta f ∧ f_jobs f2 = f_jobs f ∧
  f_executionStates f2 = f_executionStates f.
Proof.
  intros Hcs Hd Hr Hhot Hmeta Hput. simpl. rewrite (archive_result _ _ _ _ Hcs Hput).
  rewrite (unarchive_result _ cs') by (done || by apply Hd). simpl.
  pose proof (put_cold_at (slot_Key d) d cs (slot_Key d)) as E.
  rewrite Hput in E. simpl in E. rewrite E by (done || by apply Hd).
  rewrite decide_True by done. simpl. split_and!; [|by rewrite delete_insert_id|done..].
  by rewrite insert_delete_eq, insert_id.
Qed.

(** A slot key is not exclusively hot or cold. Storing a slot under a cold
    key makes it hot while it stays marked cold, with the archived copy
    untouched, so that unarchiving the key afterwards replaces the newer hot
    slot by the archived one and drops every job added in between. *)
Theorem unarchive_overwrites_newer_hot_slot f cs old new :
  f_coldStore f = Some cs → readable cs → slot_ok new →
  f_coldSlotMeta f !! slot_Key new = Some true → cold_at cs (slot_Key new) = Some old →
  let f1 := (applyCommandInternal (cmd_create_slot new) f).2 in
  let f2 := (applyCommandInternal
               (cmd_with_id CommandUnarchiveSlot (pretty (slot_Key new))) f1).2 in
  FSM_GetSlot (slot_Key new) f1 = Some new ∧ FSM_IsSlotCold (slot_Key new) f1 = true ∧
  FSM_GetSlot (slot_Key new) f2 = Some old.
Proof.
  intros Hcs Hr Hok Hmeta Hold. simpl.
  change (applyCommandInternal (cmd_create_slot new) f)
    with (RSlot new, set_slots (<[slot_Key new := new]> (f_slots f)) f).
  rewrite (unarchive_result _ cs) by (done || by apply Hok). rewrite Hold. simpl.
  unfold FSM_GetSlot, FSM_IsSlotCold. simpl. rewrite lookup_insert_eq, Hmeta.
  rewrite lookup_insert_eq. simpl. by rewrite !SlotData_Clone_id.
Qed.

(** Deleting a slot removes it everywhere: it is neither hot nor cold
    afterwards and [GetSlot] finds nothing, whatever the cold store held. *)
Theorem delete_slot_removes_both f k :
  in64 k →
  let f' := (applyCommandInternal (cmd_with_id CommandDeleteSlot (pretty k)) f).2 in
  f_slots f' !! k = None ∧ FSM_IsSlotCold k f' = false ∧ FSM_GetSlot k f' = None.
Proof.
  intros Hk. simpl. unfold applyCommandInternal. simpl. unfold applyDeleteSlot. simpl.
  rewrite decide_False by apply pretty_Z_ne_empty. rewrite Sscanf_d_pretty by done.
  unfold FSM_IsSlotCold, FSM_GetSlot.
  destruct (f_coldStore f); simpl; by rewrite !lookup_delete_eq.
Qed.

End cold_slots.

(** ** Concrete instances *)

Definition ex_job : Job := mkJob "a" "unico" (Some 100) "" None 5 "http://w" None.

Definition ex_status (st : string) (t : Z) : StatusCommand := mkStatusCommand "a" st "n1" None t "".

(** Job [a], created at 5 and started at 7. *)
Definition ex_running : FSM MemBolt :=
  (applyCommandInternal (cmd_status CommandUpdateJobStatus (ex_status StatusInProgress 7))
     (applyCommandInternal (cmd_create_job ex_job) NewFSM).2).2.

Definition ex_complete : Command :=
  cmd_status CommandUpdateJobStatus (ex_status StatusCompleted 9).

Definition ex_done : FSM MemBolt := (applyCommandInternal ex_complete ex_running).2.

Definition ex_done_state : JobExecutionState :=
  mkState "a" StatusCompleted 1 5 7 7 9 0 "" "" [].

Definition ex_slot : SlotData := mkSlotData 10 100 110 ["a"].

Definition ex_slot2 : SlotData := mkSlotData 10 100 110 ["b"].

Definition ex_hot : FSM MemBolt := mkFSM ∅ {[10 := ex_slot]} ∅ (Some ∅) ∅ 0 0.

Definition ex_cold_db : MemBolt := (PutColdSlot 10 ex_slot (∅ : MemBolt)).1.

Definition ex_cold : FSM MemBolt := mkFSM ∅ ∅ {[10 := true]} (Some ex_cold_db) ∅ 0 0.

Lemma ex_not_replaced : ¬ replaces "a" ex_complete.
Proof. intros [[H _]|[H _]]; vm_compute in H; discriminate. Qed.

Lemma ex_readable_empty : readable (∅ : MemBolt).
Proof. intros k. by exists None. Qed.

Lemma ex_readable : readable ex_cold_db.
Proof.
  intros k. simpl. unfold GetColdSlot_bolt. simpl.
  change (lookup (itob k) ex_cold_db)
    with ((<[itob 10 := enc_Slot ex_slot]> (∅ : gmap (list Z) json)) !! itob k).
  destruct (decide (itob 10 = itob k)) as [<-|Hne].
  - rewrite lookup_insert_eq. vm_compute. eauto.
  - rewrite lookup_insert_ne by done. rewrite lookup_empty. eauto.
Qed.

Lemma status_moves_along_table_witness :
  status_of "a" ex_done = Some StatusCompleted ∧
  (StatusCompleted = StatusInProgress ∨
   validateStateTransition StatusInProgress StatusCompleted = None).
Proof.
  split; [vm_compute; reflexivity|].
  apply (status_moves_along_table ex_complete ex_running "a");
    [exact ex_not_replaced|vm_compute; reflexivity|vm_compute; reflexivity].
Defined.

Definition ex_late : list json :=
  [enc_Command (cmd_status CommandUpdateJobStatus (ex_status StatusCancelled 11))].

(** A late cancellation of a completed job does not change its entry. *)
Lemma terminal_states_are_final_witness :
  ∃ s', f_executionStates (run_log ex_late ex_done) !! "a" = Some s' ∧
    core s' = core ex_done_state.
Proof.
  apply (terminal_states_are_final ex_late ex_done "a" ex_done_state);
    [vm_compute; reflexivity|left; reflexivity|].
  apply Forall_singleton. intros (cmd & Hd & Hr). vm_compute in Hd. simplify_eq.
  destruct Hr as [[H _]|[H _]]; vm_compute in H; discriminate.
Defined.

Definition ex_unknown : FSM MemBolt := (applyCommandInternal ex_complete NewFSM).2.

(** Completing a job nobody created leaves a pending entry. *)
Lemma apply_error_effect_witness :
  ex_unknown = NewFSM ∨
  (∃ sc, cmd_StatusCommand ex_complete = Some sc ∧
     f_executionStates (NewFSM (CS := MemBolt)) !! sc_JobID sc = None ∧
     ex_unknown = set_executionStates
            (<[sc_JobID sc := pending_state (sc_JobID sc) (sc_Timestamp sc)]>
               (f_executionStates (CS := MemBolt) NewFSM)) NewFSM) ∨
  (∃ cs', ex_unknown = set_coldStore (Some cs') NewFSM).
Proof.
  apply (apply_error_effect ex_complete NewFSM
           (errors_New "invalid state transition from pending to completed") ex_unknown).
  vm_compute. reflexivity.
Defined.

Lemma archive_keeps_slot_readable_witness :
  FSM_GetSlot 10 (applyCommandInternal (cmd_archive ex_slot) ex_hot).2 = Some ex_slot.
Proof.
  apply (archive_keeps_slot_readable ex_hot ∅ ex_cold_db ex_slot);
    [reflexivity|repeat split; vm_compute; congruence|exact ex_readable|vm_compute; reflexivity].
Defined.

Lemma archive_unarchive_roundtrip_witness :
  let f1 := (applyCommandInternal (cmd_archive ex_slot) ex_hot).2 in
  f_slots (applyCommandInternal (cmd_with_id CommandUnarchiveSlot (pretty 10)) f1).2 =
    f_slots ex_hot.
Proof.
  apply (archive_unarchive_roundtrip ex_hot ∅ ex_cold_db ex_slot);
    [reflexivity|repeat split; vm_compute; congruence|exact ex_readable|reflexivity..].
Defined.

Lemma unarchive_overwrites_newer_hot_slot_witness :
  let f1 := (applyCommandInternal (cmd_create_slot ex_slot2) ex_cold).2 in
  let f2 := (applyCommandInternal (cmd_with_id CommandUnarchiveSlot (pretty 10)) f1).2 in
  FSM_GetSlot 10 f1 = Some ex_slot2 ∧ FSM_IsSlotCold 10 f1 = true ∧
  FSM_GetSlot 10 f2 = Some ex_slot.
Proof.
  apply (unarchive_overwrites_newer_hot_slot ex_cold ex_cold_db ex_slot ex_slot2);
    [reflexivity|exact ex_readable|repeat split; vm_compute; congruence|reflexivity|].
  vm_compute. reflexivity.
Defined.

Lemma delete_slot_removes_both_witness :
  FSM_GetSlot 10 (applyCommandInternal (cmd_with_id CommandDeleteSlot (pretty 10)) ex_cold).2 = None.
Proof. apply (delete_slot_removes_both ex_cold 10). vm_compute; split; congruence. Defined.
