(* ===== verification/Snapshot.v ===== *)
(** * Snapshots: [GetSnapshot] of [fsm.go], [Persist] and [Restore] of
      [raft_adapter.go]

    A snapshot is a copy of the state machine without its cold store;
    [Persist] writes it as one JSON document and [Restore] reads it back. The
    sink and the reader belong to the Raft library: [write_err] and
    [close_err] are what the sink answers. The decoder is that of documents
    [Persist] writes: they repeat no key and hold no [null] for a record, which
    it would read as the zero record where Go has a nil pointer. *)

From S2P Require Import Prelude GoStrings Json Types Codec ColdStore FSM.

Record Snapshot := mkSnapshot {
  sn_jobs : gmap string Job;
  sn_slots : gmap Z SlotData;
  sn_coldSlotMeta : gmap Z bool;
  sn_executionStates : gmap string JobExecutionState;
  sn_memoryUsage : Z;
  sn_jobCount : Z }.

Definition GetSnapshot {CS} (f : FSM CS) : Snapshot :=
  mkSnapshot (Job_Clone <$> f_jobs f) (SlotData_Clone <$> f_slots f) (f_coldSlotMeta f)
    (JobExecutionState_Clone <$> f_executionStates f) (f_memoryUsage f) (f_jobCount f).

Definition enc_Snapshot (s : Snapshot) : json := JObj
  [("jobs", enc_map id enc_Job (sn_jobs s));
   ("slots", enc_map pretty enc_Slot (sn_slots s));
   ("cold_slot_meta", enc_map pretty JBool (sn_coldSlotMeta s));
   ("execution_states", enc_map id enc_State (sn_executionStates s));
   ("memory_usage", JNum (pretty (sn_memoryUsage s)));
   ("job_count", JNum (pretty (sn_jobCount s)))].

(** The document that reaches the sink, if the snapshot is kept, and the
    returned error. An encoding or write error cancels the sink. *)
Definition Persist (write_err close_err : option error) (s : Snapshot)
    : option json * option error :=
  match Marshal (enc_Snapshot s) with
  | inr e => (None, Some e)
  | inl doc =>
      match write_err with
      | Some e => (None, Some e)
      | None => (match close_err with None => Some doc | Some _ => None end, close_err)
      end
  end.

Definition dec_Snapshot (j : json) : option Snapshot :=
  l ← members j;
  jobs ← get_map Some dec_Job (field "jobs" l);
  slots ← get_map ParseInt dec_Slot (field "slots" l);
  meta ← get_map ParseInt (λ j, get_bool (Some j)) (field "cold_slot_meta" l);
  states ← get_map Some dec_State (field "execution_states" l);
  mem ← get_int (field "memory_usage" l);
  cnt ← get_int (field "job_count" l);
  Some (mkSnapshot (default ∅ jobs) (default ∅ slots) (default ∅ meta)
          (default ∅ states) mem cnt).

(** The maps are replaced (nil maps by empty ones), the counters stored; the
    cold store is not part of a snapshot and stays what it was. *)
Definition Restore {CS} (doc : json) (f : FSM CS) : option error * FSM CS :=
  match dec_Snapshot doc with
  | None => (Some (flatf "failed to decode snapshot: " decode_error), f)
  | Some s =>
      (None, mkFSM (sn_jobs s) (sn_slots s) (sn_coldSlotMeta s) (f_coldStore f)
               (sn_executionStates s) (sn_memoryUsage s) (sn_jobCount s))
  end.

(** ** Properties *)

(** The contents of a state machine are machine integers and JSON values. *)
Record fsm_encodable {CS} (f : FSM CS) : Prop := {
  fe_jobs : map_Forall (λ _ j, job_ints_ok j) (f_jobs f);
  fe_slots : map_Forall (λ k s, in64 k ∧ slot_ok s) (f_slots f);
  fe_meta : map_Forall (λ k _, in64 k) (f_coldSlotMeta f);
  fe_states : map_Forall (λ _ s, state_ok s) (f_executionStates f);
  fe_mem : in64 (f_memoryUsage f);
  fe_count : in64 (f_jobCount f);
  fe_payload : Marshal (enc_Snapshot (GetSnapshot f)) = inl (enc_Snapshot (GetSnapshot f)) }.

Section snapshot.

Lemma GetSnapshot_eq {CS} (f : FSM CS) :
  GetSnapshot f = mkSnapshot (f_jobs f) (f_slots f) (f_coldSlotMeta f)
    (f_executionStates f) (f_memoryUsage f) (f_jobCount f).
Proof.
  unfold GetSnapshot. f_equal; apply clone_map_id;
    auto using Job_Clone_id, SlotData_Clone_id, JobExecutionState_Clone_id.
Qed.

Lemma get_map_enc `{Countable K} {V} (key : K → string) key' (enc : V → json) dec (m : gmap K V) :
  map_Forall (λ k v, key' (key k) = Some k ∧ dec (enc v) = Some v) m →
  get_map key' dec (Some (enc_map key enc m)) = Some (Some m).
Proof.
  intros Hm. transitivity (Some <$> dec_map key' dec (enc_map key enc m)); [done|].
  by rewrite dec_enc_map.
Qed.

(** Decoding a map value by value may change the values. *)
Lemma get_map_enc_norm `{Countable K} {V} (key : K → string) key' (enc : V → json) dec
    (norm : V → V) (m : gmap K V) :
  (∀ v, enc (norm v) = enc v) →
  map_Forall (λ k v, key' (key k) = Some k ∧ dec (enc v) = Some (norm v)) m →
  get_map key' dec (Some (enc_map key enc m)) = Some (Some (norm <$> m)).
Proof.
  intros Hn Hm.
  assert (enc_map key enc m = enc_map key enc (norm <$> m)) as ->.
  { unfold enc_map. f_equal. f_equal. rewrite map_to_list_fmap, <-list_fmap_compose.
    apply list_fmap_ext. intros ? [k v] _. simpl. by rewrite Hn. }
  apply get_map_enc. intros k v Hv. apply lookup_fmap_Some in Hv as (w & <- & Hw).
  rewrite Hn. by apply Hm.
Qed.

Lemma enc_Job_norm j : enc_Job (job_norm j) = enc_Job j.
Proof.
  destruct j as [? ? ? ? ? ? ? [p|]]; unfold enc_Job, job_norm; simpl; [|done].
  case_decide; simpl; [done|]. by rewrite decide_False.
Qed.

Lemma dec_enc_Snapshot {CS} (f : FSM CS) :
  fsm_encodable f →
  dec_Snapshot (enc_Snapshot (GetSnapshot f)) =
    Some (mkSnapshot (job_norm <$> f_jobs f) (f_slots f) (f_coldSlotMeta f)
            (f_executionStates f) (f_memoryUsage f) (f_jobCount f)).
Proof.
  intros [Hj Hs Hm Hst Hmem Hcnt _]. rewrite GetSnapshot_eq.
  unfold dec_Snapshot, enc_Snapshot. eval_fields. cbn [sn_jobs sn_slots sn_coldSlotMeta
    sn_executionStates sn_memoryUsage sn_jobCount].
  rewrite (get_map_enc_norm id Some enc_Job dec_Job job_norm);
    [|exact enc_Job_norm|intros k j Hkj; split; [done|apply dec_enc_Job, (Hj k j Hkj)]].
  rewrite (get_map_enc pretty ParseInt enc_Slot dec_Slot) by
    (intros k s Hk; destruct (Hs k s Hk); split; [by apply ParseInt_pretty|by apply dec_enc_Slot]).
  rewrite (get_map_enc pretty ParseInt JBool) by
    (intros k b Hk; split; [apply ParseInt_pretty, (Hm k b Hk)|done]).
  rewrite (get_map_enc id Some enc_State dec_State) by
    (intros k s Hk; split; [done|apply dec_enc_State, (Hst k s Hk)]).
  run_decoder. done.
Qed.

End snapshot.

(** C23: restoring a persisted snapshot gives back the state machine. Jobs,
    slots, cold-slot marks, execution states and counters are those of the
    node that took it, whatever the restoring node held, except that an empty
    payload map comes back as nil; the cold store is the restoring node's
    own. *)
Theorem snapshot_roundtrip {CS CS'} (f : FSM CS) (g : FSM CS') :
  fsm_encodable f →
  ∃ doc, Persist None None (GetSnapshot f) = (Some doc, None) ∧
    Restore doc g =
      (None, mkFSM (job_norm <$> f_jobs f) (f_slots f) (f_coldSlotMeta f) (f_coldStore g)
               (f_executionStates f) (f_memoryUsage f) (f_jobCount f)).
Proof.
  intros Hf. exists (enc_Snapshot (GetSnapshot f)). unfold Persist, Restore.
  rewrite (fe_payload _ Hf). by rewrite dec_enc_Snapshot.
Qed.

(** A snapshot does not carry archived slots. After restoring it on a node
    whose cold store holds nothing, every slot that was cold is still counted
    as cold but can no longer be read. *)
Theorem restore_loses_cold_slots {CS} `{ColdSlotStoreLaws CS} (f g : FSM CS) cs k :
  fsm_encodable f → f_coldStore g = Some cs → readable cs → (∀ k, cold_at cs k = None) →
  f_coldSlotMeta f !! k = Some true → f_slots f !! k = None →
  let g' := (Restore (enc_Snapshot (GetSnapshot f)) g).2 in
  FSM_IsSlotCold k g' = true ∧ FSM_GetSlot k g' = None.
Proof.
  intros Hf Hcs Hr Hempty Hm Hs. simpl. unfold Restore. rewrite dec_enc_Snapshot by done.
  unfold FSM_IsSlotCold, FSM_GetSlot. simpl. rewrite Hs, Hm, Hcs. simpl.
  by rewrite readable_get, Hempty.
Qed.

(** ** A concrete node *)

(** One job, one hot slot and one archived slot. *)
Definition ex_node : FSM MemBolt :=
  mkFSM {["a" := ex_job]} {[20 := mkSlotData 20 200 210 ["a"]]} {[10 := true]}
    (Some ex_cold_db) {["a" := pending_state "a" 5]} 120 1.

Lemma ex_node_encodable : fsm_encodable ex_node.
Proof.
  split.
  - apply map_Forall_singleton. split_and!; [intros ? [= <-]|intros ? [=]|];
      split; vm_compute; congruence.
  - apply map_Forall_singleton. repeat split; vm_compute; congruence.
  - apply map_Forall_singleton. split; vm_compute; congruence.
  - apply map_Forall_singleton. split_and!; [..|constructor]; split; vm_compute; congruence.
  - split; vm_compute; congruence.
  - split; vm_compute; congruence.
  - vm_compute. reflexivity.
Qed.

Lemma snapshot_roundtrip_witness :
  ∃ doc, Persist None None (GetSnapshot ex_node) = (Some doc, None) ∧
    f_jobs (Restore doc ex_hot).2 = job_norm <$> {["a" := ex_job]}.
Proof.
  destruct (snapshot_roundtrip ex_node ex_hot ex_node_encodable) as (doc & Hp & Hr).
  exists doc. split; [exact Hp|]. rewrite Hr. reflexivity.
Defined.

Lemma restore_loses_cold_slots_witness :
  let g' := (Restore (enc_Snapshot (GetSnapshot ex_node)) ex_hot).2 in
  FSM_IsSlotCold 10 g' = true ∧ FSM_GetSlot 10 g' = None.
Proof.
  apply (restore_loses_cold_slots ex_node ex_hot ∅ 10);
    [exact ex_node_encodable|reflexivity|exact ex_readable_empty|reflexivity..].
Defined.
