(* ===== verification/Replication.v ===== *)
(** * Replicas and recovery

    What Raft relies on when it runs the state machine on several nodes and
    restarts them from snapshots: [Apply] must not tell states apart that a
    snapshot cannot tell apart, replicas that apply the same log must agree,
    and a node that restores a snapshot and replays the rest of the log must
    end where the others are. The cold store of a node is a file of its own;
    the theorems say when it spoils this, and how. *)

From S2P Require Import Prelude GoStrings Json Types Codec ColdStore FSM Snapshot.

(** ** States that can be stored *)

Section storable.

Context {CS : Type} `{ColdSlotStoreLaws CS}.

Implicit Types f : FSM CS.

(** Machine integers, and payloads that came out of a document. *)
Record storable f : Prop := {
  st_jobs : map_Forall (λ _ j, job_ints_ok j ∧ payload_plain j) (f_jobs f);
  st_slots : map_Forall (λ k s, in64 k ∧ slot_ok s) (f_slots f);
  st_meta : map_Forall (λ k _, in64 k) (f_coldSlotMeta f);
  st_states : map_Forall (λ _ s, state_ok s) (f_executionStates f);
  st_mem : in64 (f_memoryUsage f);
  st_count : in64 (f_jobCount f);
  st_cold : ∀ cs k d, f_coldStore f = Some cs → in64 k → cold_at cs k = Some d → slot_ok d }.

Lemma pending_state_ok id t : in64 t → state_ok (pending_state id t).
Proof. intros Ht. split_and!; try done. all: unfold in64, two63; simpl; lia. Qed.

Lemma update_status_ok c s : in64 (sc_Timestamp c) → state_ok s → state_ok (update_status c s).
Proof.
  intros Ht (? & ? & ? & ? & ? & ? & ?). unfold update_status.
  repeat case_decide; split_and!; simpl; try done; apply i64_in64.
Qed.

Lemma set_Attempts_ok l s : Forall attempt_ok l → state_ok s → state_ok (set_Attempts l s).
Proof. by intros ? (? & ? & ? & ? & ? & ? & ?). Qed.

Lemma clamp_add_in64 v d : in64 (clamp_add v d).
Proof. pose proof (clamp_add_range v d). unfold in64, two63 in *. lia. Qed.

Lemma storable_states f m :
  map_Forall (λ _ s, state_ok s) m → storable f → storable (set_executionStates m f).
Proof. by intros ? []; split. Qed.

Lemma storable_insert_state f id s :
  state_ok s → storable f → storable (set_executionStates (<[id := s]> (f_executionStates f)) f).
Proof. intros Hs Hf. apply storable_states; [apply map_Forall_insert_2; [done|apply Hf]|done]. Qed.

Lemma applyStatusUpdate_storable c f :
  in64 (sc_Timestamp c) → storable f → storable (applyStatusUpdate c f).2.
Proof.
  intros Ht Hf. unfold applyStatusUpdate.
  destruct (f_executionStates f !! sc_JobID c) as [s|] eqn:E.
  - pose proof (st_states f Hf _ _ E). destruct (validateStateTransition _ _); [done|].
    by apply storable_insert_state; [apply update_status_ok|].
  - pose proof (pending_state_ok (sc_JobID c) _ Ht) as Hp.
    pose proof (storable_insert_state f (sc_JobID c) _ Hp Hf).
    destruct (validateStateTransition _ _); [done|].
    apply (storable_states f); [|done]. by apply map_Forall_insert_2; [apply update_status_ok|apply H1].
Qed.

(** What a cold store keeps stays in range. *)
Lemma storable_cold f cs :
  (∀ k d, in64 k → cold_at cs k = Some d → slot_ok d) → storable f → storable (set_coldStore (Some cs) f).
Proof. intros Hc []; split; try done. simpl. by intros ? k d [= <-]; apply Hc. Qed.

Lemma delete_cold_ok f cs key k d :
  storable f → f_coldStore f = Some cs → in64 key → in64 k →
  cold_at (DeleteColdSlot key cs).1 k = Some d → slot_ok d.
Proof.
  intros Hf Hcs Hkey Hk. rewrite delete_cold_at by done. pose proof (st_cold f Hf cs k d Hcs Hk).
  destruct (DeleteColdSlot key cs).2; [done|]. by case_decide.
Qed.

Lemma put_cold_ok f cs key s k d :
  storable f → f_coldStore f = Some cs → in64 key → slot_ok s → in64 k →
  cold_at (PutColdSlot key s cs).1 k = Some d → slot_ok d.
Proof.
  intros Hf Hcs Hkey Hs Hk. rewrite put_cold_at by done. pose proof (st_cold f Hf cs k d Hcs Hk).
  destruct (PutColdSlot key s cs).2; [done|]. case_decide; [by intros [= <-]|done].
Qed.

Lemma storable_slots f m :
  map_Forall (λ k s, in64 k ∧ slot_ok s) m → storable f → storable (set_slots m f).
Proof. by intros ? []; split. Qed.

Lemma storable_meta f m : map_Forall (λ k _, in64 k) m → storable f → storable (set_coldSlotMeta m f).
Proof. by intros ? []; split. Qed.

Lemma applyCreateJob_storable cmd f :
  (∀ j, cmd_Job cmd = Some j → job_ints_ok j ∧ payload_plain j) → storable f →
  storable (applyCreateJob cmd f).2.
Proof.
  intros Hj Hf. unfold applyCreateJob. destruct (cmd_Job cmd) as [j|]; [|done].
  destruct (Hj j eq_refl) as [(? & ? & Hc) Hp]. pose proof (pending_state_ok (job_ID j) _ Hc).
  apply (storable_states (set_jobs _ f)); [apply map_Forall_insert_2; [done|apply Hf]|].
  destruct Hf. split; try done. simpl. by apply map_Forall_insert_2.
Qed.

Lemma applyDeleteJob_storable cmd f : storable f → storable (applyDeleteJob cmd f).2.
Proof.
  intros Hf. unfold applyDeleteJob. case_decide; [done|]. destruct Hf. split; try done; simpl;
    by apply map_Forall_delete.
Qed.

Lemma applyCreateSlot_storable cmd f :
  (∀ s, cmd_Slot cmd = Some s → slot_ok s) → storable f → storable (applyCreateSlot cmd f).2.
Proof.
  intros Hs Hf. unfold applyCreateSlot. destruct (cmd_Slot cmd) as [s|]; [|done].
  specialize (Hs s eq_refl). apply storable_slots; [|done]. apply map_Forall_insert_2; [|apply Hf].
  split; [apply Hs|done].
Qed.

Lemma applyDeleteSlot_storable cmd f : storable f → storable (applyDeleteSlot cmd f).2.
Proof.
  intros Hf. unfold applyDeleteSlot. case_decide; [done|]. destruct (Sscanf_d (cmd_ID cmd)) as [key|] eqn:Ek; [|done].
  apply Sscanf_d_in64 in Ek.
  assert (storable (set_coldSlotMeta (delete key (f_coldSlotMeta f)) (set_slots (delete key (f_slots f)) f))) as Hf1.
  { apply (storable_meta (set_slots _ f)); [apply map_Forall_delete, Hf|].
    apply storable_slots; [apply map_Forall_delete, Hf|done]. }
  simpl. destruct (f_coldStore f) as [cs|] eqn:Ecs; [|done]. apply storable_cold; [|done].
  intros k d Hk. by apply (delete_cold_ok f cs).
Qed.

Lemma applyArchiveSlot_storable cmd f :
  (∀ s, cmd_ColdSlot cmd = Some s → slot_ok s) → storable f → storable (applyArchiveSlot cmd f).2.
Proof.
  intros Hs Hf. unfold applyArchiveSlot. destruct (cmd_ColdSlot cmd) as [d|]; [|done].
  specialize (Hs d eq_refl). destruct (f_coldStore f) as [cs|] eqn:Ecs; [|done].
  pose proof (λ k d', put_cold_ok f cs (slot_Key d) d k d' Hf Ecs (proj1 Hs) Hs) as Hput.
  destruct (PutColdSlot (slot_Key d) d cs) as [cs' err]. simpl in Hput.
  assert (storable (set_coldStore (Some cs') f)) as Hf1 by by apply storable_cold.
  destruct err; [done|]. apply (storable_meta (set_slots _ (set_coldStore _ f))).
  - apply map_Forall_insert_2; [apply Hs|apply Hf].
  - apply (storable_slots (set_coldStore _ f)); [apply map_Forall_delete, Hf|done].
Qed.

Lemma applyUnarchiveSlot_storable cmd f : storable f → storable (applyUnarchiveSlot cmd f).2.
Proof.
  intros Hf. unfold applyUnarchiveSlot. case_decide; [done|].
  destruct (f_coldStore f) as [cs|] eqn:Ecs; [|done].
  destruct (Sscanf_d (cmd_ID cmd)) as [key|] eqn:Ek; [|done]. apply Sscanf_d_in64 in Ek.
  destruct (GetColdSlot key cs) as [o|] eqn:Eg; [|done]. apply get_cold_at in Eg.
  assert (storable match o with Some d => set_slots (<[key:=d]> (f_slots f)) f | None => f end) as Hf1.
  { destruct o as [d|]; [|done]. apply storable_slots; [|done]. apply map_Forall_insert_2; [|apply Hf].
    split; [done|]. by apply (st_cold f Hf cs key). }
  apply (storable_meta (set_coldStore _ _)); [apply map_Forall_delete, Hf1|].
  apply storable_cold; [|done]. intros k d Hk. by apply (delete_cold_ok f cs).
Qed.

(** Every command keeps the state storable. *)
Lemma apply_storable data f : plain data → storable f → storable (FSM_Apply data f).2.
Proof.
  intros Hd Hf. unfold FSM_Apply. destruct (dec_Command data) as [cmd|] eqn:E; [|done].
  pose proof (dec_Command_ok _ _ E) as (Hj & Hs & Hc & Hsc & Ha & Hm & Hn).
  pose proof (λ j, dec_Command_payload _ _ j Hd E) as Hp.
  unfold applyCommandInternal. repeat case_decide; try done;
    auto using applyCreateJob_storable, applyDeleteJob_storable, applyCreateSlot_storable,
      applyDeleteSlot_storable, applyArchiveSlot_storable, applyUnarchiveSlot_storable;
    try (destruct (cmd_StatusCommand cmd) as [sc|] eqn:Esc; [|done]; destruct (Hsc sc eq_refl) as [Ht Hatt]).
  - pose proof (applyStatusUpdate_storable sc f Ht Hf). by destruct (applyStatusUpdate sc f).
  - unfold applyRecordAttempt. destruct (f_executionStates f !! _) as [s|] eqn:Es; [|done].
    destruct (sc_Attempt sc) as [a|]; [|done]. apply storable_insert_state; [|done].
    pose proof (st_states f Hf _ _ Es) as Hst. apply set_Attempts_ok; [|done].
    apply Forall_app. split; [apply Hst|]. apply Forall_singleton. by apply Hatt.
  - unfold applyPruneAttempts. destruct (f_executionStates f !! _) as [s|] eqn:Es; [|done].
    apply storable_insert_state; [|done]. apply set_Attempts_ok; [done|by apply (st_states f Hf _ _ Es)].
  - destruct Hf. split; try done. apply clamp_add_in64.
  - destruct Hf. split; try done. apply clamp_add_in64.
Qed.

Lemma run_log_storable log f : Forall plain log → storable f → storable (run_log log f).
Proof.
  intros Hl. revert f. unfold run_log. induction Hl as [|data log Hd _ IH]; intros f Hf; simpl; [done|].
  by apply IH, apply_storable.
Qed.

Lemma plain_State s : plain (enc_State s).
Proof.
  apply plain_obj. rewrite !Forall_app. split_and!; auto using plain_omit_str, plain_omit_int;
    repeat constructor. by apply plain_arr_map, plain_Attempt.
Qed.

Lemma plain_enc_map `{Countable K} {V} (key : K → string) (enc : V → json) (m : gmap K V) :
  map_Forall (λ _ v, plain (enc v)) m → plain (enc_map key enc m).
Proof.
  intros Hm. apply plain_obj, Forall_forall. intros [k v] Hin.
  rewrite merge_sort_Permutation in Hin. apply list_elem_of_fmap in Hin as ([k' v'] & [= -> ->] & Hin).
  apply elem_of_map_to_list in Hin. by apply (Hm k').
Qed.

(** A storable state can be put into a snapshot and read back. *)
Lemma storable_encodable f : storable f → fsm_encodable f.
Proof.
  intros [Hj Hs Hm Hst Hmem Hcnt _]. split; try done.
  - intros k j Hk. apply (Hj k j Hk).
  - apply Marshal_plain, plain_obj. rewrite GetSnapshot_eq. repeat (constructor; simpl).
    + apply plain_enc_map. intros k j Hk. apply plain_Job, (Hj k j Hk).
    + apply plain_enc_map. intros k s _. apply plain_Slot.
    + apply plain_enc_map. by intros.
    + apply plain_enc_map. intros k s _. apply plain_State.
Qed.

End storable.

(** ** Simulation

    Two state machines over cold stores of their own, which need not be of one
    kind. A snapshot does not tell an empty payload from none, and nothing that
    [Apply] does looks into a job, so jobs are compared through a function. *)

(** Related stores answer the same and stay related. *)
Class ColdSimulation {CS CS'} `{ColdSlotStore CS} `{ColdSlotStore CS'} (R : CS → CS' → Prop) := {
  sim_put : ∀ k d a b, in64 k → slot_ok d → R a b →
    (PutColdSlot k d a).2 = (PutColdSlot k d b).2 ∧ R (PutColdSlot k d a).1 (PutColdSlot k d b).1;
  sim_get : ∀ k a b, in64 k → R a b → GetColdSlot k a = GetColdSlot k b;
  sim_delete : ∀ k a b, in64 k → R a b → R (DeleteColdSlot k a).1 (DeleteColdSlot k b).1 }.

#[export] Instance same_store {CS} `{ColdSlotStore CS} : ColdSimulation (@eq CS).
Proof. by split; [intros k d a _ ? ? <-|intros k a _ ? <-|intros k a _ ? <-]. Qed.

Record fsm_sim {CS CS'} (N : Job → Job) (R : CS → CS' → Prop) (f : FSM CS) (g : FSM CS') : Prop := {
  sim_jobs : N <$> f_jobs f = N <$> f_jobs g;
  sim_slots : f_slots f = f_slots g;
  sim_meta : f_coldSlotMeta f = f_coldSlotMeta g;
  sim_cold : option_Forall2 R (f_coldStore f) (f_coldStore g);
  sim_states : f_executionStates f = f_executionStates g;
  sim_mem : f_memoryUsage f = f_memoryUsage g;
  sim_count : f_jobCount f = f_jobCount g }.

Section simulation.

Context {CS CS' : Type} `{ColdSlotStore CS} `{ColdSlotStore CS'}.
Context (N : Job → Job) (R : CS → CS' → Prop) `{!ColdSimulation R}.

Implicit Types (f : FSM CS) (g : FSM CS').

(** The same answer, and related states. *)
Definition outcomes (r : ApplyResult * FSM CS) (r' : ApplyResult * FSM CS') : Prop :=
  r.1 = r'.1 ∧ fsm_sim N R r.2 r'.2.

Lemma outcomes_same r f g : fsm_sim N R f g → outcomes (r, f) (r, g).
Proof. done. Qed.

Lemma sim_set_states m f g :
  fsm_sim N R f g → fsm_sim N R (set_executionStates m f) (set_executionStates m g).
Proof. by intros []. Qed.

Lemma sim_set_slots m f g : fsm_sim N R f g → fsm_sim N R (set_slots m f) (set_slots m g).
Proof. by intros []. Qed.

Lemma sim_set_meta m f g : fsm_sim N R f g → fsm_sim N R (set_coldSlotMeta m f) (set_coldSlotMeta m g).
Proof. by intros []. Qed.

Lemma sim_set_cold a b f g :
  R a b → fsm_sim N R f g → fsm_sim N R (set_coldStore (Some a) f) (set_coldStore (Some b) g).
Proof. intros HR []; split; try done. by constructor. Qed.

Lemma applyCreateJob_sim cmd f g : fsm_sim N R f g → outcomes (applyCreateJob cmd f) (applyCreateJob cmd g).
Proof.
  intros Hs. unfold applyCreateJob. destruct (cmd_Job cmd) as [j|]; [|by apply outcomes_same].
  split; [done|]. simpl. rewrite (sim_states N R f g Hs). apply sim_set_states.
  destruct Hs. split; try done. simpl. rewrite !fmap_insert. by f_equal.
Qed.

Lemma applyDeleteJob_sim cmd f g : fsm_sim N R f g → outcomes (applyDeleteJob cmd f) (applyDeleteJob cmd g).
Proof.
  intros Hs. unfold applyDeleteJob. case_decide; [by apply outcomes_same|].
  split; [done|]. simpl. rewrite (sim_states N R f g Hs). apply sim_set_states.
  destruct Hs. split; try done. simpl. rewrite !fmap_delete. by f_equal.
Qed.

Lemma applyCreateSlot_sim cmd f g : fsm_sim N R f g → outcomes (applyCreateSlot cmd f) (applyCreateSlot cmd g).
Proof.
  intros Hs. unfold applyCreateSlot. destruct (cmd_Slot cmd); [|by apply outcomes_same].
  split; [done|]. simpl. rewrite (sim_slots N R f g Hs). by apply sim_set_slots.
Qed.

Lemma applyDeleteSlot_sim cmd f g : fsm_sim N R f g → outcomes (applyDeleteSlot cmd f) (applyDeleteSlot cmd g).
Proof.
  intros Hs. unfold applyDeleteSlot. case_decide; [by apply outcomes_same|].
  destruct (Sscanf_d (cmd_ID cmd)) as [key|] eqn:Ek; [|by apply outcomes_same]. apply Sscanf_d_in64 in Ek.
  split; [done|]. simpl. rewrite (sim_slots N R f g Hs), (sim_meta N R f g Hs).
  pose proof (sim_set_meta (delete key (f_coldSlotMeta g)) _ _ (sim_set_slots (delete key (f_slots g)) _ _ Hs)) as Hs'.
  destruct (sim_cold N R f g Hs) as [a b Hab|]; [|done]. apply sim_set_cold; [by apply sim_delete|done].
Qed.

Lemma applyArchiveSlot_sim cmd f g :
  (∀ s, cmd_ColdSlot cmd = Some s → slot_ok s) →
  fsm_sim N R f g → outcomes (applyArchiveSlot cmd f) (applyArchiveSlot cmd g).
Proof.
  intros Hok Hs. unfold applyArchiveSlot. destruct (cmd_ColdSlot cmd) as [d|]; [|by apply outcomes_same].
  specialize (Hok d eq_refl).
  destruct (sim_cold N R f g Hs) as [a b Hab|]; [|by apply outcomes_same].
  destruct (sim_put (slot_Key d) d a b (proj1 Hok) Hok Hab) as [Herr Hab'].
  destruct (PutColdSlot (slot_Key d) d a) as [a' e], (PutColdSlot (slot_Key d) d b) as [b' e'].
  simpl in Herr, Hab'. subst e'. pose proof (sim_set_cold _ _ _ _ Hab' Hs) as Hs'.
  destruct e as [e|]; [by apply outcomes_same|]. split; [done|]. simpl.
  rewrite (sim_slots N R f g Hs), (sim_meta N R f g Hs). by apply sim_set_meta, sim_set_slots.
Qed.

Lemma applyUnarchiveSlot_sim cmd f g :
  fsm_sim N R f g → outcomes (applyUnarchiveSlot cmd f) (applyUnarchiveSlot cmd g).
Proof.
  intros Hs. unfold applyUnarchiveSlot. case_decide; [by apply outcomes_same|].
  destruct (sim_cold N R f g Hs) as [a b Hab|]; [|by apply outcomes_same].
  destruct (Sscanf_d (cmd_ID cmd)) as [key|] eqn:Ek; [|by apply outcomes_same]. apply Sscanf_d_in64 in Ek.
  rewrite (sim_get key a b Ek Hab). destruct (GetColdSlot key b) as [o|e]; [|by apply outcomes_same].
  split; [done|]. simpl. pose proof (sim_delete key a b Ek Hab) as Hab'.
  destruct o as [d|]; simpl; rewrite ?(sim_slots N R f g Hs), (sim_meta N R f g Hs);
    (apply sim_set_meta, sim_set_cold; [done|]); [by apply sim_set_slots|done].
Qed.

Lemma applyStatusUpdate_sim c f g :
  fsm_sim N R f g → (applyStatusUpdate c f).1 = (applyStatusUpdate c g).1 ∧
    fsm_sim N R (applyStatusUpdate c f).2 (applyStatusUpdate c g).2.
Proof.
  intros Hs. unfold applyStatusUpdate. rewrite <-(sim_states N R f g Hs).
  destruct (f_executionStates f !! _) as [s|]; destruct (validateStateTransition _ _);
    (split; [done|]); simpl; rewrite <-?(sim_states N R f g Hs); by repeat apply sim_set_states.
Qed.

(** One log entry, whatever it holds. *)
Lemma apply_sim data f g : fsm_sim N R f g → outcomes (FSM_Apply data f) (FSM_Apply data g).
Proof.
  intros Hs. unfold FSM_Apply. destruct (dec_Command data) as [cmd|] eqn:E; [|by apply outcomes_same].
  apply dec_Command_ok in E as (_ & _ & Hc & _).
  unfold applyCommandInternal. repeat case_decide; try by apply outcomes_same.
  - by apply applyCreateJob_sim.
  - by apply applyDeleteJob_sim.
  - by apply applyCreateSlot_sim.
  - by apply applyDeleteSlot_sim.
  - by apply applyArchiveSlot_sim.
  - by apply applyUnarchiveSlot_sim.
  - destruct (cmd_StatusCommand cmd) as [sc|]; [|by apply outcomes_same].
    destruct (applyStatusUpdate_sim sc f g Hs) as [? ?].
    destruct (applyStatusUpdate sc f), (applyStatusUpdate sc g); simpl in *; subst. by apply outcomes_same.
  - destruct (cmd_StatusCommand cmd) as [sc|]; [|by apply outcomes_same].
    unfold applyRecordAttempt. rewrite <-(sim_states N R f g Hs).
    destruct (f_executionStates f !! _); [|by apply outcomes_same].
    destruct (sc_Attempt sc); [|by apply outcomes_same]. by apply outcomes_same, sim_set_states.
  - destruct (cmd_StatusCommand cmd) as [sc|]; [|by apply outcomes_same].
    unfold applyPruneAttempts. rewrite <-(sim_states N R f g Hs).
    destruct (f_executionStates f !! _); [|by apply outcomes_same]. by apply outcomes_same, sim_set_states.
  - unfold applyMemoryUpdate. rewrite (sim_mem N R f g Hs). apply outcomes_same. destruct Hs; by split.
  - unfold applyJobCountUpdate. rewrite (sim_count N R f g Hs). apply outcomes_same. destruct Hs; by split.
Qed.

Lemma run_log_sim log f g : fsm_sim N R f g → fsm_sim N R (run_log log f) (run_log log g).
Proof.
  unfold run_log. revert f g. induction log as [|data log IH]; intros f g Hs; simpl; [done|].
  by apply IH, apply_sim.
Qed.

(** What a client can read, jobs as far as [N] tells them apart. *)
Lemma sim_reads f g :
  fsm_sim N R f g →
  (∀ id, N <$> FSM_GetJob id f = N <$> FSM_GetJob id g) ∧
  (∀ key, in64 key → FSM_GetSlot key f = FSM_GetSlot key g) ∧
  (∀ id, FSM_GetExecutionState id f = FSM_GetExecutionState id g) ∧
  FSM_GetAllSlots f = FSM_GetAllSlots g ∧ FSM_GetAllExecutionStates f = FSM_GetAllExecutionStates g ∧
  FSM_GetMemoryUsage f = FSM_GetMemoryUsage g ∧ FSM_GetJobCount f = FSM_GetJobCount g.
Proof.
  intros Hs. split_and!; try by destruct Hs.
  - intros id. unfold FSM_GetJob. pose proof (f_equal (lookup id) (sim_jobs N R f g Hs)) as E.
    rewrite !lookup_fmap in E. by destruct (f_jobs f !! id), (f_jobs g !! id); simpl in *;
      rewrite ?Job_Clone_id.
  - intros key Hk. unfold FSM_GetSlot. rewrite (sim_slots N R f g Hs), (sim_meta N R f g Hs).
    destruct (f_slots g !! key); [done|]. destruct (default false _); [|done].
    destruct (sim_cold N R f g Hs) as [a b Hab|]; [|done]. by rewrite (sim_get key a b Hk Hab).
  - intros id. unfold FSM_GetExecutionState. by rewrite (sim_states N R f g Hs).
  - unfold FSM_GetAllSlots. by rewrite (sim_slots N R f g Hs).
  - unfold FSM_GetAllExecutionStates. by rewrite (sim_states N R f g Hs).
Qed.

End simulation.

(** *** Equivalence of states of one node *)

#[export] Instance FSM_equiv {CS} : Equiv (FSM CS) := fsm_sim job_norm eq.

#[export] Instance FSM_equivalence {CS} : Equivalence (≡@{FSM CS}).
Proof.
  split.
  - by intros f.
  - intros f g []. by split.
  - intros f g h [] []. split; try congruence. by etrans.
Qed.

#[export] Instance FSM_Apply_proper {CS} `{ColdSlotStore CS} data :
  Proper ((≡@{FSM CS}) ==> prod_relation (=) (≡)) (FSM_Apply data).
Proof. intros f g Hs. by apply apply_sim; [apply _|]. Qed.

#[export] Instance run_log_proper {CS} `{ColdSlotStore CS} log : Proper ((≡@{FSM CS}) ==> (≡)) (run_log log).
Proof. intros f g Hs. by apply run_log_sim; [apply _|]. Qed.

Lemma enc_jobs_norm (m : gmap string Job) : enc_map id enc_Job (job_norm <$> m) = enc_map id enc_Job m.
Proof.
  unfold enc_map. do 2 f_equal. rewrite map_to_list_fmap, <-list_fmap_compose.
  apply list_fmap_ext. intros ? [k j] _. simpl. by rewrite enc_Job_norm.
Qed.

(** The document of a snapshot. *)
Definition snapshot_doc {CS} (f : FSM CS) : json := enc_Snapshot (GetSnapshot f).

#[export] Instance snapshot_doc_proper {CS} : Proper ((≡@{FSM CS}) ==> (=)) snapshot_doc.
Proof.
  intros f g []. unfold snapshot_doc. rewrite !GetSnapshot_eq. unfold enc_Snapshot. simpl.
  rewrite <-(enc_jobs_norm (f_jobs f)), <-(enc_jobs_norm (f_jobs g)). congruence.
Qed.

Lemma job_norm_idemp j : job_norm (job_norm j) = job_norm j.
Proof.
  destruct j as [? ? ? ? ? ? ? [p|]]; unfold job_norm; simpl; [|done].
  case_decide; simpl; [done|]. by rewrite decide_False.
Qed.

(** ** Recovery *)

Section recovery.

Context {CS : Type} `{ColdSlotStoreLaws CS}.

Implicit Types f g : FSM CS.

(** Restoring the snapshot of a state beside the same cold store gives the
    state back. *)
Lemma restore_equiv f g :
  storable f → f_coldStore g = f_coldStore f →
  ∃ doc, Persist None None (GetSnapshot f) = (Some doc, None) ∧ (Restore doc g).1 = None ∧
    (Restore doc g).2 ≡ f.
Proof.
  intros Hf Hg. destruct (storable_encodable f Hf) as [? ? ? ? ? ? Hp] eqn:E. clear E.
  exists (snapshot_doc f). unfold Persist, Restore. rewrite Hp. split; [done|].
  unfold snapshot_doc. rewrite dec_enc_Snapshot by by apply storable_encodable.
  split; [done|]. split; try done; simpl.
  - rewrite <-map_fmap_compose. apply map_fmap_ext. intros ? j _. apply job_norm_idemp.
  - by rewrite Hg.
Qed.

(** C7: Recovery from a snapshot is replay, provided the cold store is as it
    was. A node took a snapshot after the entries [l1]. Any state machine whose
    cold store is exactly what that of the node was at the snapshot, and that
    restores the snapshot and replays the entries [l2] that followed, ends in
    the state of a node that has applied [l1 ++ l2] without stopping, up to
    payloads that are empty, and answers every later entry alike. The
    condition on the cold store is needed: a database on disk that [l2] has
    already changed loses slots ([restart_loses_unarchived_slot] below). *)
Theorem recovery_is_replay l1 l2 cs g entry :
  Forall plain l1 → storable (initial_fsm cs) →
  f_coldStore g = f_coldStore (run_log l1 (initial_fsm cs)) →
  let never_stopped := run_log (l1 ++ l2) (initial_fsm cs) in
  ∃ doc, Persist None None (GetSnapshot (run_log l1 (initial_fsm cs))) = (Some doc, None) ∧
    let restarted := run_log l2 (Restore doc g).2 in
    restarted ≡ never_stopped ∧
    (FSM_Apply entry restarted).1 = (FSM_Apply entry never_stopped).1.
Proof.
  intros Hl Hcs Hg. simpl.
  destruct (restore_equiv (run_log l1 (initial_fsm cs)) g) as (doc & Hp & _ & Hr);
    [by apply run_log_storable|done|].
  exists doc. split; [done|].
  assert (run_log l2 (Restore doc g).2 ≡ run_log (l1 ++ l2) (initial_fsm cs)) as E.
  { unfold run_log at 2. rewrite foldl_app. by apply run_log_proper. }
  split; [done|]. by destruct (FSM_Apply_proper entry _ _ E).
Qed.

End recovery.

(** ** Agreement *)

(** A cold store that works. *)
Class ReliableColdStore (CS : Type) `{ColdSlotStoreLaws CS} := {
  works : CS → Prop;
  put_works : ∀ k d cs, in64 k → slot_ok d → works cs →
    (PutColdSlot k d cs).2 = None ∧ works (PutColdSlot k d cs).1;
  get_works : ∀ k cs, in64 k → works cs → GetColdSlot k cs = inl (cold_at cs k);
  delete_works : ∀ k cs, in64 k → works cs →
    (DeleteColdSlot k cs).2 = None ∧ works (DeleteColdSlot k cs).1 }.

(** The abstract cold store: a map from keys to slots. *)
Definition SlotMap : Type := gmap Z SlotData.

#[export] Instance SlotMap_store : ColdSlotStore SlotMap := {|
  PutColdSlot k d (cs : gmap Z SlotData) := (<[k := d]> cs, None);
  GetColdSlot k (cs : gmap Z SlotData) := inl (cs !! k);
  DeleteColdSlot k (cs : gmap Z SlotData) := (delete k cs, None) |}.

#[export] Instance SlotMap_laws : ColdSlotStoreLaws SlotMap.
Proof.
  refine {| cold_at (cs : gmap Z SlotData) k := cs !! k;
            put_cold_at := _; get_cold_at := _; delete_cold_at := _ |}.
  - intros k d cs k' _ _ _. apply lookup_insert.
  - intros k cs o. simpl. congruence.
  - intros k cs k' _ _. apply lookup_delete.
Defined.

#[export] Instance SlotMap_reliable : ReliableColdStore SlotMap.
Proof. by refine {| works _ := True; put_works := _; get_works := _; delete_works := _ |}. Defined.

(** The store over bbolt, while the database works and is not corrupted. *)
#[export] Instance MemBolt_reliable : ReliableColdStore MemBolt.
Proof.
  refine {| works db := map_Forall (λ _ v, is_Some (dec_Slot v)) (db : gmap (list Z) json);
            put_works := _; get_works := _; delete_works := _ |}.
  - intros k d db Hk Hd Hdb. unfold PutColdSlot, BoltColdSlotStore, PutColdSlot_bolt.
    rewrite Marshal_enc_Slot. split; [done|]. apply map_Forall_insert_2; [|done].
    rewrite dec_enc_Slot by done. by eexists.
  - intros k db Hk Hdb. simpl. unfold GetColdSlot_bolt, bolt_cold_at. simpl.
    destruct ((db : gmap (list Z) json) !! itob k) as [v|] eqn:E; [|done].
    destruct (Hdb _ _ E) as [s Hs]. simpl. by rewrite Hs.
  - intros k db Hk Hdb. split; [done|]. by apply map_Forall_delete.
Defined.

Section agreement.

Context {CS CS' : Type} `{ReliableColdStore CS} `{ReliableColdStore CS'}.

(** Two stores that work and hold the same slots. *)
Definition same_slots (a : CS) (b : CS') : Prop :=
  works a ∧ works b ∧ ∀ k, in64 k → cold_at a k = cold_at b k.

#[export] Instance same_slots_simulation : ColdSimulation same_slots.
Proof.
  split.
  - intros k d a b Hk Hd (Ha & Hb & E). destruct (put_works k d a Hk Hd Ha) as [Ea Ha'].
    destruct (put_works k d b Hk Hd Hb) as [Eb Hb']. split; [congruence|]. split_and!; [done..|].
    intros k' Hk'. rewrite !put_cold_at, Ea, Eb by done. case_decide; auto.
  - intros k a b Hk (Ha & Hb & E). by rewrite !get_works, E.
  - intros k a b Hk (Ha & Hb & E). destruct (delete_works k a Hk Ha) as [Ea Ha'].
    destruct (delete_works k b Hk Hb) as [Eb Hb']. split_and!; [done..|].
    intros k' Hk'. rewrite !delete_cold_at, Ea, Eb by done. case_decide; auto.
Qed.

(** Replicas agree. Two nodes with working cold stores of whatever kind,
    started with the same archived slots, give the same answer to every entry
    of a log and read alike after it: jobs, slots hot and cold, execution
    states and counters. With the abstract store for one of them this says
    that the other implements the state machine over a plain map of slots. *)
Theorem replicas_agree log entry (a : option CS) (b : option CS') :
  option_Forall2 same_slots a b →
  let f := run_log log (initial_fsm a) in
  let g := run_log log (initial_fsm b) in
  (FSM_Apply entry f).1 = (FSM_Apply entry g).1 ∧
  (∀ id, FSM_GetJob id f = FSM_GetJob id g) ∧
  (∀ key, in64 key → FSM_GetSlot key f = FSM_GetSlot key g) ∧
  FSM_GetAllSlots f = FSM_GetAllSlots g ∧
  FSM_GetAllExecutionStates f = FSM_GetAllExecutionStates g ∧
  FSM_GetMemoryUsage f = FSM_GetMemoryUsage g ∧ FSM_GetJobCount f = FSM_GetJobCount g.
Proof.
  intros Hab f g.
  assert (fsm_sim id same_slots f g) as Hs.
  { apply run_log_sim; [apply _|]. destruct Hab; split; try done; by constructor. }
  split; [by apply (apply_sim id same_slots entry)|].
  destruct (sim_reads id same_slots f g Hs) as (Hj & ? & _ & ? & ? & ? & ?). split_and!; try done.
  intros i. specialize (Hj i). by rewrite !option_fmap_id in Hj.
Qed.

End agreement.
(** ** Where a cold store of one's own spoils it *)

Section own_store.

Context {CS : Type} `{ReliableColdStore CS}.

Implicit Types f g : FSM CS.

Definition unarchive_entry (key : Z) : json :=
  enc_Command (cmd_with_id CommandUnarchiveSlot (pretty key)).

Lemma unarchive_works f cs key :
  in64 key → f_coldStore f = Some cs → works cs →
  (FSM_Apply (unarchive_entry key) f).2 =
    set_coldSlotMeta (delete key (f_coldSlotMeta f))
      (set_coldStore (Some (DeleteColdSlot key cs).1)
         (match cold_at cs key with
          | Some d => set_slots (<[key := d]> (f_slots f)) f
          | None => f
          end)).
Proof.
  intros Hk Hcs Hw. unfold FSM_Apply, unarchive_entry. rewrite dec_enc_Command.
  2: { unfold command_ok. cbn. split_and!; try done; by constructor || (unfold in64, two63; lia). }
  unfold applyCommandInternal. simpl. unfold applyUnarchiveSlot. simpl.
  rewrite decide_False by apply pretty_Z_ne_empty.
  rewrite Hcs, Sscanf_d_pretty, get_works by done. by destruct (cold_at cs key).
Qed.

(** A restart can lose a slot. Its node takes a snapshot while the slot
    is archived, brings it back, and dies: the cold store on its disk no
    longer has the slot. After the restart the snapshot says the slot is cold,
    the replay of the entry that brought it back finds nothing, and the slot,
    which every other node can read, is gone. *)
Theorem restart_loses_unarchived_slot f g cs key d :
  storable f → in64 key → f_coldStore f = Some cs → works cs → cold_at cs key = Some d →
  f_slots f !! key = None → f_coldSlotMeta f !! key = Some true →
  let after := (FSM_Apply (unarchive_entry key) f).2 in
  f_coldStore g = f_coldStore after →
  let restarted := (FSM_Apply (unarchive_entry key) (Restore (snapshot_doc f) g).2).2 in
  FSM_GetSlot key f = Some d ∧ FSM_GetSlot key after = Some d ∧ FSM_GetSlot key restarted = None.
Proof.
  intros Hf Hk Hcs Hw Hd Hs Hm after Hg restarted. subst after restarted.
  rewrite (unarchive_works f cs key Hk Hcs Hw), Hd in *. simpl in Hg.
  destruct (delete_works key cs Hk Hw) as [Hdel Hw'].
  unfold Restore, snapshot_doc. rewrite dec_enc_Snapshot by by apply storable_encodable. simpl.
  rewrite (unarchive_works _ (DeleteColdSlot key cs).1 key) by done.
  rewrite (delete_cold_at key cs key), Hdel, decide_True by done.
  unfold FSM_GetSlot. simpl. rewrite Hs, Hm, Hcs, lookup_insert_eq, lookup_delete_eq. simpl.
  rewrite (get_works key cs), Hd by done. simpl. by rewrite SlotData_Clone_id.
Qed.

End own_store.

(** A database on a full disk: reading works, writing does not. *)
Record FullDisk := mkFullDisk { fd_db : MemBolt }.

#[export] Instance FullDisk_Bolt : Bolt FullDisk := {|
  bolt_has_bucket _ := true;
  bolt_view_err _ := None;
  bolt_get k db := bolt_get k (fd_db db);
  bolt_put _ _ db := (db, Some (errors_New "no space left on device"));
  bolt_delete _ db := (db, Some (errors_New "no space left on device")) |}.

#[export] Instance FullDisk_BoltLaws : BoltLaws FullDisk.
Proof. by split. Qed.

(** A slot is archived, a newer one takes its place, and the first is brought
    back. *)
Definition ex_spill : list json :=
  [enc_Command (cmd_create_slot ex_slot); enc_Command (cmd_archive ex_slot);
   enc_Command (cmd_create_slot ex_slot2); unarchive_entry 10].

(** Replicas can disagree. The answer of the local disk is not part of the
    log: where the disk is full, archiving fails, and the node goes on with
    another slot than its peers. *)
Theorem full_disk_diverges :
  FSM_GetSlot 10 (run_log ex_spill (initial_fsm (Some (∅ : MemBolt)))) = Some ex_slot ∧
  FSM_GetSlot 10 (run_log ex_spill (initial_fsm (Some (mkFullDisk ∅)))) = Some ex_slot2.
Proof. split; vm_compute; reflexivity. Qed.

(** ** Concrete runs *)

Definition ex_log : list json :=
  [enc_Command (cmd_create_job ex_job); enc_Command (cmd_create_slot ex_slot);
   enc_Command (cmd_archive ex_slot); enc_Command (cmd_memory 100)].

Lemma ex_log_plain : Forall plain ex_log.
Proof. repeat constructor. Qed.

Lemma storable_initial_empty : storable (initial_fsm (Some (∅ : MemBolt))).
Proof.
  split; try apply map_Forall_empty; try (unfold in64, two63; simpl; lia).
  intros cs k d [= <-] _. done.
Qed.

Lemma recovery_is_replay_witness :
  let cs := f_coldStore (run_log (take 3 ex_log) (initial_fsm (Some (∅ : MemBolt)))) in
  ∃ doc, Persist None None (GetSnapshot (run_log (take 3 ex_log) (initial_fsm (Some (∅ : MemBolt)))))
      = (Some doc, None) ∧
    FSM_GetSlot 10 (run_log (drop 3 ex_log) (Restore doc (initial_fsm cs)).2) = Some ex_slot.
Proof.
  destruct (recovery_is_replay (take 3 ex_log) (drop 3 ex_log) (Some (∅ : MemBolt))
    (initial_fsm (f_coldStore (run_log (take 3 ex_log) (initial_fsm (Some (∅ : MemBolt)))))) JNull)
    as (doc & Hp & E & _).
  - apply Forall_take, ex_log_plain.
  - exact storable_initial_empty.
  - vm_compute. reflexivity.
  - exists doc. split; [exact Hp|].
    destruct (sim_reads job_norm eq _ _ E) as (_ & R & _).
    rewrite (R 10) by (unfold in64, two63; lia). rewrite take_drop. vm_compute. reflexivity.
Defined.

Lemma replicas_agree_witness :
  FSM_GetSlot 10 (run_log ex_log (initial_fsm (Some (∅ : MemBolt)))) =
  FSM_GetSlot 10 (run_log ex_log (initial_fsm (Some (∅ : SlotMap)))) ∧
  FSM_GetSlot 10 (run_log ex_log (initial_fsm (Some (∅ : SlotMap)))) = Some ex_slot.
Proof.
  split; [|vm_compute; reflexivity].
  destruct (replicas_agree ex_log JNull (Some (∅ : MemBolt)) (Some (∅ : SlotMap))) as (_ & _ & R & _).
  - constructor. split; [apply map_Forall_empty|]. split; [exact I|]. reflexivity.
  - apply R. unfold in64, two63; lia.
Defined.

Lemma ex_cold_storable : storable ex_cold.
Proof.
  split; try apply map_Forall_empty; try (unfold in64, two63; simpl; lia).
  - apply map_Forall_singleton. unfold in64, two63. lia.
  - intros cs k d [= <-] Hk Hd. unfold cold_at in Hd. simpl in Hd. unfold bolt_cold_at in Hd. simpl in Hd.
    destruct (lookup _ _) as [v|]; [|done]. by eapply dec_Slot_ok.
Qed.

Lemma restart_loses_unarchived_slot_witness :
  let after := (FSM_Apply (unarchive_entry 10) ex_cold).2 in
  let restarted := (FSM_Apply (unarchive_entry 10)
    (Restore (snapshot_doc ex_cold) (initial_fsm (f_coldStore after))).2).2 in
  FSM_GetSlot 10 after = Some ex_slot ∧ FSM_GetSlot 10 restarted = None.
Proof.
  apply (restart_loses_unarchived_slot ex_cold
    (initial_fsm (f_coldStore (FSM_Apply (unarchive_entry 10) ex_cold).2)) ex_cold_db 10 ex_slot).
  - exact ex_cold_storable.
  - unfold in64, two63; lia.
  - reflexivity.
  - apply map_Forall_singleton. vm_compute. by eexists.
  - vm_compute. reflexivity.
  - reflexivity.
  - reflexivity.
  - vm_compute. reflexivity.
Defined.
