(* ===== verification/TimingWheel.v ===== *)
(** * The hierarchical timing wheel: [internal/slots/timing_wheel.go]

    A wheel is a list of levels; a level is a ring of buckets, a bucket a set
    of slot keys. [None] stands for a Go panic (an index out of range, a
    division by zero) and for a loop that does not end. Times are Unix
    seconds; all arithmetic is on [int64]. The mutex makes every operation
    atomic, so each one is a function of the wheel. *)

From S2P Require Import Prelude GoFloat.

(** ** Data *)

Definition DefaultSlotGap : Z := i64 (10 * Second).

Record WheelLevelConfig := mkConfig { Granularity : Z; Buckets : Z }.

Record wheelLevel := mkLevel {
  granularity : Z;
  bucketCount : Z;
  buckets : list (gset Z);
  current : Z }.

Record slotLoc := mkLoc { level : Z; bucket : Z }.

#[export] Instance slotLoc_eq_dec : EqDecision slotLoc.
Proof. solve_decision. Defined.

Record HierarchicalTimingWheel := mkWheel {
  levels : list wheelLevel;
  currentBase : Z;
  slotGap : Z;
  slotLocation : gmap Z slotLoc;
  overflow : gset Z;
  initialized : bool }.

Implicit Types (w : HierarchicalTimingWheel) (L : wheelLevel).

Definition set_buckets (bs : list (gset Z)) L : wheelLevel :=
  mkLevel (granularity L) (bucketCount L) bs (current L).

Definition set_current (c : Z) L : wheelLevel :=
  mkLevel (granularity L) (bucketCount L) (buckets L) c.

Definition set_levels (ls : list wheelLevel) w : HierarchicalTimingWheel :=
  mkWheel ls (currentBase w) (slotGap w) (slotLocation w) (overflow w) (initialized w).

Definition set_base (b : Z) (i : bool) w : HierarchicalTimingWheel :=
  mkWheel (levels w) b (slotGap w) (slotLocation w) (overflow w) i.

Definition set_location (m : gmap Z slotLoc) w : HierarchicalTimingWheel :=
  mkWheel (levels w) (currentBase w) (slotGap w) m (overflow w) (initialized w).

Definition set_overflow (o : gset Z) w : HierarchicalTimingWheel :=
  mkWheel (levels w) (currentBase w) (slotGap w) (slotLocation w) o (initialized w).

(** ** Construction *)

Definition DefaultWheelConfigs (gap : Z) : list WheelLevelConfig :=
  let gap := if decide (gap = 0) then DefaultSlotGap else gap in
  [mkConfig gap 360; mkConfig (i64 (gap * 360)) 24; mkConfig (i64 (i64 (gap * 360) * 24)) 365].

(** [make([]map[int64]struct{}, n)] panics for a negative [n]. *)
Definition new_level (cfg : WheelLevelConfig) : option wheelLevel :=
  if decide (Buckets cfg < 0) then None
  else Some (mkLevel (secs (Granularity cfg)) (Buckets cfg)
               (replicate (Z.to_nat (Buckets cfg)) ∅) 0).

Definition NewHierarchicalTimingWheel (gap : Z) (configs : list WheelLevelConfig)
    : option HierarchicalTimingWheel :=
  let configs := if decide (length configs = 0%nat) then DefaultWheelConfigs gap else configs in
  ls ← mapM new_level configs;
  Some (mkWheel ls 0 gap ∅ ∅ false).

(** ** Reading and writing *)

(** The gap in seconds, ten when the duration truncates to zero. *)
Definition slotGapSeconds w : Z :=
  let s := secs (slotGap w) in if decide (s = 0) then secs DefaultSlotGap else s.

Definition computeSlotTime (k : Z) w : Z := i64 (k * slotGapSeconds w).

(** [if delta < 0 { delta = 0 }] *)
Definition clamp0 (z : Z) : Z := if decide (z < 0) then 0 else z.

(** [htw.levels[loc.level].buckets[loc.bucket]] *)
Definition bucket_of (loc : slotLoc) w : option (gset Z) :=
  L ← go_index (levels w) (level loc); go_index (buckets L) (bucket loc).

Definition write_bucket (loc : slotLoc) (B : gset Z) w : HierarchicalTimingWheel :=
  set_levels
    (alter (λ L, set_buckets (<[Z.to_nat (bucket loc) := B]> (buckets L)) L)
       (Z.to_nat (level loc)) (levels w)) w.

(** Insert the key in its bucket and record the location. *)
Definition place (loc : slotLoc) (k : Z) w : option HierarchicalTimingWheel :=
  B ← bucket_of loc w;
  Some (set_location (<[k := loc]> (slotLocation w)) (write_bucket loc ({[k]} ∪ B) w)).

(** [n] is [len(htw.levels)]. The outer [None] is a panic, the inner one the
    [false] of the source. *)
Fixpoint findBucket_from (i n elapsed delta : Z) (ls : list wheelLevel)
    : option (option slotLoc) :=
  match ls with
  | [] => Some None
  | L :: ls =>
      let levelRange := i64 (granularity L * bucketCount L) in
      if decide (delta < levelRange ∨ i = n - 1) then
        bucketsIntoLevel ← go_quot delta (granularity L);
        e ← go_quot elapsed (granularity L);
        let offset := i64 (bucketsIntoLevel - e) in
        b ← go_rem (i64 (current L + offset)) (bucketCount L);
        let b := Z.max 0 (Z.min b (i64 (bucketCount L - 1))) in
        Some (Some (mkLoc i b))
      else findBucket_from (i + 1) n levelRange delta ls
  end.

Definition findBucket (delta : Z) w : option (option slotLoc) :=
  findBucket_from 0 (Z.of_nat (length (levels w))) 0 delta (levels w).

Definition totalCoverage w : Z :=
  foldl (λ total L, i64 (total + i64 (granularity L * bucketCount L))) 0 (levels w).

(** ** Operations *)

Definition Init (now : Z) w : option HierarchicalTimingWheel :=
  if initialized w then Some w
  else
    q ← go_quot now (slotGapSeconds w);
    Some (set_base (i64 (q * slotGapSeconds w)) true w).

Definition Add (k : Z) w : option HierarchicalTimingWheel :=
  let slotTime := i64 (k * slotGapSeconds w) in
  w ← (if initialized w then Some w
       else
         q ← go_quot slotTime (slotGapSeconds w);
         Some (set_base (i64 (q * slotGapSeconds w)) true w));
  let delta := clamp0 (i64 (slotTime - currentBase w)) in
  found ← findBucket delta w;
  match found with
  | None => Some (set_overflow ({[k]} ∪ overflow w) w)
  | Some loc => place loc k w
  end.

Definition Remove (k : Z) w : option HierarchicalTimingWheel :=
  match slotLocation w !! k with
  | Some loc =>
      B ← bucket_of loc w;
      Some (set_location (delete k (slotLocation w)) (write_bucket loc (B ∖ {[k]}) w))
  | None => Some (set_overflow (overflow w ∖ {[k]}) w)
  end.

Section range.

Context `{GoRange}.

(** The body of the loop of [cascade] over the emptied bucket. *)
Definition cascade_key (lvl : Z) (k : Z) w : option HierarchicalTimingWheel :=
  let delta := clamp0 (i64 (computeSlotTime k w - currentBase w)) in
  found ← findBucket delta w;
  match found with
  | Some loc =>
      if decide (level loc < lvl) then place loc k w
      else Some (set_location (delete k (slotLocation w)) (set_overflow ({[k]} ∪ overflow w) w))
  | None =>
      Some (set_location (delete k (slotLocation w)) (set_overflow ({[k]} ∪ overflow w) w))
  end.

(** The ring of level [lvl] moves on by one. *)
Definition bump (lvl : Z) w : option (Z * HierarchicalTimingWheel) :=
  L ← go_index (levels w) lvl;
  c ← go_rem (i64 (current L + 1)) (bucketCount L);
  Some (c, set_levels (<[Z.to_nat lvl := set_current c L]> (levels w)) w).

(** [fuel] bounds the recursion, which ends at the last level. *)
Fixpoint cascade (fuel : nat) (lvl : Z) w : option HierarchicalTimingWheel :=
  match fuel with
  | O => None
  | S fuel =>
      if decide (lvl >= Z.of_nat (length (levels w))) then Some w
      else
        L ← go_index (levels w) lvl;
        B ← go_index (buckets L) (current L);
        w ← ofold (cascade_key lvl) (range_set B) (write_bucket (mkLoc lvl (current L)) ∅ w);
        '(c, w) ← bump lvl w;
        if decide (c = 0) then cascade fuel (lvl + 1) w else Some w
  end.

(** One round of the main loop of [Advance]: the keys it appends to [ready]. *)
Definition tick w : option (list Z * HierarchicalTimingWheel) :=
  let w := set_base (i64 (currentBase w + slotGapSeconds w)) (initialized w) w in
  L ← go_index (levels w) 0;
  B ← go_index (buckets L) (current L);
  let keys := range_set B in
  let w := set_location (foldl (λ m k, delete k m) (slotLocation w) keys) w in
  let w := write_bucket (mkLoc 0 (current L)) ∅ w in
  '(c, w) ← bump 0 w;
  w ← (if decide (c = 0) then cascade (S (length (levels w))) 1 w else Some w);
  Some (keys, w).

(** [for htw.currentBase < newBase { ... }] *)
Fixpoint advance_loop (fuel : nat) (newBase : Z) (ready : list Z) w
    : option (list Z * HierarchicalTimingWheel) :=
  if decide (currentBase w < newBase) then
    match fuel with
    | O => None
    | S fuel => '(keys, w) ← tick w; advance_loop fuel newBase (ready ++ keys) w
    end
  else Some (ready, w).

(** The body of the first loop over the overflow; the state carries
    [overflowReady]. *)
Definition refill_key (k : Z) (s : list Z * HierarchicalTimingWheel)
    : option (list Z * HierarchicalTimingWheel) :=
  let '(done, w) := s in
  let delta := clamp0 (i64 (i64 (k * slotGapSeconds w) - currentBase w)) in
  if decide (delta < totalCoverage w) then
    found ← findBucket delta w;
    match found with
    | Some loc => w ← place loc k w; Some (done ++ [k], w)
    | None => Some (done, w)
    end
  else Some (done, w).

Definition refill w : option HierarchicalTimingWheel :=
  '(done, w) ← ofold refill_key (range_set (overflow w)) ([], w);
  Some (set_overflow (foldl (λ o k, o ∖ {[k]}) (overflow w) done) w).

(** The second loop over the overflow. *)
Definition promote (newBase : Z) w : list Z * HierarchicalTimingWheel :=
  let keys := filter (λ k, i64 (k * slotGapSeconds w) <= newBase) (range_set (overflow w)) in
  (keys,
   set_location (foldl (λ m k, delete k m) (slotLocation w) keys)
     (set_overflow (foldl (λ o k, o ∖ {[k]}) (overflow w) keys) w)).

(** Enough rounds to reach [newBase] from the current base. *)
Definition advance_fuel (newBase : Z) w : nat :=
  Z.to_nat ((newBase - currentBase w) / slotGapSeconds w + 1).

Definition Advance (now : Z) w : option (list Z * HierarchicalTimingWheel) :=
  if initialized w then
    q ← go_quot now (slotGapSeconds w);
    let newBase := i64 (q * slotGapSeconds w) in
    if decide (newBase <= currentBase w) then Some ([], w)
    else
      '(ready, w) ← advance_loop (advance_fuel newBase w) newBase [] w;
      w ← refill w;
      let '(promoted, w) := promote newBase w in
      Some (ready ++ promoted, w)
  else Some ([], w).

(** [ready] in the order of the source: level by level, bucket by bucket. *)
Definition GetReadySlots (now : Z) w : list Z :=
  if initialized w then
    let due k := i64 (k * slotGapSeconds w) <= now in
    (L ← levels w; B ← buckets L; filter due (range_set B)) ++
    filter due (range_set (overflow w))
  else [].

(** [if minTime == -1 || slotTime < minTime { minTime = slotTime }] over a
    range of keys. *)
Definition min_times (gap minTime : Z) (keys : list Z) : Z :=
  foldl (λ m k, let t := i64 (k * gap) in
                if decide (m = -1 ∨ t < m) then t else m) minTime keys.

(** The keys of the first non-empty bucket from [current] on. *)
Fixpoint first_bucket (n : nat) (offset : Z) L : option (gset Z) :=
  match n with
  | O => Some ∅
  | S n =>
      if decide (offset < bucketCount L) then
        idx ← go_rem (i64 (current L + offset)) (bucketCount L);
        B ← go_index (buckets L) idx;
        if decide (B = ∅) then first_bucket n (offset + 1) L else Some B
      else Some ∅
  end.

Definition PeekMin w : option Z :=
  if initialized w then
    let gap := slotGapSeconds w in
    m ← ofold (λ L m, B ← first_bucket (S (Z.to_nat (bucketCount L))) 0 L;
                      Some (min_times gap m (range_set B)))
          (levels w) (-1);
    Some (min_times gap m (range_set (overflow w)))
  else Some (-1).

End range.

Definition Size w : Z :=
  foldl (λ c L, foldl (λ c B, c + Z.of_nat (size B)) c (buckets L)) 0 (levels w)
  + Z.of_nat (size (overflow w)).

Definition Reset w : HierarchicalTimingWheel :=
  mkWheel ((λ L, set_current 0 (set_buckets ((λ _, ∅) <$> buckets L) L)) <$> levels w)
    (currentBase w) (slotGap w) ∅ ∅ false.
