(* ===== verification/WheelProps.v ===== *)
(** * Structural properties of the timing wheel

    [wheel_wf] is the shape of a wheel; [loc_ok] the weak invariant (a
    recorded location holds its key), [one_place] the strong one (a key is in
    exactly the place the location map says). No operation panics on a
    well-formed wheel, and [Advance] neither loses nor invents a key. *)

From S2P Require Import Prelude GoFloat TimingWheel.

Implicit Types (w : HierarchicalTimingWheel) (L : wheelLevel).

(** ** Shape *)

Record level_wf L : Prop := {
  lw_gran : 0 < granularity L;
  lw_count : 0 < bucketCount L < two63;
  lw_len : Z.of_nat (length (buckets L)) = bucketCount L;
  lw_cur : 0 <= current L < bucketCount L }.

Record wheel_wf w : Prop := {
  ww_levels : levels w ≠ [];
  ww_level : Forall level_wf (levels w);
  ww_gap : 0 < slotGapSeconds w }.

(** The part of a wheel that placing keys does not touch. *)
Definition level_skel L : Z * Z * nat * Z :=
  (granularity L, bucketCount L, length (buckets L), current L).

Definition skel w : list (Z * Z * nat * Z) * Z * Z * bool :=
  (level_skel <$> levels w, currentBase w, slotGap w, initialized w).

(** The keys of a bucket; none where there is no bucket. *)
Definition at_loc w (loc : slotLoc) : gset Z := default ∅ (bucket_of loc w).

Definition valid_loc w (loc : slotLoc) : Prop := is_Some (bucket_of loc w).

(** All the keys of a wheel. *)
Definition wheel_keys w : gset Z := ⋃ (levels w ≫= buckets) ∪ overflow w.

#[global] Typeclasses Opaque wheel_keys at_loc.

Section shape.

Lemma level_skel_wf L L' : level_skel L = level_skel L' → level_wf L → level_wf L'.
Proof.
  unfold level_skel. intros [= Hg Hc Hl Hu] [H1 H2 H3 H4].
  split; rewrite <-?Hg, <-?Hc, <-?Hl, <-?Hu; done.
Qed.

Lemma skel_levels w w' i L :
  skel w = skel w' → levels w !! i = Some L →
  ∃ L', levels w' !! i = Some L' ∧ level_skel L' = level_skel L.
Proof.
  unfold skel. intros [= Hs _ _ _] Hi.
  assert ((level_skel <$> levels w') !! i = Some (level_skel L)) as Hi'.
  { rewrite <-Hs. by rewrite list_lookup_fmap, Hi. }
  rewrite list_lookup_fmap in Hi'. apply fmap_Some in Hi' as (L' & ? & ?). eauto.
Qed.

Lemma skel_gap w w' : skel w = skel w' → slotGapSeconds w = slotGapSeconds w'.
Proof. unfold skel, slotGapSeconds. by intros [= _ _ -> _]. Qed.

Lemma skel_base w w' : skel w = skel w' → currentBase w = currentBase w'.
Proof. unfold skel. by intros [=]. Qed.

Lemma skel_length w w' : skel w = skel w' → length (levels w) = length (levels w').
Proof.
  unfold skel. intros [= Hs _ _ _]. apply (f_equal length) in Hs.
  by rewrite !length_fmap in Hs.
Qed.

Lemma skel_wf w w' : skel w = skel w' → wheel_wf w → wheel_wf w'.
Proof.
  intros Hs [Hne Hl Hg]. split.
  - pose proof (skel_length _ _ Hs). destruct (levels w); [done|]. by destruct (levels w').
  - apply Forall_lookup. intros i L Hi.
    destruct (skel_levels w' w i L) as (L' & Hi' & HL); [done|done|].
    rewrite Forall_lookup in Hl. by eapply level_skel_wf; [|apply (Hl i L')].
  - by rewrite <-(skel_gap _ _ Hs).
Qed.

Lemma wf_level w i L : wheel_wf w → levels w !! i = Some L → level_wf L.
Proof. intros [_ Hl _] Hi. rewrite Forall_lookup in Hl. eauto. Qed.

Lemma valid_loc_spec w loc :
  valid_loc w loc ↔ ∃ L, 0 <= level loc ∧ levels w !! Z.to_nat (level loc) = Some L ∧
    0 <= bucket loc < Z.of_nat (length (buckets L)).
Proof.
  unfold valid_loc, bucket_of. split.
  - intros [B HB]. apply bind_Some in HB as (L & HL & HB).
    apply go_index_Some in HL as [? ?]. apply go_index_Some in HB as [? HB%lookup_lt_Some].
    exists L. split_and!; [done..|lia].
  - intros (L & ? & HL & ?). unfold go_index at 2. rewrite decide_True by done. rewrite HL.
    by apply go_index_lt.
Qed.

Lemma skel_valid_loc w w' loc : skel w = skel w' → valid_loc w loc → valid_loc w' loc.
Proof.
  intros Hs. rewrite !valid_loc_spec. intros (L & ? & HL & ?).
  destruct (skel_levels _ _ _ _ Hs HL) as (L' & HL' & HS).
  exists L'. unfold level_skel in HS. simplify_eq. split_and!; done || lia.
Qed.

(** ** Writing a bucket *)

Lemma write_bucket_skel loc B w : skel (write_bucket loc B w) = skel w.
Proof.
  unfold skel. do 3 f_equal. simpl.
  apply list_eq. intros i. rewrite !list_lookup_fmap.
  destruct (decide (i = Z.to_nat (level loc))) as [->|].
  - rewrite list_lookup_alter_eq. destruct (levels w !! _) as [L|]; [|done].
    simpl. unfold level_skel. simpl. by rewrite length_insert.
  - by rewrite list_lookup_alter_ne.
Qed.

Lemma write_bucket_at loc B w loc' :
  valid_loc w loc →
  at_loc (write_bucket loc B w) loc' = if decide (loc = loc') then B else at_loc w loc'.
Proof.
  rewrite valid_loc_spec. intros (L & Hl & HL & Hb). unfold at_loc, bucket_of, go_index. simpl.
  destruct (decide (loc = loc')) as [<-|E].
  - rewrite decide_True, list_lookup_alter_eq, HL by done. simpl.
    rewrite decide_True by lia. rewrite list_lookup_insert_eq by lia. done.
  - destruct (decide (0 <= level loc')); [|done].
    destruct (decide (level loc = level loc')) as [El|El].
    + rewrite <-El, list_lookup_alter_eq, HL. simpl.
      destruct (decide (0 <= bucket loc')); [|done]. rewrite list_lookup_insert_ne; [done|].
      intros E'. apply E. destruct loc, loc'. simpl in *. f_equal; lia.
    + rewrite list_lookup_alter_ne by lia. done.
Qed.

Lemma elem_of_wheel_keys k w :
  k ∈ wheel_keys w ↔ (∃ loc, k ∈ at_loc w loc) ∨ k ∈ overflow w.
Proof.
  unfold wheel_keys. rewrite elem_of_union, elem_of_union_list.
  apply or_iff_compat_r. split.
  - intros (B & HB & Hk). apply list_elem_of_bind in HB as (L & HB & HL).
    apply list_elem_of_lookup_1 in HL as [i Hi]. apply list_elem_of_lookup_1 in HB as [b Hb].
    exists (mkLoc (Z.of_nat i) (Z.of_nat b)). unfold at_loc, bucket_of.
    cbn [level bucket]. rewrite go_index_of_nat, Hi. simpl. by rewrite go_index_of_nat, Hb.
  - intros [loc Hk]. unfold at_loc in Hk.
    destruct (bucket_of loc w) as [B|] eqn:E; [|set_solver].
    unfold bucket_of in E. apply bind_Some in E as (L & HL & HB).
    apply go_index_Some in HL as [_ HL]. apply go_index_Some in HB as [_ HB].
    exists B. split; [|done]. apply list_elem_of_bind. exists L.
    split; eapply list_elem_of_lookup_2; eauto.
Qed.

End shape.

(** ** Finding and filling a bucket *)

Section placing.

Lemma go_rem_range a n :
  0 < n < two63 → ∃ r, go_rem a n = Some r ∧ - n < r < n.
Proof.
  intros Hn. unfold go_rem. rewrite decide_False by lia.
  pose proof (Z.rem_bound_abs a n ltac:(lia)).
  exists (Z.rem a n). rewrite i64_id; [split; [done|lia]|]. unfold in64. lia.
Qed.

Lemma go_quot_some a b : 0 < b → ∃ q, go_quot a b = Some q.
Proof. intros ?. unfold go_quot. rewrite decide_False by lia. eauto. Qed.

Lemma findBucket_from_valid ls i n elapsed delta :
  Forall level_wf ls → ls ≠ [] → n = i + Z.of_nat (length ls) →
  ∃ j b L, findBucket_from i n elapsed delta ls = Some (Some (mkLoc (i + Z.of_nat j) b)) ∧
    ls !! j = Some L ∧ 0 <= b < bucketCount L.
Proof.
  revert i elapsed. induction ls as [|L ls IH]; intros i elapsed Hwf Hne Hn; [done|].
  apply Forall_cons in Hwf as [HL Hwf]. destruct HL as [Hg Hc Hl Hu]. cbn [findBucket_from].
  case_decide as Hd.
  - destruct (go_quot_some delta (granularity L) Hg) as [q ->].
    destruct (go_quot_some elapsed (granularity L) Hg) as [e ->]. cbn [mbind option_bind].
    destruct (go_rem_range (i64 (current L + i64 (q - e))) (bucketCount L)) as (r & -> & Hr); [lia|].
    cbn [mbind option_bind]. exists 0%nat. eexists _, L. split; [by rewrite Z.add_0_r|].
    split; [done|]. rewrite i64_id by (unfold in64; lia). lia.
  - destruct ls as [|L' ls]; [exfalso; apply Hd; right; cbn in Hn; lia|].
    destruct (IH (i + 1) (i64 (granularity L * bucketCount L))) as (j & b & L2 & -> & HL2 & Hb);
      [done..|cbn in *; lia|].
    exists (S j), b, L2. split; [|done]. do 3 f_equal. lia.
Qed.

(** [findBucket] always finds a bucket, because the last level takes every
    delay. *)
Lemma findBucket_valid delta w :
  wheel_wf w → ∃ loc, findBucket delta w = Some (Some loc) ∧ valid_loc w loc.
Proof.
  intros Hw. pose proof Hw as [Hne Hl _].
  destruct (findBucket_from_valid (levels w) 0 (Z.of_nat (length (levels w))) 0 delta)
    as (j & b & L & E & HL & Hb); [done..|].
  eexists. split; [exact E|]. apply valid_loc_spec. exists L.
  pose proof (lw_len _ (wf_level _ _ _ Hw HL)).
  cbn [level bucket]. rewrite Z.add_0_l, Nat2Z.id. split_and!; [lia|done|lia|lia].
Qed.

Lemma findBucket_from_skel ls ls' i n elapsed delta :
  level_skel <$> ls = level_skel <$> ls' →
  findBucket_from i n elapsed delta ls = findBucket_from i n elapsed delta ls'.
Proof.
  revert ls' i elapsed. induction ls as [|L ls IH]; intros [|L' ls'] i elapsed Hs; try done.
  cbn in Hs. injection Hs as Hg Hc _ Hu Hs. cbn [findBucket_from].
  rewrite Hg, Hc, Hu. case_decide; [done|]. by apply IH.
Qed.

Lemma findBucket_skel w w' delta : skel w = skel w' → findBucket delta w = findBucket delta w'.
Proof.
  intros Hs. unfold findBucket. rewrite (skel_length _ _ Hs).
  apply findBucket_from_skel. unfold skel in Hs. by simplify_eq.
Qed.

Lemma totalCoverage_skel w w' : skel w = skel w' → totalCoverage w = totalCoverage w'.
Proof.
  unfold skel, totalCoverage. intros [= Hs _ _ _]. generalize 0.
  generalize dependent (levels w'). generalize (levels w). intros ls.
  induction ls as [|L ls IH]; intros [|L' ls'] Hs z; try done.
  cbn in Hs. injection Hs as Hg Hc _ _ Hs. simpl. rewrite Hg, Hc. by apply IH.
Qed.

(** Where a key goes when it is placed with the base the wheel has. *)
Definition dest (k : Z) w : option (option slotLoc) :=
  findBucket (clamp0 (i64 (computeSlotTime k w - currentBase w))) w.

Lemma dest_skel w w' k : skel w = skel w' → dest k w = dest k w'.
Proof.
  intros Hs. unfold dest, computeSlotTime.
  rewrite (skel_gap _ _ Hs), (skel_base _ _ Hs). by apply findBucket_skel.
Qed.

Lemma dest_valid w k : wheel_wf w → ∃ loc, dest k w = Some (Some loc) ∧ valid_loc w loc.
Proof. apply findBucket_valid. Qed.

Lemma place_spec loc k w :
  valid_loc w loc → ∃ w', place loc k w = Some w' ∧ skel w' = skel w ∧
    (∀ loc', at_loc w' loc' = if decide (loc = loc') then {[k]} ∪ at_loc w loc else at_loc w loc') ∧
    slotLocation w' = <[k := loc]> (slotLocation w) ∧ overflow w' = overflow w.
Proof.
  intros Hv. pose proof Hv as [B HB]. unfold place. rewrite HB. simpl.
  eexists. split; [done|]. split; [|split; [|done]].
  - transitivity (skel (write_bucket loc ({[k]} ∪ B) w)); [done|]. apply write_bucket_skel.
  - intros loc'.
    change (at_loc (write_bucket loc ({[k]} ∪ B) w) loc' =
      if decide (loc = loc') then {[k]} ∪ at_loc w loc else at_loc w loc').
    rewrite write_bucket_at by done. unfold at_loc at 2. by rewrite HB.
Qed.

(** The keys [l] of [w0] went to the places [d] gives them, [None] meaning the
    overflow; nothing else moved. *)
Record moved (d : Z → option slotLoc) (l : list Z) w0 w : Prop := {
  mv_skel : skel w = skel w0;
  mv_at : ∀ loc k, k ∈ at_loc w loc ↔ k ∈ at_loc w0 loc ∨ (k ∈ l ∧ d k = Some loc);
  mv_over : ∀ k, k ∈ overflow w ↔ k ∈ overflow w0 ∨ (k ∈ l ∧ d k = None);
  mv_loc : ∀ k, slotLocation w !! k = if decide (k ∈ l) then d k else slotLocation w0 !! k }.

Lemma moved_nil d w : moved d [] w w.
Proof. split; try done; intros; set_solver. Qed.

Lemma moved_ext d d' l w0 w : (∀ k, d k = d' k) → moved d l w0 w → moved d' l w0 w.
Proof.
  intros Hd [H1 H2 H3 H4]. split; [done|..]; intros; rewrite <-Hd; eauto.
Qed.

Lemma moved_place d l w0 w k loc :
  moved d l w0 w → d k = Some loc → valid_loc w0 loc →
  ∃ w', place loc k w = Some w' ∧ moved d (l ++ [k]) w0 w'.
Proof.
  intros [Hs Ha Ho Hl] Hd Hv.
  destruct (place_spec loc k w) as (w' & E & Hs' & Ha' & Hl' & Ho');
    [by eapply skel_valid_loc; [symmetry|]|].
  exists w'. split; [done|]. split.
  - by rewrite Hs'.
  - intros loc' x. rewrite Ha', elem_of_app, list_elem_of_singleton.
    case_decide; [subst loc'; rewrite elem_of_union, elem_of_singleton|]; rewrite Ha;
      naive_solver.
  - intros x. rewrite Ho', Ho, elem_of_app, list_elem_of_singleton. naive_solver.
  - intros x. rewrite Hl'. destruct (decide (k = x)) as [<-|].
    + rewrite lookup_insert_eq, decide_True by set_solver. done.
    + rewrite lookup_insert_ne, Hl by done.
      destruct (decide (x ∈ l)); [rewrite decide_True by set_solver; done|].
      by rewrite decide_False by set_solver.
Qed.

Lemma moved_overflow d l w0 w k :
  moved d l w0 w → d k = None →
  moved d (l ++ [k]) w0
    (set_location (delete k (slotLocation w)) (set_overflow ({[k]} ∪ overflow w) w)).
Proof.
  intros [Hs Ha Ho Hl] Hd. split.
  - by rewrite <-Hs.
  - intros loc x. change (x ∈ at_loc w loc ↔ x ∈ at_loc w0 loc ∨ x ∈ l ++ [k] ∧ d x = Some loc).
    rewrite Ha, elem_of_app, list_elem_of_singleton. naive_solver.
  - intros x. simpl. rewrite elem_of_union, elem_of_singleton, Ho, elem_of_app,
      list_elem_of_singleton. naive_solver.
  - intros x. simpl. destruct (decide (k = x)) as [<-|].
    + rewrite lookup_delete_eq, decide_True by set_solver. done.
    + rewrite lookup_delete_ne, Hl by done.
      destruct (decide (x ∈ l)); [rewrite decide_True by set_solver; done|].
      by rewrite decide_False by set_solver.
Qed.

End placing.

(** ** The invariants of the location map *)

Definition loc_ok w : Prop :=
  ∀ k loc, slotLocation w !! k = Some loc → k ∈ at_loc w loc.

Record one_place w : Prop := {
  op_at : ∀ k loc, k ∈ at_loc w loc ↔ slotLocation w !! k = Some loc;
  op_over : ∀ k, k ∈ overflow w → slotLocation w !! k = None }.

(** What an operation that keeps the keys keeps. *)
Definition keeps w w' : Prop :=
  (∀ k, k ∈ wheel_keys w' ↔ k ∈ wheel_keys w) ∧ (loc_ok w → loc_ok w') ∧
  (one_place w → one_place w').

#[export] Instance keeps_preorder : PreOrder keeps.
Proof.
  split; [by intros w|].
  intros w1 w2 w3 (H1 & H2 & H3) (H4 & H5 & H6). split_and!; [|by auto..].
  intros k. by rewrite H4.
Qed.

(** ** One round of [cascade] *)

Definition bumped (lvl c : Z) w : HierarchicalTimingWheel :=
  set_levels (alter (set_current c) (Z.to_nat lvl) (levels w)) w.

(** Where [cascade lvl] sends a key: a lower level or the overflow. *)
Definition cascade_dest (lvl : Z) w (k : Z) : option slotLoc :=
  match dest k w with
  | Some (Some loc) => if decide (level loc < lvl) then Some loc else None
  | _ => None
  end.

Section cascade.

Context `{GoRange}.

Lemma bumped_at lvl c w loc : at_loc (bumped lvl c w) loc = at_loc w loc.
Proof.
  unfold at_loc, bucket_of, go_index. simpl. destruct (decide (0 <= level loc)); [|done].
  destruct (decide (Z.to_nat lvl = Z.to_nat (level loc))) as [->|].
  - rewrite list_lookup_alter_eq. by destruct (levels w !! _).
  - by rewrite list_lookup_alter_ne.
Qed.

Lemma bumped_wf lvl c w L :
  wheel_wf w → levels w !! Z.to_nat lvl = Some L → 0 <= c < bucketCount L →
  wheel_wf (bumped lvl c w).
Proof.
  intros Hw HL Hc. pose proof Hw as [Hne Hl Hg]. split; [|simpl|done].
  - intros E. apply (f_equal length) in E. simpl in E. rewrite length_alter in E.
    by destruct (levels w).
  - apply Forall_lookup. intros i L'. rewrite list_lookup_alter. case_decide as Ei.
    + intros (L1 & HL1 & ->)%fmap_Some. rewrite Ei in HL1. simplify_eq.
      destruct (wf_level _ _ _ Hw HL). by split.
    + by apply wf_level.
Qed.

Lemma bumped_keeps lvl c w : keeps w (bumped lvl c w).
Proof.
  split_and!.
  - intros k. rewrite !elem_of_wheel_keys. simpl. by setoid_rewrite bumped_at.
  - intros Hl k loc. rewrite bumped_at. apply Hl.
  - intros [H1 H2]. split; [|done]. intros k loc. rewrite bumped_at. apply H1.
Qed.

Definition next_current L : Z := (current L + 1) mod bucketCount L.

Lemma bump_eq lvl w L :
  wheel_wf w → 0 <= lvl → levels w !! Z.to_nat lvl = Some L →
  bump lvl w = Some (next_current L, bumped lvl (next_current L) w).
Proof.
  intros Hw Hl HL. destruct (wf_level _ _ _ Hw HL) as [_ Hc _ Hu].
  unfold bump, go_index. rewrite decide_True, HL by done. simpl.
  rewrite i64_id by (unfold in64; lia). rewrite go_rem_nonneg by (unfold in64; lia).
  simpl. unfold bumped, next_current. do 3 f_equal.
  apply list_eq. intros i. rewrite list_lookup_alter. case_decide as E.
  - subst i. rewrite list_lookup_insert_eq, HL; [done|]. by apply lookup_lt_Some in HL.
  - by rewrite list_lookup_insert_ne.
Qed.

Lemma cascade_keys lvl l w0 :
  wheel_wf w0 →
  ∃ w, ofold (cascade_key lvl) l w0 = Some w ∧ moved (cascade_dest lvl w0) l w0 w.
Proof.
  intros Hw. apply (ofold_ind (λ l w, moved (cascade_dest lvl w0) l w0 w)); [apply moved_nil|].
  intros l1 k l2 w _ Hm. unfold cascade_key.
  change (findBucket _ w) with (dest k w). rewrite (dest_skel _ _ _ (mv_skel _ _ _ _ Hm)).
  destruct (dest_valid w0 k Hw) as (loc & Hd & Hv). rewrite Hd. simpl.
  assert (cascade_dest lvl w0 k = if decide (level loc < lvl) then Some loc else None) as Hc.
  { unfold cascade_dest. by rewrite Hd. }
  case_decide; [by eapply moved_place|]. eexists. split; [done|]. by apply moved_overflow.
Qed.

(** Emptying a bucket and moving its keys elsewhere keeps the wheel. *)
Lemma rehome d loc0 l w w2 :
  valid_loc w loc0 → (∀ k, k ∈ l ↔ k ∈ at_loc w loc0) →
  moved d l (write_bucket loc0 ∅ w) w2 → keeps w w2.
Proof.
  intros Hv Hl [_ Ha Ho Hs]. simpl in Ho, Hs.
  assert (∀ loc k, k ∈ at_loc w2 loc ↔
    (k ∈ at_loc w loc ∧ loc0 ≠ loc) ∨ (k ∈ l ∧ d k = Some loc)) as Ha'.
  { intros loc k. rewrite Ha, write_bucket_at by done. case_decide; set_solver. }
  split_and!.
  - intros k. rewrite !elem_of_wheel_keys, Ho. setoid_rewrite Ha'. split.
    + intros [[loc [[H1 _]|[H1 _]]]|[H1|[H1 _]]]; eauto; left; exists loc0; by apply Hl.
    + intros [[loc H1]|H1]; [|eauto]. destruct (decide (loc0 = loc)) as [<-|]; [|eauto].
      apply Hl in H1. destruct (d k) as [loc|] eqn:E; eauto.
  - intros Hk k loc. rewrite Hs, Ha'. case_decide as Hin; [eauto|]. intros Hloc%Hk.
    left. split; [done|]. intros <-. by apply Hin, Hl.
  - intros [H1 H2]. split.
    + intros k loc. rewrite Ha', Hs. case_decide as Hin.
      * apply Hl in Hin as Hin'. apply H1 in Hin'. rewrite H1. naive_solver.
      * rewrite H1. split; [naive_solver|]. intros E. left. split; [done|].
        intros <-. by apply Hin, Hl, H1.
    + intros k. rewrite Ho, Hs. case_decide as Hin; [|naive_solver].
      intros [Hk|[_ Hk]]; [|done]. apply Hl, H1 in Hin. by rewrite (H2 _ Hk) in Hin.
Qed.

Lemma current_loc_valid w i L :
  wheel_wf w → levels w !! i = Some L → valid_loc w (mkLoc (Z.of_nat i) (current L)).
Proof.
  intros Hw HL. destruct (wf_level _ _ _ Hw HL) as [_ _ Hlen Hcur].
  apply valid_loc_spec. exists L. simpl. rewrite Nat2Z.id. split_and!; [lia|done|lia|lia].
Qed.

Lemma bucket_at_loc w i L loc :
  levels w !! i = Some L → level loc = Z.of_nat i → valid_loc w loc →
  go_index (buckets L) (bucket loc) = Some (at_loc w loc).
Proof.
  intros HL Hi [B HB]. unfold at_loc. rewrite HB. unfold bucket_of in HB.
  rewrite Hi, go_index_of_nat, HL in HB. done.
Qed.

(** One round of [cascade]: the current bucket of the level is rehomed, the
    ring moves on, and the next level follows when the ring wrapped. *)
Lemma cascade_round fuel i w L :
  wheel_wf w → levels w !! i = Some L →
  ∃ l w2,
    (∀ k, k ∈ l ↔ k ∈ at_loc w (mkLoc (Z.of_nat i) (current L))) ∧
    moved (cascade_dest (Z.of_nat i) w) l (write_bucket (mkLoc (Z.of_nat i) (current L)) ∅ w) w2 ∧
    let w3 := bumped (Z.of_nat i) (next_current L) w2 in
    wheel_wf w3 ∧ keeps w w3 ∧
    cascade (S fuel) (Z.of_nat i) w =
      if decide (next_current L = 0) then cascade fuel (Z.of_nat (S i)) w3 else Some w3.
Proof.
  intros Hw HL. pose proof (wf_level _ _ _ Hw HL) as HLw.
  pose proof (current_loc_valid _ _ _ Hw HL) as Hv.
  set (loc0 := mkLoc (Z.of_nat i) (current L)) in *.
  set (w1 := write_bucket loc0 ∅ w). assert (skel w1 = skel w) as Hs1 by apply write_bucket_skel.
  assert (wheel_wf w1) as Hw1 by (by eapply skel_wf; [symmetry|]).
  destruct (cascade_keys (Z.of_nat i) (range_set (at_loc w loc0)) w1) as (w2 & E2 & Hm); [done|].
  assert (skel w2 = skel w) as Hs2 by (by rewrite (mv_skel _ _ _ _ Hm)).
  assert (wheel_wf w2) as Hw2 by (by eapply skel_wf; [symmetry|]).
  destruct (skel_levels w w2 i L) as (L2 & HL2 & HLs); [done|done|].
  assert (next_current L2 = next_current L) as Hc.
  { unfold next_current. injection HLs as _ -> _ ->. done. }
  assert (∀ k, cascade_dest (Z.of_nat i) w1 k = cascade_dest (Z.of_nat i) w k) as Hd.
  { intros k. unfold cascade_dest. by rewrite (dest_skel _ _ _ Hs1). }
  exists (range_set (at_loc w loc0)), w2. split; [intros k; apply elem_of_range_set|].
  split; [by eapply moved_ext|]. cbv zeta. split; [|split].
  - eapply bumped_wf; [done|by rewrite Nat2Z.id|].
    destruct HLw as [_ Hcnt _ _]. injection HLs as _ -> _ _.
    unfold next_current. apply Z.mod_pos_bound. lia.
  - transitivity w2; [|apply bumped_keeps].
    eapply rehome; [exact Hv| |exact Hm]. intros k. apply elem_of_range_set.
  - cbn [cascade]. rewrite decide_False by (apply lookup_lt_Some in HL; lia).
    rewrite go_index_of_nat, HL. cbn [mbind option_bind].
    rewrite (bucket_at_loc w i L loc0 HL eq_refl Hv : go_index (buckets L) (current L) = _).
    cbn [mbind option_bind]. fold loc0. fold w1. rewrite E2. cbn [mbind option_bind].
    rewrite (bump_eq _ _ L2); [|done|lia|by rewrite Nat2Z.id].
    cbn [mbind option_bind]. rewrite Hc. case_decide; [|done]. f_equal. lia.
Qed.

(** What [cascade] and the filling of buckets leave alone. *)
Definition same_clock w w' : Prop :=
  slotGap w' = slotGap w ∧ currentBase w' = currentBase w ∧ initialized w' = initialized w ∧
  length (levels w') = length (levels w).

Lemma skel_clock w w' : skel w' = skel w → same_clock w w'.
Proof. intros Hs. pose proof (skel_length _ _ Hs). unfold skel in Hs. by simplify_eq. Qed.

(** [cascade] ends, keeps the shape and every key. *)
Lemma cascade_keeps fuel i w :
  wheel_wf w → (0 < fuel)%nat → (length (levels w) < fuel + i)%nat →
  ∃ w', cascade fuel (Z.of_nat i) w = Some w' ∧ wheel_wf w' ∧ keeps w w' ∧ same_clock w w'.
Proof.
  revert i w. induction fuel as [|fuel IH]; intros i w Hw Hpos Hf; [lia|].
  destruct (levels w !! i) as [L|] eqn:HL.
  - destruct (cascade_round fuel i w L Hw HL) as (l & w2 & _ & Hm & Hw3 & Hk & ->).
    set (w3 := bumped _ _ w2) in *. assert (same_clock w w3) as Hc.
    { assert (same_clock w w2) as (? & ? & ? & Hlen).
      { apply skel_clock. rewrite (mv_skel _ _ _ _ Hm). apply write_bucket_skel. }
      repeat split; try done. unfold w3. simpl. by rewrite length_alter. }
    case_decide; [|by exists w3].
    pose proof Hc as (_ & _ & _ & Hlen). apply lookup_lt_Some in HL.
    destruct (IH (S i) w3) as (w' & E & Hw' & Hk' & Hc'); [done|lia|lia|].
    exists w'. split_and!; [done|done|by transitivity w3|].
    unfold same_clock in *. intuition congruence.
  - apply lookup_ge_None in HL. exists w. cbn [cascade]. rewrite decide_True by lia. done.
Qed.

End cascade.

(** ** One round of [Advance] *)

(** The base is a multiple of the gap. *)
Definition clock_ok w : Prop := in64 (currentBase w) ∧ (slotGapSeconds w | currentBase w).

(** [w'] is [w] without the keys [l] that were handed out. *)
Definition releases (l : list Z) w w' : Prop :=
  (∀ k, k ∈ wheel_keys w ↔ k ∈ l ∨ k ∈ wheel_keys w') ∧ (loc_ok w → loc_ok w') ∧
  (one_place w → one_place w' ∧ NoDup l ∧ ∀ k, k ∈ l → k ∉ wheel_keys w').

Section ticks.

Context `{GoRange}.

Lemma foldl_delete_lookup {V} (m : gmap Z V) l k :
  foldl (λ m k, delete k m) m l !! k = if decide (k ∈ l) then None else m !! k.
Proof.
  revert m. induction l as [|x l IH]; intros m; simpl; [done|]. rewrite IH.
  destruct (decide (k ∈ l)); [by rewrite decide_True by set_solver|].
  destruct (decide (x = k)) as [->|].
  - by rewrite lookup_delete_eq, decide_True by set_solver.
  - by rewrite lookup_delete_ne, decide_False by set_solver.
Qed.

Lemma elem_of_foldl_difference (X : gset Z) l k :
  k ∈ foldl (λ o k, o ∖ {[k]}) X l ↔ k ∈ X ∧ k ∉ l.
Proof. revert X. induction l as [|x l IH]; intros X; simpl; [set_solver|]. rewrite IH. set_solver. Qed.

Lemma keeps_releases l w w1 w2 : releases l w w1 → keeps w1 w2 → releases l w w2.
Proof.
  intros (H1 & H2 & H3) (H4 & H5 & H6). split_and!; [|by auto|].
  - intros k. by rewrite H1, H4.
  - intros Ho. destruct (H3 Ho) as (? & ? & Hn). split_and!; [by auto|done|].
    intros k. rewrite H4. apply Hn.
Qed.

Lemma releases_keeps w w' : keeps w w' → releases [] w w'.
Proof.
  intros (H1 & H2 & H3). split_and!; [|done|].
  - intros k. rewrite H1. set_solver.
  - intros Ho. split_and!; [by auto|constructor|set_solver].
Qed.

Lemma releases_app l1 l2 w w1 w2 :
  releases l1 w w1 → releases l2 w1 w2 → releases (l1 ++ l2) w w2.
Proof.
  intros (H1 & H2 & H3) (H4 & H5 & H6). split_and!; [|by auto|].
  - intros k. rewrite H1, H4, elem_of_app. tauto.
  - intros Ho. destruct (H3 Ho) as (Ho1 & Hn1 & Hd1). destruct (H6 Ho1) as (Ho2 & Hn2 & Hd2).
    split_and!; [done| |].
    + apply NoDup_app. split_and!; [done| |done]. intros k Hk1 Hk2.
      apply (Hd1 _ Hk1), H4. by left.
    + intros k [Hk|Hk]%elem_of_app; [|by apply Hd2].
      intros Hk'. apply (Hd1 _ Hk), H4. by right.
Qed.

(** What a round does before it cascades: the base moves, the current bucket
    of level 0 is emptied and handed out. *)
Record drained (l : list Z) (loc0 : slotLoc) w wd : Prop := {
  dr_levels : level_skel <$> levels wd = level_skel <$> levels w;
  dr_base : currentBase wd = i64 (currentBase w + slotGapSeconds w);
  dr_gap : slotGap wd = slotGap w;
  dr_init : initialized wd = initialized w;
  dr_list : ∀ k, k ∈ l ↔ k ∈ at_loc w loc0;
  dr_nodup : NoDup l;
  dr_at : ∀ loc, at_loc wd loc = if decide (loc0 = loc) then ∅ else at_loc w loc;
  dr_over : overflow wd = overflow w;
  dr_loc : ∀ k, slotLocation wd !! k = if decide (k ∈ l) then None else slotLocation w !! k }.

Lemma drained_wf l loc0 w wd : drained l loc0 w wd → wheel_wf w → wheel_wf wd.
Proof.
  intros Hd Hw. apply (skel_wf (set_base (currentBase wd) (initialized wd) w)).
  - unfold skel. simpl. by rewrite (dr_levels _ _ _ _ Hd), (dr_gap _ _ _ _ Hd).
  - destruct Hw. by split.
Qed.

Lemma drained_releases l loc0 w wd : drained l loc0 w wd → releases l w wd.
Proof.
  intros [_ _ _ _ Hl Hn Ha Ho Hs].
  assert (∀ k loc, k ∈ at_loc wd loc ↔ k ∈ at_loc w loc ∧ loc0 ≠ loc) as Ha'.
  { intros k loc. rewrite Ha. case_decide; set_solver. }
  split_and!.
  - intros k. rewrite !elem_of_wheel_keys, Ho, Hl. setoid_rewrite Ha'.
    split; [|naive_solver]. intros [[loc Hk]|Hk]; [|naive_solver].
    destruct (decide (loc0 = loc)) as [<-|]; naive_solver.
  - intros Hok k loc. rewrite Hs, Ha'. case_decide as Hin; [done|]. intros Hk%Hok.
    split; [done|]. intros <-. by apply Hin, Hl.
  - intros [H1 H2]. split_and!; [split| done |].
    + intros k loc. rewrite Ha', Hs, H1. case_decide as Hin.
      * apply Hl, H1 in Hin. naive_solver congruence.
      * split; [naive_solver|]. intros E. split; [done|]. intros <-. by apply Hin, Hl, H1.
    + intros k. rewrite Ho, Hs. intros Hk. rewrite H2 by done. by case_decide.
    + intros k Hk. rewrite elem_of_wheel_keys, Ho. setoid_rewrite Ha'.
      apply Hl, H1 in Hk. intros [[loc [Hk' ?]]|Hk'].
      * apply H1 in Hk'. congruence.
      * apply H2 in Hk'. congruence.
Qed.

Lemma tick_round w L :
  wheel_wf w → levels w !! 0%nat = Some L →
  ∃ l wd, drained l (mkLoc 0 (current L)) w wd ∧
    let w1 := bumped 0 (next_current L) wd in
    wheel_wf w1 ∧
    tick w = (w' ← (if decide (next_current L = 0) then cascade (S (length (levels w1))) 1 w1
                    else Some w1); Some (l, w')).
Proof.
  intros Hw HL. pose proof (current_loc_valid _ _ _ Hw HL) as Hv. cbn in Hv.
  set (loc0 := mkLoc 0 (current L)) in *. set (l := range_set (at_loc w loc0)).
  set (wa := set_location (foldl (λ m k, delete k m) (slotLocation w) l)
               (set_base (i64 (currentBase w + slotGapSeconds w)) (initialized w) w)).
  set (wd := write_bucket loc0 ∅ wa).
  assert (drained l loc0 w wd) as Hd.
  { pose proof (write_bucket_skel loc0 ∅ wa) as Hs. fold wd in Hs. unfold skel in Hs.
    injection Hs as Hs1. split; try done.
    - intros k. apply elem_of_range_set.
    - apply range_set_NoDup.
    - intros loc. unfold wd. by rewrite write_bucket_at.
    - intros k. apply foldl_delete_lookup. }
  pose proof (drained_wf _ _ _ _ Hd Hw) as Hwd.
  destruct (levels wd !! 0%nat) as [Ld|] eqn:HLd.
  2:{ destruct (ww_levels _ Hwd). by destruct (levels wd). }
  assert (level_skel Ld = level_skel L) as HLs.
  { pose proof (dr_levels _ _ _ _ Hd) as E. apply (f_equal (lookup 0%nat)) in E.
    rewrite !list_lookup_fmap, HL, HLd in E. by apply (inj Some) in E. }
  assert (next_current Ld = next_current L) as Hc.
  { unfold next_current. injection HLs as _ -> _ ->. done. }
  exists l, wd. split; [done|]. cbv zeta. split.
  - apply (bumped_wf _ _ _ Ld); [done|done|]. destruct (wf_level _ _ _ Hw HL) as [_ Hcnt _ _].
    injection HLs as _ -> _ _. apply Z.mod_pos_bound. lia.
  - unfold tick. cbn [levels set_base]. change (go_index (levels w) 0) with (levels w !! 0%nat).
    rewrite HL. cbn [mbind option_bind].
    rewrite (bucket_at_loc w 0 L loc0 HL eq_refl Hv : go_index (buckets L) (current L) = _).
    cbn [mbind option_bind]. cbn [slotLocation set_base]. fold l. fold wa. fold loc0. fold wd.
    rewrite (bump_eq 0 wd Ld) by done. cbn [mbind option_bind]. by rewrite Hc.
Qed.

Lemma tick_releases w :
  wheel_wf w →
  ∃ l w', tick w = Some (l, w') ∧ wheel_wf w' ∧ releases l w w' ∧
    currentBase w' = i64 (currentBase w + slotGapSeconds w) ∧
    slotGap w' = slotGap w ∧ initialized w' = initialized w.
Proof.
  intros Hw. destruct (levels w !! 0%nat) as [L|] eqn:HL.
  2:{ destruct (ww_levels _ Hw). by destruct (levels w). }
  destruct (tick_round w L Hw HL) as (l & wd & Hd & Hw1 & ->).
  set (w1 := bumped 0 _ wd) in *.
  assert (releases l w w1) as Hr
    by (eapply keeps_releases; [by eapply drained_releases|apply bumped_keeps]).
  pose proof Hd as [_ Hb Hg Hi _ _ _ _ _].
  case_decide; [|by exists l, w1].
  destruct (cascade_keeps (S (length (levels w1))) 1 w1) as (w' & E & Hw' & Hk & Hc & Hc2 & Hc3 & _);
    [done|lia|lia|].
  change (Z.of_nat 1) with 1 in E. rewrite E. exists l, w'. split_and!; try done.
  - by eapply keeps_releases.
  - by rewrite Hc2.
  - by rewrite Hc.
  - by rewrite Hc3.
Qed.

Lemma gap_eq w w' : slotGap w' = slotGap w → slotGapSeconds w' = slotGapSeconds w.
Proof. unfold slotGapSeconds. by intros ->. Qed.

Lemma clock_step w newBase :
  clock_ok w → 0 < slotGapSeconds w → in64 newBase → (slotGapSeconds w | newBase) →
  currentBase w < newBase →
  i64 (currentBase w + slotGapSeconds w) = currentBase w + slotGapSeconds w ∧
  currentBase w + slotGapSeconds w <= newBase.
Proof.
  intros [Hb [a Ha]] Hg Hn [b Hb'] Hlt.
  assert (a + 1 <= b) by nia. assert (currentBase w + slotGapSeconds w <= newBase) by nia.
  split; [|done]. apply i64_id. unfold in64 in *. lia.
Qed.

Lemma advance_loop_releases fuel newBase ready w :
  wheel_wf w → clock_ok w → in64 newBase → (slotGapSeconds w | newBase) →
  newBase - currentBase w < slotGapSeconds w * (Z.of_nat fuel + 1) →
  ∃ l w', advance_loop fuel newBase ready w = Some (ready ++ l, w') ∧ wheel_wf w' ∧
    clock_ok w' ∧ releases l w w' ∧ currentBase w' = Z.max (currentBase w) newBase ∧
    slotGap w' = slotGap w ∧ initialized w' = initialized w.
Proof.
  revert ready w. induction fuel as [|fuel IH]; intros ready w Hw Hc Hn Hd Hf; cbn [advance_loop].
  - destruct (decide (currentBase w < newBase)) as [Hlt|Hlt].
    { destruct (clock_step w newBase); try done; [apply Hw|]. lia. }
    exists [], w. rewrite app_nil_r. split_and!; try done; [|lia].
    by apply releases_keeps.
  - destruct (decide (currentBase w < newBase)) as [Hlt|Hlt].
    2:{ exists [], w. rewrite app_nil_r. split_and!; try done; [|lia]. by apply releases_keeps. }
    destruct (clock_step w newBase) as [Hstep Hle]; try done; [apply Hw|].
    destruct (tick_releases w Hw) as (l1 & w1 & -> & Hw1 & Hr1 & Hb1 & Hg1 & Hi1).
    rewrite Hstep in Hb1. pose proof (gap_eq _ _ Hg1) as Hgap. cbn [mbind option_bind].
    destruct (IH (ready ++ l1) w1) as (l2 & w2 & -> & Hw2 & Hc2 & Hr2 & Hb2 & Hg2 & Hi2);
      [done| |done|by rewrite Hgap|rewrite Hgap, Hb1; lia|].
    { split; rewrite Hb1; [|rewrite Hgap; destruct Hc as [_ [a ->]]; exists (a + 1); lia].
      destruct Hc as [Hc _]. unfold in64 in *. pose proof (ww_gap _ Hw). lia. }
    exists (l1 ++ l2), w2. rewrite app_assoc. split_and!; try done.
    + by eapply releases_app.
    + rewrite Hb2, Hb1. lia.
    + by rewrite Hg2.
    + by rewrite Hi2.
Qed.

End ticks.

(** ** The overflow *)

Definition refill_dest w (k : Z) : option slotLoc :=
  match dest k w with Some (Some loc) => Some loc | _ => None end.

(** The keys [refill] takes out of the overflow. *)
Definition refillable w (k : Z) : Prop :=
  clamp0 (i64 (computeSlotTime k w - currentBase w)) < totalCoverage w.

Section overflow.

Context `{GoRange}.

Lemma refill_dest_valid w k :
  wheel_wf w → ∃ loc, dest k w = Some (Some loc) ∧ refill_dest w k = Some loc ∧ valid_loc w loc.
Proof.
  intros Hw. destruct (dest_valid w k Hw) as (loc & E & Hv). exists loc.
  unfold refill_dest. by rewrite E.
Qed.

Lemma refill_loop w0 l :
  wheel_wf w0 →
  ∃ done w, ofold refill_key l ([], w0) = Some (done, w) ∧
    moved (refill_dest w0) done w0 w ∧ ∀ k, k ∈ done ↔ k ∈ l ∧ refillable w0 k.
Proof.
  intros Hw.
  destruct (ofold_ind (λ l s, moved (refill_dest w0) s.1 w0 s.2 ∧
      ∀ k, k ∈ s.1 ↔ k ∈ l ∧ refillable w0 k) refill_key l ([], w0))
    as ([done w] & E & Hm & Hd); [split; [apply moved_nil|set_solver]| |by exists done, w].
  intros l1 k l2 [done w] _ [Hm Hd]. simpl in Hm, Hd.
  pose proof (mv_skel _ _ _ _ Hm) as Hs. unfold refill_key.
  change (i64 (k * slotGapSeconds w)) with (computeSlotTime k w).
  change (findBucket _ w) with (dest k w).
  assert (clamp0 (i64 (computeSlotTime k w - currentBase w)) < totalCoverage w ↔
          refillable w0 k) as Hr.
  { unfold refillable, computeSlotTime.
    by rewrite (skel_gap _ _ Hs), (skel_base _ _ Hs), (totalCoverage_skel _ _ Hs). }
  case_decide as Hlt.
  - destruct (refill_dest_valid w0 k Hw) as (loc & Ed & Er & Hv).
    rewrite (dest_skel _ _ _ Hs), Ed. cbn [mbind option_bind].
    destruct (moved_place _ _ _ _ k loc Hm Er Hv) as (w' & -> & Hm').
    eexists. split; [done|]. split; [done|]. intros x. simpl.
    rewrite !elem_of_app, !list_elem_of_singleton, Hd. naive_solver.
  - eexists. split; [done|]. split; [done|]. intros x. simpl.
    rewrite elem_of_app, list_elem_of_singleton, Hd. naive_solver.
Qed.

(** [refill] moves exactly the keys within the wheel's coverage. *)
Lemma refill_spec w :
  wheel_wf w →
  ∃ w', refill w = Some w' ∧ skel w' = skel w ∧ keeps w w' ∧
    (∀ loc k, k ∈ at_loc w' loc ↔ k ∈ at_loc w loc ∨
       (k ∈ overflow w ∧ refillable w k ∧ refill_dest w k = Some loc)) ∧
    (∀ k, k ∈ overflow w' ↔ k ∈ overflow w ∧ ¬ refillable w k).
Proof.
  intros Hw. destruct (refill_loop w (range_set (overflow w)) Hw) as (l & w2 & E & Hm & Hl).
  setoid_rewrite elem_of_range_set in Hl. unfold refill. rewrite E. cbn [mbind option_bind].
  eexists. split; [done|]. destruct Hm as [Hs Ha Ho Hloc]. set (w' := set_overflow _ w2).
  assert (∀ loc k, k ∈ at_loc w' loc ↔ k ∈ at_loc w loc ∨
    (k ∈ overflow w ∧ refillable w k ∧ refill_dest w k = Some loc)) as Ha'.
  { intros loc k. change (at_loc w' loc) with (at_loc w2 loc). rewrite Ha, Hl. tauto. }
  assert (∀ k, ∃ loc, refill_dest w k = Some loc) as Hex.
  { intros k. destruct (refill_dest_valid w k Hw) as (loc & _ & ? & _). eauto. }
  assert (∀ k, k ∈ overflow w' ↔ k ∈ overflow w ∧ ¬ refillable w k) as Ho'.
  { intros k. simpl. rewrite elem_of_foldl_difference, Ho, Hl.
    destruct (Hex k) as [loc Hk]. rewrite Hk. naive_solver. }
  split; [by rewrite <-Hs|]. split_and!; [|done|done]. split_and!.
  - intros k. rewrite !elem_of_wheel_keys, Ho'. setoid_rewrite Ha'. split; [naive_solver|].
    intros [[loc Hk]|Hk]; [naive_solver|].
    destruct (decide (k ∈ l)) as [Hin|Hin]; rewrite Hl in Hin; [|tauto].
    destruct (Hex k) as [loc ?]. left. exists loc. tauto.
  - intros Hok k loc. change (slotLocation w' !! k) with (slotLocation w2 !! k).
    rewrite Hloc, Ha'. case_decide as Hin; [apply Hl in Hin; naive_solver|].
    intros Hk%Hok. by left.
  - intros [H1 H2]. split.
    + intros k loc. change (slotLocation w' !! k) with (slotLocation w2 !! k).
      rewrite Hloc, Ha', H1. case_decide as Hin; [|rewrite Hl in Hin; tauto].
      apply Hl in Hin as [Hin ?]. rewrite (H2 _ Hin). naive_solver.
    + intros k. rewrite Ho'. intros [Hk Hr].
      change (slotLocation w' !! k) with (slotLocation w2 !! k).
      rewrite Hloc, decide_False; [by apply H2|]. rewrite Hl. tauto.
Qed.

Lemma promote_spec newBase w :
  let '(l, w') := promote newBase w in
  skel w' = skel w ∧ (∀ loc, at_loc w' loc = at_loc w loc) ∧
  (∀ k, k ∈ l ↔ k ∈ overflow w ∧ computeSlotTime k w <= newBase) ∧ NoDup l ∧
  (∀ k, k ∈ overflow w' ↔ k ∈ overflow w ∧ k ∉ l) ∧
  (∀ k, slotLocation w' !! k = if decide (k ∈ l) then None else slotLocation w !! k).
Proof.
  unfold promote. split_and!; try done.
  - intros k. rewrite list_elem_of_filter, elem_of_range_set. tauto.
  - apply NoDup_filter, range_set_NoDup.
  - intros k. apply elem_of_foldl_difference.
  - intros k. apply foldl_delete_lookup.
Qed.

Lemma promote_releases newBase w : releases (promote newBase w).1 w (promote newBase w).2.
Proof.
  pose proof (promote_spec newBase w) as Hp. destruct (promote newBase w) as [l w'].
  destruct Hp as (_ & Ha & Hl & Hn & Ho & Hs). simpl. split_and!.
  - intros k. rewrite !elem_of_wheel_keys, Ho. setoid_rewrite Ha.
    destruct (decide (k ∈ l)) as [Hin|]; [|tauto]. apply Hl in Hin as Hin'. tauto.
  - intros Hok k loc. rewrite Hs, Ha. case_decide; [done|]. apply Hok.
  - intros [H1 H2]. split_and!; [split| done|].
    + intros k loc. rewrite Hs, Ha, H1. case_decide as Hin; [|done].
      apply Hl in Hin as [Hin _]. by rewrite (H2 _ Hin).
    + intros k. rewrite Ho, Hs. intros [Hk _]. rewrite (H2 _ Hk). by case_decide.
    + intros k Hk. rewrite elem_of_wheel_keys, Ho. setoid_rewrite Ha.
      intros [[loc Hk']|[_ ?]]; [|done]. apply H1 in Hk'. apply Hl in Hk as [Hk _].
      by rewrite (H2 _ Hk) in Hk'.
Qed.

(** The base an advance to [now] reaches. *)
Definition new_base (now : Z) w : Z := Z.quot now (slotGapSeconds w) * slotGapSeconds w.

Lemma new_base_ok now w :
  0 < slotGapSeconds w → in64 now →
  go_quot now (slotGapSeconds w) = Some (Z.quot now (slotGapSeconds w)) ∧
  i64 (new_base now w) = new_base now w ∧ in64 (new_base now w).
Proof.
  intros Hg Hn. split; [by apply go_quot_pos|].
  assert (in64 (new_base now w)); [|split; [by apply i64_id|done]].
  unfold new_base, in64 in *. rewrite Z.mul_comm.
  pose proof (Z.mul_quot_le now (slotGapSeconds w)).
  pose proof (Z.mul_quot_ge now (slotGapSeconds w)). lia.
Qed.

Lemma Advance_releases now w :
  wheel_wf w → clock_ok w → in64 now →
  ∃ ready w', Advance now w = Some (ready, w') ∧ wheel_wf w' ∧ clock_ok w' ∧
    releases ready w w' ∧ slotGap w' = slotGap w ∧ initialized w' = initialized w ∧
    currentBase w' =
      if initialized w then Z.max (currentBase w) (new_base now w) else currentBase w.
Proof.
  intros Hw Hc Hnow. unfold Advance. destruct (initialized w) eqn:Hi.
  2:{ exists [], w. split_and!; try done. by apply releases_keeps. }
  destruct (new_base_ok now w) as (-> & Hb & Hbi); [apply Hw|done|].
  cbn [mbind option_bind]. unfold new_base in Hb. rewrite Hb. fold (new_base now w).
  pose proof (ww_gap _ Hw) as Hg. case_decide as Hle.
  { exists [], w. split_and!; try done; [by apply releases_keeps|lia]. }
  destruct (advance_loop_releases (advance_fuel (new_base now w) w) (new_base now w) [] w)
    as (l & w1 & -> & Hw1 & Hc1 & Hr1 & Hb1 & Hg1 & Hi1); [done..|by exists (Z.quot now (slotGapSeconds w))| |].
  { unfold advance_fuel. set (d := new_base now w - currentBase w).
    assert (0 < d) by (unfold d; lia).
    pose proof (Z.div_pos d (slotGapSeconds w)).
    pose proof (Z.mul_succ_div_gt d (slotGapSeconds w)).
    rewrite Z2Nat.id by lia. lia. }
  cbn [mbind option_bind].
  destruct (refill_spec w1 Hw1) as (w2 & -> & Hs2 & Hk2 & _). cbn [mbind option_bind].
  pose proof (promote_spec (new_base now w) w2) as Hp.
  pose proof (promote_releases (new_base now w) w2) as Hr3.
  destruct (promote (new_base now w) w2) as [l3 w3]. destruct Hp as (Hs3 & _).
  simpl in Hr3. exists (l ++ l3), w3. rewrite Hs2 in Hs3.
  pose proof (skel_clock _ _ Hs3) as (Hg3 & Hb3 & Hi3 & _).
  split_and!; [done|by eapply skel_wf| | | | |].
  - unfold clock_ok. by rewrite Hb3, (gap_eq _ _ Hg3).
  - eapply releases_app; [|done]. by eapply keeps_releases.
  - by rewrite Hg3, Hg1.
  - by rewrite Hi3, Hi1, Hi.
  - rewrite Hb3. lia.
Qed.

End overflow.

(** ** The other operations *)

Record wheel_ok w : Prop := {
  wo_wf : wheel_wf w;
  wo_clock : clock_ok w;
  wo_loc : loc_ok w }.

(** The calls a client makes, in any order, with their [int64] arguments. *)
Inductive wheel_call :=
  | CInit (now : Z)
  | CAdd (k : Z)
  | CRemove (k : Z)
  | CAdvance (now : Z)
  | CReset.

Section operations.

Context `{GoRange}.

(** The keys handed out and the wheel left. *)
Definition run_call (c : wheel_call) (s : list Z * HierarchicalTimingWheel)
    : option (list Z * HierarchicalTimingWheel) :=
  let '(out, w) := s in
  match c with
  | CInit now => w ← Init now w; Some (out, w)
  | CAdd k => w ← Add k w; Some (out, w)
  | CRemove k => w ← Remove k w; Some (out, w)
  | CAdvance now => '(ready, w) ← Advance now w; Some (out ++ ready, w)
  | CReset => Some (out, Reset w)
  end.

Definition call_ok (c : wheel_call) : Prop :=
  match c with
  | CInit z | CAdd z | CRemove z | CAdvance z => in64 z
  | CReset => True
  end.

Lemma set_base_ok now w :
  wheel_wf w → in64 now →
  go_quot now (slotGapSeconds w) = Some (Z.quot now (slotGapSeconds w)) ∧
  wheel_wf (set_base (i64 (new_base now w)) true w) ∧
  clock_ok (set_base (i64 (new_base now w)) true w).
Proof.
  intros Hw Hn. destruct (new_base_ok now w) as (Hq & Hb & Hi); [apply Hw|done|].
  split; [done|]. split; [by destruct Hw; split|].
  split; simpl; rewrite Hb; [done|]. by exists (Z.quot now (slotGapSeconds w)).
Qed.

Lemma Init_ok now w :
  wheel_ok w → in64 now →
  ∃ w', Init now w = Some w' ∧ wheel_ok w' ∧ initialized w' = true ∧
    wheel_keys w' = wheel_keys w ∧ slotGap w' = slotGap w ∧
    currentBase w' = if initialized w then currentBase w else new_base now w.
Proof.
  intros Hok Hn. pose proof Hok as [Hw Hc Hl]. unfold Init.
  destruct (initialized w) eqn:Hi; [by exists w|].
  destruct (set_base_ok now w Hw Hn) as (-> & Hw' & Hc'). cbn [mbind option_bind].
  eexists. split; [done|]. split_and!; try done.
  destruct (new_base_ok now w) as (_ & Hb & _); [apply Hw|done|exact Hb].
Qed.

(** [Add] on a wheel that already has a base. *)
Lemma Add_initialized k w :
  wheel_wf w → initialized w = true →
  ∃ loc w', dest k w = Some (Some loc) ∧ valid_loc w loc ∧ Add k w = Some w' ∧
    place loc k w = Some w'.
Proof.
  intros Hw Hi. destruct (dest_valid w k Hw) as (loc & Hd & Hv).
  destruct (place_spec loc k w Hv) as (w' & Hp & _).
  exists loc, w'. split_and!; [done..| |done]. unfold Add. rewrite Hi.
  cbn [mbind option_bind]. change (findBucket _ w) with (dest k w). by rewrite Hd.
Qed.

Lemma place_keeps loc k w w' :
  place loc k w = Some w' → valid_loc w loc →
  skel w' = skel w ∧ wheel_keys w' = {[k]} ∪ wheel_keys w ∧
  (loc_ok w → loc_ok w') ∧ (one_place w → k ∉ wheel_keys w → one_place w').
Proof.
  intros E Hv. destruct (place_spec loc k w Hv) as (w2 & E2 & Hs & Ha & Hl & Ho).
  rewrite E in E2. injection E2 as <-.
  assert (∀ x l, x ∈ at_loc w' l ↔ x ∈ at_loc w l ∨ (x = k ∧ l = loc)) as Ha'.
  { intros x l. rewrite Ha. case_decide; set_solver. }
  split; [done|]. split_and!.
  - apply set_eq. intros x. rewrite elem_of_union, !elem_of_wheel_keys, Ho, elem_of_singleton.
    setoid_rewrite Ha'. naive_solver.
  - intros Hok x l. rewrite Hl, Ha'. destruct (decide (k = x)) as [<-|].
    + rewrite lookup_insert_eq. naive_solver.
    + rewrite lookup_insert_ne by done. intros ?%Hok. by left.
  - intros [H1 H2] Hk. rewrite elem_of_wheel_keys in Hk. split.
    + intros x l. rewrite Hl, Ha'. destruct (decide (k = x)) as [<-|].
      * rewrite lookup_insert_eq. naive_solver.
      * rewrite lookup_insert_ne, H1 by done. naive_solver.
    + intros x. rewrite Ho, Hl. intros Hx.
      rewrite lookup_insert_ne; [by apply H2|]. intros <-. tauto.
Qed.

Lemma Add_ok k w :
  wheel_ok w → in64 k →
  ∃ w', Add k w = Some w' ∧ wheel_ok w' ∧ wheel_keys w' = {[k]} ∪ wheel_keys w ∧
    (one_place w → k ∉ wheel_keys w → one_place w') ∧
    slotGap w' = slotGap w ∧ initialized w' = true ∧
    currentBase w' =
      if initialized w then currentBase w else new_base (computeSlotTime k w) w.
Proof.
  intros [Hw Hc Hl] Hk.
  assert (∃ w1, wheel_wf w1 ∧ clock_ok w1 ∧ loc_ok w1 ∧ initialized w1 = true ∧
    Add k w1 = Add k w ∧ wheel_keys w1 = wheel_keys w ∧ (one_place w → one_place w1) ∧
    slotGap w1 = slotGap w ∧ currentBase w1 =
      if initialized w then currentBase w else new_base (computeSlotTime k w) w)
    as (w1 & Hw1 & Hc1 & Hl1 & Hi1 & <- & <- & Ho1 & <- & <-).
  { destruct (initialized w) eqn:Hi; [by exists w|].
    destruct (set_base_ok (computeSlotTime k w) w Hw (i64_in64 _)) as (Hq & Hw1 & Hc1).
    exists (set_base (i64 (new_base (computeSlotTime k w) w)) true w). split_and!; try done.
    - unfold Add. rewrite Hi. simpl. change (i64 (k * slotGapSeconds w)) with (computeSlotTime k w).
      by rewrite Hq.
    - intros [? ?]. by split.
    - destruct (new_base_ok (computeSlotTime k w) w) as (_ & Hb & _);
        [apply Hw|apply i64_in64|exact Hb]. }
  destruct (Add_initialized k w1 Hw1 Hi1) as (loc & w' & _ & Hv & -> & Hp).
  destruct (place_keeps _ _ _ _ Hp Hv) as (Hs & Hks & Hl' & Ho').
  pose proof (skel_clock _ _ Hs) as (Hg & Hb & Hi & _). exists w'. split_and!; try done.
  - split; [by eapply skel_wf| |by auto]. unfold clock_ok. by rewrite Hb, (gap_eq _ _ Hg).
  - auto.
  - by rewrite Hi.
Qed.

Lemma Remove_ok k w :
  wheel_ok w →
  ∃ w', Remove k w = Some w' ∧ wheel_ok w' ∧ skel w' = skel w ∧
    wheel_keys w' ⊆ wheel_keys w ∧ wheel_keys w ⊆ {[k]} ∪ wheel_keys w' ∧
    (one_place w → one_place w' ∧ k ∉ wheel_keys w').
Proof.
  intros [Hw Hc Hl]. unfold Remove. destruct (slotLocation w !! k) as [loc|] eqn:E.
  - pose proof (Hl _ _ E) as Hin. unfold at_loc in Hin.
    destruct (bucket_of loc w) as [B|] eqn:HB; [|set_solver]. simpl in Hin.
    assert (valid_loc w loc) as Hv by (by exists B).
    assert (at_loc w loc = B) as HatB by (unfold at_loc; by rewrite HB).
    cbn [mbind option_bind]. eexists. split; [done|].
    set (w1 := write_bucket loc (B ∖ {[k]}) w).
    assert (skel w1 = skel w) as Hs by apply write_bucket_skel.
    assert (∀ x l, x ∈ at_loc w1 l ↔ x ∈ at_loc w l ∧ ¬ (x = k ∧ l = loc)) as Ha.
    { intros x l. unfold w1. rewrite write_bucket_at by done. case_decide; set_solver. }
    set (w' := set_location _ w1). assert (∀ l, at_loc w' l = at_loc w1 l) as Ha1 by done.
    split_and!; [split| | | |].
    + by eapply skel_wf.
    + done.
    + intros x l. rewrite Ha1, Ha. simpl. intros [Hne ?%Hl]%lookup_delete_Some. naive_solver.
    + done.
    + intros x. rewrite !elem_of_wheel_keys. setoid_rewrite Ha1. setoid_rewrite Ha. naive_solver.
    + intros x. rewrite elem_of_union, elem_of_singleton, !elem_of_wheel_keys.
      setoid_rewrite Ha1. setoid_rewrite Ha. destruct (decide (x = k)); naive_solver.
    + intros [H1 H2]. split; [split|].
      * intros x l. rewrite Ha1, Ha, H1. simpl. rewrite lookup_delete_Some.
        destruct (decide (x = k)) as [->|]; naive_solver congruence.
      * intros x Hx. apply H2 in Hx. simpl. by rewrite lookup_delete_None; right.
      * rewrite elem_of_wheel_keys. setoid_rewrite Ha1. setoid_rewrite Ha. intros [[l Hk]|Hk].
        -- rewrite H1 in Hk. naive_solver congruence.
        -- apply H2 in Hk. congruence.
  - eexists. split; [done|]. split_and!.
    + split; [by destruct Hw; split|done..].
    + done.
    + intros x. rewrite !elem_of_wheel_keys. simpl. set_solver.
    + intros x. rewrite elem_of_union, elem_of_singleton, !elem_of_wheel_keys. simpl.
      destruct (decide (x = k)); set_solver.
    + intros [H1 H2]. split; [split; [done|]|].
      * intros x. simpl. intros Hx. apply H2. set_solver.
      * rewrite elem_of_wheel_keys. intros [[l Hk]|Hk]; [|simpl in Hk; set_solver].
        apply H1 in Hk. congruence.
Qed.

Lemma Reset_ok w : wheel_ok w → wheel_ok (Reset w) ∧ wheel_keys (Reset w) = ∅ ∧ one_place (Reset w).
Proof.
  intros [Hw Hc _].
  assert (∀ loc, at_loc (Reset w) loc = ∅) as Ha.
  { intros loc. unfold at_loc, bucket_of, go_index. simpl.
    destruct (decide (0 <= level loc)); [|done]. rewrite list_lookup_fmap.
    destruct (levels w !! _) as [L|]; [|done]. simpl.
    destruct (decide (0 <= bucket loc)); [|done]. rewrite list_lookup_fmap.
    by destruct (buckets L !! _). }
  split_and!.
  - split; [|done|done]. destruct Hw as [Hne Hl Hg]. split; [|simpl|done].
    + simpl. by destruct (levels w).
    + rewrite Forall_fmap. eapply Forall_impl; [exact Hl|]. intros L [? ? ? ?].
      split; simpl; rewrite ?length_fmap; try done; lia.
  - apply set_eq. intros k. rewrite elem_of_wheel_keys. setoid_rewrite Ha. simpl. set_solver.
  - split; [|done]. intros k loc. rewrite Ha. simpl. set_solver.
Qed.

Lemma run_call_ok c out w :
  wheel_ok w → call_ok c →
  ∃ out' w', run_call c (out, w) = Some (out', w') ∧ wheel_ok w'.
Proof.
  intros Hok Hc. destruct c as [now|k|k|now|]; simpl in *.
  - destruct (Init_ok now w) as (w' & -> & ? & _); eauto.
  - destruct (Add_ok k w) as (w' & -> & ? & _); eauto.
  - destruct (Remove_ok k w) as (w' & -> & ? & _); eauto.
  - pose proof Hok as [H1 H2 H3].
    destruct (Advance_releases now w) as (l & w' & -> & ? & ? & (_ & ? & _) & _); [done..|].
    eexists _, _. split; [done|]. split; auto.
  - eexists _, _. split; [done|]. by apply Reset_ok.
Qed.

End operations.

(** ** New wheels *)

(** The wheel [NewPersistentSlotQueue] starts with, for a gap of [s] seconds. *)
Definition default_wheel (s : Z) : HierarchicalTimingWheel :=
  mkWheel [mkLevel s 360 (replicate 360 ∅) 0; mkLevel (s * 360) 24 (replicate 24 ∅) 0;
           mkLevel (s * 360 * 24) 365 (replicate 365 ∅) 0] 0 (s * Second) ∅ ∅ false.

Section new_wheel.

Lemma secs_gap s : 1 <= s <= 1000000 → secs (s * Second) = s.
Proof. intros ?. apply secs_whole. lia. Qed.

Lemma new_default_wheel s :
  1 <= s <= 1000000 →
  NewHierarchicalTimingWheel (s * Second) [] = Some (default_wheel s).
Proof.
  intros Hs. unfold NewHierarchicalTimingWheel, DefaultWheelConfigs.
  rewrite decide_True by done. rewrite decide_False by (unfold Second; lia).
  assert (i64 (s * Second * 360) = s * 360 * Second) as ->
    by (rewrite i64_id; [lia|unfold in64, two63, Second; lia]).
  assert (i64 (s * 360 * Second * 24) = s * 360 * 24 * Second) as ->
    by (rewrite i64_id; [lia|unfold in64, two63, Second; lia]).
  cbn [mapM mbind option_bind mret option_ret]. unfold new_level. cbn [Buckets Granularity].
  rewrite !decide_False by lia. rewrite !secs_whole by lia. done.
Qed.

Lemma default_gap s : 1 <= s <= 1000000 → slotGapSeconds (default_wheel s) = s.
Proof.
  intros Hs. unfold slotGapSeconds. simpl. rewrite secs_gap by done.
  rewrite decide_False by lia. done.
Qed.

Lemma default_at s loc : at_loc (default_wheel s) loc = ∅.
Proof.
  apply set_eq. intros k. split; [|set_solver]. intros Hk.
  assert (k ∈ wheel_keys (default_wheel s)) as Hin by (apply elem_of_wheel_keys; eauto).
  unfold wheel_keys in Hin. apply elem_of_union in Hin as [Hin|]; [|set_solver].
  apply elem_of_union_list in Hin as (B & HB & HkB).
  apply list_elem_of_bind in HB as (L & HB & HL). cbn [levels default_wheel] in HL.
  assert (B = ∅) as ->; [|done].
  rewrite !elem_of_cons in HL. destruct HL as [-> | [-> | [-> | HL]]];
    [apply elem_of_replicate in HB as [-> _]; done..|].
  by apply not_elem_of_nil in HL.
Qed.

Lemma default_wheel_ok s :
  1 <= s <= 1000000 →
  wheel_ok (default_wheel s) ∧ one_place (default_wheel s) ∧ wheel_keys (default_wheel s) = ∅.
Proof.
  intros Hs. split_and!; [split|..].
  - split; [done| |by rewrite default_gap; [lia|]].
    unfold default_wheel. simpl. repeat constructor; simpl; unfold two63; lia.
  - split; [simpl; unfold in64, two63; lia|]. exists 0. done.
  - intros k loc. simpl. done.
  - split; [|done]. intros k loc. rewrite default_at. simpl. set_solver.
  - apply set_eq. intros k. rewrite elem_of_wheel_keys. setoid_rewrite default_at.
    simpl. set_solver.
Qed.

End new_wheel.

(** ** Theorems *)

Section theorems.

Context `{GoRange}.

(** C16: no sequence of calls makes a wheel panic or loop. Starting from the
    wheel of a new queue with a gap between one second and a million, any
    sequence of [Init], [Add], [Remove], [Advance] and [Reset] with [int64]
    arguments returns, and leaves a well-formed wheel: rings of the right
    size with their cursor inside, a base that is a multiple of the gap, and
    locations that point to buckets holding their key. *)
Theorem wheel_calls_total s calls :
  1 <= s <= 1000000 → Forall call_ok calls →
  ∃ w0 out w, NewHierarchicalTimingWheel (s * Second) [] = Some w0 ∧
    ofold run_call calls ([], w0) = Some (out, w) ∧ wheel_ok w.
Proof.
  intros Hs Hcalls. exists (default_wheel s).
  destruct (ofold_ind (λ _ st, wheel_ok st.2) run_call calls ([], default_wheel s))
    as ([out w] & E & Hok); [by apply default_wheel_ok| |].
  - intros l1 c l2 [out w] Hl Hok. rewrite Forall_forall in Hcalls.
    destruct (run_call_ok c out w) as (out' & w' & ? & ?); [done|apply Hcalls; set_solver|].
    by exists (out', w').
  - exists out, w. split; [by apply new_default_wheel|done].
Qed.

(** [Advance] neither loses nor invents a slot. Every key of the wheel is
    handed out or still in the wheel afterwards, and nothing else is; on a
    wheel whose keys are each in one place, a key is handed out at most once
    and a key handed out is gone. *)
Theorem advance_conserves_keys now w :
  wheel_ok w → in64 now →
  ∃ ready w', Advance now w = Some (ready, w') ∧ wheel_ok w' ∧
    (∀ k, k ∈ wheel_keys w ↔ k ∈ ready ∨ k ∈ wheel_keys w') ∧
    (one_place w → one_place w' ∧ NoDup ready ∧ ∀ k, k ∈ ready → k ∉ wheel_keys w').
Proof.
  intros [H1 H2 H3] Hn.
  destruct (Advance_releases now w) as (l & w' & E & ? & ? & (? & ? & ?) & _); [done..|].
  exists l, w'. split_and!; try done. split; auto.
Qed.

(** The wheel is a set of slots. Adding a slot that is not in the wheel
    adds it and nothing else, and removing it again removes it from every
    level and from the overflow. *)
Theorem add_remove_exact k w :
  wheel_ok w → one_place w → in64 k → k ∉ wheel_keys w →
  ∃ w1 w2, Add k w = Some w1 ∧ wheel_keys w1 = {[k]} ∪ wheel_keys w ∧
    Remove k w1 = Some w2 ∧ wheel_keys w2 = wheel_keys w ∧ one_place w2.
Proof.
  intros Hok Hone Hk Hnew.
  destruct (Add_ok k w) as (w1 & E1 & Hok1 & Hk1 & Hone1 & _); [done..|].
  destruct (Remove_ok k w1) as (w2 & E2 & Hok2 & _ & Hsub & Hsup & Hone2); [done|].
  destruct Hone2 as [Ho2 Hn2]; [by auto|].
  exists w1, w2. split_and!; try done. apply set_eq. intros x. split.
  - intros Hx. apply Hsub in Hx as Hx'. rewrite Hk1, elem_of_union, elem_of_singleton in Hx'.
    destruct Hx' as [-> |]; done.
  - intros Hx. assert (x ∈ wheel_keys w1) as Hx1 by (rewrite Hk1; by apply elem_of_union_r).
    apply Hsup, elem_of_union in Hx1 as [->%elem_of_singleton|]; done.
Qed.

End theorems.

(** The location map holds one place per key, so a slot that is added
    again after the base has moved is left in two buckets. Here slot 400 of a
    ten-second wheel is added at time 0 and again at time 1000, as two jobs
    of the same slot would, and is still in the wheel after [Remove]. *)
Theorem readd_leaves_stale_copy :
  match NewHierarchicalTimingWheel (10 * Second) [] with
  | Some w0 =>
      match ofold (@run_call sorted_range)
              [CInit 0; CAdd 400; CAdvance 1000; CAdd 400; CRemove 400] ([], w0) with
      | Some (_, w) => bool_decide (400 ∈ wheel_keys w) = true ∧ slotLocation w !! 400 = None
      | None => False
      end
  | None => False
  end.
Proof. vm_compute. split; reflexivity. Qed.

(** ** A concrete wheel *)

(** Slots 5 and 400 added at time 0. *)
Definition ex_wheel : HierarchicalTimingWheel :=
  match ofold (@run_call sorted_range) [CInit 0; CAdd 5; CAdd 400] ([], default_wheel 10) with
  | Some (_, w) => w
  | None => default_wheel 10
  end.

Lemma ex_wheel_ok : wheel_ok ex_wheel ∧ one_place ex_wheel ∧ wheel_keys ex_wheel = {[5; 400]}.
Proof.
  destruct (default_wheel_ok 10) as (H0 & O0 & K0); [lia|].
  destruct (Init_ok 0 (default_wheel 10)) as (w1 & E1 & H1 & _ & K1 & _ & _);
    [done|unfold in64, two63; lia|].
  assert (one_place w1) as O1.
  { unfold Init in E1. cbn [initialized default_wheel] in E1.
    destruct (go_quot 0 _); [|done]. injection E1 as <-. destruct O0. by split. }
  rewrite K0 in K1.
  destruct (Add_ok 5 w1) as (w2 & E2 & H2 & K2 & O2 & _); [done|unfold in64, two63; lia|].
  destruct (Add_ok 400 w2) as (w3 & E3 & H3 & K3 & O3 & _); [done|unfold in64, two63; lia|].
  assert (ex_wheel = w3) as ->.
  { unfold ex_wheel. cbn [ofold].
    assert (run_call (CInit 0) ([], default_wheel 10) = Some ([], w1)) as ->
      by (unfold run_call; by rewrite E1).
    cbn [mbind option_bind].
    assert (run_call (CAdd 5) ([], w1) = Some ([], w2)) as ->
      by (unfold run_call; by rewrite E2).
    cbn [mbind option_bind].
    assert (run_call (CAdd 400) ([], w2) = Some ([], w3)) as ->
      by (unfold run_call; by rewrite E3).
    done. }
  split; [done|]. clear -K1 K2 K3 O1 O2 O3. split.
  - apply O3; [apply O2|]; set_solver.
  - set_solver.
Qed.

Lemma wheel_calls_total_witness :
  ∃ w0 out w, NewHierarchicalTimingWheel (10 * Second) [] = Some w0 ∧
    ofold (@run_call sorted_range) [CInit 0; CAdd 5; CAdvance 100] ([], w0) = Some (out, w) ∧
    wheel_ok w.
Proof.
  apply (@wheel_calls_total sorted_range 10); [lia|].
  repeat constructor; vm_compute; congruence.
Defined.

Lemma advance_conserves_keys_witness :
  ∃ ready w', @Advance sorted_range 100 ex_wheel = Some (ready, w') ∧
    (5 ∈ ready ∨ 5 ∈ wheel_keys w').
Proof.
  destruct (@advance_conserves_keys sorted_range 100 ex_wheel)
    as (ready & w' & E & _ & Hk & _); [apply ex_wheel_ok|vm_compute; split; congruence|].
  exists ready, w'. split; [exact E|]. apply Hk.
  rewrite (proj2 (proj2 ex_wheel_ok)). set_solver.
Defined.

Lemma add_remove_exact_witness :
  ∃ w1 w2, Add 7 ex_wheel = Some w1 ∧ Remove 7 w1 = Some w2 ∧
    wheel_keys w2 = wheel_keys ex_wheel.
Proof.
  destruct (add_remove_exact 7 ex_wheel) as (w1 & w2 & E1 & _ & E2 & E3 & _).
  - apply ex_wheel_ok.
  - apply ex_wheel_ok.
  - vm_compute. split; congruence.
  - rewrite (proj2 (proj2 ex_wheel_ok)). set_solver.
  - exists w1, w2. split; [exact E1|split; [exact E2|exact E3]].
Defined.
