(* ===== verification/WheelTime.v ===== *)
(** * When the timing wheel hands slots out

    A wheel is seen as its rings (granularity, size and cursor of every
    level), its base and the place of every key. [fire] gives the base at
    which a level's current bucket is next cascaded, and [time_inv] says that
    level 0 holds every key at its exact distance from the base and that no
    key of a higher level is due before its bucket is cascaded. It follows
    that a slot is never handed out early, and that advances of at most one
    turn of level 0 hand out exactly the slots that are due. *)

From S2P Require Import Prelude GoFloat TimingWheel WheelProps.

Implicit Types (w : HierarchicalTimingWheel) (L : wheelLevel).

(** ** Rings *)

Record ring := mkRing { rg : Z; rn : Z; rc : Z }.

Definition ring_of L : ring := mkRing (granularity L) (bucketCount L) (current L).

Definition rings w : list ring := ring_of <$> levels w.

Definition set_rc (c : Z) (r : ring) : ring := mkRing (rg r) (rn r) c.

(** How many buckets after the cursor bucket [b] is. *)
Definition off (r : ring) (b : Z) : Z := (b - rc r) mod rn r.

(** The base at which the current bucket of level [i] is emptied, when the one
    of the first ring is emptied at [t]. *)
Fixpoint fire (t : Z) (rs : list ring) (i : nat) : Z :=
  match i, rs with
  | O, _ => t
  | S i, r :: rs => fire (t + (rn r - 1 - rc r) * rg r) rs i
  | S _, [] => t
  end.

Definition total (rs : list ring) : Z := foldr (λ r z, rg r * rn r + z) 0 rs.

(** Every time is far from the ends of [int64]. *)
Definition horizon : Z := 2305843009213693952.

Record rings_ok (gap : Z) (rs : list ring) : Prop := {
  ro_ring : ∀ i r, rs !! i = Some r → 0 < rg r ∧ 0 <= rc r < rn r;
  ro_head : ∀ r, rs !! 0%nat = Some r → rg r = gap;
  ro_len : (2 <= length rs)%nat;
  ro_chain : ∀ i r r', rs !! i = Some r → rs !! S i = Some r' → rg r' = rg r * rn r;
  ro_total : total rs < horizon }.

Section rings.

Lemma rings_skel w w' : skel w = skel w' → rings w = rings w'.
Proof.
  unfold skel, rings. intros [= Hs _ _ _]. generalize dependent (levels w').
  generalize (levels w). intros ls. induction ls as [|L ls IH]; intros [|L' ls'] Hs; try done.
  cbn in Hs. injection Hs as Hg Hc _ Hu Hs. cbn. f_equal; [|by apply IH].
  unfold ring_of. congruence.
Qed.

Lemma rings_bumped i c w : rings (bumped (Z.of_nat i) c w) = alter (set_rc c) i (rings w).
Proof.
  unfold rings, bumped. simpl. rewrite Nat2Z.id. apply list_eq. intros j.
  rewrite list_lookup_fmap, !list_lookup_alter, !list_lookup_fmap.
  case_decide; [|done]. by destruct (levels w !! i).
Qed.

Lemma rings_lookup w i r :
  rings w !! i = Some r ↔ ∃ L, levels w !! i = Some L ∧ r = ring_of L.
Proof. unfold rings. rewrite list_lookup_fmap, fmap_Some. naive_solver. Qed.

Lemma total_ge rs i r :
  (∀ i r, rs !! i = Some r → 0 < rg r ∧ 0 <= rc r < rn r) → rs !! i = Some r →
  rg r * rn r <= total rs.
Proof.
  revert i. induction rs as [|r' rs IH]; intros i Hrs Hi; [done|].
  assert (0 <= total rs) as Hpos.
  { assert (∀ i r, rs !! i = Some r → 0 < rg r ∧ 0 <= rc r < rn r) as Hrs'
      by (intros j r1 Hj; apply (Hrs (S j) r1 Hj)).
    clear -Hrs'. induction rs as [|r1 rs IH]; simpl; [lia|].
    destruct (Hrs' 0%nat r1 eq_refl). specialize (IH (λ j r2 Hj, Hrs' (S j) r2 Hj)). nia. }
  destruct (Hrs 0%nat r' eq_refl) as [? ?]. simpl.
  destruct i as [|i]; simplify_eq/=; [lia|].
  specialize (IH i (λ j r2 Hj, Hrs (S j) r2 Hj) Hi). nia.
Qed.

Lemma rings_ok_range gap rs i r :
  rings_ok gap rs → rs !! i = Some r → 0 < rg r ∧ 0 <= rc r < rn r ∧ rg r * rn r < horizon.
Proof.
  intros Hr Hi. destruct (ro_ring _ _ Hr _ _ Hi).
  pose proof (total_ge rs i r (ro_ring _ _ Hr) Hi). pose proof (ro_total _ _ Hr). lia.
Qed.

Lemma total_alter rs i c : total (alter (set_rc c) i rs) = total rs.
Proof.
  revert i. induction rs as [|r rs IH]; intros [|i]; try done.
  cbn. f_equal. apply IH.
Qed.

Lemma alter_lookup (rs : list ring) (i : nat) c (j : nat) r :
  alter (set_rc c) i rs !! j = Some r →
  ∃ r0, rs !! j = Some r0 ∧ rg r = rg r0 ∧ rn r = rn r0 ∧
    rc r = if decide (i = j) then c else rc r0.
Proof.
  rewrite list_lookup_alter. case_decide as E; [subst j|by exists r].
  intros (r0 & ? & ->)%fmap_Some. by exists r0.
Qed.

Lemma rings_ok_alter gap rs i c r :
  rings_ok gap rs → rs !! i = Some r → 0 <= c < rn r → rings_ok gap (alter (set_rc c) i rs).
Proof.
  intros Hr Hi Hc. split.
  - intros j r1 (r0 & H0 & -> & -> & ->)%alter_lookup. pose proof (ro_ring _ _ Hr _ _ H0).
    case_decide; simplify_eq; lia.
  - intros r1 (r0 & H0 & -> & _)%alter_lookup. by apply (ro_head _ _ Hr).
  - rewrite length_alter. apply Hr.
  - intros j r1 r2 (r3 & H3 & -> & -> & _)%alter_lookup (r4 & H4 & -> & _)%alter_lookup.
    by eapply (ro_chain _ _ Hr).
  - rewrite total_alter. apply Hr.
Qed.

Lemma off_current r : 0 < rn r → off r (rc r) = 0.
Proof. intros ?. unfold off. by rewrite Z.sub_diag, Z.mod_0_l by lia. Qed.

Lemma off_range r b : 0 < rn r → 0 <= off r b < rn r.
Proof. intros ?. apply Z.mod_pos_bound. lia. Qed.

Lemma off_inj r b b' : 0 <= b < rn r → 0 <= b' < rn r → off r b = off r b' → b = b'.
Proof.
  unfold off. intros Hb Hb' E. apply (f_equal (λ z, (z + rc r) mod rn r)) in E.
  rewrite !Zplus_mod_idemp_l in E.
  replace (b - rc r + rc r) with b in E by lia. replace (b' - rc r + rc r) with b' in E by lia.
  by rewrite !Z.mod_small in E.
Qed.

(** When the cursor moves on, every other bucket comes one closer. *)
Lemma off_bump r b :
  0 <= rc r < rn r → 0 <= b < rn r → b ≠ rc r →
  0 < off r b ∧ off (set_rc ((rc r + 1) mod rn r) r) b = off r b - 1.
Proof.
  intros Hc Hb Hne. unfold off. simpl.
  destruct (decide (rc r < b)).
  - rewrite (Z.mod_small (b - rc r)) by lia.
    rewrite (Z.mod_small (rc r + 1)) by lia. rewrite Z.mod_small by lia. lia.
  - replace ((b - rc r) mod rn r) with (b - rc r + rn r)
      by (symmetry; rewrite <-(Z_mod_plus_full _ 1), Z.mul_1_l; apply Z.mod_small; lia).
    destruct (decide (rc r + 1 = rn r)) as [E|].
    + rewrite E, Z_mod_same_full, Z.sub_0_r, Z.mod_small by lia. lia.
    + rewrite (Z.mod_small (rc r + 1)) by lia.
      rewrite <-(Z_mod_plus_full _ 1), Z.mul_1_l, Z.mod_small by lia. lia.
Qed.

End rings.

(** ** Where a key is placed *)

Section placement.

Lemma off_after r q : 0 <= rc r < rn r → 0 <= q → off r ((rc r + q) mod rn r) = q mod rn r.
Proof.
  intros ? ?. unfold off. rewrite Zminus_mod_idemp_l. f_equal. lia.
Qed.

(** The bucket [q] granules after the cursor. *)
Lemma bucket_index r q :
  0 <= rc r < rn r → rn r < horizon → 0 <= q < 2 * horizon →
  go_rem (i64 (rc r + i64 q)) (rn r) = Some ((rc r + q) mod rn r) ∧
  Z.max 0 (Z.min ((rc r + q) mod rn r) (i64 (rn r - 1))) = (rc r + q) mod rn r.
Proof.
  unfold horizon. intros ? ? ?. rewrite (i64_id q) by (unfold in64, two63; lia).
  rewrite !i64_id by (unfold in64, two63; lia).
  rewrite go_rem_nonneg by (unfold in64, two63; lia).
  pose proof (Z.mod_pos_bound (rc r + q) (rn r)). split; [done|lia].
Qed.

(** A level whose granularity is the range of the level below takes the delays
    from there on; a bucket is never more than the delay away. *)
Lemma findBucket_tail ls i n delta :
  ls ≠ [] → n = i + Z.of_nat (length ls) →
  (∀ j L, ls !! j = Some L →
     0 < granularity L ∧ 0 <= current L < bucketCount L ∧
     granularity L * bucketCount L < horizon) →
  (∀ j L L', ls !! j = Some L → ls !! S j = Some L' →
     granularity L' = granularity L * bucketCount L) →
  (∀ L, ls !! 0%nat = Some L → granularity L <= delta) → 0 <= delta < 2 * horizon →
  ∃ j b L, findBucket_from i n (default 0 (granularity <$> ls !! 0%nat)) delta ls =
      Some (Some (mkLoc (i + Z.of_nat j) b)) ∧
    ls !! j = Some L ∧ (off (ring_of L) b + 1) * granularity L <= delta.
Proof.
  revert i. induction ls as [|L ls IH]; intros i Hne Hn Hok Hch Hle Hd; [done|].
  destruct (Hok 0%nat L eq_refl) as (Hg & Hc & Hr). specialize (Hle L eq_refl).
  cbn [findBucket_from lookup list_lookup fmap option_fmap option_map default].
  rewrite (i64_id (granularity L * bucketCount L)) by (unfold in64, two63, horizon in *; nia).
  case_decide as Hcase.
  - rewrite (go_quot_pos delta), (go_quot_pos (granularity L))
      by (done || (unfold in64, two63, horizon in *; nia)).
    cbn [mbind option_bind]. rewrite Z.quot_same by lia.
    rewrite Z.quot_div_nonneg by lia. set (q := delta / granularity L).
    assert (1 <= q) by (apply Z.div_le_lower_bound; lia).
    assert (q * granularity L <= delta) by (rewrite Z.mul_comm; apply Z.mul_div_le; lia).
    destruct (bucket_index (ring_of L) (q - 1)) as [Hq Hb]; simpl; [done|nia|nia|].
    cbn [rc rn ring_of] in Hq. rewrite Hq. cbn [mbind option_bind].
    exists 0%nat. eexists _, L. split; [by rewrite Z.add_0_r|]. split; [done|].
    simpl in Hb. rewrite Hb. rewrite (off_after (ring_of L)) by (simpl; lia). simpl.
    pose proof (Z.mod_le (q - 1) (bucketCount L)). nia.
  - destruct ls as [|L' ls]; [exfalso; apply Hcase; right; cbn in Hn; lia|].
    pose proof (Hch 0%nat L L' eq_refl eq_refl) as Hg'.
    destruct (IH (i + 1)) as (j & b & L2 & E & HL2 & Ho).
    + done.
    + cbn [length] in Hn |- *. lia.
    + intros j L1. apply (Hok (S j)).
    + intros j L1 L2. apply (Hch (S j)).
    + intros L1 [= <-]. lia.
    + done.
    + exists (S j), b, L2. split; [|done]. unfold id in E. simpl in E.
      rewrite <-Hg'. etransitivity; [exact E|]. do 3 f_equal. lia.
Qed.

(** The time a key stands for, and the distance to it. *)
Definition slot_time (k : Z) w : Z := k * slotGapSeconds w.

Definition near (t : Z) : Prop := - horizon < t < horizon.

(** The bucket of level 0 for a delay [delta] within one turn of it. *)
Lemma first_level_bucket L delta i :
  0 < granularity L → 0 <= current L < bucketCount L → granularity L * bucketCount L < horizon →
  (granularity L | delta) → Z.max 0 delta < granularity L * bucketCount L →
  ∃ b, (bucketsIntoLevel ← go_quot (Z.max 0 delta) (granularity L);
        e ← go_quot 0 (granularity L);
        b ← go_rem (i64 (current L + i64 (bucketsIntoLevel - e))) (bucketCount L);
        Some (Some (mkLoc i (Z.max 0 (Z.min b (i64 (bucketCount L - 1))))))) = Some (Some (mkLoc i b)) ∧
    (delta = off (ring_of L) b * granularity L ∨ (delta <= 0 ∧ off (ring_of L) b = 0)).
Proof.
  intros Hg Hc Hr [a Ha] Hlt.
  rewrite (go_quot_pos (Z.max 0 delta)), (go_quot_pos 0) by (done || (unfold in64, two63, horizon in *; lia)).
  cbn [mbind option_bind]. rewrite Z.quot_0_l, Z.sub_0_r, Z.quot_div_nonneg by lia.
  set (q := Z.max 0 delta / granularity L).
  assert (0 <= q) by (apply Z.div_pos; lia).
  assert (q < bucketCount L) by (apply Z.div_lt_upper_bound; lia).
  destruct (bucket_index (ring_of L) q) as [Hq Hbk]; simpl; [done|nia|nia|].
  cbn [rc rn ring_of] in Hq. rewrite Hq. cbn [mbind option_bind].
  cbn [rc rn ring_of] in Hbk. rewrite Hbk. eexists. split; [done|].
  rewrite (off_after (ring_of L)) by (simpl; lia). simpl. rewrite Z.mod_small by lia.
  destruct (decide (0 < delta)).
  - left. unfold q. rewrite Z.max_r by lia. rewrite Ha, Z.div_mul by lia. done.
  - right. split; [lia|]. unfold q. replace (Z.max 0 delta) with 0 by lia. apply Z.div_0_l. lia.
Qed.

(** [dest] in terms of rings and time: the exact bucket of level 0 for a delay
    within one turn of it, a bucket of a higher level that comes up in time
    for a longer one. *)
Lemma dest_time k w r0 :
  wheel_wf w → rings_ok (slotGapSeconds w) (rings w) → rings w !! 0%nat = Some r0 →
  (slotGapSeconds w | currentBase w) → near (currentBase w) → near (slot_time k w) →
  let delta := slot_time k w - currentBase w in
  ∃ i b r, dest k w = Some (Some (mkLoc (Z.of_nat i) b)) ∧ rings w !! i = Some r ∧
    ((i = 0%nat ∧ delta < rg r0 * rn r0 ∧
        (delta = off r0 b * slotGapSeconds w ∨ (delta <= 0 ∧ off r0 b = 0))) ∨
     ((1 <= i)%nat ∧ rg r0 * rn r0 <= delta ∧ (off r b + 1) * rg r <= delta)).
Proof.
  intros Hw Hro Hr0 [a Ha] Hb Hk delta. unfold near in *.
  apply rings_lookup in Hr0 as (L0 & HL0 & ->).
  assert (∀ j L, levels w !! j = Some L →
     0 < granularity L ∧ 0 <= current L < bucketCount L ∧
     granularity L * bucketCount L < horizon) as Hok.
  { intros j L HL. apply (rings_ok_range _ _ j (ring_of L) Hro), rings_lookup. eauto. }
  assert (granularity L0 = slotGapSeconds w) as Hg0.
  { apply (ro_head _ _ Hro (ring_of L0)), rings_lookup. eauto. }
  destruct (Hok 0%nat L0 HL0) as (Hgp & Hc0 & Hr0).
  pose proof (ro_len _ _ Hro) as Hlen. unfold rings in Hlen. rewrite length_fmap in Hlen.
  unfold dest. assert (computeSlotTime k w = slot_time k w) as ->.
  { apply i64_id. unfold slot_time, in64, two63, horizon in *. lia. }
  rewrite (i64_id (slot_time k w - currentBase w)) by (unfold in64, two63, horizon in *; lia).
  fold delta. assert (clamp0 delta = Z.max 0 delta) as ->
    by (unfold clamp0; case_decide; lia).
  unfold findBucket. destruct (levels w) as [|L ls] eqn:Els; [done|]. simplify_eq/=.
  destruct ls as [|L1 ls]; [simpl in Hlen; lia|].
  remember (L1 :: ls) as ls' eqn:Els'. cbn [findBucket_from].
  rewrite (i64_id (granularity L0 * bucketCount L0)) by (unfold in64, two63, horizon in *; nia).
  case_decide as Hcase.
  - assert (Z.max 0 delta < granularity L0 * bucketCount L0) as Hlt.
    { destruct Hcase as [?|Hcase]; [done|]. subst ls'. simpl in Hcase. lia. }
    destruct (first_level_bucket L0 delta 0) as (b & Eb & Hoff); [done|done|done| |done|].
    { exists (k - a). unfold delta, slot_time. rewrite Ha, Hg0. lia. }
    rewrite Eb. exists 0%nat, b, (ring_of L0). split; [done|].
    split; [unfold rings; by rewrite Els|]. left. split; [done|]. split; [cbn; lia|]. by rewrite <-Hg0.
  - assert (0 < granularity L0 * bucketCount L0) by nia.
    assert (granularity L0 * bucketCount L0 <= delta) as Hge by lia.
    assert (granularity L1 = granularity L0 * bucketCount L0) as Hg1.
    { apply (ro_chain _ _ Hro 0%nat (ring_of L0) (ring_of L1)); unfold rings; rewrite Els; by subst. }
    destruct (findBucket_tail ls' 1 (Z.of_nat (length (L0 :: ls'))) (Z.max 0 delta))
      as (j & b & L2 & E & HL2 & Ho).
    + by subst.
    + simpl. lia.
    + intros j L. apply (Hok (S j)).
    + intros j L L' H1 H2.
      apply (ro_chain _ _ Hro (S j) (ring_of L) (ring_of L')); unfold rings;
        rewrite Els; simpl; rewrite list_lookup_fmap; [by rewrite H1|by rewrite H2].
    + subst ls'. intros L [= <-]. lia.
    + unfold horizon in *. lia.
    + exists (S j), b, (ring_of L2). split_and!.
      * subst ls'. simpl in E. rewrite <-Hg1. etransitivity; [exact E|]. do 3 f_equal. lia.
      * unfold rings. rewrite Els. simpl. by rewrite list_lookup_fmap, HL2.
      * right. split; [lia|]. cbn [rg rn ring_of]. split; [done|].
        rewrite Z.max_r in Ho by lia. done.
Qed.

End placement.

(** ** Fire times *)

Section fire.

Lemma fire_app t rs i m :
  (i <= length rs)%nat → fire t rs (i + m) = fire (fire t rs i) (drop i rs) m.
Proof.
  revert t rs. induction i as [|i IH]; intros t rs Hi; [by destruct rs|].
  destruct rs as [|r rs]; [simpl in Hi; lia|]. simpl. apply IH. simpl in Hi. lia.
Qed.

Lemma fire_alter t rs c i j : (i <= j)%nat → fire t (alter (set_rc c) j rs) i = fire t rs i.
Proof.
  revert t rs j. induction i as [|i IH]; intros t rs j Hij; [by destruct rs, j|].
  destruct rs as [|r rs]; [done|]. destruct j as [|j]; [lia|]. cbn. apply IH. lia.
Qed.

(** A chain of rings whose cursors are at [0] below level [i] fires one granule
    of level [i] later than the first ring's granule. *)
Lemma fire_bounds gap t rs i r0 r :
  rings_ok gap rs → rs !! 0%nat = Some r0 → rs !! i = Some r →
  fire t rs i <= t - rg r0 + rg r ∧
  t <= fire t rs i ∧
  ((∀ m r', (m < i)%nat → rs !! m = Some r' → rc r' = 0) → fire t rs i = t - rg r0 + rg r).
Proof.
  intros Hro H0 Hi.
  assert (∀ i r, rs !! i = Some r → 0 < rg r ∧ 0 <= rc r < rn r) as Hring by apply Hro.
  assert (∀ i r r', rs !! i = Some r → rs !! S i = Some r' → rg r' = rg r * rn r) as Hch
    by apply Hro.
  clear Hro. revert t rs r0 H0 Hi Hring Hch. induction i as [|i IH]; intros t rs r0 H0 Hi Hring Hch.
  - simplify_eq. destruct rs; simpl; lia.
  - destruct rs as [|r1 rs]; [done|]. simplify_eq/=.
    destruct (rs !! 0%nat) as [r1|] eqn:E1.
    2:{ apply lookup_ge_None in E1. apply lookup_lt_Some in Hi. lia. }
    destruct (Hring 0%nat r0 eq_refl) as [Hg Hc]. pose proof (Hch 0%nat r0 r1 eq_refl E1) as Hg1.
    destruct (IH (t + (rn r0 - 1 - rc r0) * rg r0) rs r1 E1 Hi) as (B1 & B2 & B3);
      [intros j; apply (Hring (S j))|intros j; apply (Hch (S j))|].
    split_and!; [nia|nia|]. intros Hz. rewrite B3.
    + rewrite (Hz 0%nat r0) by (done || lia). nia.
    + intros m r' Hm. apply (Hz (S m)). lia.
Qed.

End fire.

(** ** The time invariant *)

Record time_base w : Prop := {
  tb_wf : wheel_wf w;
  tb_rings : rings_ok (slotGapSeconds w) (rings w);
  tb_clock : (slotGapSeconds w | currentBase w);
  tb_near : near (currentBase w);
  tb_keys : ∀ k, k ∈ wheel_keys w → near (slot_time k w) }.

(** Level 0 holds a key at its distance from the base (a late key in the
    current bucket); a higher level holds it in a bucket that is cascaded, at
    the times [T] gives, before it is due. *)
Record placed_ok w (T : nat → Z) : Prop := {
  po_zero : ∀ r b k, rings w !! 0%nat = Some r → k ∈ at_loc w (mkLoc 0 b) →
    slot_time k w = currentBase w + off r b * slotGapSeconds w ∨
    (off r b = 0 ∧ slot_time k w <= currentBase w);
  po_up : ∀ i r b k, (1 <= i)%nat → rings w !! i = Some r → k ∈ at_loc w (mkLoc (Z.of_nat i) b) →
    T i + off r b * rg r <= slot_time k w }.

Definition fire_at w (i : nat) : Z := fire (currentBase w + slotGapSeconds w) (rings w) i.

Record time_inv w : Prop := {
  ti_base : time_base w;
  ti_placed : placed_ok w (fire_at w) }.

(** One turn of level 0, in seconds. *)
Definition turn w : Z := match rings w !! 0%nat with Some r => rg r * rn r | None => 0 end.

(** The state in which [cascade] is called on level [i]: the rings below have
    just wrapped, and the bucket of level [i] is due now. *)
Definition due_times w (i m : nat) : Z :=
  if decide (m < i)%nat then fire_at w m
  else fire (currentBase w) (drop i (rings w)) (m - i).

Record cascade_pre w (i : nat) : Prop := {
  cp_base : time_base w;
  cp_zero : ∀ m r, (m < i)%nat → rings w !! m = Some r → rc r = 0;
  cp_placed : placed_ok w (due_times w i) }.

Section time_lemmas.

Lemma first_ring w : time_base w → ∃ r, rings w !! 0%nat = Some r ∧ turn w = rg r * rn r ∧
  rg r = slotGapSeconds w ∧ 0 < rg r ∧ 0 <= rc r < rn r.
Proof.
  intros Hb. pose proof (tb_rings _ Hb) as Hr. pose proof (ro_len _ _ Hr).
  destruct (rings w !! 0%nat) as [r|] eqn:E; [|apply lookup_ge_None in E; lia].
  exists r. unfold turn. rewrite E. destruct (ro_ring _ _ Hr _ _ E).
  split_and!; try done; try lia. by apply (ro_head _ _ Hr).
Qed.

Lemma at_loc_range w i b k r :
  wheel_wf w → rings w !! i = Some r → k ∈ at_loc w (mkLoc (Z.of_nat i) b) → 0 <= b < rn r.
Proof.
  intros Hw Hr Hk. apply rings_lookup in Hr as (L & HL & ->).
  assert (valid_loc w (mkLoc (Z.of_nat i) b)) as Hv.
  { unfold at_loc in Hk. unfold valid_loc. destruct (bucket_of _ w); [eauto|set_solver]. }
  apply valid_loc_spec in Hv as (L' & _ & HL' & Hb). simpl in *. rewrite Nat2Z.id in HL'.
  simplify_eq. destruct (wf_level _ _ _ Hw HL). lia.
Qed.

Lemma at_loc_level w loc k :
  k ∈ at_loc w loc → ∃ i b r, loc = mkLoc (Z.of_nat i) b ∧ rings w !! i = Some r.
Proof.
  intros Hk. assert (valid_loc w loc) as Hv.
  { unfold at_loc in Hk. unfold valid_loc. destruct (bucket_of _ w); [eauto|set_solver]. }
  apply valid_loc_spec in Hv as (L & Hl & HL & _). destruct loc as [lv b]. simpl in *.
  exists (Z.to_nat lv), b, (ring_of L). split; [by rewrite Z2Nat.id|]. apply rings_lookup. eauto.
Qed.

Lemma fire_at_bounds w i r :
  time_base w → rings w !! i = Some r →
  fire_at w i <= currentBase w + rg r ∧ currentBase w + slotGapSeconds w <= fire_at w i ∧
  ((∀ m r', (m < i)%nat → rings w !! m = Some r' → rc r' = 0) →
   fire_at w i = currentBase w + rg r).
Proof.
  intros Hb Hi. destruct (first_ring w Hb) as (r0 & H0 & _ & Hg & _ & _).
  destruct (fire_bounds _ (currentBase w + slotGapSeconds w) _ _ _ _ (tb_rings _ Hb) H0 Hi)
    as (B1 & B2 & B3). unfold fire_at. split_and!; [lia|lia|]. intros Hz. rewrite B3 by done. lia.
Qed.

(** A key that is placed now is placed in time. *)
Lemma dest_placed w k i b r :
  time_base w → near (slot_time k w) →
  dest k w = Some (Some (mkLoc (Z.of_nat i) b)) → rings w !! i = Some r →
  (i = 0%nat → slot_time k w = currentBase w + off r b * slotGapSeconds w ∨
     (off r b = 0 ∧ slot_time k w <= currentBase w)) ∧
  ((1 <= i)%nat → currentBase w + rg r + off r b * rg r <= slot_time k w ∧
     currentBase w + turn w <= slot_time k w).
Proof.
  intros Hb Hk Hd Hi. destruct (first_ring w Hb) as (r0 & H0 & Ht & _).
  destruct (dest_time k w r0) as (i' & b' & r' & Hd' & Hi' & Hcase);
    try done; try by apply Hb.
  rewrite Hd in Hd'. injection Hd' as Ei <-. apply Nat2Z.inj in Ei as <-. simplify_eq.
  split; intros Hi0.
  - subst i. simplify_eq. destruct Hcase as [(_ & _ & Hz)|(? & _)]; [|lia]. lia.
  - destruct Hcase as [(? & _)|(_ & ? & ?)]; lia.
Qed.

End time_lemmas.

(** ** Cascading in time *)

Section cascade_time.

Context `{GoRange}.

(** What a round of [cascade] on level [i] does, seen through the rings. *)
Record round_view w (i : nat) (r : ring) w3 : Prop := {
  rv_wf : wheel_wf w3;
  rv_keeps : keeps w w3;
  rv_base : currentBase w3 = currentBase w;
  rv_gap : slotGap w3 = slotGap w;
  rv_rings : rings w3 = alter (set_rc ((rc r + 1) mod rn r)) i (rings w);
  rv_at : ∀ j b k, k ∈ at_loc w3 (mkLoc (Z.of_nat j) b) →
    (k ∈ at_loc w (mkLoc (Z.of_nat j) b) ∧ ¬ (j = i ∧ b = rc r)) ∨
    ((∃ loc, k ∈ at_loc w loc) ∧ (j < i)%nat ∧ dest k w = Some (Some (mkLoc (Z.of_nat j) b)));
  rv_over : ∀ k, k ∈ overflow w3 → k ∈ overflow w ∨
    (k ∈ wheel_keys w ∧ ∃ j b, (i <= j)%nat ∧ dest k w = Some (Some (mkLoc (Z.of_nat j) b))) }.

Lemma dest_level w k loc :
  dest k w = Some (Some loc) → wheel_wf w → ∃ j, level loc = Z.of_nat j ∧ (j < length (levels w))%nat.
Proof.
  intros Hd Hw. destruct (dest_valid w k Hw) as (loc' & Hd' & Hv). rewrite Hd in Hd'.
  injection Hd' as <-. apply valid_loc_spec in Hv as (L & Hl & HL & _).
  exists (Z.to_nat (level loc)). apply lookup_lt_Some in HL. lia.
Qed.

Lemma cascade_view fuel i w r :
  wheel_wf w → rings w !! i = Some r →
  ∃ w3, round_view w i r w3 ∧
    cascade (S fuel) (Z.of_nat i) w =
      if decide ((rc r + 1) mod rn r = 0) then cascade fuel (Z.of_nat (S i)) w3 else Some w3.
Proof.
  intros Hw Hr. apply rings_lookup in Hr as (L & HL & ->).
  destruct (cascade_round fuel i w L Hw HL) as (l & w2 & Hl & Hm & Hw3 & Hk & E).
  set (w3 := bumped (Z.of_nat i) (next_current L) w2) in *. exists w3. split; [|exact E].
  pose proof (current_loc_valid _ _ _ Hw HL) as Hv.
  assert (skel w2 = skel w) as Hs by (rewrite (mv_skel _ _ _ _ Hm); apply write_bucket_skel).
  pose proof (skel_clock _ _ Hs) as (Hg & Hb & _).
  assert (∀ k, k ∈ l → ∃ loc, k ∈ at_loc w loc) as Hlk
    by (intros k Hk'; eexists; by apply Hl).
  split; [done|done|by rewrite <-Hb|by rewrite <-Hg|..].
  - unfold w3. rewrite rings_bumped. by rewrite (rings_skel _ _ Hs).
  - intros j b k. unfold w3. rewrite bumped_at, (mv_at _ _ _ _ Hm), write_bucket_at by done.
    intros [Hk'|[Hk' Hd]].
    + left. case_decide as Eloc; [set_solver|]. split; [done|]. intros [-> ->]. by apply Eloc.
    + right. split; [by apply Hlk|]. unfold cascade_dest in Hd.
      destruct (dest k w) as [[loc|]|]; [|done..]. case_decide; [|done]. simplify_eq/=.
      split; [lia|done].
  - intros k Hk'. change (overflow w3) with (overflow w2) in Hk'.
    apply (mv_over _ _ _ _ Hm) in Hk' as [Hk'|[Hk' Hd]]; [by left|]. right.
    split; [apply elem_of_wheel_keys; left; by apply Hlk|]. unfold cascade_dest in Hd.
    destruct (dest_valid w k Hw) as ([lv b] & Ed & _). rewrite Ed in Hd |- *. simpl in Hd.
    destruct (dest_level _ _ _ Ed Hw) as (j & Ej & _). simpl in Ej. subst lv.
    case_decide; [done|]. exists j, b. split; [lia|done].
Qed.

Lemma round_slot_time w i r w3 k : round_view w i r w3 → slot_time k w3 = slot_time k w.
Proof. intros Hv. unfold slot_time. by rewrite (gap_eq _ _ (rv_gap _ _ _ _ Hv)). Qed.

Lemma round_base w i r w3 :
  time_base w → rings w !! i = Some r → round_view w i r w3 → time_base w3.
Proof.
  intros [Hw Hro Hc Hn Hk] Hi Hv. pose proof (gap_eq _ _ (rv_gap _ _ _ _ Hv)) as Hg. split.
  - apply Hv.
  - rewrite Hg, (rv_rings _ _ _ _ Hv). destruct (ro_ring _ _ Hro _ _ Hi).
    eapply rings_ok_alter; [done|done|]. apply Z.mod_pos_bound. lia.
  - by rewrite Hg, (rv_base _ _ _ _ Hv).
  - by rewrite (rv_base _ _ _ _ Hv).
  - intros k Hk3. rewrite (round_slot_time _ _ _ _ _ Hv). apply Hk.
    by apply (rv_keeps _ _ _ _ Hv).
Qed.

(** The fire times after a round: one granule away up to level [i], unchanged
    above it. *)
Definition round_times w (i : nat) (T : nat → Z) : Prop :=
  (∀ m rm, (1 <= m <= i)%nat → rings w !! m = Some rm → T m = currentBase w + rg rm) ∧
  (∀ m, (i < m)%nat → is_Some (rings w !! m) → T m = due_times w i m).

Lemma round_placed w i r w3 T :
  cascade_pre w i → (1 <= i)%nat → rings w !! i = Some r → round_view w i r w3 →
  round_times w i T → placed_ok w3 T.
Proof.
  intros [Hb Hz [Hp0 Hpu]] Hi1 Hi Hv [Hlow Hhigh].
  pose proof (gap_eq _ _ (rv_gap _ _ _ _ Hv)) as Hg. pose proof (rv_base _ _ _ _ Hv) as Hbase.
  destruct (ro_ring _ _ (tb_rings _ Hb) _ _ Hi) as [Hgi Hci]. split.
  - intros r0 b k Hr0 Hk. rewrite (round_slot_time _ _ _ _ _ Hv), Hg, Hbase.
    rewrite (rv_rings _ _ _ _ Hv), list_lookup_alter_ne in Hr0 by lia.
    change (mkLoc 0 b) with (mkLoc (Z.of_nat 0) b) in Hk.
    apply (rv_at _ _ _ _ Hv) in Hk as [[Hk _]|(Hk & _ & Hd)]; [by apply Hp0|].
    assert (k ∈ wheel_keys w) as Hkw by (apply elem_of_wheel_keys; by left).
    by eapply dest_placed; [..|done]; [|apply Hb| |].
  - intros m rm' b k Hm Hrm' Hk. rewrite (round_slot_time _ _ _ _ _ Hv).
    rewrite (rv_rings _ _ _ _ Hv) in Hrm'.
    pose proof (alter_lookup _ _ _ _ _ Hrm') as (rm & Hrm & Eg & En & Ec).
    apply (rv_at _ _ _ _ Hv) in Hk as [[Hk Hne]|(Hk & Hlt & Hd)].
    + destruct (lt_eq_lt_dec m i) as [[Hlt| ->]|Hgt].
      * rewrite list_lookup_alter_ne in Hrm' by lia. assert (rm' = rm) as -> by congruence.
        rewrite (Hlow m rm) by (done || lia).
        pose proof (Hpu m rm b k Hm Hrm Hk) as Hold. unfold due_times in Hold.
        rewrite decide_True in Hold by done.
        destruct (fire_at_bounds w m rm Hb Hrm) as (_ & _ & Hf).
        rewrite Hf in Hold; [done|]. intros m' r' ?. apply Hz. lia.
      * assert (rm = r) as -> by congruence. rewrite (Hlow i r) by (done || lia).
        pose proof (Hpu i r b k Hm Hrm Hk) as Hold. unfold due_times in Hold.
        rewrite decide_False, Nat.sub_diag in Hold by lia.
        pose proof (at_loc_range _ _ _ _ _ (tb_wf _ Hb) Hrm Hk) as Hbr.
        destruct (off_bump r b) as [Ho1 Ho2]; [done|done|naive_solver|].
        assert (off rm' b = off r b - 1) as ->.
        { rewrite <-Ho2. unfold off. simpl. rewrite En, Ec, decide_True by done. done. }
        rewrite Eg. destruct (drop i (rings w)); simpl in Hold; lia.
      * rewrite list_lookup_alter_ne in Hrm' by lia. assert (rm' = rm) as -> by congruence.
        rewrite Hhigh by (done || eauto). by apply Hpu.
    + rewrite list_lookup_alter_ne in Hrm' by lia. assert (rm' = rm) as -> by congruence.
      rewrite (Hlow m rm) by (done || lia).
      assert (k ∈ wheel_keys w) as Hkw by (apply elem_of_wheel_keys; by left).
      apply (dest_placed w k m b rm); try done. by apply Hb.
Qed.

Lemma drop_bumped w i r c :
  rings w !! i = Some r →
  drop i (alter (set_rc c) i (rings w)) = set_rc c r :: drop (S i) (rings w).
Proof.
  intros Hi. rewrite (drop_S _ (set_rc c r)).
  - f_equal. by rewrite drop_alter_lt by lia.
  - by rewrite list_lookup_alter_eq, Hi.
Qed.

Lemma round_fire_low w i r w3 m rm :
  cascade_pre w i → rings w !! i = Some r → round_view w i r w3 →
  (m <= i)%nat → rings w !! m = Some rm → fire_at w3 m = currentBase w + rg rm.
Proof.
  intros [Hb Hz _] Hi Hv Hm Hrm. pose proof (round_base _ _ _ _ Hb Hi Hv) as Hb3.
  pose proof (rv_rings _ _ _ _ Hv) as Hr3.
  assert (∃ r3, rings w3 !! m = Some r3 ∧ rg r3 = rg rm) as (r3 & H3 & Eg).
  { rewrite Hr3, list_lookup_alter. case_decide as E; [|by exists rm].
    subst m. rewrite Hrm. by eexists. }
  destruct (fire_at_bounds w3 m r3 Hb3 H3) as (_ & _ & Hf).
  rewrite Hf, Eg; [by rewrite (rv_base _ _ _ _ Hv)|].
  intros m' r' Hm'. rewrite Hr3, list_lookup_alter_ne by lia. apply Hz. lia.
Qed.

Lemma round_times_stop w i r w3 :
  cascade_pre w i → rings w !! i = Some r → round_view w i r w3 →
  (rc r + 1) mod rn r ≠ 0 → round_times w i (fire_at w3).
Proof.
  intros Hp Hi Hv Hne. pose proof Hp as [Hb Hz _].
  destruct (ro_ring _ _ (tb_rings _ Hb) _ _ Hi) as [Hgi Hci].
  assert ((rc r + 1) mod rn r = rc r + 1) as Hc.
  { apply Z.mod_small. destruct (decide (rc r + 1 = rn r)) as [E|]; [|lia].
    by rewrite E, Z_mod_same_full in Hne. }
  split; [intros m rm Hm Hrm; eapply round_fire_low; (done || lia)|].
  intros m Hm _. unfold due_times. rewrite decide_False by lia.
  pose proof (round_fire_low w i r w3 i r Hp Hi Hv ltac:(lia) Hi) as Hfi. unfold fire_at in *.
  apply lookup_lt_Some in Hi as Hlen. rewrite (rv_rings _ _ _ _ Hv) in *.
  replace m with (i + S (m - S i))%nat at 1 by lia.
  rewrite fire_app by (rewrite length_alter; lia). rewrite Hfi, (drop_bumped _ _ r) by done.
  rewrite (drop_S (rings w) r i) by done. replace (m - i)%nat with (S (m - S i)) by lia.
  simpl. rewrite Hc. f_equal. lia.
Qed.

Lemma round_times_wrap w i r w3 :
  cascade_pre w i → rings w !! i = Some r → round_view w i r w3 →
  (rc r + 1) mod rn r = 0 → round_times w i (due_times w3 (S i)).
Proof.
  intros Hp Hi Hv Hz0. pose proof Hp as [Hb Hz _].
  destruct (ro_ring _ _ (tb_rings _ Hb) _ _ Hi) as [Hgi Hci].
  assert (rc r = rn r - 1) as Hc.
  { destruct (decide (rc r + 1 = rn r)); [lia|]. rewrite Z.mod_small in Hz0; lia. }
  split.
  - intros m rm Hm Hrm. unfold due_times. rewrite decide_True by lia.
    eapply round_fire_low; (done || lia).
  - intros m Hm _. unfold due_times. rewrite !decide_False by lia.
    rewrite (rv_base _ _ _ _ Hv), (rv_rings _ _ _ _ Hv), drop_alter_lt by lia.
    rewrite (drop_S (rings w) r i) by done. replace (m - i)%nat with (S (m - S i)) by lia.
    simpl. f_equal. rewrite Hc. lia.
Qed.

Lemma round_over w i r w3 k :
  cascade_pre w i → (1 <= i)%nat → round_view w i r w3 →
  k ∈ overflow w3 → k ∈ overflow w ∨ currentBase w + turn w <= slot_time k w.
Proof.
  intros [Hb _ _] Hi Hv Hk. apply (rv_over _ _ _ _ Hv) in Hk as [?|(Hk & j & b & Hj & Hd)];
    [by left|]. right.
  destruct (dest_level _ _ _ Hd (tb_wf _ Hb)) as (j' & Ej & Hlen). simpl in Ej.
  apply Nat2Z.inj in Ej as <-.
  destruct (rings w !! j) as [rj|] eqn:Hrj.
  2:{ apply lookup_ge_None in Hrj. unfold rings in Hrj. rewrite length_fmap in Hrj. lia. }
  apply (dest_placed w k j b rj); try done; [by apply Hb|lia].
Qed.

Lemma round_in w i r w3 k loc :
  round_view w i r w3 → k ∈ at_loc w3 loc → ∃ loc', k ∈ at_loc w loc'.
Proof.
  intros Hv Hk. destruct (at_loc_level _ _ _ Hk) as (j & b & _ & -> & _).
  apply (rv_at _ _ _ _ Hv) in Hk as [[Hk _]|[Hk _]]; eauto.
Qed.

Lemma round_turn w i r w3 : round_view w i r w3 → turn w3 = turn w.
Proof.
  intros Hv. unfold turn. rewrite (rv_rings _ _ _ _ Hv), list_lookup_alter.
  case_decide as E; [|done]. subst i. by destruct (rings w !! 0%nat).
Qed.

(** [cascade] restores the time invariant; the keys it sends to the overflow
    are at least a turn of level 0 away. *)
Lemma cascade_time fuel i w :
  cascade_pre w i → (1 <= i)%nat → (0 < fuel)%nat → (length (levels w) < fuel + i)%nat →
  ∃ w', cascade fuel (Z.of_nat i) w = Some w' ∧ time_inv w' ∧
    currentBase w' = currentBase w ∧ slotGap w' = slotGap w ∧ turn w' = turn w ∧
    (∀ k, k ∈ overflow w' → k ∈ overflow w ∨ currentBase w + turn w <= slot_time k w) ∧
    (∀ k loc, k ∈ at_loc w' loc → ∃ loc', k ∈ at_loc w loc').
Proof.
  revert i w. induction fuel as [|fuel IH]; intros i w Hp Hi Hpos Hf; [lia|].
  pose proof Hp as [Hb Hz Hpl]. destruct (rings w !! i) as [r|] eqn:Hr.
  - destruct (cascade_view fuel i w r (tb_wf _ Hb) Hr) as (w3 & Hv & ->).
    pose proof (round_base _ _ _ _ Hb Hr Hv) as Hb3. pose proof (round_turn _ _ _ _ Hv) as Ht.
    case_decide as Hc.
    + assert (cascade_pre w3 (S i)) as Hp3.
      { split; [done| |].
        - intros m rm Hm. rewrite (rv_rings _ _ _ _ Hv).
          intros (r0 & H0 & _ & _ & ->)%alter_lookup. case_decide; [by subst|].
          apply (Hz m r0); [lia|done].
        - eapply round_placed; [done..|]. by eapply round_times_wrap. }
      assert (length (levels w3) = length (levels w)) as Hl3.
      { pose proof (f_equal length (rv_rings _ _ _ _ Hv)) as El. unfold rings in El.
        by rewrite length_alter, !length_fmap in El. }
      apply lookup_lt_Some in Hr as Hlen. unfold rings in Hlen. rewrite length_fmap in Hlen.
      destruct (IH (S i) w3) as (w' & E & Hti & Hbb & Hgg & Htt & Ho & Hin); [done|lia|lia|lia|].
      exists w'. split_and!; [done|done| | | | |].
      * by rewrite Hbb, (rv_base _ _ _ _ Hv).
      * by rewrite Hgg, (rv_gap _ _ _ _ Hv).
      * by rewrite Htt.
      * intros k Hk. apply Ho in Hk as [Hk|Hk]; [by eapply round_over|].
        right. by rewrite (rv_base _ _ _ _ Hv), Ht, (round_slot_time _ _ _ _ _ Hv) in Hk.
      * intros k loc Hk. apply Hin in Hk as [loc' Hk]. by eapply round_in.
    + exists w3. split_and!; [done| |apply Hv|apply Hv|done| |by intros k loc; apply (round_in w i r)].
      * split; [done|]. eapply round_placed; [done..|]. by eapply round_times_stop.
      * intros k. by eapply round_over.
  - apply lookup_ge_None in Hr. unfold rings in Hr. rewrite length_fmap in Hr.
    exists w. cbn [cascade]. rewrite decide_True by lia. split_and!; try done; [|by auto|by eauto].
    split; [done|]. destruct Hpl as [H0 Hu]. split; [done|].
    intros m rm b k Hm Hrm Hk. specialize (Hu m rm b k Hm Hrm Hk). unfold due_times in Hu.
    apply lookup_lt_Some in Hrm. unfold rings in Hrm. rewrite length_fmap in Hrm.
    by rewrite decide_True in Hu by lia.
Qed.

End cascade_time.

(** ** One round of [Advance] in time *)

Section tick_time.

Context `{GoRange}.

(** The keys of the wheel that are due sit in the current bucket of level 0,
    or wait in the overflow. *)
Lemma due_in_current w r k loc :
  time_inv w → rings w !! 0%nat = Some r → k ∈ at_loc w loc →
  slot_time k w <= currentBase w ↔ loc = mkLoc 0 (rc r).
Proof.
  intros [Hb [H0 Hu]] Hr Hk. pose proof (tb_rings _ Hb) as Hro.
  destruct (ro_ring _ _ Hro _ _ Hr) as [Hg Hc]. pose proof (ro_head _ _ Hro _ Hr) as Hgap.
  destruct (at_loc_level _ _ _ Hk) as (i & b & ri & -> & Hi). destruct i as [|i].
  - assert (ri = r) as -> by congruence. change (Z.of_nat 0) with 0 in *.
    pose proof (at_loc_range w 0 b k r (tb_wf _ Hb) Hi Hk) as Hbr.
    specialize (H0 _ _ _ Hi Hk). split; [|intros [= ->]; rewrite off_current in H0; lia].
    intros Hdue. f_equal. destruct (decide (b = rc r)) as [|Hne]; [done|].
    destruct (off_bump r b) as [Ho _]; [done..|]. nia.
  - split; [|intros [= E]; lia]. intros Hdue.
    specialize (Hu (S i) ri b k ltac:(lia) Hi Hk). destruct (ro_ring _ _ Hro _ _ Hi) as [Hgi Hci].
    destruct (fire_at_bounds w (S i) ri Hb Hi) as (_ & Hf & _).
    pose proof (off_range ri b ltac:(lia)). nia.
Qed.

(** The wheel a round leaves before it cascades. *)
Lemma drained_view l w wd r :
  time_inv w → rings w !! 0%nat = Some r → near (currentBase w + slotGapSeconds w) →
  drained l (mkLoc 0 (rc r)) w wd →
  let w1 := bumped 0 ((rc r + 1) mod rn r) wd in
  time_base w1 ∧ rings w1 = alter (set_rc ((rc r + 1) mod rn r)) 0%nat (rings w) ∧
  currentBase w1 = currentBase w + slotGapSeconds w ∧ slotGap w1 = slotGap w ∧
  overflow w1 = overflow w ∧
  (∀ loc k, k ∈ at_loc w1 loc ↔ k ∈ at_loc w loc ∧ loc ≠ mkLoc 0 (rc r)).
Proof.
  intros [Hb _] Hr Hn Hd w1. pose proof (tb_rings _ Hb) as Hro.
  destruct (ro_ring _ _ Hro _ _ Hr) as [Hg Hc].
  pose proof (drained_wf _ _ _ _ Hd (tb_wf _ Hb)) as Hwd.
  pose proof (drained_releases _ _ _ _ Hd) as (Hrel & _ & _).
  destruct Hd as [Hl Hbase Hgap Hi Hlist _ Hat Hov _].
  assert (rings wd = rings w) as Hrd.
  { transitivity (rings (set_base (currentBase wd) (initialized wd) w)); [|done].
    apply rings_skel. unfold skel. simpl. by rewrite Hl, Hgap. }
  rewrite i64_id in Hbase by (unfold near, in64, two63, horizon in *; lia).
  assert (rings w1 = alter (set_rc ((rc r + 1) mod rn r)) 0%nat (rings w)) as Hr1.
  { unfold w1. change 0 with (Z.of_nat 0) at 1. by rewrite rings_bumped, Hrd. }
  pose proof (gap_eq w w1 Hgap) as Hg1.
  assert (0 <= (rc r + 1) mod rn r < rn r) by (apply Z.mod_pos_bound; lia).
  rewrite <-Hrd in Hr. apply rings_lookup in Hr as (Ld & HLd & ->).
  split_and!; [split|done|by simpl|by simpl|by simpl|].
  - by apply (bumped_wf _ _ _ Ld).
  - rewrite Hg1, Hr1. eapply rings_ok_alter; [done| |done].
    rewrite <-Hrd. apply rings_lookup. eauto.
  - rewrite Hg1. unfold w1. simpl. rewrite Hbase. apply Z.divide_add_r; [apply Hb|done].
  - unfold w1. simpl. by rewrite Hbase.
  - intros k Hk. unfold slot_time. rewrite Hg1. apply (tb_keys _ Hb).
    apply Hrel. right. by apply (bumped_keeps 0 ((rc (ring_of Ld) + 1) mod rn (ring_of Ld)) wd).
  - intros loc k. unfold w1. rewrite bumped_at, Hat. case_decide; set_solver.
Qed.

Lemma tick_placed w w1 r T :
  time_inv w → rings w !! 0%nat = Some r →
  rings w1 = alter (set_rc ((rc r + 1) mod rn r)) 0%nat (rings w) →
  currentBase w1 = currentBase w + slotGapSeconds w → slotGap w1 = slotGap w →
  (∀ loc k, k ∈ at_loc w1 loc ↔ k ∈ at_loc w loc ∧ loc ≠ mkLoc 0 (rc r)) →
  (∀ m, (1 <= m)%nat → T m = fire_at w m) →
  placed_ok w1 T.
Proof.
  intros [Hb [H0 Hu]] Hr Hr1 Hbase Hgap Hat HT. pose proof (gap_eq _ _ Hgap) as Hg1.
  destruct (ro_ring _ _ (tb_rings _ Hb) _ _ Hr) as [Hg Hc]. split.
  - intros r1 b k Hr1' Hk. rewrite Hr1, list_lookup_alter_eq, Hr in Hr1'. simplify_eq/=.
    apply Hat in Hk as [Hk Hne]. assert (b ≠ rc r) as Hb' by naive_solver.
    pose proof (at_loc_range w 0 b k r (tb_wf _ Hb) Hr Hk) as Hbr.
    destruct (off_bump r b) as [Ho1 Ho2]; [done..|]. unfold slot_time in *.
    rewrite Hg1, Hbase, Ho2. destruct (H0 r b k Hr Hk) as [E|[E _]]; lia.
  - intros m rm b k Hm Hrm Hk. rewrite Hr1, list_lookup_alter_ne in Hrm by lia.
    apply Hat in Hk as [Hk _]. unfold slot_time. rewrite Hg1, HT by done. by apply Hu.
Qed.

(** A round hands out the keys that are due, and those it leaves are not due
    before the next one. *)
Lemma drained_due l w wd r :
  time_inv w → rings w !! 0%nat = Some r → drained l (mkLoc 0 (rc r)) w wd →
  ∀ k, k ∈ l ↔ (∃ loc, k ∈ at_loc w loc) ∧ slot_time k w <= currentBase w.
Proof.
  intros Hti Hr Hd k. rewrite (dr_list _ _ _ _ Hd). split.
  - intros Hk. split; [eauto|]. by apply (due_in_current w r k _ Hti Hr Hk).
  - intros [[loc Hk] Hdue]. apply (due_in_current w r k _ Hti Hr Hk) in Hdue. by subst.
Qed.

Lemma left_is_later w r k loc :
  time_inv w → rings w !! 0%nat = Some r → 0 < slotGapSeconds w →
  k ∈ at_loc w loc → loc ≠ mkLoc 0 (rc r) → currentBase w + slotGapSeconds w <= slot_time k w.
Proof.
  intros Hti Hr Hg Hk Hne. assert (currentBase w < slot_time k w) as Hlt.
  { apply Z.nle_gt. intros Hle. by apply Hne, (due_in_current w r k _ Hti Hr Hk). }
  destruct (tb_clock _ (ti_base _ Hti)) as [a Ha]. unfold slot_time in *. rewrite Ha in Hlt |- *.
  assert (a < k) by nia. nia.
Qed.

Lemma tick_time w :
  time_inv w → near (currentBase w + slotGapSeconds w) →
  ∃ l w', tick w = Some (l, w') ∧ time_inv w' ∧
    currentBase w' = currentBase w + slotGapSeconds w ∧ slotGap w' = slotGap w ∧
    turn w' = turn w ∧
    (∀ k, k ∈ l ↔ (∃ loc, k ∈ at_loc w loc) ∧ slot_time k w <= currentBase w) ∧
    (∀ k, k ∈ overflow w' → k ∈ overflow w ∨ currentBase w' + turn w <= slot_time k w) ∧
    (∀ k loc, k ∈ at_loc w' loc → currentBase w' <= slot_time k w).
Proof.
  intros Hti Hn. pose proof (ti_base _ Hti) as Hb.
  destruct (first_ring w Hb) as (r & Hr & Ht & Hg & Hgp & Hc).
  pose proof Hr as (L & HL & ->)%rings_lookup.
  destruct (tick_round w L (tb_wf _ Hb) HL) as (l & wd & Hd & Hw1 & ->).
  destruct (drained_view l w wd (ring_of L) Hti Hr Hn Hd) as (Hb1 & Hr1 & Hbase & Hgap & Hov & Hat).
  change ((rc (ring_of L) + 1) mod rn (ring_of L)) with (next_current L) in *.
  set (w1 := bumped 0 (next_current L) wd) in *. pose proof (gap_eq _ _ Hgap) as Hg1.
  assert (turn w1 = turn w) as Ht1.
  { rewrite Ht. unfold turn. by rewrite Hr1, list_lookup_alter_eq, Hr. }
  pose proof (drained_due l w wd (ring_of L) Hti Hr Hd) as Hl.
  assert (∀ k loc, k ∈ at_loc w1 loc → currentBase w + slotGapSeconds w <= slot_time k w) as Hfut.
  { intros k loc [Hk Hne]%Hat. apply (left_is_later w (ring_of L) k loc); try done. lia. }
  assert (fire_at w1 = fire (currentBase w + 2 * slotGapSeconds w) (rings w1)) as Hf1.
  { unfold fire_at. rewrite Hbase, Hg1. f_equal. lia. }
  destruct (rings w) as [|r0 rs] eqn:Ers; [done|]. injection Hr as ->.
  assert (∀ m, fire_at w (S m) =
    fire (currentBase w + slotGapSeconds w + (rn (ring_of L) - 1 - rc (ring_of L)) * rg (ring_of L)) rs m)
    as Hf by (intros m; unfold fire_at; by rewrite Ers).
  case_decide as Hcz.
  - assert (cascade_pre w1 1) as Hp.
    { split; [done| |].
      - intros m rm Hm. assert (m = 0%nat) as -> by lia. rewrite Hr1. simpl. by intros [= <-].
      - eapply (tick_placed w w1 (ring_of L)); try done; [by rewrite Ers|by rewrite Ers|].
        intros [|m] Hm; [lia|]. rewrite Hf. unfold due_times. rewrite decide_False by lia.
        rewrite Hr1, Hbase. simpl. rewrite drop_0, Nat.sub_0_r. f_equal.
        unfold next_current in Hcz. cbn [rc rn rg ring_of] in *.
        destruct (decide (current L + 1 = bucketCount L)) as [E|E]; [lia|].
        rewrite Z.mod_small in Hcz; lia. }
    destruct (cascade_time (S (length (levels w1))) 1 w1) as (w' & E & Hti' & Hbb & Hgg & Htt & Ho & Hin);
      [done|lia|lia|lia|].
    change (Z.of_nat 1) with 1 in E. rewrite E. exists l, w'. split_and!; try done.
    + by rewrite Hbb.
    + by rewrite Hgg.
    + by rewrite Htt.
    + intros k Hk. rewrite Hbb. apply Ho in Hk. unfold slot_time in *. rewrite Hg1, Ht1, Hov in Hk.
      done.
    + intros k loc Hk. apply Hin in Hk as [loc' Hk]. rewrite Hbb, Hbase. by eapply Hfut.
  - exists l, w1. split_and!; try done;
      [|intros k; rewrite Hov; by left|intros k loc Hk; rewrite Hbase; by eapply Hfut].
    split; [done|]. eapply (tick_placed w w1 (ring_of L)); try done; [by rewrite Ers|by rewrite Ers|].
    intros [|m] Hm; [lia|]. rewrite Hf, Hf1, Hr1. simpl. f_equal.
    unfold next_current in *. cbn [rc rn rg ring_of] in *.
    rewrite Z.mod_small; [lia|].
    destruct (decide (current L + 1 = bucketCount L)) as [E|E]; [|lia].
    by rewrite E, Z_mod_same_full in Hcz.
Qed.

End tick_time.

(** ** Advancing in time *)

(** Between operations the overflow only holds what the wheel cannot cover. *)
Definition at_rest w : Prop :=
  ∀ k, k ∈ overflow w → currentBase w + total (rings w) <= slot_time k w.

Section advance_time.

Context `{GoRange}.

Lemma totalCoverage_total w : time_base w → totalCoverage w = total (rings w).
Proof.
  intros Hb. pose proof (tb_rings _ Hb) as Hro. unfold totalCoverage, rings in *.
  assert (∀ i r, (ring_of <$> levels w) !! i = Some r → 0 < rg r ∧ 0 <= rc r < rn r) as Hr
    by apply Hro.
  pose proof (ro_total _ _ Hro) as Ht. clear Hro Hb.
  cut (∀ z, 0 <= z → z + total (ring_of <$> levels w) < horizon →
    foldl (λ t L, i64 (t + i64 (granularity L * bucketCount L))) z (levels w) =
    z + total (ring_of <$> levels w)).
  { intros Hcut. rewrite Hcut; [lia|lia|done]. }
  clear Ht. induction (levels w) as [|L ls IH]; intros z Hz Hlt; [simpl; lia|].
  destruct (Hr 0%nat (ring_of L) eq_refl) as [Hg Hc]. cbn in Hg, Hc.
  assert (0 <= total (ring_of <$> ls)) as Hpos.
  { destruct ls as [|L' ls]; [done|].
    assert ((ring_of <$> (L' :: ls)) !! 0%nat = Some (ring_of L')) as E0 by done.
    pose proof (total_ge (ring_of <$> (L' :: ls)) 0 (ring_of L') (λ j r Hj, Hr (S j) r Hj) E0).
    destruct (Hr 1%nat (ring_of L') E0). nia. }
  cbn in Hlt |- *. fold (total (ring_of <$> ls)) in *. rewrite (i64_id (_ * _)), i64_id
    by (unfold in64, two63, horizon in *; nia).
  rewrite IH; [lia|intros j r Hj; apply (Hr (S j) r Hj)|nia|lia].
Qed.

Lemma turn_total w : time_base w → 0 < turn w <= total (rings w).
Proof.
  intros Hb. destruct (first_ring w Hb) as (r & Hr & -> & _ & Hg & Hc).
  pose proof (total_ge _ _ _ (ro_ring _ _ (tb_rings _ Hb)) Hr). nia.
Qed.

Lemma time_clock w : time_base w → clock_ok w.
Proof.
  intros Hb. split; [|apply Hb]. pose proof (tb_near _ Hb).
  unfold near, in64, two63, horizon in *. lia.
Qed.

Lemma advance_loop_time fuel newBase ready w :
  time_inv w → near newBase → (slotGapSeconds w | newBase) →
  newBase - currentBase w < slotGapSeconds w * (Z.of_nat fuel + 1) →
  ∃ l w', advance_loop fuel newBase ready w = Some (ready ++ l, w') ∧ time_inv w' ∧
    currentBase w' = Z.max (currentBase w) newBase ∧ slotGap w' = slotGap w ∧ turn w' = turn w ∧
    (∀ k, k ∈ l → slot_time k w < newBase) ∧
    (∀ k, k ∈ overflow w' → k ∈ overflow w ∨ currentBase w + turn w <= slot_time k w) ∧
    (∀ k loc, k ∈ at_loc w' loc → newBase <= slot_time k w ∨
       (newBase <= currentBase w ∧ k ∈ at_loc w loc)).
Proof.
  revert ready w. induction fuel as [|fuel IH]; intros ready w Hti Hn Hd Hf;
    pose proof (ti_base _ Hti) as Hb; pose proof (ww_gap _ (tb_wf _ Hb)) as Hg;
    cbn [advance_loop]; destruct (decide (currentBase w < newBase)) as [Hlt|Hlt].
  - destruct (clock_step w newBase); try done; [by apply time_clock| |lia].
    unfold near, in64, two63, horizon in *. lia.
  - exists [], w. rewrite app_nil_r.
    split_and!; try done; [lia|set_solver|by auto|right; split; [lia|done]].
  - destruct (clock_step w newBase) as [_ Hle]; try done; [by apply time_clock| |].
    { unfold near, in64, two63, horizon in *. lia. }
    assert (near (currentBase w + slotGapSeconds w)) as Hn1.
    { pose proof (tb_near _ Hb). unfold near in *. lia. }
    destruct (tick_time w Hti Hn1) as (l1 & w1 & -> & Hti1 & Hb1 & Hg1 & Ht1 & Hl1 & Ho1 & Hf1).
    pose proof (gap_eq _ _ Hg1) as Hgap. cbn [mbind option_bind].
    destruct (IH (ready ++ l1) w1) as (l2 & w2 & -> & Hti2 & Hb2 & Hg2 & Ht2 & Hl2 & Ho2 & Hf2);
      [done|done|by rewrite Hgap|rewrite Hgap, Hb1; lia|].
    unfold slot_time in *. rewrite Hgap in *.
    exists (l1 ++ l2), w2. rewrite app_assoc. split_and!; try done.
    + rewrite Hb2, Hb1. lia.
    + by rewrite Hg2.
    + by rewrite Ht2.
    + intros k [Hk|Hk]%elem_of_app; [|by apply Hl2]. apply Hl1 in Hk as [_ Hk]. lia.
    + intros k Hk. apply Ho2 in Hk as [Hk|Hk]; [|lia].
      apply Ho1 in Hk as [Hk|Hk]; [by left|lia].
    + intros k loc Hk. left. apply Hf2 in Hk as [?|[Hle1 Hk]]; [done|].
      apply Hf1 in Hk. lia.
  - exists [], w. rewrite app_nil_r.
    split_and!; try done; [lia|set_solver|by auto|right; split; [lia|done]].
Qed.

(** Refilling from the overflow keeps the time invariant and leaves the wheel
    at rest. *)
Lemma refill_time w :
  time_inv w →
  ∃ w', refill w = Some w' ∧ skel w' = skel w ∧ keeps w w' ∧ time_inv w' ∧ at_rest w' ∧
    ∀ k, k ∈ overflow w' → k ∈ overflow w.
Proof.
  intros [Hb [H0 Hu]]. destruct (refill_spec w (tb_wf _ Hb)) as (w' & E & Hs & Hk & Ha & Ho).
  pose proof (rings_skel _ _ Hs) as Hr. pose proof (skel_gap _ _ Hs) as Hg.
  pose proof (skel_base _ _ Hs) as Hbase.
  assert (time_base w') as Hb'.
  { destruct Hb as [Hw Hro Hc Hn Hks]. split; rewrite ?Hg, ?Hr, ?Hbase; try done.
    - by eapply skel_wf.
    - intros k Hin. unfold slot_time. rewrite Hg. by apply Hks, Hk. }
  assert (∀ k i b, k ∈ overflow w → refill_dest w k = Some (mkLoc (Z.of_nat i) b) →
    near (slot_time k w) ∧ dest k w = Some (Some (mkLoc (Z.of_nat i) b))) as Hnew.
  { intros k i b Hin Hd. split; [apply Hb, elem_of_wheel_keys; by right|].
    unfold refill_dest in Hd. by destruct (dest k w) as [[]|]; simplify_eq. }
  exists w'. split_and!; try done.
  - split; [done|]. unfold fire_at. rewrite Hg, Hbase, Hr. split.
    + intros r b k. rewrite Hr. intros Hr0 Hin. unfold slot_time. rewrite Hg, Hbase.
      apply Ha in Hin as [Hin|(Hin & _ & Hd)]; [by apply H0|].
      destruct (Hnew k 0%nat b Hin Hd) as [Hn Hd']. by eapply dest_placed.
    + intros i r b k Hi. rewrite Hr. intros Hri Hin. unfold slot_time. rewrite Hg.
      apply Ha in Hin as [Hin|(Hin & _ & Hd)]; [by apply Hu|].
      destruct (Hnew k i b Hin Hd) as [Hn Hd'].
      destruct (dest_placed w k i b r) as [_ Hp]; [done..|]. specialize (Hp Hi).
      destruct (fire_at_bounds w i r Hb Hri) as [Hf _]. unfold fire_at, slot_time in *. lia.
  - intros k Hin. apply Ho in Hin as [Hin Hno]. unfold slot_time. rewrite Hg, Hbase, Hr.
    unfold refillable in Hno. rewrite (totalCoverage_total w Hb) in Hno.
    assert (near (slot_time k w)) as Hn by (apply Hb, elem_of_wheel_keys; by right).
    pose proof (tb_near _ Hb). unfold near, computeSlotTime, clamp0, slot_time, horizon in *.
    rewrite (i64_id (k * _)) in Hno by (unfold in64, two63; lia).
    rewrite i64_id in Hno by (unfold in64, two63; lia).
    destruct (turn_total w Hb). case_decide; lia.
  - intros k. rewrite Ho. tauto.
Qed.

(** On a wheel at rest nothing in the overflow is due, so the last loop of
    [Advance] finds nothing to hand out. *)
Lemma promote_rest newBase w :
  time_base w → at_rest w → currentBase w = newBase → promote newBase w = ([], w).
Proof.
  intros Hb Hrest Hbase.
  assert (filter (λ k, i64 (k * slotGapSeconds w) <= newBase) (range_set (overflow w)) = []) as E.
  { apply elem_of_nil_inv. intros k Hk. apply list_elem_of_filter in Hk as [Hle Hk].
    apply (proj1 (elem_of_range_set _ _)) in Hk. pose proof (Hrest _ Hk) as Hr.
    pose proof (turn_total w Hb).
    assert (near (slot_time k w)) as Hn by (apply Hb, elem_of_wheel_keys; by right).
    unfold slot_time, near, horizon in *. rewrite i64_id in Hle by (unfold in64, two63; lia). lia. }
  unfold promote. rewrite E. by destruct w.
Qed.

(** The general statement behind the theorems on [Advance]. *)
Lemma Advance_time now w :
  time_inv w → initialized w = true → near now →
  ∃ ready w', Advance now w = Some (ready, w') ∧ time_inv w' ∧ (at_rest w → at_rest w') ∧
    currentBase w' = Z.max (currentBase w) (new_base now w) ∧ turn w' = turn w ∧
    (∀ k, k ∈ ready → slot_time k w < new_base now w) ∧
    (currentBase w < new_base now w → at_rest w' ∧
     (at_rest w → new_base now w <= currentBase w + turn w →
      ∀ k, k ∈ wheel_keys w' → new_base now w <= slot_time k w)).
Proof.
  intros Hti Hi Hnow. pose proof (ti_base _ Hti) as Hb. pose proof (ww_gap _ (tb_wf _ Hb)) as Hg.
  assert (in64 now) as Hn64 by (unfold near, in64, two63, horizon in *; lia).
  destruct (new_base_ok now w Hg Hn64) as (Hq & Hnb & _).
  assert (near (new_base now w)) as Hnn.
  { unfold near, new_base in *. rewrite Z.mul_comm.
    pose proof (Z.mul_quot_le now (slotGapSeconds w)).
    pose proof (Z.mul_quot_ge now (slotGapSeconds w)). lia. }
  unfold Advance. rewrite Hi, Hq. cbn [mbind option_bind]. fold (new_base now w). rewrite Hnb.
  case_decide as Hle.
  { exists [], w. split_and!; try done; [lia|set_solver|lia]. }
  destruct (advance_loop_time (advance_fuel (new_base now w) w) (new_base now w) [] w)
    as (l & w1 & -> & Hti1 & Hb1 & Hg1 & Ht1 & Hl1 & Ho1 & Hf1);
    [done|done|by exists (Z.quot now (slotGapSeconds w))| |].
  { unfold advance_fuel. set (d := new_base now w - currentBase w).
    pose proof (Z.div_pos d (slotGapSeconds w)).
    pose proof (Z.mul_succ_div_gt d (slotGapSeconds w)). rewrite Z2Nat.id by lia. lia. }
  cbn [mbind option_bind app].
  destruct (refill_time w1 Hti1) as (w2 & -> & Hs2 & Hk2 & Hti2 & Hr2 & Ho2). cbn [mbind option_bind].
  pose proof (skel_clock _ _ Hs2) as (Hg2 & Hb2 & Hi2 & _).
  rewrite (promote_rest (new_base now w) w2) by (done || apply Hti2 || lia).
  rewrite app_nil_r. exists l, w2. split_and!; try done.
  - lia.
  - unfold turn. by rewrite (rings_skel _ _ Hs2).
  - intros _. split; [done|]. intros Hrest Hturn k Hk. apply Hk2, elem_of_wheel_keys in Hk as [[loc Hk]|Hk].
    + apply Hf1 in Hk. lia.
    + apply Ho1 in Hk as [Hk|Hk]; [|lia]. apply Hrest in Hk. pose proof (turn_total w Hb). lia.
Qed.

End advance_time.

(** ** The other operations *)

Section operations_time.

Lemma time_ok w : time_inv w → loc_ok w → wheel_ok w.
Proof. intros [Hb _] Hl. split; [apply Hb|by apply time_clock|done]. Qed.

Lemma Add_time k w :
  time_inv w → initialized w = true → near (slot_time k w) →
  ∃ w', Add k w = Some w' ∧ time_inv w' ∧ (at_rest w → at_rest w') ∧
    wheel_keys w' = {[k]} ∪ wheel_keys w ∧ skel w' = skel w.
Proof.
  intros [Hb [H0 Hu]] Hi Hn.
  destruct (Add_initialized k w (tb_wf _ Hb) Hi) as ([lv b0] & w' & Hd & Hv & E & Hp).
  destruct (dest_level _ _ _ Hd (tb_wf _ Hb)) as (i0 & Ei & _). simpl in Ei. subst lv.
  destruct (place_keeps _ _ _ _ Hp Hv) as (Hs & Hk & _).
  destruct (place_spec _ k w Hv) as (w2 & E2 & _ & Ha & _ & Ho).
  rewrite Hp in E2. injection E2 as <-.
  pose proof (rings_skel _ _ Hs) as Hr. pose proof (skel_gap _ _ Hs) as Hg.
  pose proof (skel_base _ _ Hs) as Hbase.
  assert (∀ x i b, x ∈ at_loc w' (mkLoc (Z.of_nat i) b) →
    x ∈ at_loc w (mkLoc (Z.of_nat i) b) ∨ (x = k ∧ i = i0 ∧ b = b0)) as Ha'.
  { intros x i b. rewrite Ha. case_decide as Eq; [|by left]. injection Eq as Ei <-.
    apply Nat2Z.inj in Ei as <-. set_solver. }
  exists w'. split_and!; try done.
  - split; [destruct Hb as [Hw Hro Hc Hnb Hks]; split|split];
      unfold fire_at, slot_time; rewrite ?Hg, ?Hr, ?Hbase; try done.
    + by eapply skel_wf.
    + intros x. rewrite Hk. intros [->%elem_of_singleton|Hx]%elem_of_union; [done|by apply Hks].
    + intros r b x Hr0 Hx. apply (Ha' x 0%nat b) in Hx as [Hx|(-> & <- & ->)]; [by apply H0|].
      by eapply dest_placed.
    + intros i r b x Hi1 Hri Hx. apply Ha' in Hx as [Hx|(-> & -> & ->)]; [by apply Hu|].
      destruct (dest_placed w k i0 b0 r) as [_ Hpl]; [done..|]. specialize (Hpl Hi1).
      destruct (fire_at_bounds w i0 r Hb Hri) as [Hf _]. unfold fire_at, slot_time in *. lia.
  - intros Hrest x. rewrite Ho. unfold slot_time. rewrite Hg, Hbase, Hr. apply Hrest.
Qed.

Lemma default_rings s :
  rings (default_wheel s) = [mkRing s 360 0; mkRing (s * 360) 24 0; mkRing (s * 360 * 24) 365 0].
Proof. done. Qed.

(** A wheel just initialised by the queue is at rest and in time. *)
Lemma init_time s now :
  1 <= s <= 1000000 → near now →
  ∃ w, Init now (default_wheel s) = Some w ∧ time_inv w ∧ at_rest w ∧ one_place w ∧
    initialized w = true ∧ slotGapSeconds w = s ∧ wheel_keys w = ∅ ∧ turn w = 360 * s ∧
    currentBase w = Z.quot now s * s.
Proof.
  intros Hs Hn. destruct (default_wheel_ok s Hs) as (Hok & Hone & Hempty).
  pose proof (default_gap s Hs) as Hgap.
  assert (in64 now) as Hn64 by (unfold near, in64, two63, horizon in *; lia).
  destruct (set_base_ok now (default_wheel s) (wo_wf _ Hok) Hn64) as (Hq & Hw & Hc).
  destruct (new_base_ok now (default_wheel s)) as (_ & Hnb & _); [rewrite Hgap; lia|done|].
  assert (near (new_base now (default_wheel s))) as Hnn.
  { unfold near, new_base in *. rewrite Z.mul_comm, Hgap.
    pose proof (Z.mul_quot_le now s). pose proof (Z.mul_quot_ge now s). lia. }
  unfold Init. cbn [initialized default_wheel]. rewrite Hq. cbn [mbind option_bind].
  fold (new_base now (default_wheel s)). rewrite Hnb in *.
  eexists. split; [done|]. set (w := set_base _ _ _) in *.
  assert (wheel_keys w = ∅) as Hkeys by done.
  assert (∀ loc, at_loc w loc = ∅) as Hat by apply (default_at s).
  split_and!; try done.
  - split; [split|split].
    + done.
    + change (slotGapSeconds w) with (slotGapSeconds (default_wheel s)).
      change (rings w) with (rings (default_wheel s)). rewrite Hgap, default_rings. split.
      * intros [|[|[|i]]] r Hi; simplify_eq/=; lia.
      * by intros r [= <-].
      * simpl. lia.
      * intros [|[|[|i]]] r r' Hi Hi'; simplify_eq/=; lia.
      * simpl. unfold horizon. lia.
    + apply Hc.
    + done.
    + rewrite Hkeys. set_solver.
    + intros r b k _. rewrite Hat. set_solver.
    + intros i r b k _ _. rewrite Hat. set_solver.
  - by destruct Hone; split.
  - unfold turn. change (rings w) with (rings (default_wheel s)). rewrite default_rings. simpl. lia.
  - simpl. unfold new_base. by rewrite Hgap.
Qed.

End operations_time.

(** ** [PeekMin] *)

(** [m] is the least time of the keys in [X], -1 when there are none. *)
Definition is_min (gap : Z) (X : Z → Prop) (m : Z) : Prop :=
  (m = -1 ∧ ∀ k, ¬ X k) ∨ ((∃ k, X k ∧ m = k * gap) ∧ ∀ k, X k → m <= k * gap).

Section peek.

Context `{GoRange}.

Lemma is_min_ext gap (X Y : Z → Prop) m : (∀ k, X k ↔ Y k) → is_min gap X m → is_min gap Y m.
Proof. unfold is_min. intros HXY. by setoid_rewrite HXY. Qed.

Lemma min_times_is_min gap (X : Z → Prop) m l :
  is_min gap X m → (∀ k, X k ∨ k ∈ l → 0 <= k * gap < horizon) →
  is_min gap (λ k, X k ∨ k ∈ l) (min_times gap m l).
Proof.
  revert X m. induction l as [|x l IH]; intros X m Hm Hl; simpl.
  - eapply is_min_ext; [|exact Hm]. set_solver.
  - assert (0 <= x * gap < horizon) as Hx by (apply Hl; set_solver).
    rewrite i64_id by (unfold in64, two63, horizon in *; lia).
    eapply (is_min_ext _ (λ k, (X k ∨ k = x) ∨ k ∈ l)); [set_solver|].
    apply IH; [|intros k Hk; apply Hl; set_solver].
    destruct Hm as [[-> He]|[(k0 & Hk0 & ->) Hle]]; case_decide as Hc.
    + right. split; [exists x; eauto|]. intros k [Hk| ->]; [by apply He in Hk|lia].
    + lia.
    + right. split; [exists x; eauto|]. pose proof (Hl k0 (or_introl Hk0)).
      intros k [Hk| ->]; [apply Hle in Hk; lia|lia].
    + right. split; [exists k0; eauto|]. intros k [Hk| ->]; [by apply Hle|lia].
Qed.

(** The first non-empty bucket from the cursor on. *)
Lemma first_bucket_spec L n o :
  level_wf L → bucketCount L < horizon → 0 <= o → bucketCount L - o < Z.of_nat n →
  (∀ b, 0 <= b < bucketCount L → off (ring_of L) b < o →
     go_index (buckets L) b = Some ∅) →
  ∃ B, first_bucket n o L = Some B ∧
    ((B = ∅ ∧ ∀ b, 0 <= b < bucketCount L → go_index (buckets L) b = Some ∅) ∨
     (∃ b, 0 <= b < bucketCount L ∧ go_index (buckets L) b = Some B ∧ B ≠ ∅ ∧
        ∀ b', 0 <= b' < bucketCount L → off (ring_of L) b' < off (ring_of L) b →
          go_index (buckets L) b' = Some ∅)).
Proof.
  intros [Hg Hc Hl Hu] Hh. unfold horizon in Hh. revert o. induction n as [|n IH]; intros o Ho Hn Hpre.
  - exists ∅. split; [done|]. left. split; [done|]. intros b Hb. apply Hpre; [done|].
    pose proof (off_range (ring_of L) b ltac:(simpl; lia)). simpl in *. lia.
  - cbn [first_bucket]. case_decide as Hlt.
    + set (b0 := (current L + o) mod bucketCount L).
      assert (0 <= b0 < bucketCount L) as Hb0 by (apply Z.mod_pos_bound; lia).
      assert (off (ring_of L) b0 = o) as Hoff.
      { unfold b0. pose proof (off_after (ring_of L) o) as E. cbn [rc rn ring_of] in E.
        rewrite E by lia. apply Z.mod_small. lia. }
      destruct (go_index_lt (buckets L) b0) as [B HB]; [lia|].
      rewrite i64_id by (unfold in64, two63 in *; lia).
      rewrite go_rem_nonneg by (unfold in64; lia). fold b0. cbn [mbind option_bind].
      rewrite HB. cbn [mbind option_bind]. case_decide as HB0.
      * subst B. apply IH; [lia|lia|]. intros b Hb Hlt'.
        destruct (decide (off (ring_of L) b < o)) as [|Hge]; [by apply Hpre|].
        assert (b = b0) as ->; [|done].
        assert (off (ring_of L) b = o) as Eo by lia. unfold b0. rewrite <-Eo. unfold off. simpl.
        rewrite Zplus_mod_idemp_r. replace (current L + (b - current L)) with b by lia.
        symmetry. by apply Z.mod_small.
      * exists B. split; [done|]. right. exists b0. split_and!; try done; try lia.
        intros b' Hb' Hlt'. apply Hpre; [done|]. lia.
    + exists ∅. split; [done|]. left. split; [done|]. intros b Hb. apply Hpre; [done|].
      pose proof (off_range (ring_of L) b ltac:(simpl; lia)). simpl in *. lia.
Qed.

(** The keys [PeekMin] looks at: the first non-empty bucket of every level
    and the overflow. *)
Definition seen (ls : list wheelLevel) (k : Z) : Prop :=
  ∃ L B, L ∈ ls ∧ first_bucket (S (Z.to_nat (bucketCount L))) 0 L = Some B ∧ k ∈ B.

Lemma first_bucket_some L :
  level_wf L → bucketCount L < horizon →
  ∃ B, first_bucket (S (Z.to_nat (bucketCount L))) 0 L = Some B ∧
    ((B = ∅ ∧ ∀ b, 0 <= b < bucketCount L → go_index (buckets L) b = Some ∅) ∨
     (∃ b, 0 <= b < bucketCount L ∧ go_index (buckets L) b = Some B ∧ B ≠ ∅ ∧
        ∀ b', 0 <= b' < bucketCount L → off (ring_of L) b' < off (ring_of L) b →
          go_index (buckets L) b' = Some ∅)).
Proof.
  intros HL Hh. apply first_bucket_spec; [done|done|lia| |].
  - destruct HL. lia.
  - intros b Hb Ho. pose proof (off_range (ring_of L) b). destruct HL. simpl in *. lia.
Qed.

Lemma PeekMin_seen w :
  time_base w → initialized w = true →
  (∀ k, k ∈ wheel_keys w → 0 <= slot_time k w) →
  ∃ m, PeekMin w = Some m ∧
    is_min (slotGapSeconds w) (λ k, seen (levels w) k ∨ k ∈ overflow w) m.
Proof.
  intros Hb Hi Hpos. unfold PeekMin. rewrite Hi. pose proof (tb_wf _ Hb) as Hw.
  assert (∀ k, k ∈ wheel_keys w → 0 <= slot_time k w < horizon) as Hk.
  { intros k Hin. specialize (Hpos k Hin). pose proof (tb_keys _ Hb k Hin). unfold near in *. lia. }
  assert (∀ i L, levels w !! i = Some L → level_wf L ∧ bucketCount L < horizon) as Hlv.
  { intros i L HL. split; [by eapply wf_level|].
    destruct (rings_ok_range _ _ i (ring_of L) (tb_rings _ Hb)) as (Hg & Hc & Hr).
    { apply rings_lookup. eauto. } simpl in *. nia. }
  assert (∀ k, seen (levels w) k → k ∈ wheel_keys w) as Hseen.
  { intros k (L & B & HL & HB & Hin). apply list_elem_of_lookup_1 in HL as [i HL].
    destruct (Hlv i L HL) as [HLw HLh].
    destruct (first_bucket_some L HLw HLh) as (B' & HB' & HC).
    rewrite HB in HB'. injection HB' as <-. destruct HC as [[-> _]|(b & _ & HbB & _)]; [set_solver|].
    apply elem_of_wheel_keys. left. exists (mkLoc (Z.of_nat i) b). unfold at_loc, bucket_of.
    cbn [level bucket]. rewrite go_index_of_nat, HL. simpl. by rewrite HbB. }
  destruct (ofold_ind (λ ls m, is_min (slotGapSeconds w) (seen ls) m)
    (λ L m, B ← first_bucket (S (Z.to_nat (bucketCount L))) 0 L;
            Some (min_times (slotGapSeconds w) m (range_set B))) (levels w) (-1))
    as (m & E & Hm).
  - left. split; [done|]. intros k (L & B & HL & _). set_solver.
  - intros l1 L l2 m Hl Hm.
    assert (L ∈ levels w) as HL by (rewrite Hl; set_solver).
    apply list_elem_of_lookup_1 in HL as [i HL].
    destruct (Hlv i L HL) as [HLw HLh].
    destruct (first_bucket_some L HLw HLh) as (B & HB & _). rewrite HB.
    cbn [mbind option_bind]. eexists. split; [done|].
    eapply (is_min_ext _ (λ k, seen l1 k ∨ k ∈ range_set B)).
    + intros k. rewrite elem_of_range_set. unfold seen. setoid_rewrite elem_of_app.
      setoid_rewrite list_elem_of_singleton. split.
      * intros [(L' & B' & ? & ? & ?)|?]; [by exists L', B'; eauto|by exists L, B; eauto].
      * intros (L' & B' & [?| ->] & HB' & ?); [left; by exists L', B'|right; congruence].
    + apply min_times_is_min; [done|]. intros k Hk'. apply Hk, Hseen.
      destruct Hk' as [(L' & B' & ? & ? & ?)|Hk'].
      * exists L', B'. split_and!; try done. rewrite Hl. set_solver.
      * apply (proj1 (elem_of_range_set _ _)) in Hk'. exists L, B. split_and!; try done.
        rewrite Hl. set_solver.
  - rewrite E. cbn [mbind option_bind]. eexists. split; [done|].
    eapply is_min_ext; [|apply min_times_is_min; [exact Hm|]].
    + intros k. cbn beta. by rewrite elem_of_range_set.
    + intros k [Hk'|Hk']; apply Hk; [by apply Hseen|].
      apply (proj1 (elem_of_range_set _ _)) in Hk'. apply elem_of_wheel_keys. by right.
Qed.

(** Nothing in the wheel is missed altogether, and level 0 is searched in the
    order of time. *)
Lemma seen_first w k i b :
  time_inv w → k ∈ at_loc w (mkLoc (Z.of_nat i) b) →
  ∃ k', seen (levels w) k' ∧ (i = 0%nat → slot_time k' w <= slot_time k w).
Proof.
  intros Hti Hk. pose proof (ti_base _ Hti) as Hb.
  destruct (at_loc_level _ _ _ Hk) as (i' & b' & r & [= Ei <-] & Hr).
  apply Nat2Z.inj in Ei as <-. pose proof (at_loc_range _ _ _ _ _ (tb_wf _ Hb) Hr Hk) as Hbr.
  destruct (rings_ok_range _ _ _ _ (tb_rings _ Hb) Hr) as (Hg & Hc & Hrange).
  pose proof Hr as (L & HL & ->)%rings_lookup. cbn [rn rc rg ring_of] in *.
  pose proof (wf_level _ _ _ (tb_wf _ Hb) HL) as HLw.
  assert (∀ b, at_loc w (mkLoc (Z.of_nat i) b) = default ∅ (go_index (buckets L) b)) as Hat.
  { intros b1. unfold at_loc, bucket_of. cbn [level bucket]. by rewrite go_index_of_nat, HL. }
  destruct (first_bucket_some L HLw) as (B & HB & HC); [nia|].
  destruct HC as [[-> He]|(b1 & Hb1 & HbB & Hne & Hbefore)].
  { rewrite Hat, He in Hk by done. set_solver. }
  assert (∀ k', k' ∈ B → seen (levels w) k') as Hseen.
  { intros k' Hk'. exists L, B. split_and!; try done. by eapply list_elem_of_lookup_2. }
  destruct (decide (b1 = b)) as [->|Hne1].
  { exists k. rewrite Hat, HbB in Hk. split; [by apply Hseen|done]. }
  apply set_choose_L in Hne as [k' Hk']. exists k'. split; [by apply Hseen|].
  intros ->. assert (k' ∈ at_loc w (mkLoc 0 b1)) as Hk1.
  { change 0 with (Z.of_nat 0). by rewrite Hat, HbB. }
  assert (off (ring_of L) b1 < off (ring_of L) b) as Hlt.
  { apply Z.nle_gt. intros Hle. destruct (decide (off (ring_of L) b1 = off (ring_of L) b)) as [E|].
    - by apply (off_inj (ring_of L)) in E.
    - rewrite Hat, (Hbefore b Hbr ltac:(lia)) in Hk. set_solver. }
  pose proof (ro_head _ _ (tb_rings _ Hb) _ Hr) as Hgap. cbn [rg ring_of] in Hgap.
  destruct (ti_placed _ Hti) as [H0 _]. pose proof (off_range (ring_of L) b1 ltac:(simpl; lia)).
  pose proof (H0 _ _ _ Hr Hk1) as [E1|[E1 L1]]; pose proof (H0 _ _ _ Hr Hk) as [E2|[E2 L2]]; nia.
Qed.

End peek.

(** ** Theorems *)

Section theorems.

Context `{GoRange}.

(** A slot is never handed out early. Whatever the distance of the
    advance, every key that [Advance] returns stands for a time before the
    base it reaches, hence before [now]; the time invariant holds again, and
    a wheel that moved is at rest. *)
Theorem advance_never_early now w :
  time_inv w → initialized w = true → near now →
  ∃ ready w', Advance now w = Some (ready, w') ∧ time_inv w' ∧
    (∀ k, k ∈ ready → slot_time k w < new_base now w) ∧
    (currentBase w < new_base now w → at_rest w').
Proof.
  intros Hti Hi Hn. destruct (Advance_time now w Hti Hi Hn) as
    (l & w' & E & Hti' & _ & _ & _ & Hl & Hmove).
  exists l, w'. split_and!; try done. intros Hlt. by apply Hmove.
Qed.

(** C15: an advance of at most one turn of level 0 hands out exactly the slots
    that are due: those of the wheel whose time is before the new base. Every
    other slot is still in the wheel, also when buckets of higher levels are
    cascaded on the way. *)
Theorem advance_exact now w :
  time_inv w → at_rest w → initialized w = true → near now →
  currentBase w < new_base now w <= currentBase w + turn w →
  ∃ ready w', Advance now w = Some (ready, w') ∧
    (∀ k, k ∈ ready ↔ k ∈ wheel_keys w ∧ slot_time k w < new_base now w) ∧
    (∀ k, k ∈ wheel_keys w' ↔ k ∈ wheel_keys w ∧ new_base now w <= slot_time k w).
Proof.
  intros Hti Hrest Hi Hn [Hlt Hle]. pose proof (ti_base _ Hti) as Hb.
  destruct (Advance_time now w Hti Hi Hn) as (l & w' & E & _ & _ & _ & _ & Hl & Hmove).
  destruct (Hmove Hlt) as [_ Hkeys]. specialize (Hkeys Hrest Hle).
  destruct (Advance_releases now w (tb_wf _ Hb) (time_clock _ Hb)) as
    (l2 & w2 & E2 & _ & _ & (Hcons & _) & _).
  { unfold near, in64, two63, horizon in *. lia. }
  rewrite E in E2. injection E2 as <- <-. exists l, w'. split_and!; [done|..]; intros k; split.
  - intros Hk. split; [apply Hcons; by left|by apply Hl].
  - intros [Hk Ht]. apply Hcons in Hk as [?|Hk]; [done|]. apply Hkeys in Hk. lia.
  - intros Hk. split; [apply Hcons; by right|by apply Hkeys].
  - intros [Hk Ht]. apply Hcons in Hk as [Hk|?]; [|done]. apply Hl in Hk. lia.
Qed.

(** C38: No slot is left behind for good. After an advance over any distance,
    which may leave due slots in the wheel, the next advance by a turn of
    level 0 or less hands out everything that is due by then. *)
Theorem advance_catches_up now1 now2 w :
  time_inv w → initialized w = true → near now1 → near now2 →
  currentBase w < new_base now1 w →
  new_base now1 w < new_base now2 w <= new_base now1 w + turn w →
  ∃ ready1 w1 ready2 w2,
    Advance now1 w = Some (ready1, w1) ∧ Advance now2 w1 = Some (ready2, w2) ∧
    ∀ k, k ∈ wheel_keys w → slot_time k w < new_base now2 w → k ∈ ready1 ∨ k ∈ ready2.
Proof.
  intros Hti Hi Hn1 Hn2 Hlt1 Hlt2. pose proof (ti_base _ Hti) as Hb.
  destruct (Advance_time now1 w Hti Hi Hn1) as (l1 & w1 & E1 & Hti1 & _ & Hb1 & Ht1 & Hl1 & Hm1).
  destruct (Hm1 Hlt1) as [Hrest1 _].
  destruct (Advance_releases now1 w (tb_wf _ Hb) (time_clock _ Hb)) as
    (l & w' & E & _ & _ & (Hcons & _) & Hg & Hi' & _).
  { unfold near, in64, two63, horizon in *. lia. }
  rewrite E1 in E. injection E as <- <-. rewrite Hi in Hi'.
  assert (new_base now2 w1 = new_base now2 w) as Hnb.
  { unfold new_base. by rewrite (gap_eq _ _ Hg). }
  destruct (Advance_time now2 w1 Hti1 Hi' Hn2) as (l2 & w2 & E2 & _ & _ & _ & _ & _ & Hm2).
  rewrite Hnb in Hm2. destruct Hm2 as [_ Hm2]; [lia|]. specialize (Hm2 Hrest1).
  destruct (Advance_releases now2 w1 (tb_wf _ (ti_base _ Hti1)) (time_clock _ (ti_base _ Hti1)))
    as (l & w' & E & _ & _ & (Hcons2 & _) & _).
  { unfold near, in64, two63, horizon in *. lia. }
  rewrite E2 in E. injection E as <- <-.
  exists l1, w1, l2, w2. split_and!; [done..|]. intros k Hk Hdue.
  apply Hcons in Hk as [?|Hk]; [by left|]. apply Hcons2 in Hk as [?|Hk]; [by right|].
  apply Hm2 in Hk; [|lia]. unfold slot_time in *. rewrite (gap_eq _ _ Hg) in Hk. lia.
Qed.

Lemma seen_in_wheel w k :
  time_base w → seen (levels w) k ∨ k ∈ overflow w → k ∈ wheel_keys w.
Proof.
  intros Hb [(L & B & HL & HB & Hk)|Hk]; apply elem_of_wheel_keys; [left|by right].
  apply list_elem_of_lookup_1 in HL as [i HL].
  destruct (rings_ok_range _ _ i (ring_of L) (tb_rings _ Hb)) as (Hg & Hc & Hr);
    [apply rings_lookup; eauto|].
  destruct (first_bucket_some L (wf_level _ _ _ (tb_wf _ Hb) HL)) as (B' & HB' & HC);
    [simpl in *; nia|].
  rewrite HB in HB'. injection HB' as <-. destruct HC as [[-> _]|(b & _ & HbB & _)]; [set_solver|].
  exists (mkLoc (Z.of_nat i) b). unfold at_loc, bucket_of. cbn [level bucket].
  rewrite go_index_of_nat, HL. simpl. by rewrite HbB.
Qed.

(** On any wheel with a sound clock the answer is the time of one of its
    slots. *)
Lemma PeekMin_key w :
  time_base w → initialized w = true → (∀ k, k ∈ wheel_keys w → 0 <= slot_time k w) →
  ∃ m, PeekMin w = Some m ∧ (m = -1 ∨ ∃ k, k ∈ wheel_keys w ∧ m = slot_time k w).
Proof.
  intros Hb Hi Hpos. destruct (PeekMin_seen w Hb Hi Hpos) as (m & E & Hm). exists m. split; [done|].
  destruct Hm as [[-> _]|[(k & Hk & ->) _]]; [by left|]. right. exists k. split; [by apply seen_in_wheel|done].
Qed.

(** A wheel of the same shape with fewer keys. *)
Lemma time_base_sub w w' :
  time_base w → wheel_wf w' → skel w' = skel w → wheel_keys w' ⊆ wheel_keys w → time_base w'.
Proof.
  intros [Hw Hr Hc Hn Hk] Hw' Hs Hsub. pose proof (skel_clock _ _ Hs) as (Hg & Hbase & _).
  apply gap_eq in Hg. split; [done|by rewrite (rings_skel _ _ Hs), Hg|by rewrite Hg, Hbase|by rewrite Hbase|].
  intros k Hin. unfold slot_time. rewrite Hg. by apply Hk, Hsub.
Qed.

(** [PeekMin] answers -1 exactly for an empty wheel, and otherwise the time
    of a slot that is in the wheel, no later than any slot of level 0 or of
    the overflow. *)
Theorem peek_min_sound w :
  time_inv w → initialized w = true → (∀ k, k ∈ wheel_keys w → 0 <= slot_time k w) →
  ∃ m, PeekMin w = Some m ∧
    (m = -1 ↔ wheel_keys w = ∅) ∧
    (m ≠ -1 → ∃ k, k ∈ wheel_keys w ∧ m = slot_time k w) ∧
    (∀ k b, k ∈ at_loc w (mkLoc 0 b) ∨ k ∈ overflow w → m <= slot_time k w).
Proof.
  intros Hti Hi Hpos. pose proof (ti_base _ Hti) as Hb.
  destruct (PeekMin_seen w Hb Hi Hpos) as (m & E & Hm).
  pose proof (λ k, seen_in_wheel w k Hb) as Hin.
  assert (∀ k, k ∈ wheel_keys w → ∃ k', seen (levels w) k' ∨ k' ∈ overflow w) as Hex.
  { intros k [[loc Hk]|Hk]%elem_of_wheel_keys; [|eauto].
    destruct (at_loc_level _ _ _ Hk) as (i & b & r & -> & _).
    destruct (seen_first w k i b Hti Hk) as (k' & ? & _). eauto. }
  exists m. split; [done|]. destruct Hm as [[-> He]|[(k0 & Hk0 & ->) Hle]].
  - assert (wheel_keys w = ∅) as Hempty.
    { apply set_eq. intros k. split; [|set_solver]. intros (k' & Hk')%Hex. by apply He in Hk'. }
    split_and!; [done|done|]. intros k b Hk.
    assert (k ∈ wheel_keys w) as Hk' by (apply elem_of_wheel_keys; naive_solver).
    rewrite Hempty in Hk'. set_solver.
  - apply Hin in Hk0 as Hk0'. pose proof (Hpos _ Hk0') as Hp. unfold slot_time in *. split_and!.
    + split; [lia|]. intros Hempty. rewrite Hempty in Hk0'. set_solver.
    + intros _. eauto.
    + intros k b [Hk|Hk]; [|apply Hle; by right].
      destruct (seen_first w k 0 b Hti Hk) as (k' & Hs & Hl). specialize (Hl eq_refl).
      pose proof (Hle k' (or_introl Hs)). unfold slot_time in Hl. lia.
Qed.

End theorems.

(** [PeekMin] is not the minimum of the wheel: it looks at one bucket per
    level, and level 1 is not ordered by time. Slot 819 goes to bucket 0 of
    level 1 at time 1000 of a ten-second wheel that holds slot 720 in bucket 1
    since time 0; [PeekMin] then answers the time of the later slot. *)
Theorem peek_min_misses_earlier_slot :
  match ofold (@run_call sorted_range) [CInit 0; CAdd 720; CAdvance 1000; CAdd 819]
          ([], default_wheel 10) with
  | Some (_, w) =>
      @PeekMin sorted_range w = Some 8190 ∧ bool_decide (720 ∈ wheel_keys w) = true
  | None => False
  end.
Proof. vm_compute. split; reflexivity. Qed.

(** ** The concrete wheel *)

Lemma near_small z : -1000000 < z < 1000000 → near z.
Proof. unfold near, horizon. lia. Qed.

Lemma ex_wheel_time : time_inv ex_wheel ∧ at_rest ex_wheel ∧ initialized ex_wheel = true.
Proof.
  destruct (init_time 10 0) as (w1 & E1 & T1 & R1 & _ & I1 & G1 & _); [lia|by apply near_small|].
  destruct (Add_time 5 w1) as (w2 & E2 & T2 & R2 & _ & S2); [done|done| |].
  { apply near_small. unfold slot_time. rewrite G1. lia. }
  pose proof (skel_gap _ _ S2) as G2. pose proof (skel_clock _ _ S2) as (_ & _ & I2 & _).
  destruct (Add_time 400 w2) as (w3 & E3 & T3 & R3 & _ & S3); [done|by rewrite I2| |].
  { apply near_small. unfold slot_time. rewrite G2, G1. lia. }
  pose proof (skel_clock _ _ S3) as (_ & _ & I3 & _).
  assert (ex_wheel = w3) as ->; [|split_and!; [done|by auto|by rewrite I3, I2]].
  unfold ex_wheel. cbn [ofold].
  assert (run_call (CInit 0) ([], default_wheel 10) = Some ([], w1)) as ->
    by (unfold run_call; by rewrite E1).
  cbn [mbind option_bind].
  assert (run_call (CAdd 5) ([], w1) = Some ([], w2)) as -> by (unfold run_call; by rewrite E2).
  cbn [mbind option_bind].
  assert (run_call (CAdd 400) ([], w2) = Some ([], w3)) as -> by (unfold run_call; by rewrite E3).
  done.
Qed.

Lemma advance_never_early_witness :
  ∃ ready w', @Advance sorted_range 5000 ex_wheel = Some (ready, w') ∧
    ∀ k, k ∈ ready → slot_time k ex_wheel < new_base 5000 ex_wheel.
Proof.
  destruct (@advance_never_early sorted_range 5000 ex_wheel) as (ready & w' & E & _ & Hk & _).
  - apply ex_wheel_time.
  - apply ex_wheel_time.
  - split; vm_compute; reflexivity.
  - exists ready, w'. split; [exact E|exact Hk].
Defined.

Lemma advance_exact_witness :
  ∃ ready w', @Advance sorted_range 100 ex_wheel = Some (ready, w') ∧ 5 ∈ ready ∧ 400 ∉ ready.
Proof.
  destruct (@advance_exact sorted_range 100 ex_wheel) as (ready & w' & E & Hk & _).
  - apply ex_wheel_time.
  - apply ex_wheel_time.
  - apply ex_wheel_time.
  - split; vm_compute; reflexivity.
  - split; vm_compute; congruence.
  - exists ready, w'. split; [exact E|]. split.
    + apply Hk. split; [rewrite (proj2 (proj2 ex_wheel_ok)); set_solver|vm_compute; reflexivity].
    + intros Hin. apply Hk in Hin as [_ Hlt]. vm_compute in Hlt. discriminate.
Defined.

Lemma advance_catches_up_witness :
  ∃ ready1 w1 ready2 w2, @Advance sorted_range 5000 ex_wheel = Some (ready1, w1) ∧
    @Advance sorted_range 5010 w1 = Some (ready2, w2) ∧ (400 ∈ ready1 ∨ 400 ∈ ready2).
Proof.
  destruct (@advance_catches_up sorted_range 5000 5010 ex_wheel) as (l1 & w1 & l2 & w2 & E1 & E2 & Hk).
  - apply ex_wheel_time.
  - apply ex_wheel_time.
  - split; vm_compute; reflexivity.
  - split; vm_compute; reflexivity.
  - vm_compute. reflexivity.
  - split; vm_compute; congruence.
  - exists l1, w1, l2, w2. split; [exact E1|]. split; [exact E2|].
    apply Hk; [rewrite (proj2 (proj2 ex_wheel_ok)); set_solver|vm_compute; reflexivity].
Defined.

Lemma peek_min_sound_witness :
  ∃ m, @PeekMin sorted_range ex_wheel = Some m ∧ (m = -1 ↔ wheel_keys ex_wheel = ∅).
Proof.
  destruct (@peek_min_sound sorted_range ex_wheel) as (m & E & Hm & _).
  - apply ex_wheel_time.
  - apply ex_wheel_time.
  - intros k Hk. rewrite (proj2 (proj2 ex_wheel_ok)) in Hk.
    apply elem_of_union in Hk as [->%elem_of_singleton| ->%elem_of_singleton];
      vm_compute; congruence.
  - exists m. split; [exact E|exact Hm].
Defined.
