(* ===== verification/Store.v ===== *)
(** * The store of a node: [store.go]

    [Node] is what one process keeps: the replicated state machine, the slot
    queue (its type is a parameter here), the cancel functions of running
    jobs and the calls made to the outside. The Raft library, the clock and
    the network are third-party: [Env] gives what they answer at every step,
    for any schedule. [others i] are the log entries other goroutines and
    nodes get committed before step [i], so that every interleaving of
    clients is an environment. *)

From S2P Require Import Prelude GoStrings Json Types Codec ColdStore FSM GoFloat.

(** ** The environment *)

(** What [raft.Apply(...).Error()] reports. A failed apply may or may not have
    reached the log. *)
Inductive ApplyOutcome :=
  | Committed
  | Rejected (e : error)
  | Unknown (e : error).

Record Server := mkServer { srv_ID : string; srv_Address : string }.

#[export] Instance Server_eq_dec : EqDecision Server.
Proof. solve_decision. Defined.

(** What the HTTP client answers: a status code or an error. [now] is the wall
    clock in nanoseconds since the Unix epoch. *)
Definition Reply : Type := Z + error.

Class Env := mkEnv {
  leader : nat → bool;
  now : nat → Z;
  outcome : nat → ApplyOutcome;
  others : nat → list json;
  configuration : nat → list Server + error;
  membership : nat → option error;
  reply : nat → Reply }.

(** ** The node *)

(** Calls that leave the process. *)
Inductive event :=
  | EWebhook (id url : string) (body : json)
  | EStatusChange (old new : string)
  | ECancel (id : string)
  | EAddVoter (id addr : string)
  | ERemoveServer (id : string)
  | EBootstrap (servers : list Server).

Record Node (CS Q : Type) := mkNode {
  n_fsm : FSM CS;
  n_queue : Q;
  n_cancelFuncs : gset string;
  n_step : nat;
  n_trace : list event }.

Arguments mkNode {CS Q}.
Arguments n_fsm {CS Q}.
Arguments n_queue {CS Q}.
Arguments n_cancelFuncs {CS Q}.
Arguments n_step {CS Q}.
Arguments n_trace {CS Q}.

(** [t.Unix()] of a time in nanoseconds. *)
Definition unix (t : Z) : Z := t / Second.

Section Store.

Context {CS Q : Type} `{ColdSlotStore CS} `{GoRange} `{Env}.

Local Open Scope go_scope.

Implicit Types n : Node CS Q.

Definition set_fsm (f : FSM CS) n : Node CS Q :=
  mkNode f (n_queue n) (n_cancelFuncs n) (n_step n) (n_trace n).

Definition set_queue (q : Q) n : Node CS Q :=
  mkNode (n_fsm n) q (n_cancelFuncs n) (n_step n) (n_trace n).

Definition set_cancelFuncs (c : gset string) n : Node CS Q :=
  mkNode (n_fsm n) (n_queue n) c (n_step n) (n_trace n).

(** One step of the environment. *)
Definition ask {A} (f : nat → A) : M (Node CS Q) A :=
  λ n, Some (f (n_step n),
             mkNode (n_fsm n) (n_queue n) (n_cancelFuncs n) (S (n_step n)) (n_trace n)).

Definition emit (e : event) : M (Node CS Q) unit :=
  modify (λ n, mkNode (n_fsm n) (n_queue n) (n_cancelFuncs n) (n_step n) (n_trace n ++ [e])).

(** ** Raft *)

Definition IsLeader : M (Node CS Q) bool := ask leader.

(** [time.Now()] *)
Definition TimeNow : M (Node CS Q) Z := ask now.

(** [time.Now().Unix()] *)
Definition Now : M (Node CS Q) Z := t <- TimeNow ;; mreturn (unix t).

(** The log entries of others. *)
Definition interleave : M (Node CS Q) unit :=
  log <- ask others ;; modify (λ n, set_fsm (run_log log (n_fsm n)) n).

(** [s.raft.Apply(data, timeout).Error()] *)
Definition raft_Apply (data : json) : M (Node CS Q) (option error) :=
  interleave ;;
  o <- ask outcome ;;
  match o with
  | Committed => modify (λ n, set_fsm (FSM_Apply data (n_fsm n)).2 n) ;; mreturn None
  | Rejected e => mreturn (Some e)
  | Unknown e => modify (λ n, set_fsm (FSM_Apply data (n_fsm n)).2 n) ;; mreturn (Some e)
  end.

Definition apply_failed (e : option error) : option error :=
  flatf "failed to apply command: " <$> e.

(** Marshal the command and apply it. The response of the state machine is not
    looked at. *)
Definition send (cmd : Command) : M (Node CS Q) (option error) :=
  match Marshal (enc_Command cmd) with
  | inr e => mreturn (Some (flatf "failed to marshal command: " e))
  | inl data => e <- raft_Apply data ;; mreturn (apply_failed e)
  end.

(** [if !s.IsLeader() { return ErrNotLeader }] *)
Definition if_leader (k : M (Node CS Q) (option error)) : M (Node CS Q) (option error) :=
  l <- IsLeader ;; if (l : bool) then k else mreturn (Some ErrNotLeader).

Definition Store_Apply (data : json) : M (Node CS Q) (option error) :=
  if_leader (e <- raft_Apply data ;; mreturn (apply_failed e)).

(** ** Jobs and slots *)

Definition GetJob (id : string) : M (Node CS Q) (option Job) := gets (λ n, FSM_GetJob id (n_fsm n)).

Definition GetAllJobs : M (Node CS Q) (gmap string Job) := gets (λ n, FSM_GetAllJobs (n_fsm n)).

Definition GetSlot (key : Z) : M (Node CS Q) (option SlotData) :=
  gets (λ n, FSM_GetSlot key (n_fsm n)).

Definition GetAllSlots : M (Node CS Q) (gmap Z SlotData) :=
  gets (λ n, FSM_GetAllSlots (n_fsm n)).

Definition CreateSlot (slot : SlotData) : M (Node CS Q) (option error) :=
  if_leader (send (cmd_create_slot slot)).

Definition DeleteSlot (key : Z) : M (Node CS Q) (option error) :=
  if_leader (send (cmd_with_id CommandDeleteSlot (pretty key))).

Definition ArchiveSlot (key : Z) : M (Node CS Q) (option error) :=
  if_leader (
    slot <- GetSlot key ;;
    match slot with
    | None => mreturn (Some (wrapf ("slot " +:+ pretty key +:+ ": ") ErrSlotNotFound))
    | Some slotData => send (cmd_archive slotData)
    end).

Definition UnarchiveSlot (key : Z) : M (Node CS Q) (option error) :=
  if_leader (send (cmd_with_id CommandUnarchiveSlot (pretty key))).

Definition IsSlotCold (key : Z) : M (Node CS Q) bool := gets (λ n, FSM_IsSlotCold key (n_fsm n)).

(** The store keeps the handle it gave to the state machine. *)
Definition IsColdSpillingEnabled : M (Node CS Q) bool :=
  gets (λ n, match f_coldStore (n_fsm n) with Some _ => true | None => false end).

Definition GetColdSlotKeys : M (Node CS Q) (list Z) :=
  gets (λ n, FSM_GetColdSlotKeys (n_fsm n)).

Definition GetHotSlotCount : M (Node CS Q) Z := gets (λ n, FSM_GetHotSlotCount (n_fsm n)).

Definition GetColdSlotCount : M (Node CS Q) Z := gets (λ n, FSM_GetColdSlotCount (n_fsm n)).

Definition GetColdSlotData (key : Z) : M (Node CS Q) (option SlotData + error) :=
  gets (λ n, match f_coldStore (n_fsm n) with
             | None => inr (errors_New "cold store not enabled")
             | Some cs => GetColdSlot key cs
             end).

Definition GetExecutionState (id : string) : M (Node CS Q) (option JobExecutionState) :=
  gets (λ n, FSM_GetExecutionState id (n_fsm n)).

Definition GetAllExecutionStates : M (Node CS Q) (gmap string JobExecutionState) :=
  gets (λ n, FSM_GetAllExecutionStates (n_fsm n)).

Definition GetMemoryUsage : M (Node CS Q) Z := gets (λ n, FSM_GetMemoryUsage (n_fsm n)).

Definition GetJobCount : M (Node CS Q) Z := gets (λ n, FSM_GetJobCount (n_fsm n)).

Definition UpdateMemoryUsage (delta : Z) : M (Node CS Q) (option error) :=
  if_leader (send (cmd_memory delta)).

Definition UpdateJobCount (delta : Z) : M (Node CS Q) (option error) :=
  if_leader (send (cmd_job_count delta)).

(** ** Jobs, with the event handler *)

(** [if handler, ok := s.eventHandler.Load()...; ok && handler != nil && s.IsLeader()] *)
Definition notify (handler : option (string → option Job → M (Node CS Q) unit))
    (event : string) (job : option Job) : M (Node CS Q) unit :=
  match handler with
  | None => mreturn tt
  | Some h => l <- IsLeader ;; if (l : bool) then h event job else mreturn tt
  end.

Definition CreateJob (handler : option (string → option Job → M (Node CS Q) unit)) (job : Job)
    : M (Node CS Q) (option error) :=
  if_leader (
    e <- send (cmd_create_job job) ;;
    match e with
    | Some e => mreturn (Some e)
    | None => notify handler "created" (Some job) ;; mreturn None
    end).

Definition DeleteJob (handler : option (string → option Job → M (Node CS Q) unit)) (id : string)
    : M (Node CS Q) (option error) :=
  if_leader (
    job <- GetJob id ;;
    e <- send (cmd_with_id CommandDeleteJob id) ;;
    match e with
    | Some e => mreturn (Some e)
    | None => notify handler "deleted" job ;; mreturn None
    end).

(** ** Cluster membership *)

(** A call of the Raft library that changes the membership. *)
Definition raft_change (e : event) : M (Node CS Q) (option error) := emit e ;; ask membership.

Definition GetClusterConfiguration : M (Node CS Q) (list Server + error) :=
  c <- ask configuration ;;
  mreturn (match c with
           | inl servers => inl servers
           | inr e => inr (flatf "failed to get configuration: " e)
           end).

Definition AddPeer (id address : string) : M (Node CS Q) (option error) :=
  l <- IsLeader ;;
  if (l : bool) then
    c <- GetClusterConfiguration ;;
    match c with
    | inr e => mreturn (Some e)
    | inl servers =>
        if decide (mkServer id address ∈ servers) then mreturn None
        else
          e <- raft_change (EAddVoter id address) ;;
          mreturn (flatf "failed to add peer: " <$> e)
    end
  else mreturn (Some (NotLeaderError "cannot add peer")).

Definition RemovePeer (id : string) : M (Node CS Q) (option error) :=
  l <- IsLeader ;;
  if (l : bool) then
    e <- raft_change (ERemoveServer id) ;;
    mreturn (flatf "failed to remove peer: " <$> e)
  else mreturn (Some (NotLeaderError "cannot remove peer")).

(** [localAddr] is [s.raft.String()]. *)
Definition GetPeers (localAddr : string) : M (Node CS Q) (list string) :=
  c <- GetClusterConfiguration ;;
  mreturn (match c with
           | inr _ => []
           | inl servers => filter (λ a, a ≠ localAddr) (srv_Address <$> servers)
           end).

Definition ForceBootstrap (nodeID localAddr : string) : M (Node CS Q) (option error) :=
  l <- IsLeader ;;
  if (l : bool) then mreturn (Some (errors_New "node is already a leader"))
  else
    e <- raft_change (EBootstrap [mkServer nodeID localAddr]) ;;
    mreturn (flatf "failed to force bootstrap: " <$> e).

Definition BootstrapWithPeers (servers : list Server) : M (Node CS Q) (option error) :=
  e <- raft_change (EBootstrap servers) ;;
  mreturn (flatf "failed to bootstrap cluster with peers: " <$> e).

Definition ForceRecoverCluster (aliveNodeIDs : list string) : M (Node CS Q) (option error) :=
  l <- IsLeader ;;
  if (l : bool) then mreturn (Some (errors_New "node is already a leader, use normal operations"))
  else
    c <- GetClusterConfiguration ;;
    match c with
    | inr e => mreturn (Some (flatf "failed to get cluster configuration: " e))
    | inl servers =>
        let totalNodes := Z.of_nat (length servers) in
        let aliveCount := Z.of_nat (length aliveNodeIDs) in
        if decide (aliveCount <= Z.quot totalNodes 2) then
          mreturn (Some (errors_New
            ("insufficient alive nodes for recovery: " +:+ pretty aliveCount +:+ " alive, "
             +:+ pretty totalNodes +:+ " total, need > " +:+ pretty (Z.quot totalNodes 2))))
        else
          let newServers := filter (λ s, srv_ID s ∈ aliveNodeIDs) servers in
          if decide (length newServers = 0%nat) then
            mreturn (Some (errors_New "no alive servers found in configuration"))
          else
            e <- raft_change (EBootstrap newServers) ;;
            mreturn (flatf "failed to bootstrap recovery cluster: " <$> e)
    end.

End Store.

Arguments set_fsm {CS Q}.
Arguments set_queue {CS Q}.
Arguments set_cancelFuncs {CS Q}.
