(* ===== verification/StoreProps.v ===== *)
(** * Properties of the store

    [log_only] computations change the state machine only by applying log
    entries. It is closed under sequencing and loops, so everything that is
    built from store operations inherits it, in every environment: under
    interleaving, lost leadership and failed or half-failed applies. What each
    write does there is spelled out in [store_write_exact]: [write_effect] is
    the effect of every write on the state machine, without commands or
    JSON. *)

From S2P Require Import Prelude GoStrings Json Types Codec ColdStore FSM GoFloat Store.

(** ** Computations that only append to the log *)

Section log_only.

Context {CS Q : Type} `{ColdSlotStore CS} `{GoRange} `{Env}.

Implicit Types n : Node CS Q.

Definition extends n n' : Prop := ∃ log, n_fsm n' = run_log log (n_fsm n).

#[export] Instance extends_preorder : PreOrder extends.
Proof.
  split; [by intros n; exists []|]. intros n1 n2 n3 [l1 E1] [l2 E2].
  exists (l1 ++ l2). rewrite E2, E1. unfold run_log. by rewrite foldl_app.
Qed.

Lemma extends_same n n' : n_fsm n' = n_fsm n → extends n n'.
Proof. intros E. by exists []. Qed.

Definition log_only {A} (c : M (Node CS Q) A) : Prop :=
  ∀ n a n', c n = Some (a, n') → extends n n'.

Lemma log_only_ret {A} (a : A) : log_only (mreturn a).
Proof. intros n b n' [= _ <-]. done. Qed.

Lemma log_only_bind {A B} (c : M (Node CS Q) A) (k : A → M (Node CS Q) B) :
  log_only c → (∀ a, log_only (k a)) → log_only (mthen c k).
Proof.
  intros Hc Hk n b n' E. unfold mthen in E. destruct (c n) as [[a n1]|] eqn:Ec; [|done].
  transitivity n1; [by eapply Hc|by eapply Hk].
Qed.

Lemma log_only_gets {A} (f : Node CS Q → A) : log_only (gets f).
Proof. intros n a n' [= _ <-]. done. Qed.

Lemma log_only_ask {A} (f : nat → A) : log_only (ask f).
Proof. intros n a n' [= _ <-]. by apply extends_same. Qed.

Lemma log_only_emit e : log_only (emit e).
Proof. intros n a n' [= _ <-]. by apply extends_same. Qed.

Lemma log_only_modify f : (∀ n, extends n (f n)) → log_only (modify f).
Proof. intros Hf n a n' [= _ <-]. apply Hf. Qed.

Lemma log_only_lift {A} (o : option A) : log_only (lift_opt o).
Proof. intros n a n' E. unfold lift_opt in E. destruct o; [|done]. injection E as _ <-. done. Qed.

Lemma log_only_panic {A} : log_only (panic (A := A)).
Proof. by intros n a n'. Qed.

Lemma log_only_for_each {A} (body : A → M (Node CS Q) unit) l :
  (∀ x, log_only (body x)) → log_only (for_each body l).
Proof.
  intros Hb. induction l as [|x l IH]; [apply log_only_ret|].
  by apply log_only_bind; [|intros _].
Qed.

Lemma log_only_for_acc {A B} (body : A → B → M (Node CS Q) B) l acc :
  (∀ x acc, log_only (body x acc)) → log_only (for_acc body l acc).
Proof.
  intros Hb. revert acc. induction l as [|x l IH]; intros acc; [apply log_only_ret|].
  by apply log_only_bind.
Qed.

Lemma log_only_for_until {A} (body : A → M (Node CS Q) bool) l :
  (∀ x, log_only (body x)) → log_only (for_until body l).
Proof.
  intros Hb. induction l as [|x l IH]; [apply log_only_ret|].
  apply log_only_bind; [done|]. intros [|]; [apply log_only_ret|done].
Qed.

Lemma run_log_extends log n : extends n (set_fsm (run_log log (n_fsm n)) n).
Proof. by exists log. Qed.

Lemma apply_extends data n : extends n (set_fsm (FSM_Apply data (n_fsm n)).2 n).
Proof. by exists [data]. Qed.

End log_only.

Create HintDb log_only.
#[export] Hint Resolve log_only_ret log_only_bind log_only_gets log_only_ask log_only_emit
  log_only_lift log_only_panic log_only_for_each log_only_for_acc log_only_for_until
  log_only_modify
  run_log_extends apply_extends extends_same : log_only.

(** Split a computation along its binds and branches. *)
Ltac log_only_solver :=
  repeat first
    [ progress intros
    | progress simpl
    | match goal with
      | |- log_only (mthen _ _) => apply log_only_bind
      | |- log_only (match ?x with _ => _ end) => destruct x
      end
    | solve [eauto with log_only] ].

Section store_log_only.

Context {CS Q : Type} `{ColdSlotStore CS} `{GoRange} `{Env}.

Implicit Types n : Node CS Q.

Lemma log_only_IsLeader : log_only (IsLeader (CS := CS) (Q := Q)).
Proof. apply log_only_ask. Qed.

Lemma log_only_Now : log_only (Now (CS := CS) (Q := Q)).
Proof. unfold Now, TimeNow. log_only_solver. Qed.

Lemma log_only_interleave : log_only (interleave (CS := CS) (Q := Q)).
Proof. unfold interleave. log_only_solver. Qed.

Lemma log_only_raft_Apply data : log_only (raft_Apply (CS := CS) (Q := Q) data).
Proof.
  unfold raft_Apply. apply log_only_bind; [apply log_only_interleave|]. log_only_solver.
Qed.

Lemma log_only_send cmd : log_only (send (CS := CS) (Q := Q) cmd).
Proof.
  unfold send. destruct (Marshal _); [|apply log_only_ret].
  apply log_only_bind; [apply log_only_raft_Apply|]. log_only_solver.
Qed.

Lemma log_only_if_leader (k : M (Node CS Q) (option error)) :
  log_only k → log_only (if_leader k).
Proof. intros Hk. unfold if_leader, IsLeader. log_only_solver. Qed.

Lemma log_only_Store_Apply data : log_only (Store_Apply (CS := CS) (Q := Q) data).
Proof.
  apply log_only_if_leader, log_only_bind; [apply log_only_raft_Apply|]. log_only_solver.
Qed.

Lemma log_only_CreateSlot s : log_only (CreateSlot (CS := CS) (Q := Q) s).
Proof. apply log_only_if_leader, log_only_send. Qed.

Lemma log_only_DeleteSlot k : log_only (DeleteSlot (CS := CS) (Q := Q) k).
Proof. apply log_only_if_leader, log_only_send. Qed.

Lemma log_only_ArchiveSlot k : log_only (ArchiveSlot (CS := CS) (Q := Q) k).
Proof.
  apply log_only_if_leader, log_only_bind; [apply log_only_gets|].
  intros [s|]; [apply log_only_send|apply log_only_ret].
Qed.

Lemma log_only_UnarchiveSlot k : log_only (UnarchiveSlot (CS := CS) (Q := Q) k).
Proof. apply log_only_if_leader, log_only_send. Qed.

Lemma log_only_UpdateMemoryUsage d : log_only (UpdateMemoryUsage (CS := CS) (Q := Q) d).
Proof. apply log_only_if_leader, log_only_send. Qed.

Lemma log_only_UpdateJobCount d : log_only (UpdateJobCount (CS := CS) (Q := Q) d).
Proof. apply log_only_if_leader, log_only_send. Qed.

(** An event handler that only appends to the log. *)
Definition handler_ok (h : option (string → option Job → M (Node CS Q) unit)) : Prop :=
  ∀ f ev j, h = Some f → log_only (f ev j).

Lemma log_only_notify h ev j : handler_ok h → log_only (notify h ev j).
Proof.
  intros Hh. unfold notify. destruct h as [f|]; [|apply log_only_ret].
  apply log_only_bind; [apply log_only_IsLeader|]. intros []; [|apply log_only_ret].
  by apply (Hh f).
Qed.

Lemma log_only_CreateJob h j : handler_ok h → log_only (CreateJob h j).
Proof.
  intros Hh. apply log_only_if_leader, log_only_bind; [apply log_only_send|].
  intros [e|]; [apply log_only_ret|]. apply log_only_bind; [by apply log_only_notify|].
  intros _. apply log_only_ret.
Qed.

Lemma log_only_DeleteJob h id : handler_ok h → log_only (DeleteJob h id).
Proof.
  intros Hh. apply log_only_if_leader, log_only_bind; [apply log_only_gets|]. intros j.
  apply log_only_bind; [apply log_only_send|].
  intros [e|]; [apply log_only_ret|]. apply log_only_bind; [by apply log_only_notify|].
  intros _. apply log_only_ret.
Qed.

End store_log_only.

#[export] Hint Resolve log_only_IsLeader log_only_Now log_only_raft_Apply log_only_send
  log_only_Store_Apply log_only_CreateSlot log_only_DeleteSlot log_only_ArchiveSlot
  log_only_UnarchiveSlot log_only_UpdateMemoryUsage log_only_UpdateJobCount
  log_only_CreateJob log_only_DeleteJob : log_only.

(** ** A healthy environment *)

Section healthy.

Context {CS Q : Type} `{ColdSlotStore CS} `{GoRange} `{Env}.

Implicit Types n : Node CS Q.

(** From now on this node leads, its entries are committed, nobody else writes
    and the clock is sane. *)
Record healthy_env : Prop := {
  he_leader : ∀ i, leader i = true;
  he_outcome : ∀ i, outcome i = Committed;
  he_others : ∀ i, others i = [];
  he_now : ∀ i, in64 (unix (now i)) }.

Lemma healthy_raft_Apply data n :
  healthy_env → ∃ n', raft_Apply data n = Some (None, n') ∧
    n_fsm n' = (FSM_Apply data (n_fsm n)).2 ∧ n_queue n' = n_queue n ∧
    n_cancelFuncs n' = n_cancelFuncs n ∧ n_trace n' = n_trace n.
Proof.
  intros [_ Ho Hx _]. unfold raft_Apply, interleave, ask, mthen, modify, mreturn. simpl.
  rewrite Hx. simpl. rewrite Ho. simpl. by eexists.
Qed.

Lemma healthy_Store_Apply data n :
  healthy_env → ∃ n', Store_Apply data n = Some (None, n') ∧
    n_fsm n' = (FSM_Apply data (n_fsm n)).2 ∧ n_queue n' = n_queue n ∧
    n_cancelFuncs n' = n_cancelFuncs n ∧ n_trace n' = n_trace n.
Proof.
  intros He. unfold Store_Apply, if_leader, IsLeader, mthen. simpl. rewrite (he_leader He).
  set (n1 := mkNode _ _ _ _ _).
  destruct (healthy_raft_Apply data n1 He) as (n' & E & ? & ? & ? & ?).
  rewrite E. by exists n'.
Qed.

End healthy.

(** ** Rules for a healthy node *)

Section node_rules.

Context {CS Q : Type} `{ColdSlotStore CS} `{GoRange} `{Env}.

Implicit Types (n : Node CS Q) (f : FSM CS) (q : Q) (c : gset string) (tr : list event).

(** A node of which all is known but how often it asked the environment. *)
Definition node_at f q c tr n : Prop := ∃ i, n = mkNode f q c i tr.

Lemma at_node n : node_at (n_fsm n) (n_queue n) (n_cancelFuncs n) (n_trace n) n.
Proof. exists (n_step n). by destruct n. Qed.

Lemma at_IsLeader f q c tr n :
  healthy_env → node_at f q c tr n →
  returns IsLeader n (λ b n', b = true ∧ node_at f q c tr n').
Proof.
  intros He [i ->]. eexists _, _. split; [done|]. split; [apply (he_leader He)|]. by eexists.
Qed.

Lemma at_Now f q c tr n :
  (∀ i, in64 (unix (now i))) → node_at f q c tr n →
  returns Now n (λ t n', in64 t ∧ node_at f q c tr n').
Proof.
  intros He [i ->]. eexists _, _. split; [done|]. split; [apply He|]. by eexists.
Qed.

Lemma at_if_leader (k : M (Node CS Q) (option error)) f q c tr n R :
  healthy_env → node_at f q c tr n → (∀ n', node_at f q c tr n' → returns k n' R) →
  returns (if_leader k) n R.
Proof.
  intros He Hn Hk. unfold if_leader. apply returns_bind.
  eapply returns_mono; [by apply at_IsLeader|]. intros b n' [-> Hn']. by apply Hk.
Qed.

Lemma at_send cmd f q c tr n :
  healthy_env → node_at f q c tr n →
  command_ok cmd → (∀ j, cmd_Job cmd = Some j → plain (enc_Job j)) →
  returns (send cmd) n
    (λ e n', e = None ∧ node_at (applyCommandInternal (command_norm cmd) f).2 q c tr n').
Proof.
  intros He [i ->] Hok Hp. unfold send. rewrite Marshal_plain by (by apply plain_Command).
  destruct (healthy_raft_Apply (enc_Command cmd) (mkNode f q c i tr) He)
    as (n' & E & Hf & Hq & Hc & Ht). eexists _, n'. unfold mthen. rewrite E.
  split; [done|]. split; [done|]. exists (n_step n'). destruct n'. simpl in *.
  unfold FSM_Apply in Hf. rewrite dec_enc_Command in Hf by done. simpl in Hf. by subst.
Qed.

(** What [CreateSlot] and [DeleteSlot] do to the state machine. *)
Definition put_slot (s : SlotData) f : FSM CS := set_slots (<[slot_Key s := s]> (f_slots f)) f.

Definition del_slot (key : Z) f : FSM CS :=
  (applyDeleteSlot (cmd_with_id CommandDeleteSlot (pretty key)) f).2.

Lemma command_ok_id t id : command_ok (cmd_with_id t id).
Proof.
  unfold command_ok. cbn.
  split_and!; [by intros ? [=]|by intros ? [=]|by intros ? [=]|by intros ? [=]|constructor|
    unfold in64, two63; lia..].
Qed.

Lemma command_ok_slot s : slot_ok s → command_ok (cmd_create_slot s).
Proof.
  intros Hs. unfold command_ok. cbn.
  split_and!; [by intros ? [=]|by intros ? [= <-]|by intros ? [=]|by intros ? [=]|constructor|
    unfold in64, two63; lia..].
Qed.

Lemma at_CreateSlot s f q c tr n :
  healthy_env → node_at f q c tr n → slot_ok s →
  returns (CreateSlot s) n (λ e n', e = None ∧ node_at (put_slot s f) q c tr n').
Proof.
  intros He Hn Hs. eapply at_if_leader; [done..|]. intros n' Hn'.
  apply (at_send (cmd_create_slot s)); [done..|by apply command_ok_slot|by intros ? [=]].
Qed.

Lemma at_DeleteSlot k f q c tr n :
  healthy_env → node_at f q c tr n →
  returns (DeleteSlot k) n (λ e n', e = None ∧ node_at (del_slot k f) q c tr n').
Proof.
  intros He Hn. eapply at_if_leader; [done..|]. intros n' Hn'.
  apply (at_send (cmd_with_id CommandDeleteSlot (pretty k)));
    [done..|apply command_ok_id|by intros ? [=]].
Qed.

Lemma get_put_slot k s f : slot_Key s = k → FSM_GetSlot k (put_slot s f) = Some s.
Proof. intros <-. unfold FSM_GetSlot. simpl. by rewrite lookup_insert_eq, SlotData_Clone_id. Qed.

Lemma get_put_slot_ne k s f :
  k ≠ slot_Key s → FSM_GetSlot k (put_slot s f) = FSM_GetSlot k f.
Proof. intros Hk. unfold FSM_GetSlot. simpl. by rewrite lookup_insert_ne. Qed.

Lemma del_slot_eq k f :
  in64 k →
  del_slot k f =
    let f1 := set_coldSlotMeta (delete k (f_coldSlotMeta f))
                (set_slots (delete k (f_slots f)) f) in
    match f_coldStore f with
    | None => f1
    | Some cs => set_coldStore (Some (DeleteColdSlot k cs).1) f1
    end.
Proof.
  intros Hk. unfold del_slot, applyDeleteSlot. simpl.
  rewrite decide_False by apply pretty_Z_ne_empty. by rewrite Sscanf_d_pretty.
Qed.

Lemma get_del_slot k f : in64 k → FSM_GetSlot k (del_slot k f) = None.
Proof.
  intros Hk. rewrite del_slot_eq by done. unfold FSM_GetSlot. simpl.
  destruct (f_coldStore f); simpl; by rewrite !lookup_delete_eq.
Qed.

Lemma del_slot_jobs k f : f_jobs (del_slot k f) = f_jobs f.
Proof. unfold del_slot, applyDeleteSlot. repeat case_match; simpl; done. Qed.

Lemma del_slot_states k f : f_executionStates (del_slot k f) = f_executionStates f.
Proof. unfold del_slot, applyDeleteSlot. repeat case_match; simpl; done. Qed.

Lemma del_slot_slots k f : in64 k → f_slots (del_slot k f) = delete k (f_slots f).
Proof. intros Hk. rewrite del_slot_eq by done. by destruct (f_coldStore f). Qed.

End node_rules.

(** Leader, everything commits, the clock stands at 100 and webhooks answer
    [code]. *)
Definition ex_env (code : Z) : Env :=
  mkEnv (λ _, true) (λ _, 100 * Second) (λ _, Committed) (λ _, []) (λ _, inl []) (λ _, None)
    (λ _, inl code).

Lemma ex_env_healthy code : @healthy_env (ex_env code).
Proof. by split. Qed.

(** ** Theorems *)

(** Every operation of the store that writes. *)
Inductive store_write :=
  | WCreateJob (j : Job)
  | WDeleteJob (id : string)
  | WCreateSlot (s : SlotData)
  | WDeleteSlot (key : Z)
  | WArchiveSlot (key : Z)
  | WUnarchiveSlot (key : Z)
  | WUpdateMemoryUsage (delta : Z)
  | WUpdateJobCount (delta : Z)
  | WApply (data : json).

Section theorems.

Context {CS Q : Type} `{ColdSlotStore CS} `{GoRange} `{Env}.

Implicit Types n : Node CS Q.

Definition run_write (h : option (string → option Job → M (Node CS Q) unit)) (c : store_write)
    : M (Node CS Q) (option error) :=
  match c with
  | WCreateJob j => CreateJob h j
  | WDeleteJob id => DeleteJob h id
  | WCreateSlot s => CreateSlot s
  | WDeleteSlot k => DeleteSlot k
  | WArchiveSlot k => ArchiveSlot k
  | WUnarchiveSlot k => UnarchiveSlot k
  | WUpdateMemoryUsage d => UpdateMemoryUsage d
  | WUpdateJobCount d => UpdateJobCount d
  | WApply data => Store_Apply data
  end.

(** What each write is meant to do to the state machine. [slot] is the slot an
    [ArchiveSlot] has found. *)
Definition write_effect (c : store_write) (slot : option SlotData) (f : FSM CS) : FSM CS :=
  let '(mkFSM jobs slots meta cold states mem count) := f in
  match c with
  | WCreateJob j =>
      mkFSM (<[job_ID j := job_norm j]> jobs) slots meta cold
        (<[job_ID j := mkState (job_ID j) StatusPending 0 (job_CreatedAt j) 0 0 0 0 "" "" []]> states)
        mem count
  | WDeleteJob id =>
      if decide (id = "") then f
      else mkFSM (delete id jobs) slots meta cold (delete id states) mem count
  | WCreateSlot s => mkFSM jobs (<[slot_Key s := s]> slots) meta cold states mem count
  | WDeleteSlot k =>
      mkFSM jobs (delete k slots) (delete k meta) ((λ cs, (DeleteColdSlot k cs).1) <$> cold) states
        mem count
  | WArchiveSlot _ =>
      match slot, cold with
      | Some d, Some cs =>
          match PutColdSlot (slot_Key d) d cs with
          | (cs', None) =>
              mkFSM jobs (delete (slot_Key d) slots) (<[slot_Key d := true]> meta) (Some cs') states
                mem count
          | (cs', Some _) => mkFSM jobs slots meta (Some cs') states mem count
          end
      | _, _ => f
      end
  | WUnarchiveSlot k =>
      match cold with
      | None => f
      | Some cs =>
          match GetColdSlot k cs with
          | inr _ => f
          | inl o =>
              mkFSM jobs (match o with Some d => <[k := d]> slots | None => slots end) (delete k meta)
                (Some (DeleteColdSlot k cs).1) states mem count
          end
      end
  | WUpdateMemoryUsage d => mkFSM jobs slots meta cold states (i64 (mem + d) `max` 0) count
  | WUpdateJobCount d => mkFSM jobs slots meta cold states mem (i64 (count + d) `max` 0)
  | WApply data => (FSM_Apply data f).2
  end.

(** What it is given: machine integers, and a payload that JSON can carry. *)
Definition write_ok (c : store_write) (slot : option SlotData) : Prop :=
  match c with
  | WCreateJob j => job_ints_ok j ∧ plain (enc_Job j)
  | WCreateSlot s => slot_ok s
  | WArchiveSlot _ => ∀ s, slot = Some s → slot_ok s
  | WDeleteSlot k | WUnarchiveSlot k => in64 k
  | WUpdateMemoryUsage d | WUpdateJobCount d => in64 d
  | WDeleteJob _ | WApply _ => True
  end.

(** The slot that [ArchiveSlot] finds, before it writes. *)
Definition found_slot (c : store_write) n : option SlotData :=
  match c with WArchiveSlot k => FSM_GetSlot k (n_fsm n) | _ => None end.

(** The node after [k] steps of the environment, with another state machine. *)
Definition node_after (k : nat) (f : FSM CS) n : Node CS Q :=
  mkNode f (n_queue n) (n_cancelFuncs n) (k + n_step n) (n_trace n).

(** The handler is told something, if this node still leads. *)
Definition tell (g : string → option Job → M (Node CS Q) unit) (ev : string) (job : option Job) n
    : option (option error * Node CS Q) :=
  let n1 := node_after 1 (n_fsm n) n in
  if leader (n_step n) then
    match g ev job n1 with Some (_, n2) => Some (None, n2) | None => None end
  else Some (None, n1).

(** A write that succeeds: the handler is told of a new job, and of a deleted
    job with the job as it was. *)
Definition write_done (h : option (string → option Job → M (Node CS Q) unit)) (c : store_write)
    (found : option Job) n : option (option error * Node CS Q) :=
  match c, h with
  | WCreateJob j, Some g => tell g "created" (Some j) n
  | WDeleteJob _, Some g => tell g "deleted" found n
  | _, _ => Some (None, n)
  end.

(** The command a write sends does what the write is meant to do. *)
Definition write_command (c : store_write) (slot : option SlotData) : option Command :=
  match c with
  | WCreateJob j => Some (cmd_create_job j)
  | WDeleteJob id => Some (cmd_with_id CommandDeleteJob id)
  | WCreateSlot s => Some (cmd_create_slot s)
  | WDeleteSlot k => Some (cmd_with_id CommandDeleteSlot (pretty k))
  | WArchiveSlot _ => cmd_archive <$> slot
  | WUnarchiveSlot k => Some (cmd_with_id CommandUnarchiveSlot (pretty k))
  | WUpdateMemoryUsage d => Some (cmd_memory d)
  | WUpdateJobCount d => Some (cmd_job_count d)
  | WApply _ => None
  end.

Lemma clamp_add_max v d : clamp_add v d = i64 (v + d) `max` 0.
Proof. unfold clamp_add. case_decide; lia. Qed.

Lemma write_command_ok c slot cmd :
  write_ok c slot → write_command c slot = Some cmd →
  command_ok cmd ∧ (∀ j, cmd_Job cmd = Some j → plain (enc_Job j)).
Proof.
  assert (in64 0) as Hz by (unfold in64, two63; lia).
  intros Hok E. destruct c, slot; simplify_eq/=; unfold command_ok; cbn;
    split_and!; try (by intros ? [= <-]; naive_solver); try (by constructor); done.
Qed.

Lemma write_command_effect c slot cmd f :
  write_ok c slot → write_command c slot = Some cmd →
  (applyCommandInternal (command_norm cmd) f).2 = write_effect c slot f.
Proof.
  intros Hok E. destruct f as [jobs slots meta cold states mem count].
  destruct c as [j|id|s|k|k|k|d|d|data]; simplify_eq/=.
  - done.
  - change (applyCommandInternal _ ?f) with (applyDeleteJob (cmd_with_id CommandDeleteJob id) f).
    unfold applyDeleteJob. simpl. by case_decide.
  - done.
  - change ((applyCommandInternal _ ?f).2) with (del_slot k f). rewrite del_slot_eq by done.
    by destruct cold.
  - destruct slot as [d|]; simplify_eq/=.
    change (applyCommandInternal _ ?f) with (applyArchiveSlot (cmd_archive d) f).
    unfold applyArchiveSlot. simpl. destruct cold as [cs|]; [|done]. by destruct (PutColdSlot _ _ _) as [? [?|]].
  - change (applyCommandInternal _ ?f) with
      (applyUnarchiveSlot (cmd_with_id CommandUnarchiveSlot (pretty k)) f).
    unfold applyUnarchiveSlot. simpl. rewrite decide_False by apply pretty_Z_ne_empty.
    destruct cold as [cs|]; [|done]. rewrite Sscanf_d_pretty by done.
    by destruct (GetColdSlot k cs) as [[?|]|].
  - change (applyCommandInternal _ ?f) with (applyMemoryUpdate d f).
    unfold applyMemoryUpdate. simpl. by rewrite clamp_add_max.
  - change (applyCommandInternal _ ?f) with (applyJobCountUpdate d f).
    unfold applyJobCountUpdate. simpl. by rewrite clamp_add_max.
Qed.

(** [raft_Apply] in every environment. *)
Lemma raft_Apply_eq data n :
  raft_Apply data n =
    let f := run_log (others (n_step n)) (n_fsm n) in
    match outcome (S (n_step n)) with
    | Committed => Some (None, node_after 2 (FSM_Apply data f).2 n)
    | Rejected e => Some (Some e, node_after 2 f n)
    | Unknown e => Some (Some e, node_after 2 (FSM_Apply data f).2 n)
    end.
Proof.
  unfold raft_Apply, interleave, ask, mthen, modify, mreturn. simpl.
  by destruct (outcome (S (n_step n))).
Qed.

Lemma send_eq c slot cmd n :
  write_ok c slot → write_command c slot = Some cmd →
  send cmd n =
    let f := run_log (others (n_step n)) (n_fsm n) in
    match outcome (S (n_step n)) with
    | Committed => Some (None, node_after 2 (write_effect c slot f) n)
    | Rejected e => Some (Some (flatf "failed to apply command: " e), node_after 2 f n)
    | Unknown e =>
        Some (Some (flatf "failed to apply command: " e), node_after 2 (write_effect c slot f) n)
    end.
Proof.
  intros Hok Hc. destruct (write_command_ok _ _ _ Hok Hc) as [Hcmd Hp].
  unfold send. rewrite Marshal_plain by (by apply plain_Command).
  unfold mthen. rewrite raft_Apply_eq. simpl.
  assert (∀ f, (FSM_Apply (enc_Command cmd) f).2 = write_effect c slot f) as Heff.
  { intros f. unfold FSM_Apply. rewrite dec_enc_Command by done. by apply write_command_effect. }
  destruct (outcome (S (n_step n))); simpl; by rewrite ?Heff.
Qed.

(** Telling the handler, and then returning nil. *)
Lemma notify_eq h ev job n :
  (notify h ev job ;; mreturn None)%go n =
    match h with Some g => tell g ev job n | None => Some (@None error, n) end.
Proof.
  unfold notify, tell, IsLeader, ask, mthen, mreturn. destruct h as [g|]; [|done]. simpl.
  destruct (leader (n_step n)); [|done]. by destruct (g ev job _) as [[]|].
Qed.

Lemma send_then cmd (k : M (Node CS Q) (option error)) n :
  (e <- send cmd ;; match e with Some e => mreturn (Some e) | None => k end)%go n =
    match send cmd n with Some (None, n') => k n' | r => r end.
Proof. unfold mthen. by destruct (send cmd n) as [[[e|] n']|]. Qed.

(** C5: What every write of the store does, in every environment. A node that
    does not lead answers [ErrNotLeader] and changes nothing. A leader that is
    to archive a slot nobody has answers [ErrSlotNotFound]. Otherwise others
    write first, and then: the log takes the command and the write returns nil
    with exactly its effect on the state machine, after which the handler
    hears of a created or deleted job; or the log refuses it, which is an
    error without an effect; or the outcome is unknown, which is an error with
    the effect. Queue, cancel functions and the outside are left alone, unless
    by the handler. *)
Theorem store_write_exact h c n :
  write_ok c (found_slot c n) →
  let i := n_step n in
  let f := run_log (others (S i)) (n_fsm n) in
  let f' := write_effect c (found_slot c n) f in
  run_write h c n =
    if negb (leader i) then Some (Some ErrNotLeader, node_after 1 (n_fsm n) n)
    else match c, found_slot c n with
    | WArchiveSlot k, None =>
        Some (Some (wrapf ("slot " +:+ pretty k +:+ ": ") ErrSlotNotFound), node_after 1 (n_fsm n) n)
    | _, _ =>
        match outcome (S (S i)) with
        | Committed =>
            write_done h c (match c with WDeleteJob id => f_jobs (n_fsm n) !! id | _ => None end)
              (node_after 3 f' n)
        | Rejected e => Some (Some (flatf "failed to apply command: " e), node_after 3 f n)
        | Unknown e => Some (Some (flatf "failed to apply command: " e), node_after 3 f' n)
        end
    end.
Proof.
  intros Hok. cbv zeta.
  assert (∀ k, if_leader k n =
    if negb (leader (n_step n)) then Some (Some ErrNotLeader, node_after 1 (n_fsm n) n)
    else k (node_after 1 (n_fsm n) n)) as Hl.
  { intros k. unfold if_leader, IsLeader, ask, mthen. by destruct (leader (n_step n)). }
  destruct (leader (n_step n)) eqn:El; simpl in Hl; simpl negb; cbv iota.
  2:{ destruct c; apply Hl. }
  assert (∀ cmd, write_command c (found_slot c n) = Some cmd →
    send cmd (node_after 1 (n_fsm n) n) = _) as Hsend
    by (intros cmd Hc; apply (send_eq c (found_slot c n)); done).
  destruct c as [j|id|s|k|k|k|d|d|data]; simpl run_write;
    unfold CreateJob, DeleteJob, CreateSlot, DeleteSlot, ArchiveSlot, UnarchiveSlot,
      UpdateMemoryUsage, UpdateJobCount, Store_Apply; rewrite Hl;
    try (rewrite (Hsend _ eq_refl); simpl; by destruct (outcome _)).
  - rewrite send_then, (Hsend _ eq_refl). simpl.
    destruct (outcome _); [apply notify_eq|done..].
  - unfold mthen at 1, gets, GetJob, FSM_GetJob. simpl. rewrite send_then, (Hsend _ eq_refl). simpl.
    destruct (outcome _); [|done..]. rewrite notify_eq.
    destruct (f_jobs (n_fsm n) !! id); simpl; rewrite ?Job_Clone_id; by destruct h.
  - unfold mthen, gets, GetSlot. simpl in *. destruct (FSM_GetSlot k (n_fsm n)) as [d|]; [|done].
    simpl. rewrite (Hsend _ eq_refl). simpl. by destruct (outcome _).
  - unfold mthen. rewrite raft_Apply_eq. simpl. destruct (run_log _ _) eqn:Ef. by destruct (outcome _).
Qed.

(** A node that is not the leader refuses every write with [ErrNotLeader]
    and changes nothing: not the state machine, not the queue, and no call
    leaves the process. *)
Theorem not_leader_refuses_writes h c n :
  leader (n_step n) = false →
  ∃ n', run_write h c n = Some (Some ErrNotLeader, n') ∧ n_fsm n' = n_fsm n ∧
    n_queue n' = n_queue n ∧ n_trace n' = n_trace n.
Proof.
  intros Hl. eexists. destruct c; simpl; unfold CreateJob, DeleteJob, CreateSlot, DeleteSlot,
    ArchiveSlot, UnarchiveSlot, UpdateMemoryUsage, UpdateJobCount, Store_Apply, if_leader,
    IsLeader, ask, mthen; rewrite Hl; by split_and!.
Qed.

(** A job that was created can be read back. On a healthy node,
    [CreateJob] of a job with [int64] times and a payload that JSON can carry
    returns nil; afterwards [GetJob] finds it, field by field, except that an
    empty payload map reads as nil, and it has a fresh pending entry. The
    trip goes through the command encoding, the log and the decoder. *)
Theorem create_job_readable j n :
  healthy_env → job_ints_ok j → plain (enc_Job j) →
  ∃ n', CreateJob None j n = Some (None, n') ∧
    FSM_GetJob (job_ID j) (n_fsm n') = Some (job_norm j) ∧
    FSM_GetExecutionState (job_ID j) (n_fsm n') = Some (pending_state (job_ID j) (job_CreatedAt j)).
Proof.
  intros He Hj Hp. unfold CreateJob, if_leader, IsLeader, mthen. simpl. rewrite (he_leader He).
  unfold send. rewrite Marshal_plain by (apply plain_Command; simpl; by intros ? [= <-]).
  set (n1 := mkNode _ _ _ _ _).
  destruct (healthy_raft_Apply (enc_Command (cmd_create_job j)) n1 He) as (n' & E & Hf & _).
  unfold mthen. rewrite E. exists n'. split; [done|]. rewrite Hf. unfold FSM_Apply.
  rewrite dec_enc_Command.
  - unfold FSM_GetJob, FSM_GetExecutionState, applyCommandInternal. simpl.
    rewrite !lookup_insert_eq. simpl. by rewrite Job_Clone_id.
  - unfold command_ok. cbn. split_and!; [by intros ? [= <-]|by intros ? [=]|by intros ? [=]|
      by intros ? [=]|constructor|unfold in64, two63; lia..].
Qed.

(** The majority check of [ForceRecoverCluster] counts the ids it is
    given, not the servers they name. With three configured servers and the
    id of one of them given twice, it bootstraps a cluster of that single
    server. *)
Theorem recover_without_majority n a b c :
  leader (n_step n) = false → srv_ID a ≠ srv_ID b → srv_ID a ≠ srv_ID c →
  configuration (S (n_step n)) = inl [a; b; c] →
  ∃ e n', ForceRecoverCluster [srv_ID a; srv_ID a] n = Some (e, n') ∧
    n_trace n' = n_trace n ++ [EBootstrap [a]].
Proof.
  intros Hl Hab Hac Hc. unfold ForceRecoverCluster, IsLeader, GetClusterConfiguration, ask, mthen.
  simpl. rewrite Hl. simpl. rewrite Hc. simpl.
  assert (filter (λ s, srv_ID s ∈ [srv_ID a; srv_ID a]) [a; b; c] = [a]) as ->.
  { rewrite filter_cons_True, !filter_cons_False by set_solver. done. }
  eexists _, _. split; done.
Qed.

End theorems.

(** ** A concrete node *)

Definition ex_node_of (f : FSM MemBolt) : Node MemBolt unit := mkNode f tt ∅ 0 [].

Definition ex_env_follower : Env :=
  mkEnv (λ _, false) (λ _, 100 * Second) (λ _, Committed) (λ _, [])
    (λ _, inl [mkServer "a" "x"; mkServer "b" "y"; mkServer "c" "z"]) (λ _, None) (λ _, inl 200).

(** A leader whose entries are refused, and one that never hears of them. *)
Definition ex_env_outcome (o : ApplyOutcome) : Env :=
  mkEnv (λ _, true) (λ _, 100 * Second) (λ _, o) (λ _, []) (λ _, inl []) (λ _, None) (λ _, inl 200).

Lemma store_write_exact_witness :
  (∃ n', @DeleteSlot MemBolt unit _ (ex_env 200) 10 (ex_node_of ex_hot) = Some (None, n') ∧
     f_slots (n_fsm n') !! 10 = None) ∧
  (∃ n' e, @DeleteSlot MemBolt unit _ (ex_env_outcome (Unknown decode_error)) 10 (ex_node_of ex_hot) =
     Some (Some e, n') ∧ f_slots (n_fsm n') !! 10 = None) ∧
  (∃ n' e, @DeleteSlot MemBolt unit _ (ex_env_outcome (Rejected decode_error)) 10 (ex_node_of ex_hot) =
     Some (Some e, n') ∧ is_Some (f_slots (n_fsm n') !! 10)).
Proof.
  assert (in64 10) as Hk by (split; vm_compute; congruence).
  split_and!.
  - eexists. split.
    + exact (@store_write_exact MemBolt unit _ (ex_env 200) None (WDeleteSlot 10) (ex_node_of ex_hot) Hk).
    + vm_compute. reflexivity.
  - eexists _, _. split.
    + exact (@store_write_exact MemBolt unit _ (ex_env_outcome (Unknown decode_error)) None
        (WDeleteSlot 10) (ex_node_of ex_hot) Hk).
    + vm_compute. reflexivity.
  - eexists _, _. split.
    + exact (@store_write_exact MemBolt unit _ (ex_env_outcome (Rejected decode_error)) None
        (WDeleteSlot 10) (ex_node_of ex_hot) Hk).
    + vm_compute. eexists. reflexivity.
Defined.

Lemma not_leader_refuses_writes_witness :
  ∃ n', @run_write MemBolt unit _ ex_env_follower None (WDeleteJob "a") (ex_node_of ex_running) =
    Some (Some ErrNotLeader, n') ∧ n_fsm n' = ex_running.
Proof.
  destruct (@not_leader_refuses_writes MemBolt unit _ ex_env_follower None (WDeleteJob "a")
    (ex_node_of ex_running) eq_refl) as (n' & E & Hf & _).
  exists n'. split; [exact E|exact Hf].
Defined.

Lemma create_job_readable_witness :
  ∃ n', @CreateJob MemBolt unit _ (ex_env 200) None ex_job (ex_node_of NewFSM) = Some (None, n') ∧
    FSM_GetJob "a" (n_fsm n') = Some (job_norm ex_job).
Proof.
  destruct (@create_job_readable MemBolt unit _ (ex_env 200) ex_job (ex_node_of NewFSM))
    as (n' & E & Hj & _).
  - exact (ex_env_healthy 200).
  - split_and!; [intros ? [= <-]|intros ? [=]|]; split; vm_compute; congruence.
  - vm_compute. reflexivity.
  - exists n'. split; [exact E|exact Hj].
Defined.

Lemma recover_without_majority_witness :
  ∃ e n', @ForceRecoverCluster MemBolt unit ex_env_follower ["a"; "a"] (ex_node_of NewFSM) =
    Some (e, n') ∧ n_trace n' = [EBootstrap [mkServer "a" "x"]].
Proof.
  apply (@recover_without_majority MemBolt unit ex_env_follower (ex_node_of NewFSM)
    (mkServer "a" "x") (mkServer "b" "y") (mkServer "c" "z"));
    [reflexivity|vm_compute; congruence|vm_compute; congruence|reflexivity].
Defined.
