(* ===== verification/StatusTracker.v ===== *)
(** * Job status tracking: [status_tracker.go]

    The tracker talks to the store through the Go interface [StatusStore];
    the operations below are written against the class of the same name.
    [StatusStoreLaws] is what a store in good health (leader, entries
    committed, nothing else writing) promises, and the theorems about the
    tracker are proved from these laws alone; [Store.v]'s node discharges
    them at the end of the file. *)

From S2P Require Import Prelude GoStrings Json Types Codec ColdStore FSM GoFloat Store.
From S2P Require Import StoreProps.

(** ** The interface *)

Class StatusStore (W : Type) := {
  ss_IsLeader : M W bool;
  ss_GetExecutionState : string → M W (option JobExecutionState);
  ss_GetAllExecutionStates : M W (gmap string JobExecutionState);
  ss_Apply : json → M W (option error) }.

(** The clock and the status change callback the tracker was given. *)
Class TrackerRuntime (W : Type) := {
  tr_TimeNow : M W Z;
  tr_callback : option (string → string → M W unit) }.

Record ExecutionStats := mkStats {
  stat_Pending : Z;
  stat_InProgress : Z;
  stat_Completed : Z;
  stat_Failed : Z;
  stat_Cancelled : Z;
  stat_Timeout : Z;
  stat_Total : Z;
  stat_LastExecuted : Z;
  stat_FailureRate : float64 }.

Section StatusTracker.

Context {W : Type} `{StatusStore W} `{TrackerRuntime W} `{GoRange}.

Local Open Scope go_scope.

Definition tr_Now : M W Z := t <- tr_TimeNow ;; mreturn (unix t).

Definition callback (old new : string) : M W unit :=
  match tr_callback with Some cb => cb old new | None => mreturn tt end.

(** ** Reading *)

Definition GetStatus (jobID : string) : M W (JobExecutionState + error) :=
  s <- ss_GetExecutionState jobID ;;
  mreturn (match s with Some state => inl state | None => inr (state_not_found jobID) end).

Definition CanExecute (jobID : string) : M W (bool + error) :=
  s <- ss_GetExecutionState jobID ;;
  mreturn
    (match s with
     | None => inl true
     | Some state =>
         let st := es_Status state in
         if decide (st = StatusPending) then inl true
         else if decide (st = StatusTimeout) then inl true
         else if decide (st = StatusFailed) then inl true
         else if decide (st = StatusCompleted) then inl false
         else if decide (st = StatusCancelled) then inl false
         else if decide (st = StatusInProgress) then inl false
         else inr (errors_New ("unknown status: " +:+ st))
     end).

Definition GetExecutionHistory (jobID : string) : M W (list ExecutionAttempt + error) :=
  s <- ss_GetExecutionState jobID ;;
  mreturn (match s with
           | Some state => inl (es_Attempts state)
           | None => inr (state_not_found jobID)
           end).

Definition ListByStatus (status : string) : M W (list JobExecutionState) :=
  all <- ss_GetAllExecutionStates ;;
  mreturn (filter (λ s, es_Status s = status) (range_map all).*2).

(** ** Writing *)

(** Marshal and apply; both errors are wrapped with [%w]. *)
Definition applyCommand (cmd : Command) : M W (option error) :=
  match Marshal (enc_Command cmd) with
  | inr e => mreturn (Some (wrapf "failed to marshal command: " e))
  | inl data => e <- ss_Apply data ;; mreturn (wrapf "failed to apply command: " <$> e)
  end.

Definition applyStatusCommand (cmdType : string) (sc : StatusCommand) : M W (option error) :=
  applyCommand (cmd_status cmdType sc).

Definition applyPruneCommand (sc : StatusCommand) (kept : list ExecutionAttempt)
    : M W (option error) :=
  applyCommand (cmd_prune sc kept).

Definition recordAttempt (jobID : string) (attempt : option ExecutionAttempt)
    : M W (option error) :=
  t <- tr_Now ;;
  applyStatusCommand CommandRecordAttempt (mkStatusCommand jobID "" "" attempt t "").

(** The status before a change, with the default the caller uses. *)
Definition prevStatus (jobID dflt : string) : M W string :=
  s <- GetStatus jobID ;;
  mreturn (match s with inl state => es_Status state | inr _ => dflt end).

Definition MarkInProgress (jobID nodeID : string) : M W (option error) :=
  l <- ss_IsLeader ;;
  if (l : bool) then
    prev <- prevStatus jobID StatusPending ;;
    t <- tr_Now ;;
    e <- applyStatusCommand CommandUpdateJobStatus
           (mkStatusCommand jobID StatusInProgress nodeID None t "") ;;
    match e with
    | Some e => mreturn (Some e)
    | None => callback prev StatusInProgress ;; mreturn None
    end
  else mreturn (Some ErrNotLeader).

(** [MarkCompleted] and [MarkFailed] record the attempt, then the status. *)
Definition markFinished (status jobID : string) (attempt : option ExecutionAttempt)
    : M W (option error) :=
  l <- ss_IsLeader ;;
  if (l : bool) then
    prev <- prevStatus jobID StatusInProgress ;;
    e <- recordAttempt jobID attempt ;;
    match e with
    | Some e => mreturn (Some (wrapf "failed to record attempt: " e))
    | None =>
        t <- tr_Now ;;
        e <- applyStatusCommand CommandUpdateJobStatus
               (mkStatusCommand jobID status "" None t "") ;;
        match e with
        | Some e => mreturn (Some e)
        | None => callback prev status ;; mreturn None
        end
    end
  else mreturn (Some ErrNotLeader).

Definition MarkCompleted (jobID : string) (attempt : option ExecutionAttempt) : M W (option error) :=
  markFinished StatusCompleted jobID attempt.

Definition MarkFailed (jobID : string) (attempt : option ExecutionAttempt) : M W (option error) :=
  markFinished StatusFailed jobID attempt.

Definition MarkCancelled (jobID reason : string) : M W (option error) :=
  l <- ss_IsLeader ;;
  if (l : bool) then
    prev <- prevStatus jobID StatusPending ;;
    t <- tr_Now ;;
    e <- applyStatusCommand CommandUpdateJobStatus
           (mkStatusCommand jobID StatusCancelled "" None t reason) ;;
    match e with
    | Some e => mreturn (Some e)
    | None => callback prev StatusCancelled ;; mreturn None
    end
  else mreturn (Some ErrNotLeader).

(** The body of the loop of [CheckTimeouts]; [acc] is [timedOutJobs]. *)
Definition checkTimeout (now timeout : Z) (entry : string * JobExecutionState) (acc : list string)
    : M W (list string) :=
  let '(jobID, state) := entry in
  if decide (es_Status state = StatusInProgress) then
    if decide (i64 (now - es_LastAttemptAt state) > secs timeout) then
      e <- applyStatusCommand CommandUpdateJobStatus
             (mkStatusCommand jobID StatusTimeout "" None now "") ;;
      match e with
      | Some _ => mreturn acc
      | None => callback StatusInProgress StatusTimeout ;; mreturn (acc ++ [jobID])
      end
    else mreturn acc
  else mreturn acc.

Definition CheckTimeouts (timeout : Z) : M W (list string + error) :=
  l <- ss_IsLeader ;;
  if (l : bool) then
    all <- ss_GetAllExecutionStates ;;
    now <- tr_Now ;;
    timedOut <- for_acc (checkTimeout now timeout) (range_map all) [] ;;
    mreturn (inl timedOut)
  else mreturn (inr ErrNotLeader).

(** The body of the loop of [PruneOldAttempts]. *)
Definition pruneJob (cutoff : Z) (entry : string * JobExecutionState) : M W unit :=
  let '(jobID, state) := entry in
  if decide (length (es_Attempts state) = 0%nat) then mreturn tt
  else
    let kept := filter (λ a, att_StartTime a >= cutoff) (es_Attempts state) in
    let prunedCount := (length (es_Attempts state) - length kept)%nat in
    if decide (0 < prunedCount)%nat then
      t <- tr_Now ;;
      _ <- applyPruneCommand (mkStatusCommand jobID "" "" None t "") kept ;;
      mreturn tt
    else mreturn tt.

(** [time.Now().Add(-retention).Unix()] *)
Definition PruneOldAttempts (retention : Z) : M W (option error) :=
  l <- ss_IsLeader ;;
  if (l : bool) then
    all <- ss_GetAllExecutionStates ;;
    t <- tr_TimeNow ;;
    for_each (pruneJob (unix (t + i64 (- retention)))) (range_map all) ;;
    mreturn None
  else mreturn (Some ErrNotLeader).

(** One round of the [switch] of [GetExecutionStats]. *)
Definition count_state (st : ExecutionStats) (s : JobExecutionState) : ExecutionStats :=
  let '(mkStats p i c f x t n last r) := st in
  let last' := if decide (es_CompletedAt s > last) then es_CompletedAt s else last in
  let status := es_Status s in
  if decide (status = StatusPending) then mkStats (p + 1) i c f x t n last r
  else if decide (status = StatusInProgress) then mkStats p (i + 1) c f x t n last r
  else if decide (status = StatusCompleted) then mkStats p i (c + 1) f x t n last' r
  else if decide (status = StatusFailed) then mkStats p i c (f + 1) x t n last' r
  else if decide (status = StatusCancelled) then mkStats p i c f (x + 1) t n last r
  else if decide (status = StatusTimeout) then mkStats p i c f x (t + 1) n last r
  else st.

Definition failure_rate (st : ExecutionStats) : ExecutionStats :=
  let '(mkStats p i c f x t n last r) := st in
  let finishedCount := c + f + t in
  if decide (finishedCount > 0) then
    mkStats p i c f x t n last (f_div (f_of_Z (f + t)) (f_of_Z finishedCount))
  else st.

Definition GetExecutionStats : M W ExecutionStats :=
  all <- ss_GetAllExecutionStates ;;
  let init := mkStats 0 0 0 0 0 0 (Z.of_nat (size all)) 0 (f_of_Z 0) in
  mreturn (failure_rate (foldl count_state init (range_map all).*2)).

End StatusTracker.

(** ** What a healthy store promises *)

(** The effect of a status command on the execution states. *)
Definition status_effect (cmd : Command) (m : gmap string JobExecutionState)
    : gmap string JobExecutionState :=
  f_executionStates (applyCommandInternal cmd (set_executionStates m (NewFSM (CS := MemBolt)))).2.

(** Commands that only touch execution states. *)
Definition is_status_type (t : string) : Prop :=
  t = CommandUpdateJobStatus ∨ t = CommandRecordAttempt ∨ t = CommandPruneAttempts.

Class StatusStoreLaws (W : Type) `{StatusStore W} `{TrackerRuntime W} := {
  ss_ok : W → Prop;
  ss_states : W → gmap string JobExecutionState;
  ss_leader_law : ∀ w, ss_ok w → ∃ w', ss_IsLeader w = Some (true, w') ∧ ss_ok w' ∧
    ss_states w' = ss_states w;
  ss_time_law : ∀ w, ss_ok w → ∃ t w', tr_TimeNow w = Some (t, w') ∧ in64 (unix t) ∧ ss_ok w' ∧
    ss_states w' = ss_states w;
  ss_callback_law : ∀ cb old new w, tr_callback = Some cb → ss_ok w →
    ∃ w', cb old new w = Some (tt, w') ∧ ss_ok w' ∧ ss_states w' = ss_states w;
  ss_get_law : ∀ id w, ss_GetExecutionState id w = Some (ss_states w !! id, w);
  ss_all_law : ∀ w, ss_GetAllExecutionStates w = Some (ss_states w, w);
  ss_apply_law : ∀ data cmd w, ss_ok w → dec_Command data = Some cmd →
    is_status_type (cmd_Type cmd) →
    ∃ w', ss_Apply data w = Some (None, w') ∧ ss_ok w' ∧
      ss_states w' = status_effect cmd (ss_states w) }.

Section status_effect.

Lemma status_effect_update sc m :
  status_effect (cmd_status CommandUpdateJobStatus sc) m =
    match m !! sc_JobID sc with
    | Some s =>
        match validateStateTransition (es_Status s) (sc_Status sc) with
        | None => <[sc_JobID sc := update_status sc s]> m
        | Some _ => m
        end
    | None =>
        let s := pending_state (sc_JobID sc) (sc_Timestamp sc) in
        match validateStateTransition StatusPending (sc_Status sc) with
        | None => <[sc_JobID sc := update_status sc s]> m
        | Some _ => <[sc_JobID sc := s]> m
        end
    end.
Proof.
  unfold status_effect, applyCommandInternal. simpl. unfold applyStatusUpdate. simpl.
  destruct (m !! sc_JobID sc) as [s|] eqn:E; destruct (validateStateTransition _ _); simpl;
    try done. by rewrite insert_insert_eq.
Qed.

Lemma status_effect_record sc m :
  status_effect (cmd_status CommandRecordAttempt sc) m =
    match m !! sc_JobID sc, sc_Attempt sc with
    | Some s, Some a => <[sc_JobID sc := set_Attempts (es_Attempts s ++ [a]) s]> m
    | _, _ => m
    end.
Proof.
  unfold status_effect, applyCommandInternal. simpl. unfold applyRecordAttempt. simpl.
  destruct (m !! sc_JobID sc) as [s|]; [|done]. by destruct (sc_Attempt sc).
Qed.

Lemma status_effect_prune sc kept m :
  status_effect (cmd_prune sc kept) m =
    match m !! sc_JobID sc with
    | Some s => <[sc_JobID sc := set_Attempts kept s]> m
    | None => m
    end.
Proof.
  unfold status_effect, applyCommandInternal. simpl. unfold applyPruneAttempts. simpl.
  by destruct (m !! sc_JobID sc) as [s|].
Qed.

(** On any state machine a status command does just that. *)
Lemma status_effect_fsm {CS} `{ColdSlotStore CS} cmd (f : FSM CS) :
  is_status_type (cmd_Type cmd) →
  (applyCommandInternal cmd f).2 =
    set_executionStates (status_effect cmd (f_executionStates f)) f.
Proof.
  intros Ht. unfold status_effect, applyCommandInternal.
  destruct f as [jobs slots meta cold states mem cnt].
  destruct Ht as [-> | [-> | ->]]; simpl; destruct (cmd_StatusCommand cmd) as [sc|]; try done.
  - unfold applyStatusUpdate. simpl. destruct (states !! sc_JobID sc) as [s|];
      by destruct (validateStateTransition _ _).
  - unfold applyRecordAttempt. simpl. destruct (states !! sc_JobID sc) as [s|]; [|done].
    by destruct (sc_Attempt sc).
  - unfold applyPruneAttempts. simpl. by destruct (states !! sc_JobID sc) as [s|].
Qed.

End status_effect.

(** ** The tracker on a healthy store *)

Section healthy.

Context {W : Type} `{StatusStoreLaws W} `{GoRange}.

Local Open Scope go_scope.

Implicit Types w : W.

(** [c] ends in a healthy store with answer [a] and states [m]. *)
Definition yields {A} (c : M W A) w (a : A) (m : gmap string JobExecutionState) : Prop :=
  ∃ w', c w = Some (a, w') ∧ ss_ok w' ∧ ss_states w' = m.

Lemma yields_ret {A} (a b : A) w m :
  ss_ok w → ss_states w = m → a = b → yields (mreturn a) w b m.
Proof. intros Hw Hm ->. by exists w. Qed.

Lemma yields_bind {A B} (c : M W A) (k : A → M W B) w a b m m' :
  yields c w a m → (∀ w', ss_ok w' → ss_states w' = m → yields (k a) w' b m') →
  yields (mthen c k) w b m'.
Proof.
  intros (w1 & E & Hok & Hs) Hk. destruct (Hk w1 Hok Hs) as (w2 & E2 & ?).
  exists w2. split; [|done]. unfold mthen. by rewrite E.
Qed.

Lemma yields_leader w : ss_ok w → yields ss_IsLeader w true (ss_states w).
Proof. apply ss_leader_law. Qed.

Lemma yields_now w : ss_ok w → ∃ t, in64 t ∧ yields tr_Now w t (ss_states w).
Proof.
  intros Hw. destruct (ss_time_law w Hw) as (t & w' & E & Ht & Hok & Hs).
  exists (unix t). split; [done|]. exists w'. split; [|done]. unfold tr_Now, mthen. by rewrite E.
Qed.

Lemma yields_get id w :
  ss_ok w → yields (ss_GetExecutionState id) w (ss_states w !! id) (ss_states w).
Proof. intros Hw. exists w. split; [apply ss_get_law|done]. Qed.

Lemma yields_callback old new w : ss_ok w → yields (callback old new) w tt (ss_states w).
Proof.
  intros Hw. unfold callback. destruct tr_callback as [cb|] eqn:E; [|by apply yields_ret].
  by apply ss_callback_law.
Qed.

Lemma yields_prev id dflt w :
  ss_ok w → yields (prevStatus id dflt) w
    (match ss_states w !! id with Some s => es_Status s | None => dflt end) (ss_states w).
Proof.
  intros Hw. unfold prevStatus, GetStatus.
  eapply yields_bind; [eapply yields_bind; [by apply yields_get|]|].
  - intros w1 Hw1 Hs1. by apply yields_ret.
  - intros w1 Hw1 Hs1. apply yields_ret; [done|done|]. by destruct (ss_states w !! id).
Qed.

Lemma yields_apply cmd w :
  ss_ok w → command_ok cmd → cmd_Job cmd = None → is_status_type (cmd_Type cmd) →
  yields (applyCommand cmd) w None (status_effect cmd (ss_states w)).
Proof.
  intros Hw Hc Hj Ht. unfold applyCommand. rewrite Marshal_Command by done.
  assert (dec_Command (enc_Command cmd) = Some cmd) as Hd.
  { rewrite dec_enc_Command by done. unfold command_norm. rewrite Hj. destruct cmd. simpl in *. by subst. }
  destruct (ss_apply_law _ _ _ Hw Hd Ht) as (w1 & E & Hok & Hs).
  exists w1. split; [|done]. unfold mthen. by rewrite E.
Qed.

Lemma status_cmd_ok t sc :
  in64 (sc_Timestamp sc) → (∀ a, sc_Attempt sc = Some a → attempt_ok a) →
  command_ok (cmd_status t sc).
Proof.
  intros Ht Ha. unfold command_ok. cbn.
  split_and!; [by intros ? [=]|by intros ? [=]|by intros ? [=]| |constructor|..];
    [|unfold in64, two63; lia..].
  intros sc' [= <-]. by split.
Qed.

Lemma yields_status t sc w :
  ss_ok w → in64 (sc_Timestamp sc) → (∀ a, sc_Attempt sc = Some a → attempt_ok a) →
  t = CommandUpdateJobStatus ∨ t = CommandRecordAttempt →
  yields (applyStatusCommand t sc) w None (status_effect (cmd_status t sc) (ss_states w)).
Proof.
  intros Hw Ht Ha Hty. apply yields_apply; [done|by apply status_cmd_ok|done|].
  unfold is_status_type. simpl. tauto.
Qed.

(** *** Claiming and finishing *)

(** A job may be claimed when nothing is known of it or the state machine
    allows it to start. *)
Definition claimable (o : option JobExecutionState) : Prop :=
  match o with
  | None => True
  | Some s => validateStateTransition (es_Status s) StatusInProgress = None
  end.

Lemma known_status_cases st :
  known_status st → st = StatusPending ∨ st = StatusInProgress ∨ st = StatusTimeout ∨
    st = StatusFailed ∨ st = StatusCompleted ∨ st = StatusCancelled.
Proof.
  intros [l Hl]. apply elem_of_list_to_map_2 in Hl. rewrite !elem_of_cons in Hl.
  destruct Hl as [E|[E|[E|[E|[E|[E|E]]]]]]; try (injection E as -> _; tauto). by apply not_elem_of_nil in E.
Qed.

Lemma CanExecute_spec id w :
  (∀ s, ss_states w !! id = Some s → known_status (es_Status s)) →
  ∃ b : bool, CanExecute id w = Some (inl b, w) ∧ (b = true ↔ claimable (ss_states w !! id)).
Proof.
  intros Hk. unfold CanExecute, mthen. rewrite ss_get_law. unfold mreturn.
  destruct (ss_states w !! id) as [s|]; [|by exists true]. specialize (Hk s eq_refl).
  unfold claimable. destruct (known_status_cases _ Hk) as [E|[E|[E|[E|[E|E]]]]]; rewrite E; simpl;
    eexists; (split; [reflexivity|]); by vm_compute.
Qed.

Lemma MarkInProgress_yields id node w :
  ss_ok w → ∃ t, in64 t ∧
    yields (MarkInProgress id node) w None
      (status_effect (cmd_status CommandUpdateJobStatus
         (mkStatusCommand id StatusInProgress node None t "")) (ss_states w)).
Proof.
  intros Hw. unfold MarkInProgress. destruct (yields_leader w Hw) as (w1 & E1 & Hw1 & Hs1).
  destruct (yields_prev id StatusPending w1 Hw1) as (w2 & E2 & Hw2 & Hs2).
  destruct (yields_now w2 Hw2) as (t & Ht & w3 & E3 & Hw3 & Hs3).
  destruct (yields_status CommandUpdateJobStatus
    (mkStatusCommand id StatusInProgress node None t "") w3 Hw3 Ht) as (w4 & E4 & Hw4 & Hs4);
    [done|by left|].
  destruct (yields_callback (match ss_states w1 !! id with Some s => es_Status s
    | None => StatusPending end) StatusInProgress w4 Hw4) as (w5 & E5 & Hw5 & Hs5).
  exists t. split; [done|]. exists w5. unfold mthen. rewrite E1, E2, E3, E4, E5.
  split; [done|]. split; [done|]. by rewrite Hs5, Hs4, Hs3, Hs2, Hs1.
Qed.

Lemma markFinished_yields st id att w :
  ss_ok w → attempt_ok att → ∃ t1 t2, in64 t2 ∧
    yields (markFinished st id (Some att)) w None
      (status_effect (cmd_status CommandUpdateJobStatus (mkStatusCommand id st "" None t2 ""))
        (status_effect (cmd_status CommandRecordAttempt
           (mkStatusCommand id "" "" (Some att) t1 "")) (ss_states w))).
Proof.
  intros Hw Ha. unfold markFinished, recordAttempt.
  destruct (yields_leader w Hw) as (w1 & E1 & Hw1 & Hs1).
  destruct (yields_prev id StatusInProgress w1 Hw1) as (w2 & E2 & Hw2 & Hs2).
  destruct (yields_now w2 Hw2) as (t1 & Ht1 & w3 & E3 & Hw3 & Hs3).
  destruct (yields_status CommandRecordAttempt
    (mkStatusCommand id "" "" (Some att) t1 "") w3 Hw3 Ht1) as (w4 & E4 & Hw4 & Hs4);
    [by intros a [= <-]|by right|].
  destruct (yields_now w4 Hw4) as (t2 & Ht2 & w5 & E5 & Hw5 & Hs5).
  destruct (yields_status CommandUpdateJobStatus
    (mkStatusCommand id st "" None t2 "") w5 Hw5 Ht2) as (w6 & E6 & Hw6 & Hs6); [done|by left|].
  destruct (yields_callback (match ss_states w1 !! id with Some s => es_Status s
    | None => StatusInProgress end) st w6 Hw6) as (w7 & E7 & Hw7 & Hs7).
  exists t1, t2. split; [done|]. exists w7. unfold mthen. rewrite E1, E2, E3, E4, E5, E6, E7.
  split; [done|]. split; [done|]. by rewrite Hs7, Hs6, Hs5, Hs4, Hs3, Hs2, Hs1.
Qed.

(** The time of a write is the one the clock reads after the leader check. *)
Lemma clock_read w w1 t w2 :
  ss_ok w → ss_IsLeader w = Some (true, w1) → tr_TimeNow w1 = Some (t, w2) →
  ss_ok w1 ∧ ss_states w1 = ss_states w ∧ in64 (unix t) ∧ ss_ok w2 ∧ ss_states w2 = ss_states w ∧
  tr_Now w1 = Some (unix t, w2).
Proof.
  intros Hw E1 E2. destruct (ss_leader_law w Hw) as (w1' & E1' & Hw1 & Hs1). rewrite E1 in E1'. injection E1' as <-.
  destruct (ss_time_law w1 Hw1) as (t' & w2' & E2' & Ht & Hw2 & Hs2). rewrite E2 in E2'. injection E2' as <- <-.
  split_and!; try done; [by rewrite Hs2|]. unfold tr_Now, mthen. by rewrite E2.
Qed.

Lemma prev_same id dflt w :
  prevStatus id dflt w = Some (match ss_states w !! id with Some s => es_Status s | None => dflt end, w).
Proof. unfold prevStatus, GetStatus, mthen. rewrite ss_get_law. by destruct (ss_states w !! id). Qed.

Lemma MarkCancelled_at id reason w w1 t w2 :
  ss_ok w → ss_IsLeader w = Some (true, w1) → tr_TimeNow w1 = Some (t, w2) →
  yields (MarkCancelled id reason) w None
    (status_effect (cmd_status CommandUpdateJobStatus
       (mkStatusCommand id StatusCancelled "" None (unix t) reason)) (ss_states w)).
Proof.
  intros Hw E1 Et. destruct (clock_read _ _ _ _ Hw E1 Et) as (Hw1 & Hs1 & Ht & Hw2 & Hs2 & E2).
  destruct (yields_status CommandUpdateJobStatus
    (mkStatusCommand id StatusCancelled "" None (unix t) reason) w2 Hw2 Ht) as (w4 & E4 & Hw4 & Hs4);
    [done|by left|].
  destruct (yields_callback (match ss_states w1 !! id with Some s => es_Status s
    | None => StatusPending end) StatusCancelled w4 Hw4) as (w5 & E5 & Hw5 & Hs5).
  exists w5. unfold MarkCancelled, mthen. rewrite E1, prev_same, E2, E4, E5.
  split; [done|]. split; [done|]. by rewrite Hs5, Hs4, Hs2.
Qed.

Lemma MarkCancelled_yields id reason w :
  ss_ok w → ∃ t, in64 t ∧
    yields (MarkCancelled id reason) w None
      (status_effect (cmd_status CommandUpdateJobStatus
         (mkStatusCommand id StatusCancelled "" None t reason)) (ss_states w)).
Proof.
  intros Hw. destruct (ss_leader_law w Hw) as (w1 & E1 & Hw1 & _).
  destruct (ss_time_law w1 Hw1) as (t & w2 & E2 & Ht & _). exists (unix t). split; [done|].
  by eapply MarkCancelled_at.
Qed.

(** *** Timeouts *)

Definition overdue (now timeout : Z) (s : JobExecutionState) : Prop :=
  es_Status s = StatusInProgress ∧ i64 (now - es_LastAttemptAt s) > secs timeout.

#[local] Instance overdue_dec now timeout s : Decision (overdue now timeout s).
Proof. unfold overdue. apply _. Defined.

(** What [CheckTimeouts] makes of an overdue entry: the status changes and the
    node is cleared. *)
Definition timed_out (s : JobExecutionState) : JobExecutionState :=
  mkState (es_JobID s) StatusTimeout (es_AttemptCount s) (es_CreatedAt s) (es_FirstAttemptAt s)
    (es_LastAttemptAt s) (es_CompletedAt s) (es_CancelledAt s) (es_CancellationReason s)
    "" (es_Attempts s).

Lemma timeout_effect id now s m :
  m !! id = Some s → es_Status s = StatusInProgress →
  status_effect (cmd_status CommandUpdateJobStatus
    (mkStatusCommand id StatusTimeout "" None now "")) m = <[id := timed_out s]> m.
Proof. intros Hs E. rewrite status_effect_update. cbn [sc_JobID]. by rewrite Hs, E. Qed.

Lemma checkTimeout_yields now timeout id s acc w :
  ss_ok w → in64 now → ss_states w !! id = Some s →
  yields (checkTimeout now timeout (id, s) acc) w
    (if decide (overdue now timeout s) then acc ++ [id] else acc)
    (if decide (overdue now timeout s) then <[id := timed_out s]> (ss_states w) else ss_states w).
Proof.
  intros Hw Hn Hs. unfold checkTimeout, overdue.
  destruct (decide (es_Status s = StatusInProgress)) as [E|E];
    [|rewrite !decide_False by tauto; by apply yields_ret].
  destruct (decide (i64 (now - es_LastAttemptAt s) > secs timeout)) as [Ho|Ho];
    [|rewrite !decide_False by tauto; by apply yields_ret].
  rewrite !decide_True by done. rewrite <-(timeout_effect id now s (ss_states w) Hs E).
  eapply yields_bind; [apply yields_status; [done|done|by intros ? [=]|by left]|].
  intros w1 Hw1 Hs1. rewrite <-Hs1.
  eapply yields_bind; [by apply yields_callback|]. intros w2 Hw2 Hs2. by apply yields_ret.
Qed.

(** The states after the entries [l] of [m0] were checked. *)
Definition after_check now timeout (l : list (string * JobExecutionState))
    (m0 : gmap string JobExecutionState) (id : string) : option JobExecutionState :=
  match m0 !! id with
  | Some s => Some (if decide (id ∈ l.*1 ∧ overdue now timeout s) then timed_out s else s)
  | None => None
  end.

Lemma check_loop now timeout w :
  ss_ok w → in64 now →
  ∃ acc w', for_acc (checkTimeout now timeout) (range_map (ss_states w)) [] w = Some (acc, w') ∧
    ss_ok w' ∧ acc = (filter (λ p, overdue now timeout p.2) (range_map (ss_states w))).*1 ∧
    ∀ id, ss_states w' !! id = after_check now timeout (range_map (ss_states w)) (ss_states w) id.
Proof.
  intros Hw Hn. set (m0 := ss_states w).
  apply (for_acc_ind (λ l acc w', ss_ok w' ∧
    acc = (filter (λ p, overdue now timeout p.2) l).*1 ∧
    ∀ id, ss_states w' !! id = after_check now timeout l m0 id)).
  - split_and!; [done|done|]. intros id. unfold after_check. fold m0.
    destruct (m0 !! id); [|done]. rewrite decide_False by set_solver. done.
  - intros l1 [id s] l2 acc w1 Hl (Hw1 & -> & Hs1).
    assert (m0 !! id = Some s) as Hid by (apply elem_of_range_map; rewrite Hl; set_solver).
    assert (id ∉ l1.*1) as Hnew.
    { intros Hin. pose proof (range_map_NoDup m0) as Hnd. rewrite Hl, fmap_app in Hnd.
      apply NoDup_app in Hnd as (_ & Hd & _). apply (Hd id Hin). simpl. set_solver. }
    assert (ss_states w1 !! id = Some s) as Hs.
    { rewrite Hs1. unfold after_check. rewrite Hid, decide_False; [done|]. tauto. }
    destruct (checkTimeout_yields now timeout id s
      (filter (λ p, overdue now timeout p.2) l1).*1 w1 Hw1 Hn Hs) as (w2 & E & Hw2 & Hs2).
    eexists _, w2. split; [exact E|]. split; [done|]. split.
    { rewrite filter_app, fmap_app. cbn. by case_decide; rewrite ?app_nil_r. }
    intros x. rewrite Hs2. unfold after_check. rewrite fmap_app. cbn.
    destruct (decide (x = id)) as [->|Hne].
    + rewrite Hid. case_decide.
      * rewrite lookup_insert_eq, decide_True; [done|]. set_solver.
      * rewrite Hs, decide_False by tauto. done.
    + assert (ss_states w1 !! x = (if decide (overdue now timeout s)
        then <[id:=timed_out s]> (ss_states w1) else ss_states w1) !! x) as <-
        by (case_decide; by rewrite ?lookup_insert_ne).
      rewrite Hs1. unfold after_check. destruct (m0 !! x) as [sx|]; [|done].
      f_equal. apply decide_ext. set_solver.
Qed.

(** *** Pruning *)

Definition pruned (cutoff : Z) (s : JobExecutionState) : JobExecutionState :=
  set_Attempts (filter (λ a, att_StartTime a >= cutoff) (es_Attempts s)) s.

Lemma Forall_filter_1 {A} (Q P : A → Prop) `{∀ x, Decision (P x)} (l : list A) :
  Forall Q l → Forall Q (filter P l).
Proof.
  rewrite !Forall_forall. intros HQ x Hx. apply list_elem_of_filter in Hx as [_ Hx]. by apply HQ.
Qed.

Lemma filter_length_id {A} (P : A → Prop) `{∀ x, Decision (P x)} (l : list A) :
  length l = length (filter P l) → filter P l = l.
Proof.
  induction l as [|x l IH]; [done|]. rewrite filter_cons. case_decide; simpl; intros Hl.
  - f_equal. apply IH. lia.
  - pose proof (length_filter P l). lia.
Qed.

Lemma pruned_id cutoff s :
  (length (es_Attempts s) -
   length (filter (λ a, (att_StartTime a >= cutoff)%Z) (es_Attempts s)))%nat = 0%nat →
  pruned cutoff s = s.
Proof.
  intros E. unfold pruned. rewrite filter_length_id; [by destruct s|].
  pose proof (length_filter (λ a, att_StartTime a >= cutoff) (es_Attempts s)). lia.
Qed.

Lemma pruneJob_yields cutoff id s w :
  ss_ok w → ss_states w !! id = Some s → Forall attempt_ok (es_Attempts s) →
  ∃ w', pruneJob cutoff (id, s) w = Some (tt, w') ∧ ss_ok w' ∧
    ss_states w' = <[id := pruned cutoff s]> (ss_states w).
Proof.
  intros Hw Hs Ha. unfold pruneJob. case_decide as Hz.
  { exists w. split_and!; [done|done|]. rewrite pruned_id by lia. by rewrite insert_id. }
  case_decide as Hp.
  - destruct (yields_now w Hw) as (t & Ht & w1 & E1 & Hw1 & Hs1).
    destruct (yields_apply (cmd_prune (mkStatusCommand id "" "" None t "")
      (filter (λ a, att_StartTime a >= cutoff) (es_Attempts s))) w1 Hw1) as (w2 & E2 & Hw2 & Hs2).
    + unfold command_ok. cbn.
      split_and!; [by intros ? [=]|by intros ? [=]|by intros ? [=]| | |..];
        [|by apply Forall_filter_1|unfold in64, two63; lia..].
      intros sc' [= <-]. by split; [|intros ? [=]].
    + done.
    + unfold is_status_type. simpl. tauto.
    + exists w2. unfold mthen, applyPruneCommand. rewrite E1, E2. split; [done|]. split; [done|].
      rewrite Hs2, status_effect_prune. cbn [sc_JobID]. by rewrite Hs1, Hs.
  - exists w. split_and!; [done|done|]. rewrite pruned_id by lia. by rewrite insert_id.
Qed.

Lemma prune_loop cutoff w :
  ss_ok w → (∀ id s, ss_states w !! id = Some s → Forall attempt_ok (es_Attempts s)) →
  ∃ w', for_each (pruneJob cutoff) (range_map (ss_states w)) w = Some (tt, w') ∧ ss_ok w' ∧
    ss_states w' = pruned cutoff <$> ss_states w.
Proof.
  intros Hw Ha. set (m0 := ss_states w) in *.
  destruct (for_each_ind (λ l w', ss_ok w' ∧ ∀ id, ss_states w' !! id =
      match m0 !! id with
      | Some s => Some (if decide (id ∈ l.*1) then pruned cutoff s else s)
      | None => None
      end) (pruneJob cutoff) (range_map m0) w) as (w' & E & Hw' & Hs').
  - split; [done|]. intros id. fold m0. destruct (m0 !! id); [|done].
    by rewrite decide_False by set_solver.
  - intros l1 [id s] l2 w1 Hl (Hw1 & Hs1).
    assert (m0 !! id = Some s) as Hid by (apply elem_of_range_map; rewrite Hl; set_solver).
    assert (id ∉ l1.*1) as Hnew.
    { intros Hin. pose proof (range_map_NoDup m0) as Hnd. rewrite Hl, fmap_app in Hnd.
      apply NoDup_app in Hnd as (_ & Hd & _). apply (Hd id Hin). simpl. set_solver. }
    assert (ss_states w1 !! id = Some s) as Hs by (by rewrite Hs1, Hid, decide_False).
    destruct (pruneJob_yields cutoff id s w1 Hw1 Hs (Ha _ _ Hid)) as (w2 & E & Hw2 & Hs2).
    exists w2. split; [done|]. split; [done|]. intros x. rewrite Hs2, fmap_app. cbn.
    destruct (decide (x = id)) as [->|Hne].
    + rewrite lookup_insert_eq, Hid, decide_True by set_solver. done.
    + rewrite lookup_insert_ne, Hs1 by done. destruct (m0 !! x) as [sx|]; [|done].
      f_equal. apply decide_ext. set_solver.
  - exists w'. split; [done|]. split; [done|]. apply map_eq. intros id.
    rewrite Hs', lookup_fmap. destruct (m0 !! id) as [s|] eqn:Hid; [|done]. simpl.
    rewrite decide_True; [done|]. apply list_elem_of_fmap. exists (id, s).
    split; [done|]. by apply elem_of_range_map.
Qed.

(** *** Statistics *)

Definition count_status (st : string) (l : list JobExecutionState) : Z :=
  Z.of_nat (length (filter (λ s, es_Status s = st) l)).

Lemma count_status_cons st s l :
  count_status st (s :: l) = count_status st l + (if decide (es_Status s = st) then 1 else 0).
Proof. unfold count_status. rewrite filter_cons. case_decide; simpl; lia. Qed.

Lemma count_status_perm st l l' : l ≡ₚ l' → count_status st l = count_status st l'.
Proof. unfold count_status. by intros ->. Qed.

(** Two different statuses of the same entry. *)
Ltac status_clash :=
  match goal with
  | E : es_Status ?s = _, E' : es_Status ?s = _ |- _ =>
      exfalso; rewrite E in E'; vm_compute in E'; discriminate E'
  end.

(** What one round of the counting loop adds. *)
Lemma count_state_spec st s :
  let r := count_state st s in
  let ind status := if decide (es_Status s = status) then 1 else 0 in
  stat_Pending r = stat_Pending st + ind StatusPending ∧
  stat_InProgress r = stat_InProgress st + ind StatusInProgress ∧
  stat_Completed r = stat_Completed st + ind StatusCompleted ∧
  stat_Failed r = stat_Failed st + ind StatusFailed ∧
  stat_Cancelled r = stat_Cancelled st + ind StatusCancelled ∧
  stat_Timeout r = stat_Timeout st + ind StatusTimeout ∧
  stat_Total r = stat_Total st ∧ stat_LastExecuted st <= stat_LastExecuted r ∧
  (es_Status s = StatusCompleted ∨ es_Status s = StatusFailed →
     es_CompletedAt s <= stat_LastExecuted r).
Proof.
  destruct st as [p i c f x t n last r0]. unfold count_state. cbv zeta.
  repeat case_decide; simpl; split_and!; try lia; try status_clash;
    intros [?|?]; first [lia | congruence | status_clash].
Qed.

(** What the counting loop adds up. *)
Lemma count_states_spec l st :
  let r := foldl count_state st l in
  stat_Pending r = stat_Pending st + count_status StatusPending l ∧
  stat_InProgress r = stat_InProgress st + count_status StatusInProgress l ∧
  stat_Completed r = stat_Completed st + count_status StatusCompleted l ∧
  stat_Failed r = stat_Failed st + count_status StatusFailed l ∧
  stat_Cancelled r = stat_Cancelled st + count_status StatusCancelled l ∧
  stat_Timeout r = stat_Timeout st + count_status StatusTimeout l ∧
  stat_Total r = stat_Total st ∧ stat_LastExecuted st <= stat_LastExecuted r ∧
  (∀ s, s ∈ l → es_Status s = StatusCompleted ∨ es_Status s = StatusFailed →
     es_CompletedAt s <= stat_LastExecuted r).
Proof.
  revert st. induction l as [|s l IH]; intros st; cbv zeta.
  { unfold count_status. simpl. split_and!; try lia. set_solver. }
  cbn [foldl]. destruct (IH (count_state st s)) as (I1 & I2 & I3 & I4 & I5 & I6 & I7 & I8 & I9).
  destruct (count_state_spec st s) as (J1 & J2 & J3 & J4 & J5 & J6 & J7 & J8 & J9).
  rewrite I1, I2, I3, I4, I5, I6, I7, !count_status_cons, J1, J2, J3, J4, J5, J6, J7.
  split_and!; try lia. intros s' [->|Hs']%elem_of_cons Hst; [|by apply I9].
  specialize (J9 Hst). lia.
Qed.

(** Every known status is counted once. *)
Lemma count_status_total l :
  Forall (λ s, known_status (es_Status s)) l →
  count_status StatusPending l + count_status StatusInProgress l +
  count_status StatusCompleted l + count_status StatusFailed l +
  count_status StatusCancelled l + count_status StatusTimeout l = Z.of_nat (length l).
Proof.
  induction 1 as [|s l Hs Hl IH]; [done|]. rewrite !count_status_cons. cbn [length].
  rewrite Nat2Z.inj_succ. apply known_status_cases in Hs.
  destruct Hs as [E|[E|[E|[E|[E|E]]]]]; rewrite E; simpl; lia.
Qed.

(** *** Theorems *)

(** The idempotency check agrees with the state machine. [CanExecute]
    answers without an error and says yes exactly for the jobs that
    [validateStateTransition] would let move to in_progress (or that have no
    entry yet). *)
Theorem can_execute_iff_claimable id w :
  (∀ s, ss_states w !! id = Some s → known_status (es_Status s)) →
  ∃ b : bool, CanExecute id w = Some (inl b, w) ∧ (b = true ↔ claimable (ss_states w !! id)).
Proof. apply CanExecute_spec. Qed.

(** The normal life of a job. On a healthy store, [MarkInProgress] on a
    claimable entry followed by [MarkCompleted] or [MarkFailed] both report
    success and leave exactly the expected entry: the given final status, one
    more attempt counted and recorded, no executing node, first attempt time
    kept if there was one, and no other job touched. *)
Theorem mark_lifecycle id node att final s w :
  ss_ok w → ss_states w !! id = Some s → claimable (Some s) → attempt_ok att →
  final = StatusCompleted ∨ final = StatusFailed →
  ∃ t1 t2 w1 w2,
    MarkInProgress id node w = Some (None, w1) ∧
    (if decide (final = StatusCompleted) then MarkCompleted id (Some att)
     else MarkFailed id (Some att)) w1 = Some (None, w2) ∧
    ss_states w2 = <[id := mkState (es_JobID s) final (i64 (es_AttemptCount s + 1)) (es_CreatedAt s)
      (if decide (es_FirstAttemptAt s = 0) then t1 else es_FirstAttemptAt s) t1 t2
      (es_CancelledAt s) (es_CancellationReason s) "" (es_Attempts s ++ [att])]> (ss_states w).
Proof.
  intros Hw Hs Hc Ha Hf. unfold claimable in Hc.
  destruct (MarkInProgress_yields id node w Hw) as (t1 & Ht1 & w1 & E1 & Hw1 & Hs1).
  rewrite status_effect_update in Hs1. cbn [sc_JobID sc_Status] in Hs1. rewrite Hs, Hc in Hs1.
  destruct (markFinished_yields final id att w1 Hw1 Ha) as (t0 & t2 & Ht2 & w2 & E2 & Hw2 & Hs2).
  exists t1, t2, w1, w2. split; [done|]. split.
  { unfold MarkCompleted, MarkFailed. destruct Hf as [-> | ->]; simpl; done. }
  rewrite Hs2, status_effect_update, status_effect_record. cbn [sc_JobID sc_Status sc_Attempt].
  rewrite Hs1, lookup_insert_eq, ?insert_insert_eq, lookup_insert_eq.
  destruct s as [jid st cnt cr fa la co ca re nd at0]. simpl.
  destruct Hf as [-> | ->]; simpl; by rewrite ?insert_insert_eq.
Qed.

(** A refused transition is reported as success. Cancelling a job that has
    completed (or failed, or timed out, or was cancelled before) changes
    nothing, as the state machine refuses it, yet [MarkCancelled] returns nil
    because the answer of the state machine is never looked at. *)
Theorem cancel_refused_returns_nil id reason s w :
  ss_ok w → ss_states w !! id = Some s →
  validateStateTransition (es_Status s) StatusCancelled ≠ None →
  ∃ w', MarkCancelled id reason w = Some (None, w') ∧ ss_states w' = ss_states w.
Proof.
  intros Hw Hs Hv. destruct (MarkCancelled_yields id reason w Hw) as (t & _ & w1 & E & _ & Hs1).
  exists w1. split; [done|]. rewrite Hs1, status_effect_update. cbn [sc_JobID sc_Status].
  rewrite Hs. by destruct (validateStateTransition (es_Status s) StatusCancelled).
Qed.

(** [CheckTimeouts] on any healthy store, at the time its clock reads after the
    leader check. *)
Lemma CheckTimeouts_at timeout w w1 t w2 :
  ss_ok w → ss_IsLeader w = Some (true, w1) → tr_TimeNow w1 = Some (t, w2) →
  ∃ l w', CheckTimeouts timeout w = Some (inl l, w') ∧ NoDup l ∧
    (∀ id, id ∈ l ↔ ∃ s, ss_states w !! id = Some s ∧ overdue (unix t) timeout s) ∧
    ∀ id, ss_states w' !! id =
      (λ s, if decide (overdue (unix t) timeout s) then timed_out s else s) <$> ss_states w !! id.
Proof.
  intros Hw E1 Et. destruct (clock_read _ _ _ _ Hw E1 Et) as (Hw1 & Hs1 & Hn & Hw2 & Hs2 & E2).
  unfold CheckTimeouts. set (now := unix t) in *.
  destruct (check_loop now timeout w2 Hw2 Hn) as (acc & w3 & E3 & Hw3 & -> & Hs3).
  rewrite <-Hs2.
  exists (filter (λ p, overdue now timeout p.2) (range_map (ss_states w2))).*1, w3.
  split_and!.
  - unfold mthen. rewrite E1, ss_all_law, E2, Hs1, <-Hs2, E3. done.
  - eapply sublist_NoDup; [apply (range_map_NoDup (ss_states w2))|].
    apply fmap_sublist, sublist_filter.
  - intros id. rewrite list_elem_of_fmap. split.
    + intros ([x s] & -> & Hx). apply list_elem_of_filter in Hx as [Ho Hx].
      apply elem_of_range_map in Hx. by exists s.
    + intros (s & Hs & Ho). exists (id, s). split; [done|]. apply list_elem_of_filter.
      split; [done|]. by apply elem_of_range_map.
  - intros id. rewrite Hs3. unfold after_check.
    destruct (ss_states w2 !! id) as [s|] eqn:Hid; [|done]. simpl. f_equal. apply decide_ext.
    split; [tauto|]. intros Ho. split; [|done]. apply list_elem_of_fmap. exists (id, s).
    split; [done|]. by apply elem_of_range_map.
Qed.

(** [PruneOldAttempts] keeps, for every job, exactly the attempts that
    started within the retention period, in their order, and no other field
    changes. *)
Theorem prune_exact retention w :
  ss_ok w → (∀ id s, ss_states w !! id = Some s → Forall attempt_ok (es_Attempts s)) →
  ∃ t w', PruneOldAttempts retention w = Some (None, w') ∧
    ss_states w' = pruned (unix (t + i64 (- retention))) <$> ss_states w.
Proof.
  intros Hw Ha. unfold PruneOldAttempts. destruct (yields_leader w Hw) as (w1 & E1 & Hw1 & Hs1).
  destruct (ss_time_law w1 Hw1) as (t & w2 & E2 & _ & Hw2 & Hs2).
  rewrite <-Hs1, <-Hs2 in Ha |- *.
  destruct (prune_loop (unix (t + i64 (- retention))) w2 Hw2 Ha) as (w3 & E3 & Hw3 & Hs3).
  exists t, w3. split; [|done]. unfold mthen. by rewrite E1, ss_all_law, E2, <-Hs2, E3.
Qed.

(** The statistics add up. Every count is the number of entries with that
    status, the six counts sum to the total when all statuses are known, and
    no completed or failed job finished after [LastExecuted]. *)
Theorem execution_stats_add_up w :
  (∀ id s, ss_states w !! id = Some s → known_status (es_Status s)) →
  ∃ st, GetExecutionStats w = Some (st, w) ∧
    let l := (map_to_list (ss_states w)).*2 in
    stat_Total st = Z.of_nat (size (ss_states w)) ∧
    stat_Pending st = count_status StatusPending l ∧
    stat_InProgress st = count_status StatusInProgress l ∧
    stat_Completed st = count_status StatusCompleted l ∧
    stat_Failed st = count_status StatusFailed l ∧
    stat_Cancelled st = count_status StatusCancelled l ∧
    stat_Timeout st = count_status StatusTimeout l ∧
    stat_Pending st + stat_InProgress st + stat_Completed st + stat_Failed st +
      stat_Cancelled st + stat_Timeout st = stat_Total st ∧
    (∀ id s, ss_states w !! id = Some s →
       es_Status s = StatusCompleted ∨ es_Status s = StatusFailed →
       es_CompletedAt s <= stat_LastExecuted st).
Proof.
  intros Hk. unfold GetExecutionStats, mthen. rewrite ss_all_law. unfold mreturn.
  eexists. split; [done|]. set (m := ss_states w) in *.
  set (st0 := mkStats 0 0 0 0 0 0 (Z.of_nat (size m)) 0 (f_of_Z 0)).
  destruct (count_states_spec (range_map m).*2 st0) as (I1 & I2 & I3 & I4 & I5 & I6 & I7 & I8 & I9).
  set (r := foldl count_state st0 (range_map m).*2) in *.
  assert ((range_map m).*2 ≡ₚ (map_to_list m).*2) as Hp
    by (unfold range_map; by rewrite range_perm_ok).
  pose proof (count_status_total (map_to_list m).*2) as Htot.
  rewrite !(λ X, count_status_perm X _ _ Hp) in *.
  assert (∀ id s, m !! id = Some s → s ∈ (map_to_list m).*2) as Hin.
  { intros id s Hs. apply list_elem_of_fmap. exists (id, s). split; [done|].
    by apply elem_of_map_to_list. }
  assert (stat_Pending (failure_rate r) = stat_Pending r ∧
    stat_InProgress (failure_rate r) = stat_InProgress r ∧
    stat_Completed (failure_rate r) = stat_Completed r ∧
    stat_Failed (failure_rate r) = stat_Failed r ∧
    stat_Cancelled (failure_rate r) = stat_Cancelled r ∧
    stat_Timeout (failure_rate r) = stat_Timeout r ∧
    stat_Total (failure_rate r) = stat_Total r ∧
    stat_LastExecuted (failure_rate r) = stat_LastExecuted r) as (-> & -> & -> & -> & -> & -> & -> & ->).
  { unfold failure_rate. destruct r. by case_decide. }
  cbv zeta. rewrite I1, I2, I3, I4, I5, I6, I7.
  cbn [st0 stat_Pending stat_InProgress stat_Completed stat_Failed stat_Cancelled stat_Timeout
    stat_Total]. rewrite length_fmap, length_map_to_list in Htot.
  split_and!; try done.
  - rewrite !Z.add_0_l. apply Htot. apply Forall_forall. intros s Hs.
    apply list_elem_of_fmap in Hs as ([id s'] & -> & Hs). apply elem_of_map_to_list in Hs.
    by eapply Hk.
  - intros id s Hs Hst. apply I9; [|done]. rewrite Hp. by eapply Hin.
Qed.

End healthy.

(** ** The node is such a store *)

Section node.

Context {CS Q : Type} `{ColdSlotStore CS} `{GoRange} `{Env}.

Implicit Types n : Node CS Q.

#[export] Instance node_StatusStore : StatusStore (Node CS Q) := {|
  ss_IsLeader := IsLeader;
  ss_GetExecutionState := GetExecutionState;
  ss_GetAllExecutionStates := GetAllExecutionStates;
  ss_Apply := Store_Apply |}.

(** [NewExecutionManager] installs a callback that reports the change. *)
#[export] Instance node_TrackerRuntime : TrackerRuntime (Node CS Q) := {|
  tr_TimeNow := TimeNow;
  tr_callback := Some (λ old new, emit (EStatusChange old new)) |}.

Definition node_states (n : Node CS Q) : gmap string JobExecutionState :=
  f_executionStates (n_fsm n).

(** The laws hold for any runtime with the node's clock and a callback that
    leaves the execution states alone. *)
Definition node_laws (rt : TrackerRuntime (Node CS Q))
    (Htime : @tr_TimeNow _ rt = TimeNow)
    (Hcb : ∀ cb old new n, @tr_callback _ rt = Some cb →
       ∃ n', cb old new n = Some (tt, n') ∧ node_states n' = node_states n) :
    @StatusStoreLaws (Node CS Q) node_StatusStore rt.
Proof.
  refine {| ss_ok := λ _, healthy_env; ss_states := node_states |}.
  - intros n He. unfold ss_IsLeader. simpl. unfold IsLeader, ask. rewrite (he_leader He).
    by eexists.
  - intros n He. rewrite Htime. unfold TimeNow, ask. eexists _, _.
    split; [done|]. split; [apply He|done].
  - intros cb old new n E He. destruct (Hcb cb old new n E) as (n' & ? & ?). by exists n'.
  - intros id n. unfold ss_GetExecutionState. simpl. unfold GetExecutionState, gets.
    unfold FSM_GetExecutionState. f_equal. f_equal. unfold node_states.
    destruct (f_executionStates (n_fsm n) !! id) as [s|]; [|done]. simpl.
    by rewrite JobExecutionState_Clone_id.
  - intros n. unfold ss_GetAllExecutionStates. simpl. unfold GetAllExecutionStates, gets.
    unfold FSM_GetAllExecutionStates. rewrite clone_map_id; [done|].
    apply JobExecutionState_Clone_id.
  - intros data cmd n He Hd Ht. unfold ss_Apply. simpl.
    destruct (healthy_Store_Apply data n He) as (n' & E & Hf & _). exists n'.
    split; [done|]. split; [done|]. unfold node_states. rewrite Hf. unfold FSM_Apply. rewrite Hd.
    by rewrite status_effect_fsm.
Defined.

#[export] Instance node_StatusStoreLaws : StatusStoreLaws (Node CS Q).
Proof. apply node_laws; [done|]. intros cb old new n [= <-]. by eexists. Defined.

(** C22: [CheckTimeouts] is exact. On a healthy leader, with [t] the time its
    clock reads right after the leader check, it returns, once each, the jobs
    that are in progress and whose last attempt began more than the timeout
    before [t], moves exactly those to timeout, and leaves every other entry as
    it was, in whatever order the map is ranged over. *)
Theorem check_timeouts_exact timeout n :
  healthy_env →
  let t := unix (now (S (n_step n))) in
  let late s := es_Status s = StatusInProgress ∧ i64 (t - es_LastAttemptAt s) > secs timeout in
  ∃ l n', CheckTimeouts timeout n = Some (inl l, n') ∧ NoDup l ∧
    (∀ id, id ∈ l ↔ ∃ s, node_states n !! id = Some s ∧ late s) ∧
    (∀ id s, node_states n !! id = Some s → late s → node_states n' !! id = Some (timed_out s)) ∧
    (∀ id, (∀ s, node_states n !! id = Some s → ¬ late s) → node_states n' !! id = node_states n !! id).
Proof.
  intros He t late. set (n1 := mkNode (n_fsm n) (n_queue n) (n_cancelFuncs n) (S (n_step n)) (n_trace n)).
  destruct (CheckTimeouts_at (H1 := node_StatusStoreLaws) timeout n n1 (now (S (n_step n)))
    (mkNode (n_fsm n) (n_queue n) (n_cancelFuncs n) (S (S (n_step n))) (n_trace n))) as (l & n' & E & Hd & Hl & Hs).
  { exact He. }
  { unfold ss_IsLeader. simpl. unfold IsLeader, ask. by rewrite (he_leader He). }
  { done. }
  exists l, n'. split_and!; [done|done|done|..].
  - intros id s Hid Hlate. specialize (Hs id). change (ss_states n) with (node_states n) in Hs.
    rewrite Hid in Hs. simpl in Hs. by rewrite decide_True in Hs by done.
  - intros id Hnot. specialize (Hs id). change (ss_states n) with (node_states n) in Hs.
    destruct (node_states n !! id) as [s|] eqn:Hid; [|done]. simpl in Hs.
    by rewrite decide_False in Hs by (by apply (Hnot s)).
Qed.

(** The trackers the API makes have no callback. *)
Definition api_TrackerRuntime : TrackerRuntime (Node CS Q) := {|
  tr_TimeNow := TimeNow;
  tr_callback := None |}.

Definition api_StatusStoreLaws : @StatusStoreLaws (Node CS Q) node_StatusStore api_TrackerRuntime.
Proof. by apply node_laws. Defined.

End node.

(** ** A concrete node *)

#[local] Instance ex_env_200 : Env := ex_env 200.
#[local] Existing Instance sorted_range.

Definition ex_tracked (f : FSM MemBolt) : Node MemBolt unit := mkNode f tt ∅ 0 [].

Definition ex_attempt : ExecutionAttempt := mkAttempt 1 7 8 "n1" StatusCompleted 200 3 "" "".

Definition ex_created : FSM MemBolt := (applyCommandInternal (cmd_create_job ex_job) NewFSM).2.

(** One running job, one attempt on record. *)
Definition ex_recorded : FSM MemBolt :=
  set_executionStates
    {["a" := mkState "a" StatusInProgress 1 5 7 7 0 0 "" "n1" [ex_attempt]]} ex_running.

Lemma ex_attempt_ok : attempt_ok ex_attempt.
Proof. split_and!; split; vm_compute; congruence. Qed.

Lemma ex_known s : ss_states (ex_tracked ex_created) !! "a" = Some s → known_status (es_Status s).
Proof. intros E. vm_compute in E. injection E as <-. vm_compute. eauto. Qed.

Lemma can_execute_iff_claimable_witness :
  ∃ b : bool, CanExecute "a" (ex_tracked ex_created) = Some (inl b, ex_tracked ex_created) ∧
    (b = true ↔ claimable (ss_states (ex_tracked ex_created) !! "a")).
Proof. apply (can_execute_iff_claimable "a" (ex_tracked ex_created)). exact ex_known. Defined.

Lemma mark_lifecycle_witness :
  ∃ w1 w2, MarkInProgress "a" "n1" (ex_tracked ex_created) = Some (None, w1) ∧
    MarkCompleted "a" (Some ex_attempt) w1 = Some (None, w2).
Proof.
  destruct (mark_lifecycle "a" "n1" ex_attempt StatusCompleted (pending_state "a" 5)
    (ex_tracked ex_created)) as (t1 & t2 & w1 & w2 & E1 & E2 & _).
  - exact (ex_env_healthy 200).
  - vm_compute. reflexivity.
  - vm_compute. reflexivity.
  - exact ex_attempt_ok.
  - left. reflexivity.
  - rewrite decide_True in E2 by reflexivity. exists w1, w2. split; [exact E1|exact E2].
Defined.

Lemma cancel_refused_returns_nil_witness :
  ∃ w', MarkCancelled "a" "late" (ex_tracked ex_done) = Some (None, w') ∧
    ss_states w' = ss_states (ex_tracked ex_done).
Proof.
  apply (cancel_refused_returns_nil "a" "late" ex_done_state (ex_tracked ex_done)).
  - exact (ex_env_healthy 200).
  - vm_compute. reflexivity.
  - vm_compute. congruence.
Defined.

(** The job has run since 7 when the clock reads 100. *)
Lemma check_timeouts_exact_witness :
  ∃ l n', CheckTimeouts (60 * Second) (ex_tracked ex_running) = Some (inl l, n') ∧ "a" ∈ l ∧
    es_Status <$> node_states n' !! "a" = Some StatusTimeout.
Proof.
  destruct (check_timeouts_exact (60 * Second) (ex_tracked ex_running) (ex_env_healthy 200))
    as (l & n' & E & _ & Hl & Hlate & _).
  destruct (node_states (ex_tracked ex_running) !! "a") as [s|] eqn:Hs; [|vm_compute in Hs; discriminate Hs].
  assert (es_Status s = StatusInProgress ∧
    i64 (unix (now (S (n_step (ex_tracked ex_running)))) - es_LastAttemptAt s) > secs (60 * Second)) as Ho.
  { vm_compute in Hs. injection Hs as <-. split; [reflexivity|vm_compute; reflexivity]. }
  exists l, n'. split; [exact E|]. split.
  - apply Hl. exists s. split; [exact Hs|exact Ho].
  - rewrite (Hlate "a" s Hs Ho). reflexivity.
Defined.

Lemma prune_exact_witness :
  ∃ t w', PruneOldAttempts (10 * Second) (ex_tracked ex_recorded) = Some (None, w') ∧
    ss_states w' = pruned (unix (t + i64 (- (10 * Second)))) <$> ss_states (ex_tracked ex_recorded).
Proof.
  apply (prune_exact (10 * Second) (ex_tracked ex_recorded)); [exact (ex_env_healthy 200)|].
  intros id s Hs. change (({["a" := mkState "a" StatusInProgress 1 5 7 7 0 0 "" "n1" [ex_attempt]]}
    : gmap string JobExecutionState) !! id = Some s) in Hs.
  apply lookup_singleton_Some in Hs as [_ <-]. apply Forall_singleton. exact ex_attempt_ok.
Defined.

Lemma execution_stats_add_up_witness :
  ∃ st, GetExecutionStats (ex_tracked ex_created) = Some (st, ex_tracked ex_created) ∧
    stat_Total st = 1.
Proof.
  destruct (execution_stats_add_up (ex_tracked ex_created)) as (st & E & Ht & _).
  - intros id s Hs.
    change ((<["a" := pending_state "a" 5]> (∅ : gmap string JobExecutionState)) !! id = Some s) in Hs.
    apply lookup_insert_Some in Hs as [[_ <-]|[_ Hs]]; [vm_compute; eauto|].
    rewrite lookup_empty in Hs. discriminate.
  - exists st. split; [exact E|]. rewrite Ht. vm_compute. reflexivity.
Defined.
