(* ===== verification/Pruning.v ===== *)
(** * The pruning goroutine of the status tracker

    [StartPruning] and [StopPruning] around [PruneOldAttempts]: a loop that
    prunes once an hour on the leader. The theorem is about what else may be
    written while a prune is under way. *)

From S2P Require Import Prelude GoStrings Json Types Codec ColdStore FSM GoFloat Store.
From S2P Require Import StoreProps StatusTracker.

(** ** The loop *)

Section loop.

Context {W : Type} `{StatusStore W} `{TrackerRuntime W} `{GoRange}.

Local Open Scope go_scope.

(** What a tick does; an error is only logged. *)
Definition prune_tick (retention : Z) : M W unit :=
  l <- ss_IsLeader ;;
  if (l : bool) then _e <- PruneOldAttempts retention ;; mreturn tt else mreturn tt.

(** [pn_closed] is the channel [pruningStop], which [pruningCloseOnce] closes
    at most once. *)
Record Pruner := mkPruner {
  pn_world : W;
  pn_closed : bool;
  pn_running : bool }.

Definition StartPruning (w : W) : Pruner := mkPruner w false true.

Definition StopPruning (p : Pruner) : Pruner := mkPruner (pn_world p) true (pn_running p).

(** A tick, a stop, and the end of the loop; when both channels are ready the
    [select] may take either. *)
Inductive pruner_step (retention : Z) : Pruner → Pruner → Prop :=
  | pruner_tick w w' closed :
      prune_tick retention w = Some (tt, w') →
      pruner_step retention (mkPruner w closed true) (mkPruner w' closed true)
  | pruner_stop p : pruner_step retention p (StopPruning p)
  | pruner_exit w : pruner_step retention (mkPruner w true true) (mkPruner w true false).

End loop.

Section history.

Context {W : Type} `{StatusStoreLaws W} `{GoRange}.

Implicit Types (w : W) (p : Pruner (W := W)).

(** [m'] is [m] with some attempts missing. *)
Definition thinned (m m' : gmap string JobExecutionState) : Prop :=
  dom m' = dom m ∧ ∀ id s, m !! id = Some s →
    ∃ l, l `sublist_of` es_Attempts s ∧ m' !! id = Some (set_Attempts l s).

Lemma set_Attempts_same s : set_Attempts (es_Attempts s) s = s.
Proof. by destruct s. Qed.

Lemma set_Attempts_twice l l' s : set_Attempts l (set_Attempts l' s) = set_Attempts l s.
Proof. by destruct s. Qed.

Lemma es_Attempts_set l s : es_Attempts (set_Attempts l s) = l.
Proof. by destruct s. Qed.

Lemma thinned_refl m : thinned m m.
Proof. split; [done|]. intros id s Hs. exists (es_Attempts s). by rewrite set_Attempts_same. Qed.

Lemma thinned_trans m1 m2 m3 : thinned m1 m2 → thinned m2 m3 → thinned m1 m3.
Proof.
  intros [D1 T1] [D2 T2]. split; [by rewrite D2|]. intros id s Hs.
  destruct (T1 id s Hs) as (l & Hl & E). destruct (T2 id _ E) as (l' & Hl' & ->).
  rewrite es_Attempts_set in Hl'. exists l'. split; [by etrans|]. by rewrite set_Attempts_twice.
Qed.

Lemma thinned_pruned c m : thinned m (pruned c <$> m).
Proof.
  split; [apply dom_fmap_L|]. intros id s Hs.
  exists (filter (λ a, att_StartTime a >= c) (es_Attempts s)). split; [apply sublist_filter|].
  by rewrite lookup_fmap, Hs.
Qed.

Definition attempts_fit (m : gmap string JobExecutionState) : Prop :=
  ∀ id s, m !! id = Some s → Forall attempt_ok (es_Attempts s).

Lemma thinned_fit m m' : thinned m m' → attempts_fit m → attempts_fit m'.
Proof.
  intros [D T] Hf id s' Hs'. assert (is_Some (m !! id)) as [s Hs].
  { apply elem_of_dom. rewrite <-D. apply elem_of_dom. by exists s'. }
  destruct (T id s Hs) as (l & Hl & E). simplify_eq. rewrite es_Attempts_set.
  specialize (Hf id s Hs). rewrite Forall_forall in Hf |- *. intros x Hx. apply Hf.
  by eapply elem_of_sublist.
Qed.

Lemma prune_tick_thins retention w :
  ss_ok w → attempts_fit (ss_states w) →
  ∃ w', prune_tick retention w = Some (tt, w') ∧ ss_ok w' ∧ thinned (ss_states w) (ss_states w').
Proof.
  intros Hw Ha. unfold prune_tick, PruneOldAttempts, mthen.
  destruct (yields_leader w Hw) as (w1 & -> & Hw1 & Hs1).
  destruct (yields_leader w1 Hw1) as (w2 & -> & Hw2 & Hs2). rewrite ss_all_law.
  destruct (ss_time_law w2 Hw2) as (t & w3 & -> & _ & Hw3 & Hs3).
  rewrite <-Hs3.
  destruct (prune_loop (unix (t + i64 (- retention))) w3 Hw3) as (w4 & -> & Hw4 & Hs4).
  { intros id s. rewrite Hs3, Hs2, Hs1. apply Ha. }
  exists w4. split_and!; [done|done|]. rewrite Hs4, Hs3, Hs2, Hs1. apply thinned_pruned.
Qed.

(** Over a healthy store the loop only ever removes attempts, and never more
    than attempts: the entries of the jobs and all their other fields stay. *)
Lemma pruning_only_thins retention p p' :
  rtc (pruner_step retention) p p' → ss_ok (pn_world p) → attempts_fit (ss_states (pn_world p)) →
  ss_ok (pn_world p') ∧ thinned (ss_states (pn_world p)) (ss_states (pn_world p')).
Proof.
  intros Hr Hw Ha. induction Hr as [p|p p1 p2 Hs _ IH]; [split; [done|apply thinned_refl]|].
  assert (ss_ok (pn_world p1) ∧ thinned (ss_states (pn_world p)) (ss_states (pn_world p1))) as [Hw1 Ht1].
  { destruct Hs as [w w' closed E|p|w]; simpl in *; try (split; [done|apply thinned_refl]).
    destruct (prune_tick_thins retention w Hw Ha) as (w1 & E1 & ? & ?). by simplify_eq. }
  destruct (IH Hw1 (thinned_fit _ _ Ht1 Ha)) as [Hw2 Ht2]. split; [done|by eapply thinned_trans].
Qed.

End history.

(** Stopping twice is stopping once. *)
Lemma StopPruning_idempotent {W : Type} (p : Pruner (W := W)) : StopPruning (StopPruning p) = StopPruning p.
Proof. done. Qed.

(** ** A prune and a concurrent attempt *)

Section race.

Context {CS Q : Type} `{ColdSlotStore CS} `{GoRange} `{Env}.

Implicit Types n : Node CS Q.

(** The log entry of an attempt, as [recordAttempt] writes it. *)
Definition record_entry (id : string) (a : ExecutionAttempt) (t : Z) : json :=
  enc_Command (cmd_status CommandRecordAttempt (mkStatusCommand id "" "" (Some a) t "")).

Lemma record_entry_effect id a t (f : FSM CS) s :
  attempt_ok a → in64 t → f_executionStates f !! id = Some s →
  (FSM_Apply (record_entry id a t) f).2 =
    set_executionStates (<[id := set_Attempts (es_Attempts s ++ [a]) s]> (f_executionStates f)) f.
Proof.
  intros Ha Ht Hs. unfold FSM_Apply, record_entry. rewrite dec_enc_Command.
  - unfold applyCommandInternal. simpl. unfold applyRecordAttempt. simpl. by rewrite Hs.
  - unfold command_ok. cbn.
    split_and!; [by intros ? [=]|by intros ? [=]|by intros ? [=]|intros ? [= <-]; split; [done|by intros ? [= <-]]|constructor|unfold in64, two63; lia..].
Qed.

Lemma prune_entry_effect id kept t (f : FSM CS) s :
  Forall attempt_ok kept → in64 t → f_executionStates f !! id = Some s →
  f_executionStates (FSM_Apply (enc_Command (cmd_prune (mkStatusCommand id "" "" None t "") kept)) f).2 =
    <[id := set_Attempts kept s]> (f_executionStates f).
Proof.
  intros Hk Ht Hs. unfold FSM_Apply. rewrite dec_enc_Command.
  - unfold applyCommandInternal. simpl. unfold applyPruneAttempts. simpl. by rewrite Hs.
  - unfold command_ok. cbn.
    split_and!; [by intros ? [=]|by intros ? [=]|by intros ? [=]|intros ? [= <-]; split; [done|by intros ? [=]]|done|unfold in64, two63; lia..].
Qed.

Lemma range_map_singleton (id : string) (s : JobExecutionState) : range_map {[id := s]} = [(id, s)].
Proof.
  unfold range_map. rewrite map_to_list_singleton. apply Permutation_singleton_r, range_perm_ok.
Qed.

(** An apply by a leader, with what others commit just before it. *)
Lemma Store_Apply_after data log n :
  leader (n_step n) = true → others (S (n_step n)) = log → outcome (S (S (n_step n))) = Committed →
  ∃ n', Store_Apply data n = Some (None, n') ∧ n_fsm n' = (FSM_Apply data (run_log log (n_fsm n))).2.
Proof.
  intros Hl Ho Hc. unfold Store_Apply, if_leader, IsLeader, raft_Apply, interleave, ask, mthen, modify, mreturn.
  cbn [n_step n_fsm set_fsm]. rewrite Hl. cbn [n_step n_fsm set_fsm]. rewrite Ho. cbn [n_step n_fsm set_fsm].
  rewrite Hc. by eexists.
Qed.

(** One round of the loop, with something to prune. *)
Lemma pruneJob_after cutoff id s log n :
  let kept := filter (λ x, att_StartTime x >= cutoff) (es_Attempts s) in
  (length kept < length (es_Attempts s))%nat →
  leader (S (n_step n)) = true → others (2 + n_step n) = log → outcome (3 + n_step n) = Committed →
  ∃ n', pruneJob cutoff (id, s) n = Some (tt, n') ∧
    n_fsm n' = (FSM_Apply (enc_Command (cmd_prune
      (mkStatusCommand id "" "" None (unix (now (n_step n))) "") kept)) (run_log log (n_fsm n))).2.
Proof.
  intros kept Hlen Hl Ho Hc. unfold pruneJob. rewrite decide_False by lia. fold kept. cbv zeta.
  rewrite decide_True by lia. unfold tr_Now, tr_TimeNow, node_TrackerRuntime, TimeNow, ask, mthen, mreturn.
  unfold applyPruneCommand, applyCommand. rewrite Marshal_plain by (apply plain_Command; by intros ? [=]).
  unfold mthen, ss_Apply, node_StatusStore.
  destruct (Store_Apply_after (enc_Command (cmd_prune (mkStatusCommand id "" "" None (unix (now (n_step n))) "") kept)) log
    (mkNode (n_fsm n) (n_queue n) (n_cancelFuncs n) (S (n_step n)) (n_trace n))) as (n' & -> & Hf); [done..|].
  by exists n'.
Qed.

(** Pruning can lose an attempt. [PruneOldAttempts] reads the history,
    drops what is too old and writes the rest back. If an attempt of the job
    gets committed between the reading and the writing, it is gone again,
    however recent: the history ends as if it had never been recorded. *)
Theorem prune_loses_concurrent_attempt retention id s a t n :
  let k := n_step n in
  let cutoff := unix (now (S k) + i64 (- retention)) in
  let entry := record_entry id a t in
  f_executionStates (n_fsm n) = {[id := s]} → Forall attempt_ok (es_Attempts s) → attempt_ok a → in64 t →
  (∃ old, old ∈ es_Attempts s ∧ att_StartTime old < cutoff) → cutoff <= att_StartTime a →
  leader k = true → leader (3 + k) = true → in64 (unix (now (2 + k))) →
  others (4 + k) = [entry] → outcome (5 + k) = Committed →
  f_executionStates (run_log [entry] (n_fsm n)) !! id = Some (set_Attempts (es_Attempts s ++ [a]) s) ∧
  ∃ n', PruneOldAttempts retention n = Some (None, n') ∧
    f_executionStates (n_fsm n') !! id =
      Some (set_Attempts (filter (λ x, att_StartTime x >= cutoff) (es_Attempts s)) s).
Proof.
  intros k cutoff entry Hf Hok Ha Ht (old & Hin & Hold) _ Hl0 Hl3 Hn Ho Hout.
  assert (f_executionStates (n_fsm n) !! id = Some s) as Hid by (rewrite Hf; apply lookup_singleton_eq).
  set (kept := filter (λ x, att_StartTime x >= cutoff) (es_Attempts s)).
  assert (f_executionStates (run_log [entry] (n_fsm n)) =
    <[id := set_Attempts (es_Attempts s ++ [a]) s]> (f_executionStates (n_fsm n))) as Hrun
    by (unfold run_log; cbn [foldl]; unfold entry; by rewrite (record_entry_effect id a t (n_fsm n) s)).
  split; [rewrite Hrun; apply lookup_insert_eq|].
  assert (length kept < length (es_Attempts s))%nat as Hlen.
  { unfold kept. apply length_filter_lt with old; [done|]. lia. }
  set (at_ j := mkNode (n_fsm n) (n_queue n) (n_cancelFuncs n) j (n_trace n)).
  assert (ss_IsLeader n = Some (true, at_ (S k))) as E1 by (rewrite <-Hl0; done).
  assert (ss_GetAllExecutionStates (at_ (S k)) = Some ({[id := s]}, at_ (S k))) as E2.
  { rewrite <-Hf. unfold ss_GetAllExecutionStates, node_StatusStore, GetAllExecutionStates, gets, FSM_GetAllExecutionStates.
    by rewrite clone_map_id by apply JobExecutionState_Clone_id. }
  assert (tr_TimeNow (at_ (S k)) = Some (now (S k), at_ (S (S k)))) as E3 by done.
  destruct (pruneJob_after cutoff id s [entry] (at_ (S (S k)))) as (n' & E4 & Hn'); [done..|].
  exists n'. split.
  { unfold PruneOldAttempts, mthen. rewrite E1, E2, E3, range_map_singleton. cbn [for_each].
    unfold mthen. fold cutoff. by rewrite E4. }
  rewrite Hn'. unfold at_. cbn [n_fsm n_step].
  rewrite (prune_entry_effect id kept _ _ (set_Attempts (es_Attempts s ++ [a]) s)).
  - by rewrite lookup_insert_eq, set_Attempts_twice.
  - by apply Forall_filter_1.
  - done.
  - unfold at_. cbn [n_fsm]. rewrite Hrun. apply lookup_insert_eq.
Qed.

End race.

(** ** A concrete race *)

(** At second 100 the attempt of second 7 is pruned and that of second 95 is
    recorded in between. *)
Definition ex_recent : ExecutionAttempt := mkAttempt 2 95 96 "n1" StatusCompleted 200 3 "" "".

Definition ex_entry : JobExecutionState := mkState "a" StatusInProgress 1 5 7 7 0 0 "" "n1" [ex_attempt].

Definition ex_race : Env :=
  mkEnv (λ _, true) (λ _, 100 * Second) (λ _, Committed)
    (λ i, if decide (i = 4%nat) then [record_entry "a" ex_recent 96] else []) (λ _, inl []) (λ _, None)
    (λ _, inl 200).

Definition ex_history : Node MemBolt unit := mkNode (set_executionStates {["a" := ex_entry]} NewFSM) tt ∅ 0 [].

Lemma prune_loses_concurrent_attempt_witness :
  ∃ n', @PruneOldAttempts (Node MemBolt unit) (@node_StatusStore MemBolt unit _ ex_race)
      (@node_TrackerRuntime MemBolt unit ex_race) sorted_range (10 * Second) ex_history = Some (None, n') ∧
    f_executionStates (n_fsm n') !! "a" = Some (set_Attempts [] ex_entry).
Proof.
  refine (proj2 (@prune_loses_concurrent_attempt MemBolt unit _ sorted_range ex_race (10 * Second) "a" ex_entry ex_recent 96
    ex_history _ _ _ _ _ _ _ _ _ _ _)).
  - reflexivity.
  - apply Forall_singleton. exact ex_attempt_ok.
  - split_and!; split; vm_compute; congruence.
  - split; vm_compute; congruence.
  - exists ex_attempt. split; [left|vm_compute; reflexivity].
  - vm_compute. congruence.
  - reflexivity.
  - reflexivity.
  - split; vm_compute; congruence.
  - reflexivity.
  - reflexivity.
Defined.
