(* ===== verification/Limits.v ===== *)
(** * Capacity limits: [size_calculator.go], [memory_tracker.go],
      [job_counter.go] and [limit_manager.go]

    The size of a job is an estimate whose payload part is the length of its
    JSON text. Usage and count live in the replicated state machine; the
    trackers below only hold their limits. [Metered] adds the metrics. *)

From S2P Require Import Prelude GoStrings Json Types Codec ColdStore FSM GoFloat Store.
From S2P Require Import StoreProps.

Record SizeCalculator := mkSizeCalculator { baseOverhead : Z }.

Definition NewSizeCalculator : SizeCalculator := mkSizeCalculator 128.

Record CapacityError := mkCapacityError {
  ce_Type : string;
  ce_Current : Z;
  ce_Limit : Z;
  ce_Requested : Z }.

(** [func (e *CapacityError) Error() string] *)
Definition CapacityError_Error (e : CapacityError) : string :=
  if decide (ce_Type e = "memory") then
    if decide (ce_Requested e > 0) then
      "insufficient memory: current=" +:+ pretty (ce_Current e) +:+ " bytes, limit="
      +:+ pretty (ce_Limit e) +:+ " bytes, requested=" +:+ pretty (ce_Requested e) +:+ " bytes"
    else
      "insufficient memory: current=" +:+ pretty (ce_Current e) +:+ " bytes, limit="
      +:+ pretty (ce_Limit e) +:+ " bytes"
  else if decide (ce_Type e = "job_count") then
    "maximum jobs reached: current=" +:+ pretty (ce_Current e) +:+ ", limit=" +:+ pretty (ce_Limit e)
  else "capacity limit exceeded".

Definition CapacityError_HTTPStatus (_ : CapacityError) : Z := 507.

Record MemoryUsage := mkMemoryUsage {
  mu_CurrentBytes : Z;
  mu_LimitBytes : Z;
  mu_AvailableBytes : Z;
  mu_Utilization : float64 }.

(** [memoryLimit] and [limit] of the two trackers. *)
Record LimitManager := mkLimitManager {
  lm_memoryLimit : Z;
  lm_jobLimit : Z;
  lm_sizeCalculator : SizeCalculator }.

(** ** Sizes *)

(** [int64(len(s))] *)
Definition len (s : string) : Z := Z.of_nat (String.length s).

Definition calculatePayloadSize (payload : gmap string json) : Z :=
  match Marshal (enc_payload payload) with
  | inr _ => 0
  | inl data => len (text data)
  end.

Definition CalculateSize (sc : SizeCalculator) (job : Job) : Z :=
  let size := baseOverhead sc in
  let size := i64 (size + len (job_ID job)) in
  let size := if decide (job_WebhookURL job ≠ "") then i64 (size + len (job_WebhookURL job)) else size in
  let size := if decide (job_CronExpr job ≠ "") then i64 (size + len (job_CronExpr job)) else size in
  let size := match job_Payload job with
              | Some p => i64 (size + calculatePayloadSize p)
              | None => size
              end in
  i64 (size + 64).

Section Limits.

Context {CS Q : Type} `{ColdSlotStore CS} `{Env}.

Local Open Scope go_scope.

(** ** memory_tracker.go *)

Definition GetUsage (memoryLimit : Z) : M (Node CS Q) MemoryUsage :=
  current <- GetMemoryUsage ;;
  let available := i64 (memoryLimit - current) in
  let available := if decide (available < 0) then 0 else available in
  let utilization :=
    if decide (memoryLimit > 0) then
      f_mul (f_div (f_of_Z current) (f_of_Z memoryLimit)) (f_of_Z 100)
    else f_of_Z 0 in
  mreturn (mkMemoryUsage current memoryLimit available utilization).

Definition MemoryTracker_CheckCapacity (memoryLimit size : Z)
    : M (Node CS Q) (option CapacityError) :=
  usage <- GetUsage memoryLimit ;;
  mreturn (if decide (i64 (mu_CurrentBytes usage + size) > mu_LimitBytes usage) then
             Some (mkCapacityError "memory" (mu_CurrentBytes usage) (mu_LimitBytes usage) size)
           else None).

Definition IncrementUsage (size : Z) : M (Node CS Q) (option error) := UpdateMemoryUsage size.

Definition DecrementUsage (size : Z) : M (Node CS Q) (option error) :=
  UpdateMemoryUsage (i64 (- size)).

(** ** job_counter.go *)

Definition JobCounter_CheckCapacity (limit : Z) : M (Node CS Q) (option CapacityError) :=
  current <- GetJobCount ;;
  mreturn (if decide (current >= limit) then Some (mkCapacityError "job_count" current limit 0)
           else None).

Definition Increment : M (Node CS Q) (option error) := UpdateJobCount 1.

Definition Decrement : M (Node CS Q) (option error) := UpdateJobCount (-1).

(** ** limit_manager.go *)

Definition CheckCapacity (lm : LimitManager) (job : Job) : M (Node CS Q) (option CapacityError) :=
  let size := CalculateSize (lm_sizeCalculator lm) job in
  e <- MemoryTracker_CheckCapacity (lm_memoryLimit lm) size ;;
  match e with
  | Some e => mreturn (Some e)
  | None => JobCounter_CheckCapacity (lm_jobLimit lm)
  end.

Definition RecordJobAdded (lm : LimitManager) (job : Job) : M (Node CS Q) (option error) :=
  let size := CalculateSize (lm_sizeCalculator lm) job in
  e <- IncrementUsage size ;;
  match e with
  | Some e => mreturn (Some e)
  | None =>
      e <- Increment ;;
      match e with
      | Some e => _ <- DecrementUsage size ;; mreturn (Some e)
      | None => mreturn None
      end
  end.

Definition RecordJobRemoved (lm : LimitManager) (job : Job) : M (Node CS Q) (option error) :=
  let size := CalculateSize (lm_sizeCalculator lm) job in
  e <- DecrementUsage size ;;
  match e with
  | Some e => mreturn (Some e)
  | None => Decrement
  end.

End Limits.

(** ** Properties *)

Section limit_lemmas.

Lemma len_nonneg s : 0 <= len s.
Proof. unfold len. lia. Qed.

(** The size as a sum, when it fits an [int64]. *)
Definition job_size (sc : SizeCalculator) (job : Job) : Z :=
  baseOverhead sc + len (job_ID job) + len (job_WebhookURL job) + len (job_CronExpr job) +
  match job_Payload job with Some p => calculatePayloadSize p | None => 0 end + 64.

Lemma calculatePayloadSize_nonneg p : 0 <= calculatePayloadSize p.
Proof. unfold calculatePayloadSize. destruct (Marshal _); [apply len_nonneg|lia]. Qed.

Lemma add_len y t : (if decide (t ≠ "") then i64 (i64 y + len t) else i64 y) = i64 (y + len t).
Proof.
  case_decide as E; [apply i64_plus_l|]. rewrite E.
  change (len "") with 0. by rewrite Z.add_0_r.
Qed.

Lemma CalculateSize_wrap sc job : CalculateSize sc job = i64 (job_size sc job).
Proof.
  unfold CalculateSize, job_size. cbv zeta. rewrite !add_len.
  destruct (job_Payload job); rewrite i64_plus_l; [|f_equal; lia].
  rewrite <-Z.add_assoc, i64_plus_l. f_equal. lia.
Qed.

Lemma CalculateSize_sum sc job :
  0 <= baseOverhead sc → job_size sc job < two63 →
  CalculateSize sc job = job_size sc job ∧ 64 <= job_size sc job.
Proof.
  intros Hb Hs. rewrite CalculateSize_wrap. unfold job_size in *.
  pose proof (len_nonneg (job_ID job)). pose proof (len_nonneg (job_WebhookURL job)).
  pose proof (len_nonneg (job_CronExpr job)).
  assert (0 <= match job_Payload job with Some p => calculatePayloadSize p | None => 0 end).
  { destruct (job_Payload job); [apply calculatePayloadSize_nonneg|lia]. }
  split; [|lia]. apply i64_id. unfold in64, two63 in *. lia.
Qed.

(** An empty payload map is two bytes of text; once stored it is none. *)
Lemma empty_payload_size : calculatePayloadSize ∅ = 2.
Proof. vm_compute. reflexivity. Qed.

End limit_lemmas.

Section limit_props.

Context {CS Q : Type} `{ColdSlotStore CS} `{GoRange} `{Env}.

Implicit Types n : Node CS Q.

(** The counters of a node. *)
Definition usage n : Z * Z := (f_memoryUsage (n_fsm n), f_jobCount (n_fsm n)).

Lemma healthy_memory d n :
  healthy_env → in64 d → ∃ n', UpdateMemoryUsage d n = Some (None, n') ∧
    n_fsm n' = set_memoryUsage (clamp_add (f_memoryUsage (n_fsm n)) d) (n_fsm n) ∧
    n_queue n' = n_queue n.
Proof.
  intros He Hd. unfold UpdateMemoryUsage, if_leader, IsLeader, mthen. simpl.
  rewrite (he_leader He). unfold send. rewrite Marshal_Command by done.
  set (n1 := mkNode _ _ _ _ _).
  destruct (healthy_raft_Apply (enc_Command (cmd_memory d)) n1 He) as (n' & E & Hf & Hq & _).
  unfold mthen. rewrite E. exists n'. split; [done|]. split; [|done]. rewrite Hf. unfold FSM_Apply.
  rewrite dec_enc_Command; [done|]. unfold command_ok. cbn.
  split_and!; [by intros ? [=]|by intros ? [=]|by intros ? [=]|by intros ? [=]|constructor|done|].
  unfold in64, two63. lia.
Qed.

Lemma healthy_count d n :
  healthy_env → in64 d → ∃ n', UpdateJobCount d n = Some (None, n') ∧
    n_fsm n' = set_jobCount (clamp_add (f_jobCount (n_fsm n)) d) (n_fsm n) ∧
    n_queue n' = n_queue n.
Proof.
  intros He Hd. unfold UpdateJobCount, if_leader, IsLeader, mthen. simpl.
  rewrite (he_leader He). unfold send. rewrite Marshal_Command by done.
  set (n1 := mkNode _ _ _ _ _).
  destruct (healthy_raft_Apply (enc_Command (cmd_job_count d)) n1 He) as (n' & E & Hf & Hq & _).
  unfold mthen. rewrite E. exists n'. split; [done|]. split; [|done]. rewrite Hf. unfold FSM_Apply.
  rewrite dec_enc_Command; [done|]. unfold command_ok. cbn.
  split_and!; [by intros ? [=]|by intros ? [=]|by intros ? [=]|by intros ? [=]|constructor| |done].
  unfold in64, two63. lia.
Qed.

Lemma clamp_add_exact v d : 0 <= v + d < two63 → clamp_add v d = v + d.
Proof.
  intros Hv. unfold clamp_add. rewrite i64_id by (unfold in64, two63 in *; lia).
  by rewrite decide_False by lia.
Qed.

Lemma RecordJobAdded_healthy lm j n :
  healthy_env → ∃ n', RecordJobAdded lm j n = Some (None, n') ∧
    usage n' = (clamp_add (f_memoryUsage (n_fsm n)) (CalculateSize (lm_sizeCalculator lm) j),
                clamp_add (f_jobCount (n_fsm n)) 1).
Proof.
  intros He. unfold RecordJobAdded, IncrementUsage, Increment, mthen.
  destruct (healthy_memory (CalculateSize (lm_sizeCalculator lm) j) n He) as (n1 & -> & F1 & _).
  { rewrite CalculateSize_wrap. apply i64_in64. }
  destruct (healthy_count 1 n1 He) as (n2 & -> & F2 & _); [unfold in64, two63; lia|].
  exists n2. split; [done|]. unfold usage. by rewrite F2, F1.
Qed.

Lemma RecordJobRemoved_healthy lm j n :
  healthy_env → ∃ n', RecordJobRemoved lm j n = Some (None, n') ∧
    usage n' = (clamp_add (f_memoryUsage (n_fsm n)) (i64 (- CalculateSize (lm_sizeCalculator lm) j)),
                clamp_add (f_jobCount (n_fsm n)) (-1)).
Proof.
  intros He. unfold RecordJobRemoved, DecrementUsage, Decrement, mthen.
  destruct (healthy_memory (i64 (- CalculateSize (lm_sizeCalculator lm) j)) n He (i64_in64 _))
    as (n1 & -> & F1 & _).
  destruct (healthy_count (-1) n1 He) as (n2 & -> & F2 & _); [unfold in64, two63; lia|].
  exists n2. split; [done|]. unfold usage. by rewrite F2, F1.
Qed.

(** C26: admission keeps the queue within its limits. When [CheckCapacity]
    accepts a job and it is then recorded, memory usage has grown by exactly
    the job's size and the count by one, and both are within the limits; when
    it refuses, the error says which limit would be exceeded, and nothing
    changed. *)
Theorem admission_respects_limits lm j n :
  healthy_env → fsm_inv (n_fsm n) → 0 <= baseOverhead (lm_sizeCalculator lm) →
  in64 (lm_jobLimit lm) →
  f_memoryUsage (n_fsm n) + job_size (lm_sizeCalculator lm) j < two63 →
  let size := job_size (lm_sizeCalculator lm) j in
  (CheckCapacity lm j n = Some (None, n) ∧
   ∃ n', RecordJobAdded lm j n = Some (None, n') ∧
     usage n' = (f_memoryUsage (n_fsm n) + size, f_jobCount (n_fsm n) + 1) ∧
     (usage n').1 <= lm_memoryLimit lm ∧ (usage n').2 <= lm_jobLimit lm) ∨
  (∃ e, CheckCapacity lm j n = Some (Some e, n) ∧
     ((ce_Type e = "memory" ∧ lm_memoryLimit lm < f_memoryUsage (n_fsm n) + size) ∨
      (ce_Type e = "job_count" ∧ lm_jobLimit lm <= f_jobCount (n_fsm n)))).
Proof.
  intros He [_ _ _ Hm Hc] Hb Hjl Hsum size.
  destruct (CalculateSize_sum (lm_sizeCalculator lm) j Hb) as [Hsize Hpos]; [lia|].
  fold size in Hsize, Hpos, Hsum.
  unfold CheckCapacity, MemoryTracker_CheckCapacity, JobCounter_CheckCapacity, GetUsage,
    GetMemoryUsage, GetJobCount, gets, mthen, mreturn. cbn [mu_CurrentBytes mu_LimitBytes].
  unfold FSM_GetMemoryUsage, FSM_GetJobCount. rewrite Hsize.
  rewrite i64_id by (unfold in64, two63 in *; lia).
  case_decide as Hmem; [right; eexists; split; [done|]; left; split; [done|lia]|].
  case_decide as Hcnt; [right; eexists; split; [done|]; right; split; [done|lia]|].
  left. split; [done|]. destruct (RecordJobAdded_healthy lm j n He) as (n' & E & Hu).
  exists n'. split; [done|]. rewrite Hu, Hsize. unfold in64 in Hjl.
  rewrite !clamp_add_exact by lia. simpl. split_and!; [done|lia|lia].
Qed.

(** Removing what was added restores the counters: after [RecordJobAdded]
    and [RecordJobRemoved] of the same job the memory usage and the job count
    are what they were. *)
Theorem record_add_remove_roundtrip lm j n :
  healthy_env → fsm_inv (n_fsm n) → 0 <= baseOverhead (lm_sizeCalculator lm) →
  f_memoryUsage (n_fsm n) + job_size (lm_sizeCalculator lm) j < two63 →
  f_jobCount (n_fsm n) + 1 < two63 →
  ∃ n1 n2, RecordJobAdded lm j n = Some (None, n1) ∧ RecordJobRemoved lm j n1 = Some (None, n2) ∧
    usage n2 = usage n.
Proof.
  intros He [_ _ _ Hm Hc] Hb Hsum Hcnt.
  destruct (CalculateSize_sum (lm_sizeCalculator lm) j Hb) as [Hsize Hpos]; [lia|].
  destruct (RecordJobAdded_healthy lm j n He) as (n1 & E1 & U1).
  destruct (RecordJobRemoved_healthy lm j n1 He) as (n2 & E2 & U2).
  exists n1, n2. split_and!; [done..|]. unfold usage in U1 |- *. injection U1 as M1 C1.
  unfold usage in U2. injection U2 as M2 C2. rewrite M2, C2, M1, C1, Hsize.
  rewrite (i64_id (- _)) by (unfold in64, two63 in *; lia).
  rewrite !clamp_add_exact; f_equal; rewrite ?clamp_add_exact; lia.
Qed.

(** Counting drifts. A job created with an empty payload map is counted
    with the two bytes of its text, but the stored copy that is counted when
    the job is removed has lost the map: two bytes stay on the counter for
    every such job. *)
Theorem empty_payload_leaks_two_bytes lm j n :
  healthy_env → fsm_inv (n_fsm n) → 0 <= baseOverhead (lm_sizeCalculator lm) →
  job_Payload j = Some ∅ →
  f_memoryUsage (n_fsm n) + job_size (lm_sizeCalculator lm) j < two63 →
  ∃ n1 n2, RecordJobAdded lm j n = Some (None, n1) ∧
    RecordJobRemoved lm (job_norm j) n1 = Some (None, n2) ∧
    f_memoryUsage (n_fsm n2) = f_memoryUsage (n_fsm n) + 2.
Proof.
  intros He [_ _ _ Hm Hc] Hb Hp Hsum.
  destruct (CalculateSize_sum (lm_sizeCalculator lm) j Hb) as [Hsize Hpos]; [lia|].
  assert (job_size (lm_sizeCalculator lm) (job_norm j) = job_size (lm_sizeCalculator lm) j - 2) as Hn.
  { unfold job_size, job_norm. rewrite Hp, empty_payload_size. simpl.
    rewrite decide_True by done. lia. }
  destruct (CalculateSize_sum (lm_sizeCalculator lm) (job_norm j) Hb) as [Hsize' Hpos']; [lia|].
  destruct (RecordJobAdded_healthy lm j n He) as (n1 & E1 & U1).
  destruct (RecordJobRemoved_healthy lm (job_norm j) n1 He) as (n2 & E2 & U2).
  exists n1, n2. split_and!; [done..|]. unfold usage in U1, U2. injection U1 as M1 _.
  injection U2 as M2 _. rewrite M2, M1, Hsize, Hsize'.
  rewrite (i64_id (- _)) by (unfold in64, two63 in *; lia).
  rewrite !clamp_add_exact; rewrite ?clamp_add_exact; lia.
Qed.

End limit_props.

(** ** A concrete node *)

Definition ex_limits : LimitManager := mkLimitManager 1000000 100 NewSizeCalculator.

Definition ex_empty_payload : Job := mkJob "a" "unico" (Some 100) "" None 5 "http://w" (Some ∅).

Lemma ex_new_inv : fsm_inv (NewFSM (CS := MemBolt)).
Proof. apply (initial_fsm_inv None). Qed.

Lemma admission_respects_limits_witness :
  (CheckCapacity ex_limits ex_job (ex_node_of NewFSM) = Some (None, ex_node_of NewFSM) ∧
   ∃ n', @RecordJobAdded MemBolt unit _ (ex_env 200) ex_limits ex_job (ex_node_of NewFSM) =
     Some (None, n') ∧ (usage n').1 <= 1000000) ∨
  (∃ e, CheckCapacity ex_limits ex_job (ex_node_of NewFSM) = Some (Some e, ex_node_of NewFSM)).
Proof.
  destruct (@admission_respects_limits MemBolt unit _ (ex_env 200) ex_limits ex_job
    (ex_node_of NewFSM)) as [(E & n' & E' & _ & Hm & _)|(e & E & _)].
  - exact (ex_env_healthy 200).
  - exact ex_new_inv.
  - vm_compute. congruence.
  - split; vm_compute; congruence.
  - vm_compute. reflexivity.
  - left. split; [exact E|]. exists n'. split; [exact E'|exact Hm].
  - right. exists e. exact E.
Defined.

Lemma record_add_remove_roundtrip_witness :
  ∃ n1 n2, @RecordJobAdded MemBolt unit _ (ex_env 200) ex_limits ex_job (ex_node_of NewFSM) =
      Some (None, n1) ∧
    @RecordJobRemoved MemBolt unit _ (ex_env 200) ex_limits ex_job n1 = Some (None, n2) ∧
    usage n2 = (0, 0).
Proof.
  apply (@record_add_remove_roundtrip MemBolt unit _ (ex_env 200) ex_limits ex_job (ex_node_of NewFSM)).
  - exact (ex_env_healthy 200).
  - exact ex_new_inv.
  - vm_compute. congruence.
  - vm_compute. reflexivity.
  - vm_compute. reflexivity.
Defined.

Lemma empty_payload_leaks_two_bytes_witness :
  ∃ n1 n2, @RecordJobAdded MemBolt unit _ (ex_env 200) ex_limits ex_empty_payload
      (ex_node_of NewFSM) = Some (None, n1) ∧
    @RecordJobRemoved MemBolt unit _ (ex_env 200) ex_limits (job_norm ex_empty_payload) n1 =
      Some (None, n2) ∧
    f_memoryUsage (n_fsm n2) = 2.
Proof.
  apply (@empty_payload_leaks_two_bytes MemBolt unit _ (ex_env 200) ex_limits ex_empty_payload
    (ex_node_of NewFSM)).
  - exact (ex_env_healthy 200).
  - exact ex_new_inv.
  - vm_compute. congruence.
  - reflexivity.
  - vm_compute. reflexivity.
Defined.
