(* ===== verification/SlotQueue.v ===== *)
(** * The slot queue: [persistent_slots.go] and the event handler of [app.go]

    Slots themselves live in the replicated state machine; the queue keeps
    the timing wheel and a map from jobs to slots in memory. It reads and
    writes slots through the store, so its operations are computations on the
    node. The mutex of the queue makes each of them atomic with respect to the
    others. *)

From S2P Require Import Prelude GoStrings Json Types Codec ColdStore FSM GoFloat Store.
From S2P Require Import StoreProps TimingWheel.

Record Queue := mkQueue {
  q_slotGap : Z;
  q_jobToSlot : gmap string Z;
  q_wheel : HierarchicalTimingWheel;
  q_lastAdvance : Z }.

(** [types.go]: what the worker gets to see. *)
Record Slot := mkSlot {
  s_Key : Z;
  s_MinTime : Z;
  s_MaxTime : Z;
  s_Jobs : list Job }.

(** [make] may panic when a configuration asks for a negative bucket count. *)
Definition NewPersistentSlotQueueWithConfig (gap : Z) (configs : list WheelLevelConfig)
    : option Queue :=
  let gap := if decide (gap = 0) then DefaultSlotGap else gap in
  w ← NewHierarchicalTimingWheel gap configs; Some (mkQueue gap ∅ w 0).

Definition NewPersistentSlotQueue (gap : Z) : option Queue :=
  let gap := if decide (gap = 0) then DefaultSlotGap else gap in
  w ← NewHierarchicalTimingWheel gap (DefaultWheelConfigs gap); Some (mkQueue gap ∅ w 0).

Section SlotQueue.

Context {CS : Type} `{ColdSlotStore CS} `{GoRange} `{Env}.

Local Open Scope go_scope.

Notation P := (M (Node CS Queue)).

Definition queue : P Queue := gets n_queue.

Definition set_q (f : Queue → Queue) : P unit := modify (λ n, set_queue (f (n_queue n)) n).

Definition set_jobToSlot (m : gmap string Z) (q : Queue) : Queue :=
  mkQueue (q_slotGap q) m (q_wheel q) (q_lastAdvance q).

Definition set_wheel (w : HierarchicalTimingWheel) (q : Queue) : Queue :=
  mkQueue (q_slotGap q) (q_jobToSlot q) w (q_lastAdvance q).

Definition set_lastAdvance (t : Z) (q : Queue) : Queue :=
  mkQueue (q_slotGap q) (q_jobToSlot q) (q_wheel q) t.

(** A call of a wheel method; [None] is its panic. *)
Definition on_wheel {A} (f : HierarchicalTimingWheel → option (A * HierarchicalTimingWheel)) : P A :=
  q <- queue ;;
  r <- lift_opt (f (q_wheel q)) ;;
  set_q (set_wheel r.2) ;;
  mreturn r.1.

Definition on_wheel_ (f : HierarchicalTimingWheel → option HierarchicalTimingWheel) : P unit :=
  on_wheel (λ w, (λ w', (tt, w')) <$> f w).

(** [if psq.store.IsLeader() { if err := ...; err != nil { log } }] *)
Definition when_leader (k : P (option error)) : P unit :=
  l <- IsLeader ;; if (l : bool) then (_ <- k ;; mreturn tt) else mreturn tt.

Definition getSlotKey (gap timestamp : Z) : option Z := go_quot timestamp (secs gap).

Definition ensure_init : P unit :=
  q <- queue ;;
  if initialized (q_wheel q) then mreturn tt
  else now <- Now ;; on_wheel_ (Init now).

(** The timestamp a job is filed under. *)
Definition job_time (job : Job) : option Z :=
  match job_Timestamp job with
  | Some ts =>
      if decide (job_Type job = JobUnico) then Some ts
      else if decide (job_Type job = JobRecurrente) then Some (job_CreatedAt job) else None
  | None => if decide (job_Type job = JobRecurrente) then Some (job_CreatedAt job) else None
  end.

Definition new_slot (gap key : Z) (id : string) : SlotData :=
  mkSlotData key (i64 (key * secs gap)) (i64 (i64 (i64 (key + 1) * secs gap) - 1)) [id].

Definition AddJob (job : Job) : P unit :=
  match job_time job with
  | None => mreturn tt
  | Some timestamp =>
      q <- queue ;;
      key <- lift_opt (getSlotKey (q_slotGap q) timestamp) ;;
      ensure_init ;;
      slot <- GetSlot key ;;
      let slotData :=
        match slot with
        | None => new_slot (q_slotGap q) key (job_ID job)
        | Some d => set_JobIDs (slot_JobIDs d ++ [job_ID job]) d
        end in
      when_leader (CreateSlot slotData) ;;
      set_q (λ q, set_jobToSlot (<[job_ID job := key]> (q_jobToSlot q)) q) ;;
      on_wheel_ (Add key)
  end.

(** Take the job out of a slot that was read, then delete or rewrite it. *)
Definition take_out (key : Z) (slotData : SlotData) (jobID : string) : P unit :=
  let d := set_JobIDs (remove_first jobID (slot_JobIDs slotData)) slotData in
  if decide (length (slot_JobIDs d) = 0%nat) then
    when_leader (DeleteSlot key) ;; on_wheel_ (Remove key)
  else when_leader (CreateSlot d).

Definition forget (jobID : string) : P unit :=
  set_q (λ q, set_jobToSlot (delete jobID (q_jobToSlot q)) q).

(** One slot of the search of [removeJobFallback]; [true] returns. *)
Definition fallback_slot (jobID : string) (entry : Z * SlotData) : P bool :=
  let '(key, slotData) := entry in
  if decide (jobID ∈ slot_JobIDs slotData) then
    take_out key slotData jobID ;; forget jobID ;; mreturn true
  else mreturn false.

Definition fallback_cold (jobID : string) (key : Z) : P bool :=
  d <- GetColdSlotData key ;;
  match d with
  | inl (Some slotData) => fallback_slot jobID (key, slotData)
  | _ => mreturn false
  end.

Definition removeJobFallback (jobID : string) : P unit :=
  cold <- IsColdSpillingEnabled ;;
  if (cold : bool) then
    slots <- GetAllSlots ;;
    coldKeys <- GetColdSlotKeys ;;
    found <- for_until (fallback_cold jobID) coldKeys ;;
    if (found : bool) then mreturn tt
    else _ <- for_until (fallback_slot jobID) (range_map slots) ;; mreturn tt
  else
    slots <- GetAllSlots ;;
    _ <- for_until (fallback_slot jobID) (range_map slots) ;; mreturn tt.

Definition RemoveJob (jobID : string) : P unit :=
  q <- queue ;;
  match q_jobToSlot q !! jobID with
  | None => removeJobFallback jobID
  | Some key =>
      forget jobID ;;
      slot <- GetSlot key ;;
      match slot with
      | None => mreturn tt
      | Some slotData => take_out key slotData jobID
      end
  end.

(** The loop over the keys [Advance] returned. *)
Definition drop_ready (key : Z) : P unit :=
  slot <- GetSlot key ;;
  match slot with
  | None => on_wheel_ (Remove key)
  | Some slotData =>
      if decide (length (slot_JobIDs slotData) = 0%nat) then
        on_wheel_ (Remove key) ;; when_leader (DeleteSlot key)
      else mreturn tt
  end.

(** The jobs of a slot that still exist. *)
Definition collect_job (jobID : string) (jobs : list Job) : P (list Job) :=
  j <- GetJob jobID ;; mreturn (match j with Some job => jobs ++ [job] | None => jobs end).

(** [GetNextSlot] from the call of [PeekMin] on. *)
Definition earliest_slot (slotGapSeconds : Z) : P (option Slot) :=
  minTime <- on_wheel (λ w, (λ m, (m, w)) <$> PeekMin w) ;;
  if decide (minTime = -1) then mreturn None
  else
    minKey <- lift_opt (go_quot minTime slotGapSeconds) ;;
    slot <- GetSlot minKey ;;
    match slot with
    | None => mreturn None
    | Some slotData =>
        jobs <- for_acc collect_job (slot_JobIDs slotData) [] ;;
        if decide (length jobs = 0%nat) then mreturn None
        else mreturn (Some (mkSlot minKey (slot_MinTime slotData) (slot_MaxTime slotData) jobs))
    end.

Definition GetNextSlot : P (option Slot) :=
  ensure_init ;;
  now <- Now ;;
  q <- queue ;;
  let slotGapSeconds := secs (q_slotGap q) in
  readyKeys <- on_wheel (Advance now) ;;
  for_each drop_ready readyKeys ;;
  earliest_slot slotGapSeconds.

Definition RemoveSlot (key : Z) : P unit :=
  slot <- GetSlot key ;;
  match slot with
  | Some slotData => for_each forget (slot_JobIDs slotData)
  | None => mreturn tt
  end ;;
  on_wheel_ (Remove key) ;;
  when_leader (DeleteSlot key).

Definition remember (key : Z) (jobID : string) : P unit :=
  set_q (λ q, set_jobToSlot (<[jobID := key]> (q_jobToSlot q)) q).

Definition load_slot (entry : Z * SlotData) : P unit :=
  for_each (remember entry.1) (slot_JobIDs entry.2) ;; on_wheel_ (Add entry.1).

Definition load_cold (key : Z) : P unit :=
  d <- GetColdSlotData key ;;
  match d with
  | inl (Some slotData) => load_slot (key, slotData)
  | _ => mreturn tt
  end.

(** The argument of the source is not used. *)
Definition LoadJobs : P unit :=
  set_q (set_jobToSlot ∅) ;;
  on_wheel_ (λ w, Some (Reset w)) ;;
  now <- Now ;;
  on_wheel_ (Init now) ;;
  slots <- GetAllSlots ;;
  for_each load_slot (range_map slots) ;;
  cold <- IsColdSpillingEnabled ;;
  (if (cold : bool) then keys <- GetColdSlotKeys ;; for_each load_cold keys else mreturn tt) ;;
  now <- Now ;;
  set_q (set_lastAdvance now).

Definition Queue_Size : P Z := gets (λ n, Size (q_wheel (n_queue n))).

Definition JobCount : P Z := gets (λ n, Z.of_nat (size (q_jobToSlot (n_queue n)))).

(** The handler [NewApp] installs. *)
Definition event_handler (event : string) (job : option Job) : P unit :=
  l <- IsLeader ;;
  if (l : bool) then
    match job with
    | None => mreturn tt
    | Some job =>
        if decide (event = "created") then AddJob job
        else if decide (event = "deleted") then RemoveJob (job_ID job)
        else mreturn tt
    end
  else mreturn tt.

End SlotQueue.
