(* ===== verification/SlotQueueProps.v ===== *)
(** * Properties of the slot queue

    The queue is driven against a healthy node with the rules of
    [StoreProps.v] and the wheel lemmas of [WheelProps.v]. *)

From S2P Require Import Prelude GoStrings Json Types Codec ColdStore FSM GoFloat Store.
From S2P Require Import StoreProps TimingWheel WheelProps WheelTime SlotQueue.

(** What [NewPersistentSlotQueue] sets up for a gap of at least one second and
    every operation keeps. *)
Record queue_ok (q : Queue) : Prop := {
  qo_gap : 0 < secs (q_slotGap q);
  qo_same : slotGap (q_wheel q) = q_slotGap q;
  qo_wheel : wheel_ok (q_wheel q) }.

(** The slots of a state machine are filed under their own keys. *)
Definition slots_ok {CS} `{ColdSlotStore CS} (f : FSM CS) : Prop :=
  ∀ k d, FSM_GetSlot k f = Some d → slot_Key d = k ∧ slot_ok d.

Section queue_rules.

Context {CS : Type} `{ColdSlotStore CS} `{GoRange} `{Env}.

Implicit Types (n : Node CS Queue) (f : FSM CS) (q : Queue) (c : gset string) (tr : list event).

Lemma log_only_set_q (g : Queue → Queue) : log_only (set_q (CS := CS) g).
Proof. apply log_only_modify. intros n. by apply extends_same. Qed.

Lemma at_set_q (g : Queue → Queue) f q c tr n :
  node_at f q c tr n → returns (set_q g) n (λ _ n', node_at f (g q) c tr n').
Proof. intros [i ->]. apply returns_modify. by exists i. Qed.

Lemma at_on_wheel_ g f q c tr n w' :
  node_at f q c tr n → g (q_wheel q) = Some w' →
  returns (on_wheel_ g) n (λ _ n', node_at f (set_wheel w' q) c tr n').
Proof.
  intros [i ->] E. unfold on_wheel_, on_wheel, returns, mthen, queue, gets, lift_opt. simpl.
  rewrite E. simpl. eexists _, _. split; [done|]. by exists i.
Qed.

Lemma at_when_leader k f q c tr n R :
  healthy_env → node_at f q c tr n →
  (∀ n', node_at f q c tr n' → returns k n' (λ _ n'', R tt n'')) →
  returns (when_leader k) n R.
Proof.
  intros He Hn Hk. unfold when_leader. apply returns_bind.
  eapply returns_mono; [by apply at_IsLeader|]. intros b n' [-> Hn'].
  apply returns_bind. eapply returns_mono; [by apply Hk|]. intros a n'' Hr. by apply returns_ret.
Qed.

Lemma queue_ok_wheel q w :
  queue_ok q → wheel_ok w → slotGap w = slotGap (q_wheel q) → queue_ok (set_wheel w q).
Proof. intros [Hg Hs Hw] Hw' Hsame. split; simpl; [done|congruence|done]. Qed.

Lemma queue_ok_jobs q m : queue_ok q → queue_ok (set_jobToSlot m q).
Proof. intros [Hg Hs Hw]. by split. Qed.

Lemma at_ensure_init f q c tr n :
  (∀ i, in64 (unix (now i))) → queue_ok q → node_at f q c tr n →
  returns ensure_init n (λ _ n', ∃ w, node_at f (set_wheel w q) c tr n' ∧ wheel_ok w ∧
    wheel_keys w = wheel_keys (q_wheel q) ∧ slotGap w = slotGap (q_wheel q)).
Proof.
  intros He Hq Hn. unfold ensure_init. apply returns_bind. destruct Hn as [i ->].
  apply returns_gets. simpl. destruct (initialized (q_wheel q)) eqn:Hi.
  - apply returns_ret. exists (q_wheel q). split; [|by split_and!; [apply Hq| |]].
    exists i. by destruct q.
  - apply returns_bind. eapply returns_mono; [apply at_Now; [done|by exists i]|].
    intros t n' [Ht Hn']. destruct (Init_ok t (q_wheel q)) as (w & E & Hw & _ & Hk & Hg & _);
      [apply Hq|done|].
    eapply returns_mono; [by eapply at_on_wheel_|].
    intros [] n'' Hn''. by exists w.
Qed.

Lemma at_Add k f q c tr n :
  queue_ok q → in64 k → node_at f q c tr n →
  returns (on_wheel_ (Add k)) n (λ _ n', ∃ w, node_at f (set_wheel w q) c tr n' ∧ wheel_ok w ∧
    wheel_keys w = {[k]} ∪ wheel_keys (q_wheel q) ∧ slotGap w = slotGap (q_wheel q)).
Proof.
  intros Hq Hk Hn. destruct (Add_ok k (q_wheel q)) as (w & E & Hw & Hks & _ & Hg & _);
    [apply Hq|done|].
  eapply returns_mono; [by eapply at_on_wheel_|]. intros [] n' Hn'.
  by exists w.
Qed.

Lemma at_Remove k f q c tr n :
  queue_ok q → node_at f q c tr n →
  returns (on_wheel_ (Remove k)) n (λ _ n', ∃ w, node_at f (set_wheel w q) c tr n' ∧ wheel_ok w ∧
    wheel_keys w ⊆ wheel_keys (q_wheel q) ∧ wheel_keys (q_wheel q) ⊆ {[k]} ∪ wheel_keys w ∧
    skel w = skel (q_wheel q)).
Proof.
  intros Hq Hn. destruct (Remove_ok k (q_wheel q)) as (w & E & Hw & Hs & Hk1 & Hk2 & _);
    [apply Hq|].
  eapply returns_mono; [by eapply at_on_wheel_|]. intros [] n' Hn'.
  by exists w.
Qed.

(** *** The next slot *)

(** Wheels on which [PeekMin] cannot run out of a bucket array. *)
Definition peekable (w : HierarchicalTimingWheel) : Prop :=
  ∀ L, L ∈ levels w → level_wf L ∧ bucketCount L < horizon.

Lemma peekable_time w : time_inv w → peekable w.
Proof.
  intros Hw L HL. apply list_elem_of_lookup_1 in HL as [i HL]. pose proof (ti_base _ Hw) as Hb.
  split; [by eapply wf_level; [apply Hb|]|].
  destruct (rings_ok_range _ _ i (ring_of L) (tb_rings _ Hb)) as (Hg & Hc & Hr).
  { apply rings_lookup. eauto. } simpl in *. nia.
Qed.

Lemma peekable_skel w w' : skel w = skel w' → peekable w → peekable w'.
Proof.
  intros Hs Hp L HL. apply list_elem_of_lookup_1 in HL as [i HL].
  destruct (skel_levels w' w i L) as (L' & HL' & HS); [by symmetry|done|].
  destruct (Hp L') as [Hwf Hh]; [by eapply list_elem_of_lookup_2|].
  split; [by eapply level_skel_wf|]. unfold level_skel in HS. injection HS as _ HS _ _. by rewrite <-HS.
Qed.

Lemma min_times_in64 gap m l : in64 m → in64 (min_times gap m l).
Proof.
  revert m. induction l as [|k l IH]; intros m Hm; [done|]. simpl. apply IH.
  case_decide; [apply i64_in64|done].
Qed.

Lemma PeekMin_total w : peekable w → ∃ m, PeekMin w = Some m ∧ in64 m.
Proof.
  intros Hw. unfold PeekMin. destruct (initialized w); [|by exists (-1)].
  destruct (ofold_ind (λ _ m, in64 m)
    (λ L m, B ← first_bucket (S (Z.to_nat (bucketCount L))) 0 L;
            Some (min_times (slotGapSeconds w) m (range_set B))) (levels w) (-1))
    as (m & E & Hm); [done| |].
  - intros l1 L l2 m Hl Hm. destruct (Hw L) as [HL Hh]; [rewrite Hl; set_solver|].
    destruct (first_bucket_some L HL Hh) as (B & -> & _). eexists. split; [done|].
    by apply min_times_in64.
  - rewrite E. eexists. split; [done|]. by apply min_times_in64.
Qed.

(** Only slots changed. *)
Definition same_jobs f f' : Prop :=
  f_jobs f' = f_jobs f ∧ f_executionStates f' = f_executionStates f.

Lemma at_drop_ready k f q c tr n :
  healthy_env → queue_ok q → node_at f q c tr n →
  returns (drop_ready k) n (λ _ n', ∃ f' w, node_at f' (set_wheel w q) c tr n' ∧
    same_jobs f f' ∧ wheel_ok w ∧ skel w = skel (q_wheel q)).
Proof.
  intros He Hq Hn. pose proof Hn as [i ->]. unfold drop_ready.
  apply returns_bind, returns_gets. simpl. destruct (FSM_GetSlot k f) as [d|].
  - case_decide.
    + apply returns_bind. eapply returns_mono; [by apply at_Remove|].
      intros [] n1 (w & Hn1 & Hw & _ & _ & Hs). eapply at_when_leader; [done..|].
      intros n2 Hn2. eapply returns_mono; [by apply at_DeleteSlot|]. intros e n3 [_ Hn3].
      exists (del_slot k f), w. split; [done|]. split; [|done].
      split; [apply del_slot_jobs|apply del_slot_states].
    + apply returns_ret. exists f, (q_wheel q). split_and!; [by destruct q|done|apply Hq|done].
  - eapply returns_mono; [by apply at_Remove|]. intros [] n1 (w & Hn1 & Hw & _ & _ & Hs).
    by exists f, w.
Qed.

Lemma at_drop_loop l f q c tr n :
  healthy_env → queue_ok q → node_at f q c tr n →
  returns (for_each drop_ready l) n (λ _ n', ∃ f' w, node_at f' (set_wheel w q) c tr n' ∧
    same_jobs f f' ∧ wheel_ok w ∧ skel w = skel (q_wheel q)).
Proof.
  intros He. revert f q n. induction l as [|k l IH]; intros f q n Hq Hn.
  - apply returns_ret. exists f, (q_wheel q). split_and!; [by destruct q|done|apply Hq|done].
  - apply returns_bind. eapply returns_mono; [by apply at_drop_ready|].
    intros [] n1 (f1 & w1 & Hn1 & [Hj1 Hs1] & Hw1 & Hk1).
    assert (queue_ok (set_wheel w1 q)) as Hq1.
    { apply queue_ok_wheel; [done..|]. by apply skel_clock in Hk1 as (? & _). }
    eapply returns_mono; [by apply IH|].
    intros [] n2 (f2 & w2 & Hn2 & [Hj2 Hs2] & Hw2 & Hk2).
    exists f2, w2. split_and!; [done|by split; congruence|done|]. by rewrite Hk2, <-Hk1.
Qed.

Lemma collect_jobs ids jobs n :
  for_acc collect_job ids jobs n = Some (jobs ++ omap (λ id, FSM_GetJob id (n_fsm n)) ids, n).
Proof.
  revert jobs. induction ids as [|id ids IH]; intros jobs; [by rewrite app_nil_r|].
  simpl. unfold mthen at 1. unfold collect_job at 1, GetJob, gets, mthen, mreturn. rewrite IH.
  destruct (FSM_GetJob id (n_fsm n)); [|done]. by rewrite <-app_assoc.
Qed.

(** What [GetNextSlot] promises of its result, in the state it leaves. *)
Definition next_ok (o : option Slot) f : Prop :=
  ∀ s, o = Some s →
    s_Jobs s ≠ [] ∧ ∃ d, FSM_GetSlot (s_Key s) f = Some d ∧
      s_MinTime s = slot_MinTime d ∧ s_MaxTime s = slot_MaxTime d ∧
      s_Jobs s = omap (λ id, FSM_GetJob id f) (slot_JobIDs d).

Lemma at_earliest_slot f q c tr n :
  queue_ok q → peekable (q_wheel q) → node_at f q c tr n →
  returns (earliest_slot (secs (q_slotGap q))) n
    (λ o n', node_at f (set_wheel (q_wheel q) q) c tr n' ∧ next_ok o f).
Proof.
  intros Hq Hp [i ->]. unfold earliest_slot. destruct (PeekMin_total _ Hp) as (m & Em & Hm).
  apply returns_bind. unfold on_wheel. apply returns_bind, returns_gets. simpl.
  rewrite Em. simpl. apply returns_bind. eapply returns_lift; [done|].
  apply returns_bind, returns_modify, returns_ret. simpl.
  case_decide; [apply returns_ret; split; [by exists i|by intros ? [=]]|]. apply returns_bind.
  eapply returns_lift; [apply go_quot_pos; [done|apply Hq]|]. apply returns_bind, returns_gets. simpl.
  destruct (FSM_GetSlot _ f) as [d|] eqn:Hd;
    [|apply returns_ret; split; [by exists i|by intros ? [=]]].
  apply returns_bind. eexists _, _. split; [apply collect_jobs|]. simpl.
  case_decide as Hlen; apply returns_ret; (split; [by exists i|]); [by intros ? [=]|].
  intros s [= <-]. simpl. split; [by intros Hnil; rewrite Hnil in Hlen|]. by exists d.
Qed.

Lemma at_Advance t f q c tr n :
  queue_ok q → time_inv (q_wheel q) → initialized (q_wheel q) = true → near t →
  node_at f q c tr n →
  returns (on_wheel (Advance t)) n (λ _ n', ∃ w, node_at f (set_wheel w q) c tr n' ∧
    queue_ok (set_wheel w q) ∧ time_inv w).
Proof.
  intros Hq Ht Hi Hn [i ->].
  assert (in64 t) by (unfold near, in64, two63, horizon in *; lia).
  destruct (Advance_time t (q_wheel q) Ht Hi Hn) as (ready & w & E & Htw & _).
  destruct (Advance_releases t (q_wheel q)) as (r' & w' & E' & Hw & Hc & (_ & Hl & _) & Hg & _);
    [apply (qo_wheel _ Hq)..|done|]. rewrite E in E'. injection E' as <- <-.
  unfold on_wheel. apply returns_bind, returns_gets. simpl.
  apply returns_bind. eapply returns_lift; [exact E|]. apply returns_bind, returns_modify, returns_ret.
  exists w. split_and!; [by exists i| |done].
  apply queue_ok_wheel; [done|split; [done..|]; apply Hl, Hq|done].
Qed.

Lemma at_GetNextSlot f q c tr n :
  healthy_env → (∀ i, near (unix (now i))) → queue_ok q →
  time_inv (q_wheel q) → initialized (q_wheel q) = true → node_at f q c tr n →
  returns GetNextSlot n (λ o n', ∃ f' q', node_at f' q' c tr n' ∧ queue_ok q' ∧
    same_jobs f f' ∧ next_ok o f').
Proof.
  intros He Hnear Hq Ht Hi [i ->]. unfold GetNextSlot.
  apply returns_bind. unfold ensure_init. apply returns_bind, returns_gets. simpl. rewrite Hi.
  apply returns_ret, returns_bind. unfold Now, TimeNow, ask, mthen, mreturn. eexists _, _.
  split; [done|]. apply returns_bind, returns_gets. simpl.
  apply returns_bind. eapply returns_mono; [apply at_Advance; [done..|apply Hnear|by eexists]|].
  intros ready n1 (w1 & Hn1 & Hq1 & Ht1). apply returns_bind.
  eapply returns_mono; [by apply at_drop_loop|].
  intros [] n2 (f2 & w2 & Hn2 & Hj2 & Hw2 & Hk2). simpl in Hk2.
  assert (queue_ok (set_wheel w2 (set_wheel w1 q))) as Hq2.
  { apply queue_ok_wheel; [done..|]. by apply skel_clock in Hk2 as (? & _). }
  eapply returns_mono; [apply (at_earliest_slot f2 (set_wheel w2 (set_wheel w1 q)) c tr)|];
    [done| |done|].
  - apply (peekable_skel w1); [done|by apply peekable_time].
  - intros o n3 [Hn3 Ho]. eexists f2, _. split; [exact Hn3|]. split_and!; [|done|done].
    by apply queue_ok_wheel; [|apply Hq2|].
Qed.

(** *** Filing and removing jobs *)

(** The slot [AddJob] writes. *)
Definition filed (job : Job) (key : Z) q f : SlotData :=
  match FSM_GetSlot key f with
  | None => new_slot (q_slotGap q) key (job_ID job)
  | Some d => set_JobIDs (slot_JobIDs d ++ [job_ID job]) d
  end.

Lemma filed_ok job key q f :
  slots_ok f → in64 key → slot_Key (filed job key q f) = key ∧ slot_ok (filed job key q f).
Proof.
  intros Hf Hk. unfold filed. destruct (FSM_GetSlot key f) as [d|] eqn:E.
  - destruct (Hf _ _ E) as [Hd (? & ? & ?)]. done.
  - split; [done|]. split_and!; simpl; [done|apply i64_in64..].
Qed.

Lemma filed_ids job key q f :
  slot_JobIDs (filed job key q f) =
    default [] (slot_JobIDs <$> FSM_GetSlot key f) ++ [job_ID job].
Proof. unfold filed. by destruct (FSM_GetSlot key f). Qed.

Lemma at_AddJob job ts f q c tr n :
  healthy_env → queue_ok q → slots_ok f → job_time job = Some ts → in64 ts →
  node_at f q c tr n →
  let key := Z.quot ts (secs (q_slotGap q)) in
  returns (AddJob job) n (λ _ n', ∃ w,
    node_at (put_slot (filed job key q f) f)
      (set_wheel w (set_jobToSlot (<[job_ID job := key]> (q_jobToSlot q)) q)) c tr n' ∧
    wheel_ok w ∧ wheel_keys w = {[key]} ∪ wheel_keys (q_wheel q) ∧
    slotGap w = slotGap (q_wheel q)).
Proof.
  intros He Hq Hf Ht Hts Hn key. unfold AddJob. rewrite Ht.
  assert (in64 key) as Hkey by (by apply quot_in64; [|apply Hq]).
  apply returns_bind. destruct Hn as [i ->]. apply returns_gets. simpl.
  apply returns_bind. eapply returns_lift; [by apply go_quot_pos; [|apply Hq]|]. fold key.
  apply returns_bind. eapply returns_mono; [apply at_ensure_init; [apply (he_now He)|done|by exists i]|].
  intros [] n1 (w1 & [i1 ->] & Hw1 & Hk1 & Hg1). apply returns_bind, returns_gets. simpl.
  change (match FSM_GetSlot key f with Some _ => _ | None => _ end) with (filed job key q f).
  destruct (filed_ok job key q f Hf Hkey) as [_ Hd].
  apply returns_bind. eapply at_when_leader; [done|by exists i1|]. intros n2 Hn2.
  eapply returns_mono; [by apply at_CreateSlot|]. intros e n3 [_ Hn3].
  apply returns_bind. eapply returns_mono; [by apply at_set_q|]. intros [] n4 Hn4.
  eapply returns_mono; [apply at_Add; [|done|exact Hn4]|].
  - by apply queue_ok_jobs, queue_ok_wheel.
  - intros [] n5 (w & Hn5 & Hw & Hks & Hg). exists w. split_and!; [exact Hn5|done| |].
    + rewrite Hks. simpl. by rewrite Hk1.
    + rewrite Hg. simpl. done.
Qed.

(** The state machine after [take_out]. *)
Definition taken_out (key : Z) (d : SlotData) (id : string) f : FSM CS :=
  let d' := set_JobIDs (remove_first id (slot_JobIDs d)) d in
  if decide (length (slot_JobIDs d') = 0%nat) then del_slot key f else put_slot d' f.

Lemma at_RemoveJob id key d f q c tr n :
  healthy_env → queue_ok q → q_jobToSlot q !! id = Some key →
  FSM_GetSlot key f = Some d → slot_ok d → node_at f q c tr n →
  returns (RemoveJob id) n (λ _ n', ∃ w,
    node_at (taken_out key d id f)
      (set_wheel w (set_jobToSlot (delete id (q_jobToSlot q)) q)) c tr n' ∧
    wheel_ok w ∧ wheel_keys w ⊆ wheel_keys (q_wheel q) ∧
    wheel_keys (q_wheel q) ⊆ {[key]} ∪ wheel_keys w ∧ slotGap w = slotGap (q_wheel q)).
Proof.
  intros He Hq Hj Hd Hok [i ->]. unfold RemoveJob.
  apply returns_bind, returns_gets. simpl. rewrite Hj.
  apply returns_bind. eapply returns_mono; [apply at_set_q; by exists i|].
  intros [] n1 [i1 ->]. apply returns_bind, returns_gets. simpl. rewrite Hd.
  unfold take_out, taken_out. case_decide as Hlen.
  - apply returns_bind. eapply at_when_leader; [done|by exists i1|]. intros n2 Hn2.
    eapply returns_mono; [by apply at_DeleteSlot|]. intros e n3 [_ Hn3].
    eapply returns_mono; [apply at_Remove; [by apply queue_ok_jobs|exact Hn3]|].
    intros [] n4 (w & Hn4 & Hw & Hk1 & Hk2 & Hs). exists w. split_and!; [done..|].
    by apply skel_clock in Hs as (? & _).
  - eapply at_when_leader; [done|by exists i1|]. intros n2 Hn2.
    eapply returns_mono; [by apply at_CreateSlot|]. intros e n3 [_ Hn3].
    exists (q_wheel q). split; [by destruct q|]. split_and!; [apply Hq|set_solver..|done].
Qed.

(** *** Rebuilding the queue *)

(** The queue knows exactly the slots [es] and their jobs. *)
Record loaded (es : list (Z * SlotData)) q : Prop := {
  ld_ok : queue_ok q;
  ld_keys : ∀ k, k ∈ wheel_keys (q_wheel q) ↔ k ∈ es.*1;
  ld_sound : ∀ id k, q_jobToSlot q !! id = Some k → ∃ d, (k, d) ∈ es ∧ id ∈ slot_JobIDs d;
  ld_complete : ∀ k d id, (k, d) ∈ es → id ∈ slot_JobIDs d → is_Some (q_jobToSlot q !! id) }.

(** The job map after the inner loop. *)
Definition remembered (k : Z) (ids : list string) (m : gmap string Z) : gmap string Z :=
  foldl (λ m id, <[id := k]> m) m ids.

Lemma remembered_lookup k ids m id :
  remembered k ids m !! id = if decide (id ∈ ids) then Some k else m !! id.
Proof.
  unfold remembered. revert m. induction ids as [|x ids IH]; intros m; [done|]. simpl. rewrite IH.
  destruct (decide (id ∈ ids)); [rewrite decide_True by set_solver; done|].
  destruct (decide (x = id)) as [->|Hne].
  - by rewrite lookup_insert_eq, decide_True by set_solver.
  - by rewrite lookup_insert_ne, decide_False by set_solver.
Qed.

Lemma at_remember k ids f q c tr n :
  node_at f q c tr n →
  returns (for_each (remember k) ids) n
    (λ _ n', node_at f (set_jobToSlot (remembered k ids (q_jobToSlot q)) q) c tr n').
Proof.
  revert q n. induction ids as [|id ids IH]; intros q n Hn.
  - apply returns_ret. by destruct q.
  - apply returns_bind. eapply returns_mono; [by apply at_set_q|]. intros [] n1 Hn1.
    eapply returns_mono; [by apply IH|]. intros [] n2 Hn2. exact Hn2.
Qed.

Lemma at_load_slot es k d f q c tr n :
  loaded es q → in64 k → node_at f q c tr n →
  returns (load_slot (k, d)) n (λ _ n', ∃ q', node_at f q' c tr n' ∧ loaded (es ++ [(k, d)]) q').
Proof.
  intros [Hok Hks Hs Hc] Hk Hn. unfold load_slot. apply returns_bind.
  eapply returns_mono; [by apply at_remember|]. intros [] n1 Hn1.
  eapply returns_mono; [apply at_Add; [by apply queue_ok_jobs|done|exact Hn1]|].
  intros [] n2 (w & Hn2 & Hw & Hkeys & Hg). eexists. split; [exact Hn2|]. split.
  - apply queue_ok_wheel; [by apply queue_ok_jobs|done..].
  - intros k'. simpl. rewrite Hkeys, fmap_app, elem_of_app, elem_of_union. simpl. rewrite Hks.
    set_solver.
  - intros id k'. simpl. rewrite remembered_lookup. case_decide.
    + intros [= <-]. exists d. set_solver.
    + intros (d' & ? & ?)%Hs. exists d'. set_solver.
  - intros k' d' id Hin Hid. simpl. rewrite remembered_lookup. case_decide; [by eexists|].
    apply elem_of_app in Hin as [Hin|Hin%list_elem_of_singleton]; [by eapply Hc|]. by simplify_eq.
Qed.

Lemma at_load_slots es l f q c tr n :
  loaded es q → Forall (λ e, in64 e.1) l → node_at f q c tr n →
  returns (for_each load_slot l) n (λ _ n', ∃ q', node_at f q' c tr n' ∧ loaded (es ++ l) q').
Proof.
  intros Hq Hl. revert es q n Hq. induction Hl as [|[k d] l Hk Hl IH]; intros es q n Hq Hn.
  - apply returns_ret. exists q. by rewrite app_nil_r.
  - apply returns_bind. eapply returns_mono; [by eapply at_load_slot|].
    intros [] n1 (q1 & Hn1 & Hq1). eapply returns_mono; [by apply (IH (es ++ [(k, d)]) q1)|].
    intros [] n2 (q2 & Hn2 & Hq2). exists q2. by rewrite <-app_assoc in Hq2.
Qed.

(** The cold slots that can be read. *)
Definition cold_entries (cs : CS) (keys : list Z) : list (Z * SlotData) :=
  omap (λ k, match GetColdSlot k cs with inl (Some d) => Some (k, d) | _ => None end) keys.

Lemma at_load_cold es l f q c tr n cs :
  f_coldStore f = Some cs → loaded es q → Forall in64 l → node_at f q c tr n →
  returns (for_each load_cold l) n
    (λ _ n', ∃ q', node_at f q' c tr n' ∧ loaded (es ++ cold_entries cs l) q').
Proof.
  intros Hcs Hq Hl. revert es q n Hq. induction Hl as [|k l Hk Hl IH]; intros es q n Hq Hn.
  - apply returns_ret. exists q. by rewrite app_nil_r.
  - apply returns_bind. pose proof Hn as [i ->]. unfold load_cold at 1.
    apply returns_bind, returns_gets. simpl. rewrite Hcs.
    destruct (GetColdSlot k cs) as [[d|]|e] eqn:E; simpl;
      [|by apply returns_ret, (IH es q)|by apply returns_ret, (IH es q)].
    eapply returns_mono; [by eapply at_load_slot|]. intros [] n1 (q1 & Hn1 & Hq1).
    eapply returns_mono; [by apply (IH (es ++ [(k, d)]) q1)|].
    intros [] n2 (q2 & Hn2 & Hq2). exists q2. by rewrite <-app_assoc in Hq2.
Qed.

(** Everything [LoadJobs] reads. *)
Definition stored_slots f : list (Z * SlotData) :=
  range_map (FSM_GetAllSlots f) ++
  match f_coldStore f with
  | None => []
  | Some cs => cold_entries cs (FSM_GetColdSlotKeys f)
  end.

Lemma at_LoadJobs f q c tr n :
  (∀ i, in64 (unix (now i))) → queue_ok q →
  Forall (λ e, in64 e.1) (range_map (FSM_GetAllSlots f)) → Forall in64 (FSM_GetColdSlotKeys f) →
  node_at f q c tr n →
  returns LoadJobs n (λ _ n', ∃ q', node_at f q' c tr n' ∧ loaded (stored_slots f) q').
Proof.
  intros Hnow Hq Hhot Hcold Hn. unfold LoadJobs.
  apply returns_bind. eapply returns_mono; [by apply at_set_q|]. intros [] n1 Hn1.
  apply returns_bind. eapply returns_mono; [by eapply at_on_wheel_|]. intros [] n2 Hn2.
  apply returns_bind. eapply returns_mono; [by apply at_Now|]. intros t n3 [Ht Hn3].
  destruct (Reset_ok (q_wheel q)) as (Hw & Hk & _); [apply Hq|].
  destruct (Init_ok t (Reset (q_wheel q)) Hw Ht) as (w & E & Hw' & _ & Hk' & Hg & _).
  apply returns_bind. eapply returns_mono; [eapply at_on_wheel_; [done|exact E]|]. intros [] n4 Hn4.
  assert (loaded [] (set_wheel w (set_wheel (Reset (q_wheel q)) (set_jobToSlot ∅ q)))) as Hl0.
  { split; simpl; [|by rewrite Hk', Hk; set_solver|done|set_solver].
    apply queue_ok_wheel; [|done|done]. apply queue_ok_wheel; [by apply queue_ok_jobs|done..]. }
  pose proof Hn4 as [i4 ->]. apply returns_bind, returns_gets. apply returns_bind.
  eapply returns_mono; [by eapply (at_load_slots [])|]. intros [] n5 (q5 & Hn5 & Hq5).
  pose proof Hn5 as [i5 ->]. apply returns_bind, returns_gets. simpl.
  apply returns_bind. unfold stored_slots. destruct (f_coldStore f) as [cs|] eqn:Hcs.
  - apply returns_bind, returns_gets. eapply returns_mono; [by eapply (at_load_cold _ _ _ _ _ _ _ cs)|].
    intros [] n6 (q6 & Hn6 & Hq6). apply returns_bind. eapply returns_mono; [by apply at_Now|].
    intros t' n7 [_ Hn7]. eapply returns_mono; [by apply at_set_q|]. intros [] n8 Hn8.
    eexists. split; [exact Hn8|]. destruct Hq6 as [[? ? ?] ? ? ?]. by split.
  - apply returns_ret, returns_bind. eapply returns_mono; [by apply at_Now|].
    intros t' n7 [_ Hn7]. eapply returns_mono; [by apply at_set_q|]. intros [] n8 Hn8.
    eexists. split; [exact Hn8|]. rewrite app_nil_r. destruct Hq5 as [[? ? ?] ? ? ?]. by split.
Qed.

End queue_rules.

(** ** Theorems *)

Section theorems.

Context {CS : Type} `{ColdSlotStore CS} `{GoRange} `{Env}.

Implicit Types (n : Node CS Queue).

Definition slot_ids (k : Z) (f : FSM CS) : list string :=
  default [] (slot_JobIDs <$> FSM_GetSlot k f).

(** The key and the window of a slot. *)
Lemma slot_window g ts :
  0 < g → 0 <= ts → ts + g < two63 →
  let key := Z.quot ts g in
  i64 (key * g) <= ts <= i64 (i64 (i64 (key + 1) * g) - 1).
Proof.
  intros Hg Ht Hb key. unfold key. rewrite Z.quot_div_nonneg by lia.
  pose proof (Z.mul_div_le ts g ltac:(lia)). pose proof (Z.mul_succ_div_gt ts g ltac:(lia)).
  assert (0 <= ts / g) by (apply Z.div_pos; lia). set (k := ts / g) in *.
  assert (k <= g * k) by nia. assert (g * Z.succ k = g * k + g) by lia.
  rewrite (i64_id (k + 1)) by (unfold in64, two63 in *; lia).
  rewrite !i64_id by (rewrite ?i64_id; unfold in64, two63 in *; lia). lia.
Qed.

(** C17: filing a job. On a healthy node [AddJob] returns, never panics, and
    for a job due at [ts] with slot gap [g]: the slot [ts / g] now lists the
    job after the ones it had, the job is mapped to it, its key is in the
    timing wheel, no other hot slot and no job or status changed, and a slot
    that was made for it has a window that contains [ts]. *)
Theorem add_job_files_job job ts n :
  healthy_env → queue_ok (n_queue n) → slots_ok (n_fsm n) → job_time job = Some ts →
  0 <= ts → ts + secs (q_slotGap (n_queue n)) < two63 →
  let key := Z.quot ts (secs (q_slotGap (n_queue n))) in
  ∃ d n', AddJob job n = Some (tt, n') ∧ queue_ok (n_queue n') ∧
    FSM_GetSlot key (n_fsm n') = Some d ∧
    slot_JobIDs d = slot_ids key (n_fsm n) ++ [job_ID job] ∧
    (FSM_GetSlot key (n_fsm n) = None → slot_MinTime d <= ts <= slot_MaxTime d) ∧
    q_jobToSlot (n_queue n') = <[job_ID job := key]> (q_jobToSlot (n_queue n)) ∧
    wheel_keys (q_wheel (n_queue n')) = {[key]} ∪ wheel_keys (q_wheel (n_queue n)) ∧
    n_fsm n' = set_slots (<[key := d]> (f_slots (n_fsm n))) (n_fsm n).
Proof.
  intros He Hq Hf Hj Hnn Hb key. pose proof (qo_gap _ Hq) as Hg.
  assert (in64 ts) as Hts by (unfold in64, two63 in *; lia).
  destruct (at_AddJob job ts _ _ _ _ _ He Hq Hf Hj Hts (at_node n))
    as ([] & n' & E & w & [i ->] & Hw & Hk & Hgap).
  exists (filed job key (n_queue n) (n_fsm n)). eexists. split; [exact E|].
  destruct (filed_ok job key (n_queue n) (n_fsm n) Hf) as [Hkey _]; [by apply quot_in64|].
  simpl. fold key. split_and!.
  - by apply (queue_ok_wheel (set_jobToSlot _ _)); [apply queue_ok_jobs|..].
  - by apply get_put_slot.
  - apply filed_ids.
  - intros Hnone. unfold filed. rewrite Hnone. by apply slot_window.
  - done.
  - done.
  - unfold put_slot. by rewrite Hkey.
Qed.

(** C18: removing a job undoes filing it. For a job the queue does not know
    yet, [AddJob] then [RemoveJob] return, and afterwards its slot lists the
    ids it listed before, every other hot slot, all jobs and all execution
    states are as before, and so is the job map. *)
Theorem add_remove_job_roundtrip job ts n :
  healthy_env → queue_ok (n_queue n) → slots_ok (n_fsm n) → job_time job = Some ts → in64 ts →
  q_jobToSlot (n_queue n) !! job_ID job = None →
  let key := Z.quot ts (secs (q_slotGap (n_queue n))) in
  job_ID job ∉ slot_ids key (n_fsm n) →
  ∃ n1 n2, AddJob job n = Some (tt, n1) ∧ RemoveJob (job_ID job) n1 = Some (tt, n2) ∧
    slot_ids key (n_fsm n2) = slot_ids key (n_fsm n) ∧
    (∀ k, k ≠ key → f_slots (n_fsm n2) !! k = f_slots (n_fsm n) !! k) ∧
    f_jobs (n_fsm n2) = f_jobs (n_fsm n) ∧
    f_executionStates (n_fsm n2) = f_executionStates (n_fsm n) ∧
    q_jobToSlot (n_queue n2) = q_jobToSlot (n_queue n) ∧ queue_ok (n_queue n2).
Proof.
  intros He Hq Hf Hj Hts Hnew key Hni. assert (in64 key) as Hk by (by apply quot_in64; [|apply Hq]).
  destruct (at_AddJob job ts _ _ _ _ _ He Hq Hf Hj Hts (at_node n))
    as ([] & n1 & E1 & w1 & Hn1 & Hw1 & _ & Hg1). fold key in Hn1.
  destruct (filed_ok job key (n_queue n) (n_fsm n) Hf Hk) as [Hkey Hd].
  pose proof (filed_ids job key (n_queue n) (n_fsm n)) as Hids. fold (slot_ids key (n_fsm n)) in Hids.
  set (d := filed job key (n_queue n) (n_fsm n)) in *.
  set (q1 := set_wheel w1 _) in *.
  assert (queue_ok q1) as Hq1
    by (by apply (queue_ok_wheel (set_jobToSlot _ _)); [apply queue_ok_jobs|..]).
  destruct (at_RemoveJob (job_ID job) key d _ q1 _ _ _ He Hq1 ltac:(apply lookup_insert_eq)
    ltac:(by apply get_put_slot) Hd Hn1)
    as ([] & n2 & E2 & w2 & [i ->] & Hw2 & _ & _ & Hg2).
  exists n1. eexists. split; [done|]. split; [exact E2|]. simpl.
  unfold taken_out. rewrite Hids, remove_first_app_last by done.
  assert (q_jobToSlot (n_queue n) = delete (job_ID job) (q_jobToSlot q1)) as Hmap
    by (simpl; by rewrite delete_insert_id).
  assert (queue_ok (set_wheel w2 (set_jobToSlot (delete (job_ID job) (q_jobToSlot q1)) q1))) as Hq2
    by (by apply (queue_ok_wheel (set_jobToSlot _ _)); [apply queue_ok_jobs|..]).
  case_decide as Hlen; simpl in Hlen.
  - apply nil_length_inv in Hlen. split_and!; try done.
    + unfold slot_ids at 1. by rewrite get_del_slot, Hlen.
    + intros k Hne. rewrite del_slot_slots by done. simpl. rewrite Hkey.
      by rewrite lookup_delete_ne, lookup_insert_ne.
    + by rewrite del_slot_jobs.
    + rewrite del_slot_eq by done. simpl. by destruct (f_coldStore (n_fsm n)).
  - split_and!; try done.
    + unfold slot_ids at 1. by rewrite get_put_slot.
    + intros k Hne. simpl. rewrite Hkey. by rewrite !lookup_insert_ne.
Qed.

(** [GetNextSlot] never panics and hands out what is stored. On a healthy
    node whose wheel keeps time, it returns; the jobs of a slot it returns are
    the stored jobs of that slot, in order and at least one, with the window
    of the stored slot; and on the way it deletes empty slots only: jobs and
    execution states are untouched. *)
Theorem get_next_slot_sound n :
  healthy_env → (∀ i, near (unix (now i))) → queue_ok (n_queue n) →
  time_inv (q_wheel (n_queue n)) → initialized (q_wheel (n_queue n)) = true →
  ∃ o n', GetNextSlot n = Some (o, n') ∧ queue_ok (n_queue n') ∧
    f_jobs (n_fsm n') = f_jobs (n_fsm n) ∧
    f_executionStates (n_fsm n') = f_executionStates (n_fsm n) ∧
    ∀ s, o = Some s →
      s_Jobs s ≠ [] ∧ ∃ d, FSM_GetSlot (s_Key s) (n_fsm n') = Some d ∧
        s_MinTime s = slot_MinTime d ∧ s_MaxTime s = slot_MaxTime d ∧
        s_Jobs s = omap (λ id, FSM_GetJob id (n_fsm n')) (slot_JobIDs d).
Proof.
  intros He Hnear Hq Ht Hi.
  destruct (at_GetNextSlot _ _ _ _ _ He Hnear Hq Ht Hi (at_node n))
    as (o & n' & E & f' & q' & [i ->] & Hq' & [Hj Hs] & Ho).
  exists o. eexists. split; [exact E|]. split_and!; done.
Qed.

End theorems.

(** ** More theorems *)

Section load.

Context {CS : Type} `{ColdSlotStore CS} `{GoRange} `{Env}.

(** C19: [LoadJobs] rebuilds the queue from the state machine alone. Whatever
    the wheel and the job map held, it returns, leaves the state machine
    untouched, and afterwards the wheel holds exactly the keys of the stored
    slots (hot ones, and cold ones that can be read), every job of a stored
    slot is mapped, and only to a slot that lists it. *)
Theorem load_jobs_rebuilds (n : Node CS Queue) :
  (∀ i, in64 (unix (now i))) → queue_ok (n_queue n) →
  Forall (λ e, in64 e.1) (range_map (FSM_GetAllSlots (n_fsm n))) →
  Forall in64 (FSM_GetColdSlotKeys (n_fsm n)) →
  ∃ n', LoadJobs n = Some (tt, n') ∧ n_fsm n' = n_fsm n ∧ queue_ok (n_queue n') ∧
    (∀ k, k ∈ wheel_keys (q_wheel (n_queue n')) ↔ ∃ d, (k, d) ∈ stored_slots (n_fsm n)) ∧
    (∀ id k, q_jobToSlot (n_queue n') !! id = Some k →
       ∃ d, (k, d) ∈ stored_slots (n_fsm n) ∧ id ∈ slot_JobIDs d) ∧
    (∀ k d id, (k, d) ∈ stored_slots (n_fsm n) → id ∈ slot_JobIDs d →
       is_Some (q_jobToSlot (n_queue n') !! id)).
Proof.
  intros Hnow Hq Hhot Hcold.
  destruct (at_LoadJobs _ _ _ _ _ Hnow Hq Hhot Hcold (at_node n))
    as ([] & n' & E & q' & [i ->] & [Hok Hks Hs Hc]).
  eexists. split; [exact E|]. split_and!; [done|done| |done|done].
  intros k. simpl. rewrite Hks, list_elem_of_fmap. split.
  - intros ([k' d] & -> & ?). by exists d.
  - intros (d & ?). by exists (k, d).
Qed.

(** A gap below one second divides by zero. The wheel falls back to ten
    seconds when the gap truncates to zero, [getSlotKey] does not: every
    [AddJob] of a job with a time panics. *)
Theorem sub_second_gap_panics job ts (n : Node CS Queue) :
  secs (q_slotGap (n_queue n)) = 0 → job_time job = Some ts → AddJob job n = None.
Proof.
  intros Hg Hj. unfold AddJob. rewrite Hj. unfold mthen, queue, gets. simpl.
  unfold getSlotKey. by rewrite Hg, go_quot_zero.
Qed.

End load.

(** ** A concrete queue *)

(** Leader, everything commits, and the clock stands at [t] seconds. *)
Definition clock_env (t : Z) : Env :=
  mkEnv (λ _, true) (λ _, t * Second) (λ _, Committed) (λ _, []) (λ _, inl []) (λ _, None)
    (λ _, inl 200).

Definition ex_queue : Queue := mkQueue (10 * Second) ∅ ex_wheel 0.

Definition ex_qnode (f : FSM MemBolt) : Node MemBolt Queue := mkNode f ex_queue ∅ 0 [].

Lemma ex_queue_ok : queue_ok ex_queue.
Proof.
  split.
  - cbn [q_slotGap ex_queue]. rewrite secs_gap; lia.
  - vm_compute. reflexivity.
  - apply ex_wheel_ok.
Qed.

(** A slot that becomes due is dropped. A job due at 105 is filed at time
    100; when the worker polls at time 115, [Advance] hands its slot out and
    takes it off the wheel, but [GetNextSlot] only looks at what the wheel
    still holds and answers nothing. The slot and its pending job are still
    stored, and no later poll can find them. *)
Theorem get_next_slot_loses_ready_slot :
  let job := mkJob "a" "unico" (Some 105) "" None 5 "http://w" None in
  match NewPersistentSlotQueue (10 * Second) with
  | Some q =>
      match @AddJob MemBolt _ (clock_env 100) job (mkNode ex_running q ∅ 0 []) with
      | Some (_, n1) =>
          match @GetNextSlot MemBolt _ sorted_range (clock_env 115) n1 with
          | Some (o, n2) =>
              o = None ∧ slot_ids 10 (n_fsm n1) = ["a"] ∧ slot_ids 10 (n_fsm n2) = ["a"] ∧
              q_jobToSlot (n_queue n2) !! "a" = Some 10 ∧
              Size (q_wheel (n_queue n1)) = 1 ∧ Size (q_wheel (n_queue n2)) = 0
          | None => False
          end
      | None => False
      end
  | None => False
  end.
Proof. vm_compute. tauto. Qed.

Lemma ex_slots_ok : slots_ok ex_hot.
Proof.
  intros k d. unfold FSM_GetSlot, ex_hot. cbn [f_slots f_coldSlotMeta].
  destruct (decide (k = 10)) as [->|Hne].
  - rewrite lookup_singleton_eq. intros [= <-]. vm_compute. split; [reflexivity|].
    split_and!; congruence.
  - rewrite lookup_singleton_ne by done. by rewrite lookup_empty.
Qed.

Lemma add_job_files_job_witness :
  ∃ d n', @AddJob MemBolt _ (ex_env 200) ex_job (ex_qnode ex_hot) = Some (tt, n') ∧
    FSM_GetSlot 10 (n_fsm n') = Some d ∧ slot_JobIDs d = ["a"; "a"].
Proof.
  assert (secs (10 * Second) = 10) as Hg by (rewrite secs_gap; lia).
  destruct (@add_job_files_job MemBolt _ (ex_env 200) ex_job 100 (ex_qnode ex_hot))
    as (d & n' & E & _ & Hs & Hi & _).
  - apply ex_env_healthy.
  - exact ex_queue_ok.
  - exact ex_slots_ok.
  - reflexivity.
  - lia.
  - cbn [ex_qnode n_queue ex_queue q_slotGap]. rewrite Hg. vm_compute. reflexivity.
  - cbn [ex_qnode n_queue ex_queue q_slotGap] in Hs, Hi. rewrite Hg in Hs, Hi.
    change (Z.quot 100 10) with 10 in Hs, Hi. exists d, n'. split; [exact E|].
    split; [exact Hs|]. rewrite Hi. vm_compute. reflexivity.
Defined.

Lemma add_remove_job_roundtrip_witness :
  ∃ n1 n2, @AddJob MemBolt _ (ex_env 200) (mkJob "b" "recurrente" None "* * * * *" None 100 "" None)
      (ex_qnode ex_hot) = Some (tt, n1) ∧
    @RemoveJob MemBolt _ sorted_range (ex_env 200) "b" n1 = Some (tt, n2) ∧
    slot_ids 10 (n_fsm n2) = ["a"].
Proof.
  assert (secs (10 * Second) = 10) as Hg by (rewrite secs_gap; lia).
  destruct (@add_remove_job_roundtrip MemBolt _ sorted_range (ex_env 200)
    (mkJob "b" "recurrente" None "* * * * *" None 100 "" None) 100 (ex_qnode ex_hot))
    as (n1 & n2 & E1 & E2 & Hs & _).
  - apply ex_env_healthy.
  - exact ex_queue_ok.
  - exact ex_slots_ok.
  - reflexivity.
  - vm_compute. split; congruence.
  - reflexivity.
  - cbn [ex_qnode n_queue ex_queue q_slotGap]. rewrite Hg. vm_compute. set_solver.
  - cbn [ex_qnode n_queue ex_queue q_slotGap] in Hs. rewrite Hg in Hs.
    change (Z.quot 100 10) with 10 in Hs. exists n1, n2. split; [exact E1|]. split; [exact E2|].
    rewrite Hs. vm_compute. reflexivity.
Defined.

Lemma get_next_slot_sound_witness :
  ∃ o n', @GetNextSlot MemBolt _ sorted_range (clock_env 20) (ex_qnode ex_hot) = Some (o, n') ∧
    f_jobs (n_fsm n') = ∅.
Proof.
  destruct (@get_next_slot_sound MemBolt _ sorted_range (clock_env 20) (ex_qnode ex_hot))
    as (o & n' & E & _ & Hj & _).
  - by split.
  - intros i. vm_compute. split; congruence.
  - exact ex_queue_ok.
  - apply ex_wheel_time.
  - apply ex_wheel_time.
  - exists o, n'. split; [exact E|exact Hj].
Defined.

Lemma ex_hot_range :
  range_map (H := sorted_range) (FSM_GetAllSlots ex_hot) = [(10, ex_slot)] ∧
  FSM_GetColdSlotKeys (H0 := sorted_range) ex_hot = [] ∧
  stored_slots (H0 := sorted_range) ex_hot = [(10, ex_slot)].
Proof. split_and!; vm_compute; reflexivity. Qed.

Lemma load_jobs_rebuilds_witness :
  ∃ n', @LoadJobs MemBolt _ sorted_range (clock_env 20) (ex_qnode ex_hot) = Some (tt, n') ∧
    is_Some (q_jobToSlot (n_queue n') !! "a").
Proof.
  destruct (@load_jobs_rebuilds MemBolt _ sorted_range (clock_env 20) (ex_qnode ex_hot))
    as (n' & E & _ & _ & _ & _ & Hc).
  - intros i. vm_compute. split; congruence.
  - exact ex_queue_ok.
  - cbn [ex_qnode n_fsm]. rewrite (proj1 ex_hot_range). repeat constructor; vm_compute; congruence.
  - cbn [ex_qnode n_fsm]. rewrite (proj1 (proj2 ex_hot_range)). constructor.
  - exists n'. split; [exact E|]. apply (Hc 10 ex_slot "a").
    + cbn [ex_qnode n_fsm]. rewrite (proj2 (proj2 ex_hot_range)). constructor.
    + constructor.
Defined.

Lemma sub_second_gap_panics_witness :
  @AddJob MemBolt _ (ex_env 200) ex_job
    (mkNode ex_hot (mkQueue 500000000 ∅ ex_wheel 0) ∅ 0 []) = None.
Proof.
  apply (@sub_second_gap_panics MemBolt _ (ex_env 200) ex_job 100); vm_compute; reflexivity.
Defined.
