(* ===== verification/ExecutionManager.v ===== *)
(** * Executing a job: [execution_manager.go]

    [Execute] claims a job through the tracker, calls its webhook and records
    the outcome. The HTTP client is third-party code: [http_NewRequest] is
    what [http.NewRequestWithContext] answers for a URL, and the reply of the
    call comes from the environment. While the call is out, others write to
    the log; everything else of the process is at rest. The status callback is
    event [EStatusChange]; [WorkerMetrics] and [Metered] have the metrics. *)

From S2P Require Import Prelude GoStrings Json Types Codec ColdStore FSM GoFloat Store.
From S2P Require Import StoreProps StatusTracker.

Class HTTP := { http_NewRequest : string → option error }.

Record ExecutionManager := mkExecutionManager {
  em_nodeID : string;
  em_executionTimeout : Z;
  em_maxAttempts : Z }.

(** [func (em *ExecutionManager) classifyError(err error) string] *)
Definition classifyError (err : option error) : string :=
  match err with
  | None => ""
  | Some err =>
      let errStr := Error err in
      if errors_Is err SDeadlineExceeded then "timeout"
      else if errors_Is err SCanceled then "cancelled"
      else if Contains errStr "connection refused" then "connection_error"
      else if Contains errStr "no such host" || Contains errStr "dns" then "dns_error"
      else if Contains errStr "timeout" then "timeout"
      else if Contains errStr "status" && (Contains errStr "4" || Contains errStr "5")
           then "http_error"
      else "unknown"
  end.

Section ExecutionManager.

Context {CS Q : Type} `{ColdSlotStore CS} `{Env} `{HTTP}.

Local Open Scope go_scope.

Notation P := (M (Node CS Q)).

(** [time.Since(start).Milliseconds()]; a difference of times saturates. *)
Definition milliseconds (d : Z) : Z :=
  Z.quot (Z.max (- two63) (Z.min d (two63 - 1))) 1000000.

Definition since_ms (start : Z) : P Z := t <- TimeNow ;; mreturn (milliseconds (t - start)).

(** The members in the order in which Go marshals a map. *)
Definition webhook_body (job : Job) (t : Z) : json :=
  JObj [("data", match job_Payload job with
                 | None => JNull
                 | Some p => enc_map id id p
                 end);
        ("job_id", JStr (job_ID job));
        ("timestamp", JNum (pretty t));
        ("type", JStr (job_Type job))].

(** [em.httpClient.Do(req)] *)
Definition http_Do (job : Job) (body : json) : P Reply :=
  emit (EWebhook (job_ID job) (job_WebhookURL job) body) ;;
  interleave ;;
  ask reply.

(** HTTP status, response time and error. *)
Definition executeWebhook (job : Job) : P (Z * Z * option error) :=
  if decide (job_WebhookURL job = "") then mreturn (0, 0, None)
  else
    startTime <- TimeNow ;;
    t <- Now ;;
    match Marshal (webhook_body job t) with
    | inr e =>
        ms <- since_ms startTime ;;
        mreturn (0, ms, Some (wrapf "failed to marshal payload: " e))
    | inl jsonData =>
        match http_NewRequest (job_WebhookURL job) with
        | Some e =>
            ms <- since_ms startTime ;;
            mreturn (0, ms, Some (wrapf "failed to create request: " e))
        | None =>
            resp <- http_Do job jsonData ;;
            responseTime <- since_ms startTime ;;
            mreturn (match resp with
                     | inr e => (0, responseTime, Some e)
                     | inl code =>
                         if decide (code >= 400) then
                           (code, responseTime,
                            Some (errors_New ("webhook returned status " +:+ pretty code)))
                         else (code, responseTime, None)
                     end)
        end
    end.

Definition set_cancel (f : gset string → gset string) : P unit :=
  modify (λ n, set_cancelFuncs (f (n_cancelFuncs n)) n).

(** [statusErr == nil && state.Status == types.StatusCancelled] *)
Definition was_cancelled (id : string) : P bool :=
  s <- GetStatus id ;;
  mreturn (match s with
           | inl state => bool_decide (es_Status state = StatusCancelled)
           | inr _ => false
           end).

(** From the creation of the attempt to the end of [Execute]. *)
Definition run_attempt (em : ExecutionManager) (job : Job) (attemptNum : Z) : P (option error) :=
  start <- Now ;;
  r <- executeWebhook job ;;
  let '(httpStatus, responseTime, err) := r in
  fin <- Now ;;
  cancelled <- was_cancelled (job_ID job) ;;
  match err with
  | Some e =>
      if (cancelled : bool) then mreturn None
      else
        _ <- MarkFailed (job_ID job)
               (Some (mkAttempt attemptNum start fin (em_nodeID em) StatusFailed httpStatus
                        responseTime (Error e) (classifyError err))) ;;
        mreturn (Some e)
  | None =>
      if (cancelled : bool) then
        _ <- recordAttempt (job_ID job)
               (Some (mkAttempt attemptNum start fin (em_nodeID em) "" 0 responseTime "" "")) ;;
        mreturn None
      else
        MarkCompleted (job_ID job)
          (Some (mkAttempt attemptNum start fin (em_nodeID em) StatusCompleted httpStatus
                   responseTime "" ""))
  end.

Definition Execute (em : ExecutionManager) (job : Job) : P (option error) :=
  c <- CanExecute (job_ID job) ;;
  match c with
  | inr e => mreturn (Some (wrapf "failed to check execution status: " e))
  | inl false => mreturn None
  | inl true =>
      state <- GetStatus (job_ID job) ;;
      let attemptNum := match state with inl s => i64 (es_AttemptCount s + 1) | inr _ => 1 end in
      if decide (attemptNum > em_maxAttempts em) then
        mreturn (Some (errors_New "exceeded max attempts"))
      else
        e <- MarkInProgress (job_ID job) (em_nodeID em) ;;
        match e with
        | Some e => mreturn (Some (wrapf "failed to mark job in progress: " e))
        | None =>
            set_cancel (λ c, {[job_ID job]} ∪ c) ;;
            res <- run_attempt em job attemptNum ;;
            set_cancel (λ c, c ∖ {[job_ID job]}) ;;
            mreturn res
        end
  end.

(** Cancelling the context is what leaves the process here. *)
Definition CancelJob (jobID : string) : P bool :=
  exists_ <- gets (λ n, bool_decide (jobID ∈ n_cancelFuncs n)) ;;
  if (exists_ : bool) then emit (ECancel jobID) ;; mreturn true else mreturn false.

End ExecutionManager.

(** ** Calls that reach the outside *)

Definition is_webhook (e : event) : Prop :=
  match e with EWebhook _ _ _ => True | _ => False end.

#[export] Instance is_webhook_dec e : Decision (is_webhook e).
Proof. destruct e; apply _. Defined.

Definition webhooks (tr : list event) : list event := filter is_webhook tr.

Section quiet.

Context {CS Q : Type} `{ColdSlotStore CS} `{Env} `{HTTP}.

Implicit Types n : Node CS Q.

(** [c] always returns, calls no webhook and registers no cancel function. *)
Definition quiet {A} (c : M (Node CS Q) A) : Prop :=
  ∀ n, returns c n (λ _ n', webhooks (n_trace n') = webhooks (n_trace n) ∧
    n_cancelFuncs n' = n_cancelFuncs n).

Lemma quiet_ret {A} (a : A) : quiet (mreturn a).
Proof. intros n. by apply returns_ret. Qed.

Lemma quiet_bind {A B} (c : M (Node CS Q) A) (k : A → M (Node CS Q) B) :
  quiet c → (∀ a, quiet (k a)) → quiet (mthen c k).
Proof.
  intros Hc Hk n. apply returns_bind. eapply returns_mono; [apply Hc|]. intros a n1 [E1 C1].
  eapply returns_mono; [apply Hk|]. intros b n2 [E2 C2]. split; congruence.
Qed.

Lemma quiet_gets {A} (f : Node CS Q → A) : quiet (gets f).
Proof. intros n. by apply returns_gets. Qed.

Lemma quiet_ask {A} (f : nat → A) : quiet (ask f).
Proof. intros n. by eexists _, _. Qed.

Lemma quiet_fsm (f : Node CS Q → FSM CS) : quiet (modify (λ n, set_fsm (f n) n)).
Proof. intros n. by apply returns_modify. Qed.

Lemma quiet_status old new : quiet (emit (EStatusChange old new)).
Proof.
  intros n. apply returns_modify. split; [|done]. unfold webhooks. simpl.
  by rewrite filter_app, app_nil_r.
Qed.

End quiet.

Create HintDb quiet.
#[export] Hint Resolve quiet_ret quiet_gets quiet_ask quiet_fsm quiet_status : quiet.

Ltac quiet_solver :=
  repeat first
    [ progress intros
    | solve [eauto with quiet]
    | match goal with
      | |- quiet (mthen _ _) => apply quiet_bind
      | |- quiet (match ?x with _ => _ end) => destruct x
      | |- quiet (let '_ := ?x in _) => destruct x
      end ].

Section quiet_ops.

Context {CS Q : Type} `{ColdSlotStore CS} `{Env} `{HTTP}.

Implicit Types n : Node CS Q.

Lemma quiet_interleave : quiet (interleave (CS := CS) (Q := Q)).
Proof. unfold interleave. quiet_solver. Qed.

Lemma quiet_now : quiet (tr_Now (W := Node CS Q)).
Proof. unfold tr_Now. apply quiet_bind; [apply quiet_ask|]. quiet_solver. Qed.

Lemma quiet_Store_Apply data : quiet (Store_Apply (CS := CS) (Q := Q) data).
Proof.
  unfold Store_Apply, if_leader, raft_Apply. apply quiet_bind; [apply quiet_ask|].
  intros [|]; [|apply quiet_ret]. apply quiet_bind; [|quiet_solver].
  apply quiet_bind; [apply quiet_interleave|]. quiet_solver.
Qed.

Lemma quiet_status_command t sc : quiet (applyStatusCommand (W := Node CS Q) t sc).
Proof.
  unfold applyStatusCommand, applyCommand. destruct (Marshal _); [|apply quiet_ret].
  apply quiet_bind; [apply quiet_Store_Apply|]. quiet_solver.
Qed.

Lemma quiet_prev id dflt : quiet (prevStatus (W := Node CS Q) id dflt).
Proof. unfold prevStatus, GetStatus. do 2 (apply quiet_bind; [|quiet_solver]). apply quiet_gets. Qed.

Lemma quiet_callback old new : quiet (callback (W := Node CS Q) old new).
Proof. apply quiet_status. Qed.

Lemma quiet_MarkInProgress id node : quiet (MarkInProgress (W := Node CS Q) id node).
Proof.
  unfold MarkInProgress. apply quiet_bind; [apply quiet_ask|]. intros [|]; [|apply quiet_ret].
  apply quiet_bind; [apply quiet_prev|]. intros prev. apply quiet_bind; [apply quiet_now|].
  intros t. apply quiet_bind; [apply quiet_status_command|]. intros [e|]; [apply quiet_ret|].
  apply quiet_bind; [apply quiet_callback|]. quiet_solver.
Qed.

Lemma quiet_recordAttempt id att : quiet (recordAttempt (W := Node CS Q) id att).
Proof.
  unfold recordAttempt. apply quiet_bind; [apply quiet_now|]. intros t. apply quiet_status_command.
Qed.

Lemma quiet_markFinished st id att : quiet (markFinished (W := Node CS Q) st id att).
Proof.
  unfold markFinished. apply quiet_bind; [apply quiet_ask|]. intros [|]; [|apply quiet_ret].
  apply quiet_bind; [apply quiet_prev|]. intros prev. apply quiet_bind; [apply quiet_recordAttempt|].
  intros [e|]; [apply quiet_ret|]. apply quiet_bind; [apply quiet_now|].
  intros t. apply quiet_bind; [apply quiet_status_command|]. intros [e|]; [apply quiet_ret|].
  apply quiet_bind; [apply quiet_callback|]. quiet_solver.
Qed.

Lemma quiet_was_cancelled id : quiet (was_cancelled (CS := CS) (Q := Q) id).
Proof. unfold was_cancelled, GetStatus. do 2 (apply quiet_bind; [|quiet_solver]). apply quiet_gets. Qed.

Lemma quiet_Now : quiet (Now (CS := CS) (Q := Q)).
Proof. unfold Now, TimeNow. quiet_solver. Qed.

Lemma quiet_since t : quiet (since_ms (CS := CS) (Q := Q) t).
Proof. unfold since_ms, TimeNow. quiet_solver. Qed.

End quiet_ops.

#[export] Hint Resolve quiet_interleave quiet_now quiet_MarkInProgress quiet_recordAttempt
  quiet_markFinished quiet_was_cancelled quiet_Now quiet_since : quiet.

(** ** Theorems *)

Section theorems.

Context {CS Q : Type} `{ColdSlotStore CS} `{Env} `{HTTP}.

Implicit Types n : Node CS Q.

Definition call_of (job : Job) (body : json) : event :=
  EWebhook (job_ID job) (job_WebhookURL job) body.

(** At most one webhook call between two nodes, with the job's body. *)
Definition once (job : Job) n n' : Prop :=
  webhooks (n_trace n') = webhooks (n_trace n) ∨
  job_WebhookURL job ≠ "" ∧
  ∃ t, webhooks (n_trace n') = webhooks (n_trace n) ++ [call_of job (webhook_body job t)].

(** [c] always returns, calls the webhook of [job] at most once and registers
    no cancel function. *)
Definition calls {A} (job : Job) (c : M (Node CS Q) A) : Prop :=
  ∀ n, returns c n (λ _ n', once job n n' ∧ n_cancelFuncs n' = n_cancelFuncs n).

Lemma quiet_calls {A} job (c : M (Node CS Q) A) : quiet c → calls job c.
Proof. intros Hc n. eapply returns_mono; [apply Hc|]. intros a n' [E C]. split; [by left|done]. Qed.

Lemma calls_after {A B} job (c : M (Node CS Q) A) (k : A → M (Node CS Q) B) :
  quiet c → (∀ a, calls job (k a)) → calls job (mthen c k).
Proof.
  intros Hc Hk n. apply returns_bind. eapply returns_mono; [apply Hc|]. intros a n1 [E1 C1].
  eapply returns_mono; [apply Hk|]. intros b n2 [O2 C2]. split; [|congruence].
  unfold once in *. by rewrite <-E1.
Qed.

Lemma calls_before {A B} job (c : M (Node CS Q) A) (k : A → M (Node CS Q) B) :
  calls job c → (∀ a, quiet (k a)) → calls job (mthen c k).
Proof.
  intros Hc Hk n. apply returns_bind. eapply returns_mono; [apply Hc|]. intros a n1 [O1 C1].
  eapply returns_mono; [apply Hk|]. intros b n2 [E2 C2]. split; [|congruence].
  unfold once in *. by rewrite E2.
Qed.

Lemma Marshal_same j j' : Marshal j = inl j' → j' = j.
Proof. unfold Marshal. destruct (unsupported j); congruence. Qed.

Lemma executeWebhook_calls job : calls job (executeWebhook (CS := CS) (Q := Q) job).
Proof.
  unfold executeWebhook. case_decide as Hu; [apply quiet_calls; quiet_solver|].
  apply calls_after; [apply quiet_ask|]. intros start. apply calls_after; [apply quiet_Now|].
  intros t. destruct (Marshal _) as [body|e] eqn:Em; [|apply quiet_calls; quiet_solver].
  apply Marshal_same in Em as ->.
  destruct (http_NewRequest _); [apply quiet_calls; quiet_solver|].
  apply calls_before; [|intros r; apply quiet_bind; quiet_solver]. unfold http_Do.
  intros n. apply returns_bind, returns_modify.
  assert (quiet (CS := CS) (Q := Q) (mthen interleave (λ _, ask reply))) as Hq by quiet_solver.
  eapply returns_mono; [apply Hq|]. intros r n' [E C]. split; [|done]. right. split; [done|].
  exists t. rewrite E. unfold webhooks. simpl. by rewrite filter_app.
Qed.

Lemma run_attempt_calls em job k : calls job (run_attempt (CS := CS) (Q := Q) em job k).
Proof.
  unfold run_attempt. apply calls_after; [apply quiet_Now|]. intros start.
  apply calls_before; [apply executeWebhook_calls|]. intros [[code ms] err].
  apply quiet_bind; [apply quiet_Now|]. intros fin.
  apply quiet_bind; [apply quiet_was_cancelled|]. intros c. unfold MarkFailed, MarkCompleted.
  quiet_solver.
Qed.

(** The attempt number [Execute] uses. *)
Definition attempt_number (o : option JobExecutionState) : Z :=
  match o with Some s => i64 (es_AttemptCount s + 1) | None => 1 end.

Lemma GetStatus_node id n :
  GetStatus id n = Some (match node_states n !! id with
                         | Some s => inl s
                         | None => inr (state_not_found id)
                         end, n).
Proof.
  unfold GetStatus, mthen. change (node_states n) with (ss_states n). by rewrite ss_get_law.
Qed.

(** C20: the webhook of a job is called at most once per execution, and only
    for a job that may run. In every environment (other nodes writing to the
    log at any point, leadership lost, failed applies, any reply), [Execute]
    returns; unless the state machine would let the job start and its
    attempts are not used up, it makes no call; otherwise it makes at most
    one, to the job's URL with the job's id, type and payload; and it leaves
    no cancel function behind. *)
Theorem execute_calls_at_most_once em job n :
  fsm_inv (n_fsm n) →
  ∃ e n', Execute em job n = Some (e, n') ∧ n_cancelFuncs n' ⊆ n_cancelFuncs n ∧
    once job n n' ∧
    (webhooks (n_trace n') ≠ webhooks (n_trace n) →
       claimable (node_states n !! job_ID job) ∧
       attempt_number (node_states n !! job_ID job) <= em_maxAttempts em).
Proof.
  intros Hinv. destruct (CanExecute_spec (job_ID job) n) as (b & Ec & Hb).
  { intros s Hs. by destruct (fi_states _ Hinv _ _ Hs) as [_ [? ?]]. }
  unfold Execute. unfold mthen at 1. rewrite Ec. destruct b.
  2:{ eexists _, n. split; [done|]. split_and!; [done|by left|done]. }
  unfold mthen at 1. rewrite GetStatus_node.
  assert (match (match node_states n !! job_ID job with Some s => inl s
    | None => inr (state_not_found (job_ID job)) end : JobExecutionState + error)
    with inl s => i64 (es_AttemptCount s + 1) | inr _ => 1 end =
    attempt_number (node_states n !! job_ID job)) as ->
    by (by destruct (node_states n !! job_ID job)).
  case_decide as Hmax. { eexists _, n. split; [done|]. split_and!; [done|by left|done]. }
  assert (claimable (node_states n !! job_ID job)) as Hcl by (by apply Hb).
  destruct (quiet_MarkInProgress (job_ID job) (em_nodeID em) n) as (e & n1 & E1 & T1 & C1).
  unfold mthen at 1. rewrite E1. destruct e as [e|].
  { eexists _, n1. split; [done|]. split_and!; [by rewrite C1|by left|by rewrite T1]. }
  set (n2 := set_cancelFuncs ({[job_ID job]} ∪ n_cancelFuncs n1) n1).
  destruct (run_attempt_calls em job (attempt_number (node_states n !! job_ID job)) n2)
    as (res & n3 & E3 & O3 & C3).
  eexists _, _. split.
  { unfold mthen, set_cancel, modify. fold n2. rewrite E3. done. }
  simpl. split_and!; [|unfold once in *; by rewrite <-T1|intros _; split; [done|lia]].
  rewrite C3. simpl. rewrite C1. set_solver.
Qed.

(** *** The outcome on a healthy node *)

(** What [executeWebhook] makes of a reply. *)
Definition verdict (r : Reply) : Z * option error :=
  match r with
  | inr e => (0, Some e)
  | inl code =>
      if decide (code >= 400)
      then (code, Some (errors_New ("webhook returned status " +:+ pretty code)))
      else (code, None)
  end.

Lemma milliseconds_in64 d : in64 (milliseconds d).
Proof. unfold milliseconds. apply quot_in64; [|lia]. unfold in64, two63. lia. Qed.

Lemma healthy_interleave n :
  healthy_env → ∃ n', interleave n = Some (tt, n') ∧ n_fsm n' = n_fsm n.
Proof.
  intros He. unfold interleave, ask, mthen, modify. simpl. rewrite (he_others He). by eexists.
Qed.

Lemma quiet_at {A} (c : M (Node CS Q) A) n a n' :
  quiet c → c n = Some (a, n') → webhooks (n_trace n') = webhooks (n_trace n).
Proof. intros Hc E. destruct (Hc n) as (a' & n2 & E2 & T & _). by simplify_eq. Qed.

(** One call was made. *)
Definition called (job : Job) n n' : Prop :=
  ∃ t, webhooks (n_trace n') = webhooks (n_trace n) ++ [call_of job (webhook_body job t)].

Lemma executeWebhook_yields job r n :
  healthy_env → job_WebhookURL job ≠ "" → http_NewRequest (job_WebhookURL job) = None →
  (∀ t, plain (webhook_body job t)) → (∀ i, reply i = r) →
  ∃ ms n', in64 ms ∧ executeWebhook job n = Some ((((verdict r).1, ms), (verdict r).2), n') ∧
    node_states n' = node_states n ∧ called job n n'.
Proof.
  intros He Hu Hreq Hp Hr. unfold executeWebhook. rewrite decide_False by done.
  unfold Now, TimeNow, ask, mthen, mreturn. cbn beta iota. rewrite Marshal_plain by done.
  rewrite Hreq. unfold http_Do, emit, modify, mthen.
  set (n1 := mkNode _ _ _ _ _). destruct (healthy_interleave n1 He) as (n2 & E2 & F2).
  pose proof (quiet_at _ _ _ _ quiet_interleave E2) as T2.
  rewrite E2. unfold since_ms, TimeNow, ask, mthen, mreturn. simpl. rewrite Hr.
  eexists _, _. split; [apply milliseconds_in64|]. split; [|split].
  - unfold verdict. destruct r as [code|e]; [|done]. by case_decide.
  - unfold node_states. simpl. by rewrite F2.
  - eexists. simpl. rewrite T2. unfold webhooks. simpl. by rewrite filter_app.
Qed.

(** The record of the attempt. *)
Definition attempt_of (em : ExecutionManager) (r : Reply) (k start fin ms : Z) : ExecutionAttempt :=
  match (verdict r).2 with
  | Some e =>
      mkAttempt k start fin (em_nodeID em) StatusFailed (verdict r).1 ms (Error e)
        (classifyError (Some e))
  | None => mkAttempt k start fin (em_nodeID em) StatusCompleted (verdict r).1 ms "" ""
  end.

Definition final_status (r : Reply) : string :=
  match (verdict r).2 with Some _ => StatusFailed | None => StatusCompleted end.

(** The entry after a successful claim at [t1]. *)
Definition claimed (node : string) (t1 : Z) (s : JobExecutionState) : JobExecutionState :=
  update_status (mkStatusCommand (es_JobID s) StatusInProgress node None t1 "") s.

(** The entry after the attempt [att] that ended at [t2]. *)
Definition finished (final : string) (att : ExecutionAttempt) (t2 : Z) (s : JobExecutionState)
    : JobExecutionState :=
  mkState (es_JobID s) final (es_AttemptCount s) (es_CreatedAt s) (es_FirstAttemptAt s)
    (es_LastAttemptAt s) t2 (es_CancelledAt s) (es_CancellationReason s) ""
    (es_Attempts s ++ [att]).

Lemma markFinished_entry final id att s n :
  healthy_env → node_states n !! id = Some s → es_Status s = StatusInProgress → attempt_ok att →
  final = StatusCompleted ∨ final = StatusFailed →
  ∃ t2, yields (markFinished final id (Some att)) n None
    (<[id := finished final att t2 s]> (node_states n)).
Proof.
  intros He Hs Hst Ha Hf.
  destruct (markFinished_yields final id att n) as (t1 & t2 & _ & n' & E & Hok & Hm);
    [exact He|done|].
  exists t2, n'. split; [done|]. split; [done|]. rewrite Hm, status_effect_update, status_effect_record.
  cbn [sc_JobID sc_Status sc_Attempt]. change (ss_states n) with (node_states n). rewrite Hs.
  rewrite lookup_insert_eq. destruct s as [jid st cnt cr fa la co ca re nd at0].
  cbn [es_Status] in Hst. subst st.
  destruct Hf as [-> | ->]; simpl; by rewrite insert_insert_eq.
Qed.

Lemma run_attempt_yields em job k s r n :
  healthy_env → job_WebhookURL job ≠ "" → http_NewRequest (job_WebhookURL job) = None →
  (∀ t, plain (webhook_body job t)) → (∀ i, reply i = r) → in64 (verdict r).1 → in64 k →
  node_states n !! job_ID job = Some s → es_Status s = StatusInProgress →
  ∃ start fin ms t2 n', run_attempt em job k n = Some ((verdict r).2, n') ∧
    node_states n' =
      <[job_ID job := finished (final_status r) (attempt_of em r k start fin ms) t2 s]>
        (node_states n) ∧ called job n n'.
Proof.
  intros He Hu Hreq Hp Hr Hcode Hk Hs Hst. unfold run_attempt.
  destruct (yields_now n) as (start & Hstart & n1 & E1 & _ & S1); [exact He|].
  change (tr_Now n) with (Now n) in E1.
  destruct (executeWebhook_yields job r n1 He Hu Hreq Hp Hr) as (ms & n2 & Hms & E2 & S2 & t & T2).
  destruct (yields_now n2) as (fin & Hfin & n3 & E3 & _ & S3); [exact He|].
  change (tr_Now n2) with (Now n2) in E3.
  change (node_states n1 = node_states n) in S1. change (node_states n3 = node_states n2) in S3.
  assert (node_states n3 = node_states n) as S by congruence.
  assert (attempt_ok (attempt_of em r k start fin ms)) as Ha.
  { unfold attempt_of. destruct (verdict r).2; by split_and!. }
  destruct (markFinished_entry (final_status r) (job_ID job) (attempt_of em r k start fin ms) s n3)
    as (t2 & n4 & E4 & _ & S4); [done|by rewrite S|done|done|
      unfold final_status; destruct (verdict r).2; tauto|].
  exists start, fin, ms, t2, n4. split; [|split; [by rewrite <-S|]].
  2:{ exists t. rewrite (quiet_at _ _ _ _ (quiet_markFinished _ _ _) E4).
      rewrite (quiet_at _ _ _ _ quiet_Now E3), T2. by rewrite (quiet_at _ _ _ _ quiet_Now E1). }
  unfold mthen. rewrite E1, E2, E3. unfold was_cancelled, mthen. rewrite GetStatus_node, S, Hs.
  unfold mreturn. rewrite bool_decide_false by (by rewrite Hst).
  unfold attempt_of, final_status in E4. unfold MarkFailed, MarkCompleted.
  destruct (verdict r) as [code [e|]]; simpl in *; by rewrite E4.
Qed.

(** The outcome of [Execute]. *)
Lemma Execute_yields em job s r n :
  healthy_env → fsm_inv (n_fsm n) → job_WebhookURL job ≠ "" →
  http_NewRequest (job_WebhookURL job) = None →
  (∀ t, plain (webhook_body job t)) → (∀ i, reply i = r) → in64 (verdict r).1 →
  node_states n !! job_ID job = Some s → claimable (Some s) →
  i64 (es_AttemptCount s + 1) <= em_maxAttempts em →
  ∃ start fin ms t1 t2 n', Execute em job n = Some ((verdict r).2, n') ∧
    node_states n' = <[job_ID job :=
      finished (final_status r)
        (attempt_of em r (i64 (es_AttemptCount s + 1)) start fin ms) t2
        (claimed (em_nodeID em) t1 s)]> (node_states n) ∧
    ∃ t, webhooks (n_trace n') = webhooks (n_trace n) ++ [call_of job (webhook_body job t)].
Proof.
  intros He Hinv Hu Hreq Hp Hr Hcode Hs Hcl Hmax.
  destruct (CanExecute_spec (job_ID job) n) as (b & Ec & Hb).
  { intros s' Hs'. by destruct (fi_states _ Hinv _ _ Hs') as [_ [? ?]]. }
  change (ss_states n) with (node_states n) in Hb. rewrite Hs in Hb.
  destruct b; [clear Hb|by destruct Hb as [_ Hb]; specialize (Hb Hcl)].
  destruct (MarkInProgress_yields (job_ID job) (em_nodeID em) n) as (t1 & _ & n1 & E1 & _ & S1);
    [exact He|].
  rewrite status_effect_update in S1. cbn [sc_JobID sc_Status] in S1.
  change (ss_states n) with (node_states n) in S1. rewrite Hs in S1. unfold claimable in Hcl.
  rewrite Hcl in S1. set (s1 := update_status _ s) in S1.
  assert (s1 = claimed (em_nodeID em) t1 s) as Hs1 by done. clearbody s1. subst s1.
  set (n2 := set_cancelFuncs ({[job_ID job]} ∪ n_cancelFuncs n1) n1).
  assert (node_states n2 = <[job_ID job := claimed (em_nodeID em) t1 s]> (node_states n)) as S2
    by exact S1.
  destruct (run_attempt_yields em job (i64 (es_AttemptCount s + 1)) (claimed (em_nodeID em) t1 s) r n2)
    as (start & fin & ms & t2 & n3 & E3 & S3 & t & T3); [done..|apply i64_in64| |done|].
  { by rewrite S2, lookup_insert_eq. }
  exists start, fin, ms, t1, t2, (set_cancelFuncs (n_cancelFuncs n3 ∖ {[job_ID job]}) n3).
  split; [|split].
  - unfold Execute, mthen. rewrite Ec, GetStatus_node, Hs. rewrite decide_False by lia. rewrite E1.
    unfold set_cancel, modify. fold n2. rewrite E3. done.
  - change (node_states (set_cancelFuncs _ n3)) with (node_states n3).
    rewrite S3, S2. by rewrite insert_insert_eq.
  - exists t. simpl. rewrite T3. simpl.
    by rewrite (quiet_at _ _ _ _ (quiet_MarkInProgress _ _) E1).
Qed.


End theorems.

(** ** A concrete execution manager *)

#[export] Instance ex_http : HTTP := {| http_NewRequest := λ _, None |}.

Definition ex_em : ExecutionManager := mkExecutionManager "n1" (30 * Second) 3.

(** Node n2 claims job a and completes it. *)
Definition ex_n2_log : list json :=
  enc_Command <$>
    [cmd_status CommandUpdateJobStatus (mkStatusCommand "a" StatusInProgress "n2" None 100 "");
     cmd_status CommandUpdateJobStatus (mkStatusCommand "a" StatusCompleted "" None 100 "")].

(** Those entries are committed just before the claim of this node. *)
Definition ex_race_env : Env :=
  mkEnv (λ _, true) (λ _, 100 * Second) (λ _, Committed)
    (λ i, if decide (i = 3%nat) then ex_n2_log else []) (λ _, inl []) (λ _, None) (λ _, inl 200).

(** The claim is check-then-act. [CanExecute] reads the local state, and
    [MarkInProgress] returns nil even when the state machine refuses the
    transition. Here another node claims and completes the job in between:
    the job is already completed when this node calls its webhook a second
    time, and only one attempt is counted. *)
Theorem lost_claim_still_executes :
  status_of "a" (run_log ex_n2_log ex_created) = Some StatusCompleted ∧
  match @Execute MemBolt unit _ ex_race_env _ ex_em ex_job (ex_tracked ex_created) with
  | Some (e, n') =>
      e = None ∧ length (webhooks (n_trace n')) = 1%nat ∧
      es_AttemptCount <$> node_states n' !! "a" = Some 1
  | None => False
  end.
Proof. vm_compute. tauto. Qed.

Lemma ex_created_inv : fsm_inv ex_created.
Proof. apply apply_inv, (initial_fsm_inv None). Qed.

Lemma execute_calls_at_most_once_witness :
  ∃ e n', @Execute MemBolt unit _ ex_race_env _ ex_em ex_job (ex_tracked ex_created) = Some (e, n') ∧
    once ex_job (ex_tracked ex_created) n'.
Proof.
  destruct (@execute_calls_at_most_once MemBolt unit _ ex_race_env _ ex_em ex_job
    (ex_tracked ex_created)) as (e & n' & E & _ & Ho & _); [exact ex_created_inv|].
  exists e, n'. split; [exact E|exact Ho].
Defined.

