(* ===== verification/Webhook.v ===== *)
(** * The webhook client of the store: [store/webhook.go]

    [ExecuteWebhook] calls a webhook from a goroutine of its own and keeps
    nothing of the outcome but a line in the log. The execution manager has a
    client of its own ([ExecutionManager.executeWebhook]) and nothing calls
    this one; the theorems compare the two. *)

From S2P Require Import Prelude GoStrings Json Types Codec ColdStore FSM GoFloat Store.
From S2P Require Import StoreProps StatusTracker ExecutionManager.

(** ** The payload: [types/webhook.go] *)

Record WebhookPayload := mkWebhookPayload {
  wp_JobID : string;
  wp_Type : string;
  wp_Timestamp : Z;
  wp_Data : option (gmap string json) }.

Definition enc_WebhookPayload (p : WebhookPayload) : json := JObj (
  [("job_id", JStr (wp_JobID p)); ("type", JStr (wp_Type p));
   ("timestamp", JNum (pretty (wp_Timestamp p)))] ++
  omit_map "data" (wp_Data p)).

Definition payload_of (job : Job) (t : Z) : WebhookPayload :=
  mkWebhookPayload (job_ID job) (job_Type job) t (job_Payload job).

Section Webhook.

Context {CS Q : Type} `{ColdSlotStore CS} `{Env} `{HTTP}.

Local Open Scope go_scope.

Notation P := (M (Node CS Q)).

(** [client.Post(url, "application/json", body)] *)
Definition http_Post (job : Job) (body : json) : P Reply :=
  match http_NewRequest (job_WebhookURL job) with
  | Some e => mreturn (inr e)
  | None => http_Do job body
  end.

(** What the goroutine does; its result is the line it logs for the job. *)
Definition post_webhook (job : Job) : P (option string) :=
  t <- Now ;;
  match Marshal (enc_WebhookPayload (payload_of job t)) with
  | inr e => mreturn (Some ("webhook marshal failed: " +:+ Error e))
  | inl jsonData =>
      resp <- http_Post job jsonData ;;
      mreturn (match resp with
               | inr e => Some ("webhook request failed: " +:+ Error e)
               | inl code =>
                   if decide (code >= 400) then Some ("webhook returned status " +:+ pretty code)
                   else None
               end)
  end.

(** The goroutine that is started, if one is. *)
Definition ExecuteWebhook (job : Job) : option (P (option string)) :=
  if decide (job_WebhookURL job = "") then None else Some (post_webhook job).

End Webhook.

(** ** The two clients *)

(** The members of the two bodies are the same up to their order when there is
    a payload; without one, and only then, the execution manager sends
    [null] or an empty object where this client sends nothing. *)
Theorem webhook_bodies_agree job t :
  match webhook_body job t, enc_WebhookPayload (payload_of job t) with
  | JObj sent, JObj posted =>
      match job_Payload job with
      | Some p => if decide (p = ∅) then sent ≡ₚ ("data", JObj []) :: posted else sent ≡ₚ posted
      | None => sent ≡ₚ ("data", JNull) :: posted
      end
  | _, _ => False
  end.
Proof.
  unfold webhook_body, enc_WebhookPayload, payload_of, omit_map. cbn [wp_JobID wp_Type wp_Timestamp wp_Data].
  destruct (job_Payload job) as [p|].
  - case_decide as E; [subst p|]; simpl.
    + change (enc_map id id (∅ : gmap string json)) with (JObj []). solve_Permutation.
    + solve_Permutation.
  - solve_Permutation.
Qed.

Section theorems.

Context {CS Q : Type} `{ColdSlotStore CS} `{Env} `{HTTP}.

Implicit Types n : Node CS Q.

(** At most one call, of the webhook of the job with its payload. *)
Definition posted (job : Job) n n' : Prop :=
  webhooks (n_trace n') = webhooks (n_trace n) ∨
  ∃ t, webhooks (n_trace n') =
         webhooks (n_trace n) ++ [call_of job (enc_WebhookPayload (payload_of job t))].

(** The call itself. *)
Lemma http_Do_calls job body n :
  returns (http_Do job body) n (λ r n',
    webhooks (n_trace n') = webhooks (n_trace n) ++ [call_of job body] ∧
    n_cancelFuncs n' = n_cancelFuncs n ∧ ∃ log, n_fsm n' = run_log log (n_fsm n)).
Proof.
  unfold http_Do, emit, interleave, ask, modify, mthen. eexists _, _. split; [done|]. cbn.
  split_and!; [|done|by eexists]. unfold webhooks. by rewrite filter_app.
Qed.

(** A webhook that fails leaves nothing behind. In every environment the
    goroutine ends, calls the webhook at most once, and changes the state
    machine only as the log entries of others do, so that neither the status
    nor an attempt of its job is recorded; what went wrong is in the log line
    alone. *)
Theorem post_webhook_forgets job n :
  returns (post_webhook job) n (λ line n',
    posted job n n' ∧ n_cancelFuncs n' = n_cancelFuncs n ∧
    (∃ log, n_fsm n' = run_log log (n_fsm n)) ∧
    (line = None → webhooks (n_trace n') ≠ webhooks (n_trace n))).
Proof.
  unfold post_webhook. apply returns_bind. unfold Now, TimeNow, ask. apply returns_bind.
  eexists _, _. split; [done|]. apply returns_ret. set (t := unix _). set (n1 := mkNode _ _ _ _ _).
  destruct (Marshal _) as [body|e] eqn:Em.
  2: { apply returns_ret. split_and!; [by left|done|by exists []|done]. }
  apply Marshal_same in Em as ->. apply returns_bind. unfold http_Post. destruct (http_NewRequest _) as [e|].
  { apply returns_ret, returns_ret. split_and!; [by left|done|by exists []|done]. }
  eapply returns_mono; [apply http_Do_calls|]. intros r n' (Hw & Hc & log & Hl). apply returns_ret.
  split_and!; [right; by exists t|done|by exists log|]. intros _ E. rewrite Hw in E.
  apply (f_equal length) in E. rewrite length_app in E. simpl in E. change (n_trace n1) with (n_trace n) in E. lia.
Qed.

(** On a healthy node one call is made and the outcome is only told. *)
Theorem post_webhook_line job r n :
  http_NewRequest (job_WebhookURL job) = None → (∀ t, plain (enc_WebhookPayload (payload_of job t))) →
  (∀ i, reply i = r) →
  ∃ n', post_webhook job n = Some (
    match r with
    | inr e => Some ("webhook request failed: " +:+ Error e)
    | inl code => if decide (code >= 400) then Some ("webhook returned status " +:+ pretty code) else None
    end, n').
Proof.
  intros Hreq Hp Hr. unfold post_webhook, Now, TimeNow, ask, mthen, mreturn. cbn beta iota.
  rewrite Marshal_plain by done. unfold http_Post. rewrite Hreq.
  unfold http_Do, emit, interleave, ask, modify, mthen. cbn. rewrite Hr. by eexists.
Qed.

End theorems.

(** ** A concrete call *)

(** The webhook answers 500: the job is as pending as before. *)
Lemma post_webhook_line_witness :
  ∃ n', @post_webhook MemBolt unit _ (ex_env 500) ex_http ex_job (ex_tracked ex_created) =
    Some (Some "webhook returned status 500", n') ∧ n_fsm n' = ex_created.
Proof.
  destruct (@post_webhook_line MemBolt unit _ (ex_env 500) ex_http ex_job (inl 500) (ex_tracked ex_created))
    as (n' & E).
  - reflexivity.
  - intros t. reflexivity.
  - reflexivity.
  - exists n'. split; [exact E|]. vm_compute in E. injection E as <-. reflexivity.
Defined.
