(* ===== verification/Worker.v ===== *)
(** * The worker: [worker.go]

    One tick of the worker takes slots off the queue, executes the jobs that
    are due, deletes them and reschedules the recurring ones. The functions
    are translated in order; [WorkerMetrics] has them with the metrics they
    record. *)

From S2P Require Import Prelude GoStrings Json Types Codec ColdStore FSM GoFloat Store.
From S2P Require Import StoreProps StatusTracker TimingWheel WheelProps WheelTime SlotQueue.
From S2P Require Import SlotQueueProps ExecutionManager.

Definition isTimeForRecurringJob (job : Job) (now : Z) : bool :=
  bool_decide (job_CreatedAt job <= now).

Definition shouldExecuteJob (job : Job) (now : Z) : bool :=
  match job_Timestamp job with
  | Some ts =>
      if decide (job_Type job = JobUnico) then bool_decide (ts <= now)
      else if decide (job_Type job = JobRecurrente) then isTimeForRecurringJob job now
      else false
  | None =>
      if decide (job_Type job = JobRecurrente) then isTimeForRecurringJob job now else false
  end.

(** Zero when there is no next execution. *)
Definition calculateNextExecution `{Cron} (job : Job) (now : Z) : Z :=
  match cron_parse (job_CronExpr job) with
  | inr _ => 0
  | inl schedule =>
      let nextTimestamp := cron_next schedule now in
      match job_LastDate job with
      | Some last => if decide (nextTimestamp > last) then 0 else nextTimestamp
      | None => nextTimestamp
      end
  end.

(** The variables of the loop over the jobs of a slot. *)
Record Batch := mkBatch {
  jobsToRemove : list string;
  jobsToReschedule : list Job;
  anyJobExecuted : bool;
  hasJobsNotReady : bool }.

Section Worker.

Context {CS : Type} `{ColdSlotStore CS} `{GoRange} `{Env} `{HTTP} `{Cron}.

Local Open Scope go_scope.

Notation P := (M (Node CS Queue)).

(** The event handler of the application. *)
Definition handler : option (string → option Job → P unit) := Some event_handler.

Definition executeJob (em : ExecutionManager) (job : Job) : P unit :=
  _ <- Execute em job ;; mreturn tt.

(** The body of the loop over [slot.Jobs]. *)
Definition process_job (em : ExecutionManager) (now : Z) (job : Job) (b : Batch) : P Batch :=
  if shouldExecuteJob job now then
    executeJob em job ;;
    let rm := jobsToRemove b ++ [job_ID job] in
    if decide (job_Type job = JobUnico) then
      mreturn (mkBatch rm (jobsToReschedule b) true (hasJobsNotReady b))
    else if decide (job_Type job = JobRecurrente) then
      let nextTimestamp := calculateNextExecution job now in
      if decide (nextTimestamp > 0) then
        mreturn (mkBatch rm (jobsToReschedule b ++ [set_CreatedAt nextTimestamp job]) true
                   (hasJobsNotReady b))
      else mreturn (mkBatch rm (jobsToReschedule b) true (hasJobsNotReady b))
    else mreturn (mkBatch (jobsToRemove b) (jobsToReschedule b) true (hasJobsNotReady b))
  else mreturn (mkBatch (jobsToRemove b) (jobsToReschedule b) (anyJobExecuted b) true).

Definition remove_job (jobID : string) : P unit :=
  when_leader (DeleteJob handler jobID) ;; RemoveJob jobID.

Definition reschedule_job (job : Job) : P unit := when_leader (CreateJob handler job).

(** One slot; [true] goes on with the next one. *)
Definition process_slot (em : ExecutionManager) (now : Z) : P bool :=
  slot <- GetNextSlot ;;
  match slot with
  | None => mreturn false
  | Some slot =>
      if decide (now < s_MinTime slot) then mreturn false
      else
        b <- for_acc (process_job em now) (s_Jobs slot) (mkBatch [] [] false false) ;;
        for_each remove_job (jobsToRemove b) ;;
        for_each reschedule_job (jobsToReschedule b) ;;
        mreturn (anyJobExecuted b || negb (hasJobsNotReady b))
  end.

(** [for i := 0; i < maxSlotsToCheck; i++] *)
Fixpoint process_slots (maxSlotsToCheck : nat) (em : ExecutionManager) (now : Z) : P unit :=
  match maxSlotsToCheck with
  | O => mreturn tt
  | S k =>
      more <- process_slot em now ;;
      if (more : bool) then process_slots k em now else mreturn tt
  end.

Definition processSlots (em : ExecutionManager) : P unit :=
  now <- Now ;; process_slots 10 em now.

Definition checkTimeouts (inProgressTimeout : Z) : P unit :=
  l <- IsLeader ;;
  if (l : bool) then _ <- CheckTimeouts inProgressTimeout ;; mreturn tt else mreturn tt.

End Worker.
