(* ===== verification/WorkerProps.v ===== *)
(** * Properties of the worker

    What a tick may do in any environment: the log it appends to and the
    webhooks it calls; what it does to due jobs; and what its Start and Stop
    allow. *)

From S2P Require Import Prelude GoStrings Json Types Codec ColdStore FSM GoFloat Store.
From S2P Require Import StoreProps StatusTracker TimingWheel WheelProps WheelTime SlotQueue.
From S2P Require Import SlotQueueProps ExecutionManager Worker Limits.

(** ** What a tick may do *)

Section effects.

Context {CS Q : Type}.

Implicit Types n : Node CS Q.

(** The webhook calls that [c] may make satisfy [R]. *)
Definition makes_only {A} (R : event → Prop) (c : M (Node CS Q) A) : Prop :=
  ∀ n a n', c n = Some (a, n') →
    ∃ evs, webhooks (n_trace n') = webhooks (n_trace n) ++ evs ∧ Forall R evs.

Context (R : event → Prop).

Lemma only_same {A} (c : M (Node CS Q) A) :
  (∀ n a n', c n = Some (a, n') → webhooks (n_trace n') = webhooks (n_trace n)) → makes_only R c.
Proof. intros Hc n a n' E. exists []. by rewrite app_nil_r, (Hc n a n'). Qed.

Lemma only_ret {A} (a : A) : makes_only R (mreturn a).
Proof. apply only_same. by intros n b n' [= _ <-]. Qed.

Lemma only_bind {A B} (c : M (Node CS Q) A) (k : A → M (Node CS Q) B) :
  makes_only R c → (∀ a, makes_only R (k a)) → makes_only R (mthen c k).
Proof.
  intros Hc Hk n b n' E. unfold mthen in E. destruct (c n) as [[a n1]|] eqn:Ec; [|done].
  destruct (Hc n a n1 Ec) as (e1 & T1 & F1). destruct (Hk a n1 b n' E) as (e2 & T2 & F2).
  exists (e1 ++ e2). rewrite T2, T1, app_assoc. split; [done|by apply Forall_app].
Qed.

Lemma only_gets {A} (f : Node CS Q → A) : makes_only R (gets f).
Proof. apply only_same. by intros n b n' [= _ <-]. Qed.

Lemma only_ask {A} (f : nat → A) : makes_only R (ask f).
Proof. apply only_same. by intros n b n' [= _ <-]. Qed.

Lemma only_modify (f : Node CS Q → Node CS Q) :
  (∀ n, n_trace (f n) = n_trace n) → makes_only R (modify f).
Proof. intros Hf. apply only_same. intros n b n' [= _ <-]. by rewrite Hf. Qed.

Lemma only_lift {A} (o : option A) : makes_only R (lift_opt o).
Proof. apply only_same. intros n b n'. unfold lift_opt. destruct o; [|done]. by intros [= _ <-]. Qed.

Lemma only_for_each {A} (body : A → M (Node CS Q) unit) l :
  (∀ x, makes_only R (body x)) → makes_only R (for_each body l).
Proof.
  intros Hb. induction l as [|x l IH]; [apply only_ret|]. by apply only_bind; [|intros _].
Qed.

Lemma only_for_acc {A B} (body : A → B → M (Node CS Q) B) l acc :
  (∀ x acc, makes_only R (body x acc)) → makes_only R (for_acc body l acc).
Proof.
  intros Hb. revert acc. induction l as [|x l IH]; intros acc; [apply only_ret|].
  by apply only_bind.
Qed.

Lemma only_for_until {A} (body : A → M (Node CS Q) bool) l :
  (∀ x, makes_only R (body x)) → makes_only R (for_until body l).
Proof.
  intros Hb. induction l as [|x l IH]; [apply only_ret|]. apply only_bind; [done|].
  intros [|]; [apply only_ret|done].
Qed.

End effects.

Create HintDb only.
#[export] Hint Resolve only_ret only_gets only_ask only_modify only_lift : only.

Ltac only_solver :=
  repeat first
    [ progress intros
    | solve [eauto with only]
    | match goal with
      | |- makes_only _ (mthen _ _) => apply only_bind
      | |- makes_only _ (for_each _ _) => apply only_for_each
      | |- makes_only _ (for_acc _ _ _) => apply only_for_acc
      | |- makes_only _ (for_until _ _) => apply only_for_until
      | |- makes_only _ (match ?x with _ => _ end) => destruct x
      end ].

Section queue_effects.

Context {CS : Type} `{ColdSlotStore CS} `{GoRange} `{Env} `{HTTP} `{Cron}.

Context (R : event → Prop).

Notation only c := (makes_only (CS := CS) (Q := Queue) R c).

Lemma only_IsLeader : only IsLeader.
Proof. apply only_ask. Qed.

Lemma only_Now : only Now.
Proof. unfold Now, TimeNow. only_solver. Qed.

Lemma only_send cmd : only (send cmd).
Proof. unfold send, raft_Apply, interleave. only_solver. Qed.

Lemma only_if_leader k : only k → only (if_leader k).
Proof. intros Hk. unfold if_leader, IsLeader. only_solver. Qed.

Lemma only_when_leader k : only k → only (when_leader k).
Proof. intros Hk. unfold when_leader, IsLeader. only_solver. Qed.

Lemma only_CreateSlot s : only (CreateSlot s).
Proof. apply only_if_leader, only_send. Qed.

Lemma only_DeleteSlot k : only (DeleteSlot k).
Proof. apply only_if_leader, only_send. Qed.

Lemma only_on_wheel {A} (f : HierarchicalTimingWheel → option (A * HierarchicalTimingWheel)) :
  only (on_wheel f).
Proof. unfold on_wheel, queue, set_q. only_solver. Qed.

Lemma only_ensure_init : only ensure_init.
Proof.
  unfold ensure_init, queue. apply only_bind; [apply only_gets|]. intros q.
  destruct (initialized _); [apply only_ret|]. apply only_bind; [apply only_Now|].
  intros t. apply only_on_wheel.
Qed.

End queue_effects.

#[export] Hint Resolve only_IsLeader only_Now only_send only_CreateSlot only_DeleteSlot
  only_on_wheel only_ensure_init only_if_leader only_when_leader : only.

Section tick_effects.

Context {CS : Type} `{ColdSlotStore CS} `{GoRange} `{Env} `{HTTP} `{Cron}.

Context (R : event → Prop).

Notation only c := (makes_only (CS := CS) (Q := Queue) R c).

Lemma only_AddJob job : only (AddJob job).
Proof. unfold AddJob, queue, GetSlot, set_q, on_wheel_. only_solver. Qed.

Lemma only_take_out k d id : only (take_out k d id).
Proof. unfold take_out, on_wheel_. only_solver. Qed.

Lemma only_fallback_slot id e : only (fallback_slot id e).
Proof.
  destruct e as [k d]. unfold fallback_slot. case_decide; [|apply only_ret].
  apply only_bind; [apply only_take_out|]. intros _. unfold forget, set_q. only_solver.
Qed.

Lemma only_RemoveJob id : only (RemoveJob id).
Proof.
  unfold RemoveJob, queue. apply only_bind; [apply only_gets|]. intros q.
  destruct (q_jobToSlot q !! id) as [k|].
  - unfold forget, set_q, GetSlot. apply only_bind; [only_solver|]. intros _.
    apply only_bind; [apply only_gets|]. intros [d|]; [apply only_take_out|apply only_ret].
  - unfold removeJobFallback, IsColdSpillingEnabled, GetAllSlots, GetColdSlotKeys.
    pose proof (only_fallback_slot id). apply only_bind; [apply only_gets|].
    intros [|]; only_solver.
    unfold fallback_cold, GetColdSlotData. only_solver.
Qed.

Lemma only_event_handler ev job : only (event_handler ev job).
Proof.
  unfold event_handler. apply only_bind; [apply only_IsLeader|]. intros [|]; [|apply only_ret].
  destruct job as [job|]; [|apply only_ret]. case_decide; [apply only_AddJob|].
  case_decide; [apply only_RemoveJob|apply only_ret].
Qed.

Lemma only_notify ev job : only (notify handler ev job).
Proof.
  unfold notify, handler. apply only_bind; [apply only_IsLeader|]. intros [|]; [|apply only_ret].
  apply only_event_handler.
Qed.

Lemma only_CreateJob job : only (CreateJob handler job).
Proof.
  apply only_if_leader, only_bind; [apply only_send|]. intros [e|]; [apply only_ret|].
  apply only_bind; [apply only_notify|]. intros _. apply only_ret.
Qed.

Lemma only_DeleteJob id : only (DeleteJob handler id).
Proof.
  apply only_if_leader, only_bind; [apply only_gets|]. intros j.
  apply only_bind; [apply only_send|]. intros [e|]; [apply only_ret|].
  apply only_bind; [apply only_notify|]. intros _. apply only_ret.
Qed.

Lemma only_GetNextSlot : only GetNextSlot.
Proof.
  unfold GetNextSlot, earliest_slot, queue, drop_ready, on_wheel_, GetSlot, collect_job, GetJob.
  only_solver.
Qed.

End tick_effects.

(** ** The log *)

Section tick_log.

Context {CS : Type} `{ColdSlotStore CS} `{GoRange} `{Env} `{HTTP} `{Cron}.

Notation logs c := (log_only (CS := CS) (Q := Queue) c).

Lemma logs_on_wheel {A} (f : HierarchicalTimingWheel → option (A * HierarchicalTimingWheel)) :
  logs (on_wheel f).
Proof.
  unfold on_wheel, queue. apply log_only_bind; [apply log_only_gets|]. intros q.
  apply log_only_bind; [apply log_only_lift|]. intros r.
  apply log_only_bind; [apply log_only_set_q|]. intros _. apply log_only_ret.
Qed.

Lemma logs_when_leader k : logs k → logs (when_leader k).
Proof.
  intros Hk. unfold when_leader. apply log_only_bind; [apply log_only_IsLeader|].
  intros [|]; [|apply log_only_ret]. apply log_only_bind; [done|]. intros _. apply log_only_ret.
Qed.

Lemma logs_ensure_init : logs ensure_init.
Proof.
  unfold ensure_init, queue. apply log_only_bind; [apply log_only_gets|]. intros q.
  destruct (initialized _); [apply log_only_ret|]. apply log_only_bind; [apply log_only_Now|].
  intros t. apply logs_on_wheel.
Qed.

Lemma logs_AddJob job : logs (AddJob job).
Proof.
  unfold AddJob, queue, GetSlot. destruct (job_time job) as [ts|]; [|apply log_only_ret].
  apply log_only_bind; [apply log_only_gets|]. intros q.
  apply log_only_bind; [apply log_only_lift|]. intros key.
  apply log_only_bind; [apply logs_ensure_init|]. intros _.
  apply log_only_bind; [apply log_only_gets|]. intros slot.
  apply log_only_bind; [apply logs_when_leader, log_only_CreateSlot|]. intros _.
  apply log_only_bind; [apply log_only_set_q|]. intros _. apply logs_on_wheel.
Qed.

Lemma logs_take_out k d id : logs (take_out k d id).
Proof.
  unfold take_out. case_decide; [|apply logs_when_leader, log_only_CreateSlot].
  apply log_only_bind; [apply logs_when_leader, log_only_DeleteSlot|]. intros _. apply logs_on_wheel.
Qed.

Lemma logs_fallback_slot id e : logs (fallback_slot id e).
Proof.
  destruct e as [k d]. unfold fallback_slot. case_decide; [|apply log_only_ret].
  apply log_only_bind; [apply logs_take_out|]. intros _.
  apply log_only_bind; [apply log_only_set_q|]. intros _. apply log_only_ret.
Qed.

Lemma logs_fallback_cold id k : logs (fallback_cold id k).
Proof.
  unfold fallback_cold. apply log_only_bind; [apply log_only_gets|].
  intros [[d|]|e]; [apply logs_fallback_slot|apply log_only_ret..].
Qed.

Lemma logs_RemoveJob id : logs (RemoveJob id).
Proof.
  unfold RemoveJob, queue. apply log_only_bind; [apply log_only_gets|]. intros q.
  destruct (q_jobToSlot q !! id) as [k|].
  - apply log_only_bind; [apply log_only_set_q|]. intros _.
    apply log_only_bind; [apply log_only_gets|].
    intros [d|]; [apply logs_take_out|apply log_only_ret].
  - pose proof (logs_fallback_slot id). pose proof (logs_fallback_cold id).
    unfold removeJobFallback, IsColdSpillingEnabled, GetAllSlots, GetColdSlotKeys.
    apply log_only_bind; [apply log_only_gets|]. intros [|]; log_only_solver.
Qed.

Lemma logs_handler : handler_ok (CS := CS) (Q := Queue) handler.
Proof.
  intros f ev job [= <-]. unfold event_handler.
  apply log_only_bind; [apply log_only_IsLeader|]. intros [|]; [|apply log_only_ret].
  destruct job as [job|]; [|apply log_only_ret]. case_decide; [apply logs_AddJob|].
  case_decide; [apply logs_RemoveJob|apply log_only_ret].
Qed.

Lemma logs_drop_ready k : logs (drop_ready k).
Proof.
  unfold drop_ready. apply log_only_bind; [apply log_only_gets|].
  intros [d|]; [|apply logs_on_wheel]. case_decide; [|apply log_only_ret].
  apply log_only_bind; [apply logs_on_wheel|]. intros _. apply logs_when_leader, log_only_DeleteSlot.
Qed.

Lemma logs_GetNextSlot : logs GetNextSlot.
Proof.
  unfold GetNextSlot, earliest_slot, queue. apply log_only_bind; [apply logs_ensure_init|]. intros _.
  apply log_only_bind; [apply log_only_Now|]. intros t.
  apply log_only_bind; [apply log_only_gets|]. intros q.
  apply log_only_bind; [apply logs_on_wheel|]. intros ready.
  apply log_only_bind; [apply log_only_for_each, logs_drop_ready|]. intros _.
  apply log_only_bind; [apply logs_on_wheel|]. intros m. unfold GetSlot, collect_job, GetJob.
  log_only_solver.
Qed.

Lemma logs_status_command t sc : logs (applyStatusCommand t sc).
Proof.
  unfold applyStatusCommand, applyCommand. destruct (Marshal _); [|apply log_only_ret].
  apply log_only_bind; [apply log_only_Store_Apply|]. log_only_solver.
Qed.

Lemma logs_recordAttempt id att : logs (recordAttempt id att).
Proof.
  unfold recordAttempt. apply log_only_bind; [apply log_only_Now|]. intros t.
  apply logs_status_command.
Qed.

Lemma logs_prev id dflt : logs (prevStatus id dflt).
Proof.
  unfold prevStatus, GetStatus. do 2 (apply log_only_bind; [|log_only_solver]). apply log_only_gets.
Qed.

Lemma logs_callback old new : logs (callback old new).
Proof. apply log_only_emit. Qed.

Lemma logs_MarkInProgress id node : logs (MarkInProgress id node).
Proof.
  unfold MarkInProgress. apply log_only_bind; [apply log_only_IsLeader|].
  intros [|]; [|apply log_only_ret]. apply log_only_bind; [apply logs_prev|]. intros p.
  apply log_only_bind; [apply log_only_Now|]. intros t.
  apply log_only_bind; [apply logs_status_command|]. intros [e|]; [apply log_only_ret|].
  apply log_only_bind; [apply logs_callback|]. log_only_solver.
Qed.

Lemma logs_markFinished st id att : logs (markFinished st id att).
Proof.
  unfold markFinished. apply log_only_bind; [apply log_only_IsLeader|].
  intros [|]; [|apply log_only_ret]. apply log_only_bind; [apply logs_prev|]. intros p.
  apply log_only_bind; [apply logs_recordAttempt|]. intros [e|]; [apply log_only_ret|].
  apply log_only_bind; [apply log_only_Now|]. intros t.
  apply log_only_bind; [apply logs_status_command|]. intros [e|]; [apply log_only_ret|].
  apply log_only_bind; [apply logs_callback|]. log_only_solver.
Qed.

Lemma logs_set_cancel f : logs (set_cancel f).
Proof. apply log_only_modify. intros n. by apply extends_same. Qed.

Lemma logs_executeWebhook job : logs (executeWebhook job).
Proof.
  pose proof (log_only_interleave (CS := CS) (Q := Queue)).
  unfold executeWebhook, since_ms, TimeNow, http_Do. log_only_solver.
Qed.

Lemma logs_run_attempt em job k : logs (run_attempt em job k).
Proof.
  unfold run_attempt. apply log_only_bind; [apply log_only_Now|]. intros start.
  apply log_only_bind; [apply logs_executeWebhook|]. intros [[code ms] err].
  apply log_only_bind; [apply log_only_Now|]. intros fin.
  apply log_only_bind. { unfold was_cancelled, GetStatus. do 2 (apply log_only_bind; [|log_only_solver]).
    apply log_only_gets. }
  intros c. pose proof logs_markFinished. pose proof logs_recordAttempt.
  unfold MarkFailed, MarkCompleted. log_only_solver.
Qed.

Lemma logs_Execute em job : logs (Execute em job).
Proof.
  unfold Execute, CanExecute. apply log_only_bind; [apply log_only_bind; [apply log_only_gets|]|];
    [log_only_solver|]. intros [[|]|e]; [|apply log_only_ret..].
  apply log_only_bind. { unfold GetStatus. apply log_only_bind; [apply log_only_gets|]. log_only_solver. }
  intros st. case_decide; [apply log_only_ret|].
  apply log_only_bind; [apply logs_MarkInProgress|]. intros [e|]; [apply log_only_ret|].
  apply log_only_bind; [apply logs_set_cancel|]. intros _.
  apply log_only_bind; [apply logs_run_attempt|]. intros res.
  apply log_only_bind; [apply logs_set_cancel|]. intros _. apply log_only_ret.
Qed.

Lemma logs_process_job em t job b : logs (process_job em t job b).
Proof.
  unfold process_job, executeJob. pose proof (logs_Execute em job). log_only_solver.
Qed.

Lemma logs_process_slot em t : logs (process_slot em t).
Proof.
  unfold process_slot, remove_job, reschedule_job.
  apply log_only_bind; [apply logs_GetNextSlot|]. intros [s|]; [|apply log_only_ret].
  case_decide; [apply log_only_ret|].
  apply log_only_bind; [apply log_only_for_acc; intros; apply logs_process_job|]. intros b.
  apply log_only_bind.
  { apply log_only_for_each. intros id. apply log_only_bind; [|intros _; apply logs_RemoveJob].
    apply logs_when_leader, log_only_DeleteJob, logs_handler. }
  intros _. apply log_only_bind; [|intros _; apply log_only_ret].
  apply log_only_for_each. intros job. apply logs_when_leader, log_only_CreateJob, logs_handler.
Qed.

Lemma logs_process_slots k em t : logs (process_slots k em t).
Proof.
  induction k as [|k IH]; [apply log_only_ret|]. apply log_only_bind; [apply logs_process_slot|].
  intros [|]; [done|apply log_only_ret].
Qed.

End tick_log.

(** ** Theorems *)

(** The call of a job that is due at [now]. *)
Definition due_call (now : Z) (e : event) : Prop :=
  ∃ job t, shouldExecuteJob job now = true ∧ e = call_of job (webhook_body job t).

Section theorems.

Context {CS : Type} `{ColdSlotStore CS} `{GoRange} `{Env} `{HTTP} `{Cron}.

Notation only R c := (makes_only (CS := CS) (Q := Queue) R c).

Lemma quiet_only {A} R (c : M (Node CS Queue) A) : quiet c → only R c.
Proof.
  intros Hc. apply only_same. intros n a n' E. destruct (Hc n) as (a' & n2 & E2 & T & _).
  by simplify_eq.
Qed.

Lemma calls_only {A} (R : event → Prop) job (c : M (Node CS Queue) A) :
  calls job c → (∀ t, R (call_of job (webhook_body job t))) → only R c.
Proof.
  intros Hc HR n a n' E. destruct (Hc n) as (a' & n2 & E2 & [T|(_ & t & T)] & _); simplify_eq.
  - exists []. by rewrite app_nil_r.
  - eexists. split; [exact T|]. by apply Forall_singleton.
Qed.

Lemma only_Execute (R : event → Prop) em job :
  (∀ t, R (call_of job (webhook_body job t))) → only R (Execute em job).
Proof.
  intros HR. unfold Execute, CanExecute, GetStatus.
  apply only_bind; [apply only_bind; [apply only_gets|only_solver]|].
  intros [[|]|e]; [|apply only_ret..].
  apply only_bind; [apply only_bind; [apply only_gets|only_solver]|]. intros st.
  case_decide; [apply only_ret|]. apply only_bind; [apply quiet_only, quiet_MarkInProgress|].
  intros [e|]; [apply only_ret|]. unfold set_cancel. apply only_bind; [only_solver|]. intros _.
  apply only_bind; [by eapply calls_only; [apply run_attempt_calls|]|]. only_solver.
Qed.

Lemma only_process_job em now job b : only (due_call now) (process_job em now job b).
Proof.
  unfold process_job, executeJob. destruct (shouldExecuteJob job now) eqn:Hd; [|apply only_ret].
  apply only_bind; [|only_solver]. apply only_bind; [|only_solver].
  apply only_Execute. intros t. by exists job, t.
Qed.

Lemma only_process_slot em now : only (due_call now) (process_slot em now).
Proof.
  unfold process_slot. apply only_bind; [apply only_GetNextSlot|].
  intros [s|]; [|apply only_ret]. case_decide; [apply only_ret|].
  apply only_bind; [apply only_for_acc; intros; apply only_process_job|]. intros b.
  apply only_bind.
  { apply only_for_each. intros id. apply only_bind; [|intros _; apply only_RemoveJob].
    apply only_when_leader, only_DeleteJob. }
  intros _. apply only_bind; [|intros _; apply only_ret].
  apply only_for_each. intros job. apply only_when_leader, only_CreateJob.
Qed.

Lemma only_process_slots k em now : only (due_call now) (process_slots k em now).
Proof.
  induction k as [|k IH]; [apply only_ret|]. apply only_bind; [apply only_process_slot|].
  intros [|]; [done|apply only_ret].
Qed.

(** A tick of the worker is safe. In every environment (other clients
    writing at any point, leadership lost, failed applies, any replies), what
    a tick does to the state machine is to append log entries, so [fsm_inv]
    is kept, and every webhook it calls belongs to a job that was due when
    the tick started. *)
Theorem tick_is_safe em n n' :
  processSlots em n = Some (tt, n') →
  (∃ log, n_fsm n' = run_log log (n_fsm n)) ∧ (fsm_inv (n_fsm n) → fsm_inv (n_fsm n')) ∧
  ∃ evs, webhooks (n_trace n') = webhooks (n_trace n) ++ evs ∧
    Forall (due_call (unix (now (n_step n)))) evs.
Proof.
  unfold processSlots, Now, TimeNow, ask, mthen, mreturn. intros E.
  apply logs_process_slots in E as Hlog. destruct Hlog as [log Hlog].
  apply only_process_slots in E as (evs & T & F). simpl in *.
  split_and!; [by exists log| |by exists evs]. intros Hi. rewrite Hlog. by apply run_log_inv.
Qed.

(** The next execution of a recurring job, as far as the cron library
    keeps its promise that [Next] is later than its argument: a positive
    answer of [calculateNextExecution] comes from a valid expression, lies
    strictly in the future, and is not after the last date; so a job that was
    rescheduled is not due again in the same tick. *)
Theorem next_execution_in_future `{!CronLaws} job now :
  calculateNextExecution job now > 0 →
  let next := calculateNextExecution job now in
  (∃ s, cron_parse (job_CronExpr job) = inl s ∧ next = cron_next s now) ∧ now < next ∧
  (∀ last, job_LastDate job = Some last → next <= last) ∧
  (job_Type job = JobRecurrente → shouldExecuteJob (set_CreatedAt next job) now = false).
Proof.
  intros Hpos. cbv zeta. unfold calculateNextExecution in *.
  destruct (cron_parse (job_CronExpr job)) as [s|e]; [|lia].
  pose proof (cron_next_later s now) as Hl. unfold zero_time_unix in Hl.
  assert (now < cron_next s now ∧
    (match job_LastDate job with
     | Some last => if decide (cron_next s now > last) then 0 else cron_next s now
     | None => cron_next s now
     end) = cron_next s now ∧ ∀ last, job_LastDate job = Some last → cron_next s now <= last)
    as (Hlt & -> & Hlast).
  { destruct (job_LastDate job) as [last|]; [case_decide; [lia|]|].
    - split_and!; [lia|done|]. intros ? [= <-]. lia.
    - split_and!; [lia|done|by intros ? [=]]. }
  split_and!; [by exists s|done|done|]. intros Ht. unfold shouldExecuteJob, isTimeForRecurringJob.
  cbn [set_CreatedAt job_Timestamp job_Type job_CreatedAt]. rewrite Ht.
  destruct (job_Timestamp job); rewrite ?(decide_False (P := JobRecurrente = JobUnico)) by done;
    rewrite decide_True by done; apply bool_decide_false; lia.
Qed.

End theorems.

(** ** Concrete ticks *)

#[local] Existing Instances every_minute every_minute_laws.

(** Leader as [ld] says, clock at [t] seconds, webhooks answer [r]. *)
Definition tick_env (t : Z) (ld : nat → bool) (r : Reply) : Env :=
  mkEnv ld (λ _, t * Second) (λ _, Committed) (λ _, []) (λ _, inl []) (λ _, None) (λ _, r).

(** A node that has just started, with a ten-second queue. *)
Definition new_node : option (Node MemBolt Queue) :=
  q ← NewPersistentSlotQueue (10 * Second); Some (mkNode NewFSM q ∅ 0 []).

Definition ex_lm : LimitManager := mkLimitManager 1000000 100 NewSizeCalculator.

(** A client creates [job] at time 95, as the API does: store it, then count
    it. *)
Definition created_at_95 (job : Job) : option (Node MemBolt Queue) :=
  let env := tick_env 95 (λ _, true) (inl 200) in
  n ← new_node;
  '(_, n1) ← @CreateJob MemBolt Queue _ env (@handler MemBolt _ sorted_range env) job n;
  '(_, n2) ← @RecordJobAdded MemBolt Queue _ env ex_lm job n1;
  Some (mkNode (n_fsm n2) (n_queue n2) ∅ 0 []).

(** One tick at time 105. *)
Definition tick_at_105 (ld : nat → bool) (r : Reply) (n : Node MemBolt Queue)
    : option (Node MemBolt Queue) :=
  '(_, n') ← @processSlots MemBolt _ sorted_range (tick_env 105 ld r) ex_http every_minute ex_em n;
  Some n'.

(** A one-off job is never retried. Its webhook answers 500; the same tick
    deletes the job, its failed status and its attempt, so no later tick can
    run it again although two of its three attempts are left, and the job
    count is not decremented. *)
Theorem failed_job_is_not_retried :
  match created_at_95 ex_job with
  | Some n =>
      f_jobCount (n_fsm n) = 1 ∧ f_jobs (n_fsm n) !! "a" = Some ex_job ∧
      match tick_at_105 (λ _, true) (inl 500) n with
      | Some n' =>
          length (webhooks (n_trace n')) = 1%nat ∧
          f_jobs (n_fsm n') = ∅ ∧ f_executionStates (n_fsm n') = ∅ ∧ f_slots (n_fsm n') = ∅ ∧
          f_jobCount (n_fsm n') = 1
      | None => False
      end
  | None => False
  end.
Proof. vm_compute. tauto. Qed.

(** A job that runs every minute, next at 100. *)
Definition ex_recurring : Job := mkJob "r" "recurrente" None "* * * * *" None 100 "http://w" None.

(** Rescheduling is not atomic. A recurring job is deleted and created
    again; when leadership is lost between the two, the job is gone for good.
    With leadership kept, the same tick reschedules it for 120. *)
Theorem reschedule_can_lose_job :
  match created_at_95 ex_recurring with
  | Some n =>
      match tick_at_105 (λ _, true) (inl 200) n,
            tick_at_105 (λ i, bool_decide (i < 28)%nat) (inl 200) n with
      | Some n1, Some n2 =>
          (job_CreatedAt <$> f_jobs (n_fsm n1) !! "r" = Some 120) ∧
          f_jobs (n_fsm n2) !! "r" = None ∧ length (webhooks (n_trace n2)) = 1%nat
      | _, _ => False
      end
  | None => False
  end.
Proof. vm_compute. tauto. Qed.

Lemma tick_is_safe_witness :
  ∃ n n', @processSlots MemBolt _ sorted_range (tick_env 105 (λ _, true) (inl 200)) ex_http
      every_minute ex_em n = Some (tt, n') ∧
    ∃ evs, webhooks (n_trace n') = webhooks (n_trace n) ++ evs ∧ Forall (due_call 105) evs.
Proof.
  destruct (created_at_95 ex_job) as [n|] eqn:En; [|vm_compute in En; discriminate En].
  exists n. destruct (@processSlots MemBolt _ sorted_range (tick_env 105 (λ _, true) (inl 200)) ex_http
    every_minute ex_em n) as [[[] n']|] eqn:E.
  - exists n'. split; [reflexivity|].
    destruct (@tick_is_safe MemBolt _ sorted_range _ _ every_minute ex_em n n' E) as (_ & _ & H).
    exact H.
  - exfalso. vm_compute in En. injection En as <-. vm_compute in E. discriminate E.
Defined.

Lemma next_execution_in_future_witness : 105 < calculateNextExecution ex_recurring 105.
Proof. apply (next_execution_in_future ex_recurring 105). vm_compute. reflexivity. Defined.
