(* ===== verification/Evictor.v ===== *)
(** * Slot eviction: [evict] of [slot_eviction.go]

    Every check interval the leader archives hot slots whose window ended
    before the hot window and brings cold slots back whose window falls into
    it. The evictor shares the wheel of the slot queue; [wheel] tells whether
    it was given one. *)

From S2P Require Import Prelude GoStrings Json Types Codec ColdStore FSM GoFloat Store StoreProps.
From S2P Require Import StatusTracker TimingWheel WheelProps WheelTime SlotQueue SlotQueueProps.

Definition DefaultHotWindow : Z := 48 * 3600 * Second.
Definition DefaultCheckInterval : Z := 300 * Second.

Record SlotEvictionConfig := mkSlotEvictionConfig {
  sec_Enabled : bool;
  sec_HotWindow : Z;
  sec_CheckInterval : Z }.

Definition DefaultSlotEvictionConfig : SlotEvictionConfig :=
  mkSlotEvictionConfig false DefaultHotWindow DefaultCheckInterval.

(** The defaults [NewSlotEvictorWithWheel] fills in. *)
Definition fill_defaults (c : SlotEvictionConfig) : SlotEvictionConfig :=
  mkSlotEvictionConfig (sec_Enabled c)
    (if decide (sec_HotWindow c = 0) then DefaultHotWindow else sec_HotWindow c)
    (if decide (sec_CheckInterval c = 0) then DefaultCheckInterval else sec_CheckInterval c).

Section Evictor.

Context {CS : Type} `{ColdSlotStore CS} `{GoRange} `{Env}.

Local Open Scope go_scope.

Notation P := (M (Node CS Queue)).

(** [if se.wheel != nil { ... }] *)
Definition if_wheel (wheel : bool) (k : P unit) : P unit := if wheel then k else mreturn tt.

Definition archive_old (wheel : bool) (hotThreshold : Z) (entry : Z * SlotData) : P unit :=
  let '(key, slotData) := entry in
  if decide (slot_MaxTime slotData < hotThreshold) then
    e <- ArchiveSlot key ;;
    match e with
    | Some _ => mreturn tt
    | None => if_wheel wheel (on_wheel_ (Remove key))
    end
  else mreturn tt.

Definition promote_recent (wheel : bool) (hotThreshold hotWindowSeconds : Z) (key : Z) : P unit :=
  slot <- GetSlot key ;;
  match slot with
  | None => mreturn tt
  | Some slotData =>
      if decide (slot_MinTime slotData >= hotThreshold ∧
                 slot_MaxTime slotData < i64 (hotThreshold + i64 (hotWindowSeconds * 2))) then
        e <- UnarchiveSlot key ;;
        match e with
        | Some _ => mreturn tt
        | None => if_wheel wheel (on_wheel_ (Add key))
        end
      else mreturn tt
  end.

Definition evict (c : SlotEvictionConfig) (wheel : bool) : P unit :=
  l <- IsLeader ;;
  if (l : bool) then
    now <- Now ;;
    let hotWindowSeconds := secs (sec_HotWindow c) in
    let hotThreshold := i64 (now - hotWindowSeconds) in
    hotSlots <- GetAllSlots ;;
    for_each (archive_old wheel hotThreshold) (range_map hotSlots) ;;
    coldKeys <- GetColdSlotKeys ;;
    for_each (promote_recent wheel hotThreshold hotWindowSeconds) coldKeys
  else mreturn tt.

End Evictor.

(** ** A cold store that does not fail *)

Section reliable.

Context {CS : Type} `{ColdSlotStoreLaws CS}.

Implicit Types (f : FSM CS) (cs : CS).

Record reliable : Prop := {
  rel_put : ∀ k d cs, slot_ok d → readable cs →
    ∃ cs', PutColdSlot k d cs = (cs', None) ∧ readable cs';
  rel_delete : ∀ k cs, readable cs → ∃ cs', DeleteColdSlot k cs = (cs', None) ∧ readable cs' }.

(** Hot and cold keys are disjoint, every slot is filed under its own key, and
    the cold store has what the metadata says. *)
Record cold_ok f cs : Prop := {
  co_store : f_coldStore f = Some cs;
  co_readable : readable cs;
  co_disjoint : ∀ k, f_coldSlotMeta f !! k = Some true → f_slots f !! k = None;
  co_hot : map_Forall (λ k d, slot_Key d = k ∧ slot_ok d) (f_slots f);
  co_cold : ∀ k, f_coldSlotMeta f !! k = Some true →
    ∃ d, cold_at cs k = Some d ∧ slot_Key d = k ∧ slot_ok d;
  co_meta : map_Forall (λ _ b, b = true) (f_coldSlotMeta f) }.

(** Every slot reads the same and no job changed. *)
Definition same_view f f' : Prop := (∀ k, FSM_GetSlot k f' = FSM_GetSlot k f) ∧ same_jobs f f'.

#[export] Instance same_view_preorder : PreOrder same_view.
Proof.
  split; [done|]. intros f1 f2 f3 [V1 [J1 S1]] [V2 [J2 S2]].
  split; [intros k; by rewrite V2|split; congruence].
Qed.

Lemma get_slot_cold f cs k :
  f_coldStore f = Some cs → readable cs → FSM_GetSlot k f =
    match f_slots f !! k with
    | Some s => Some s
    | None => if default false (f_coldSlotMeta f !! k) then cold_at cs k else None
    end.
Proof.
  intros Hcs Hr. unfold FSM_GetSlot. destruct (f_slots f !! k); [by rewrite SlotData_Clone_id|].
  destruct (default false _); [|done]. rewrite Hcs, readable_get by done.
  destruct (cold_at cs k); [|done]. by rewrite SlotData_Clone_id.
Qed.

Lemma meta_true (o : option bool) : default false o = true → o = Some true.
Proof. by destruct o as [[]|]. Qed.

(** Archiving a hot slot. *)
Lemma archive_cold f cs d :
  reliable → cold_ok f cs → f_slots f !! slot_Key d = Some d →
  ∃ cs', let f' := (applyCommandInternal (cmd_archive d) f).2 in
    cold_ok f' cs' ∧ same_view f f'.
Proof.
  intros Hrel [Hcs Hr Hdis Hhot Hcold Hmeta] Hd. destruct (Hhot _ _ Hd) as [_ Hok].
  destruct (rel_put Hrel (slot_Key d) d cs Hok Hr) as (cs' & Hput & Hr'). exists cs'. cbv zeta.
  rewrite (archive_result _ _ _ _ Hcs Hput). cbn [snd]. set (f' := set_coldSlotMeta _ _).
  assert (∀ k, in64 k → cold_at cs' k = if decide (slot_Key d = k) then Some d else cold_at cs k) as Hat.
  { intros k Hk. pose proof (put_cold_at (slot_Key d) d cs k) as E. rewrite Hput in E. simpl in E.
    apply E; [apply Hok|done|done]. }
  assert (∀ k, f_coldSlotMeta f !! k = Some true → slot_Key d ≠ k → cold_at cs' k = cold_at cs k) as Hat'.
  { intros k Hk Hne. destruct (Hcold k Hk) as (e & _ & <- & He).
    rewrite Hat, decide_False by (done || apply He). done. }
  split; [split; [done|done| | | |]|split; [|done]].
  - intros k. unfold f'. simpl. destruct (decide (slot_Key d = k)) as [<-|Hne].
    + by rewrite lookup_delete_eq.
    + rewrite lookup_insert_ne, lookup_delete_ne by done. apply Hdis.
  - by apply map_Forall_delete.
  - intros k. unfold f'. simpl. destruct (decide (slot_Key d = k)) as [<-|Hne].
    + intros _. exists d. rewrite Hat, decide_True by (done || apply Hok). done.
    + rewrite lookup_insert_ne by done. intros Hk. rewrite Hat' by done. by apply Hcold.
  - by apply map_Forall_insert_2.
  - intros k. rewrite (get_slot_cold f' cs'), (get_slot_cold f cs) by done. unfold f'. simpl.
    destruct (decide (slot_Key d = k)) as [<-|Hne].
    + rewrite lookup_delete_eq, lookup_insert_eq, Hat, decide_True by (done || apply Hok). by rewrite Hd.
    + rewrite lookup_delete_ne, lookup_insert_ne by done.
      destruct (f_slots f !! k); [done|].
      destruct (default false (f_coldSlotMeta f !! k)) eqn:E; [|done]. apply meta_true in E. by apply Hat'.
Qed.

(** Unarchiving a cold one. *)
Lemma unarchive_cold f cs k :
  reliable → cold_ok f cs → in64 k → f_coldSlotMeta f !! k = Some true →
  ∃ cs', let f' := (applyCommandInternal (cmd_with_id CommandUnarchiveSlot (pretty k)) f).2 in
    cold_ok f' cs' ∧ same_view f f'.
Proof.
  intros Hrel [Hcs Hr Hdis Hhot Hcold Hall] Hk Hmeta. destruct (Hcold _ Hmeta) as (d & Hd & Hkey & Hok).
  destruct (rel_delete Hrel k cs Hr) as (cs' & Hdel & Hr'). exists cs'. cbv zeta.
  rewrite (unarchive_result _ cs) by done. rewrite Hd, Hdel. cbn [snd fst].
  set (f' := set_coldSlotMeta _ _).
  assert (∀ k', f_coldSlotMeta f !! k' = Some true → k ≠ k' → cold_at cs' k' = cold_at cs k') as Hat.
  { intros k' Hm Hne. destruct (Hcold k' Hm) as (e & _ & <- & He).
    pose proof (delete_cold_at k cs (slot_Key e)) as E. rewrite Hdel in E. simpl in E.
    rewrite E, decide_False by (done || apply He). done. }
  split; [split; [done|done| | | |]|split; [|done]].
  - intros k'. unfold f'. simpl. destruct (decide (k = k')) as [<-|Hne].
    + by rewrite lookup_delete_eq.
    + rewrite lookup_delete_ne, lookup_insert_ne by done. apply Hdis.
  - apply map_Forall_insert_2; [by split|done].
  - intros k'. unfold f'. simpl. destruct (decide (k = k')) as [<-|Hne].
    + by rewrite lookup_delete_eq.
    + rewrite lookup_delete_ne by done. intros Hm. rewrite Hat by done. by apply Hcold.
  - by apply map_Forall_delete.
  - intros k'. rewrite (get_slot_cold f' cs'), (get_slot_cold f cs) by done. unfold f'. simpl.
    destruct (decide (k = k')) as [<-|Hne].
    + rewrite lookup_insert_eq, Hdis, Hmeta by done. by rewrite Hd.
    + rewrite lookup_insert_ne, lookup_delete_ne by done. destruct (f_slots f !! k'); [done|].
      destruct (default false (f_coldSlotMeta f !! k')) eqn:E; [|done]. apply meta_true in E. by apply Hat.
Qed.

End reliable.

(** ** Eviction on a healthy node *)

Section evict.

Context {CS : Type} `{ColdSlotStoreLaws CS} `{GoRange} `{Env}.

Implicit Types (n : Node CS Queue) (f : FSM CS) (q : Queue) (c : gset string) (tr : list event).

Lemma command_ok_archive s : slot_ok s → command_ok (cmd_archive s).
Proof.
  intros Hs. unfold command_ok. cbn.
  split_and!; [by intros ? [=]|by intros ? [=]|by intros ? [= <-]|by intros ? [=]|constructor|
    unfold in64, two63; lia..].
Qed.

Lemma at_ArchiveSlot k d f q c tr n :
  healthy_env → node_at f q c tr n → FSM_GetSlot k f = Some d → slot_ok d →
  returns (ArchiveSlot k) n
    (λ e n', e = None ∧ node_at (applyCommandInternal (cmd_archive d) f).2 q c tr n').
Proof.
  intros He Hn Hd Hok. eapply at_if_leader; [done..|]. intros n' Hn'. pose proof Hn' as [i ->].
  apply returns_bind, returns_gets. simpl. rewrite Hd.
  apply (at_send (cmd_archive d)); [done..|by apply command_ok_archive|by intros ? [=]].
Qed.

Lemma at_UnarchiveSlot k f q c tr n :
  healthy_env → node_at f q c tr n →
  returns (UnarchiveSlot k) n (λ e n', e = None ∧
    node_at (applyCommandInternal (cmd_with_id CommandUnarchiveSlot (pretty k)) f).2 q c tr n').
Proof.
  intros He Hn. eapply at_if_leader; [done..|]. intros n' Hn'.
  apply (at_send (cmd_with_id CommandUnarchiveSlot (pretty k)));
    [done..|apply command_ok_id|by intros ? [=]].
Qed.

(** What both loops keep; [R] relates the state machine to the entries done. *)
Definition evicting (R : FSM CS → Prop) f0 c tr n : Prop :=
  ∃ f q cs, node_at f q c tr n ∧ queue_ok q ∧ cold_ok f cs ∧ same_view f0 f ∧ R f.

Lemma evicting_wheel wheel (R : FSM CS → Prop) f0 f q cs c tr n
    (g : HierarchicalTimingWheel → option HierarchicalTimingWheel) w :
  node_at f q c tr n → queue_ok q → cold_ok f cs → same_view f0 f → R f →
  g (q_wheel q) = Some w → wheel_ok w → slotGap w = slotGap (q_wheel q) →
  returns (if_wheel wheel (on_wheel_ g)) n (λ _ n', evicting R f0 c tr n').
Proof.
  intros Hn Hq Hf Hv HR E Hw Hg. destruct wheel; simpl; [|by apply returns_ret; exists f, q, cs].
  eapply returns_mono; [by eapply at_on_wheel_|]. intros [] n' Hn'. exists f, (set_wheel w q), cs.
  split_and!; try done. by apply queue_ok_wheel.
Qed.

(** The hot slots that are not in [done] are those of [f0]. *)
Definition hot_left f0 (done : list Z) f : Prop :=
  ∀ k, k ∉ done → f_slots f !! k = f_slots f0 !! k.

Lemma hot_left_archive f0 l d f cs :
  f_coldStore f = Some cs → hot_left f0 l f →
  hot_left f0 (l ++ [slot_Key d]) (applyCommandInternal (cmd_archive d) f).2.
Proof.
  intros Hcs Hl k Hk. rewrite <-(Hl k) by set_solver. unfold applyCommandInternal. simpl.
  unfold applyArchiveSlot. simpl. rewrite Hcs. destruct (PutColdSlot _ _ _) as [cs' [e|]]; simpl; [done|].
  rewrite lookup_delete_ne by set_solver. done.
Qed.

Lemma at_archive_old wheel thr f0 c tr l k d n :
  reliable → healthy_env → evicting (hot_left f0 l) f0 c tr n →
  k ∉ l → f_slots f0 !! k = Some d →
  returns (archive_old wheel thr (k, d)) n (λ _ n', evicting (hot_left f0 (l ++ [k])) f0 c tr n').
Proof.
  intros Hrel He (f & q & cs & Hn & Hq & Hf & Hv & HR) Hk Hd. unfold archive_old.
  rewrite <-(HR k Hk) in Hd. case_decide.
  2:{ apply returns_ret. exists f, q, cs. split_and!; try done. intros x Hx. apply HR. set_solver. }
  destruct (co_hot _ _ Hf _ _ Hd) as [<- Hok].
  apply returns_bind. eapply returns_mono; [eapply at_ArchiveSlot; [done|exact Hn| |exact Hok]|].
  { unfold FSM_GetSlot. by rewrite Hd, SlotData_Clone_id. }
  intros e n1 [-> Hn1]. destruct (archive_cold f cs d Hrel Hf Hd) as (cs' & Hf' & Hv').
  destruct (Remove_ok (slot_Key d) (q_wheel q)) as (w & E & Hw & Hs & _); [apply Hq|].
  eapply evicting_wheel; [exact Hn1|done|exact Hf'|by transitivity f| |exact E|done|].
  - eapply hot_left_archive; [apply Hf|done].
  - by apply skel_clock in Hs as (? & _).
Qed.

(** The cold keys that are not in [done] are still cold. *)
Definition cold_left f1 (done : list Z) f : Prop :=
  ∀ k, k ∉ done → f_coldSlotMeta f !! k = f_coldSlotMeta f1 !! k.

Lemma at_promote_recent wheel thr hw f0 f1 c tr l k n :
  reliable → healthy_env → evicting (cold_left f1 l) f0 c tr n →
  k ∉ l → f_coldSlotMeta f1 !! k = Some true →
  returns (promote_recent wheel thr hw k) n
    (λ _ n', evicting (cold_left f1 (l ++ [k])) f0 c tr n').
Proof.
  intros Hrel He (f & q & cs & Hn & Hq & Hf & Hv & HR) Hk Hm. unfold promote_recent.
  rewrite <-(HR k Hk) in Hm. pose proof Hn as [i ->]. apply returns_bind, returns_gets. simpl.
  assert (evicting (cold_left f1 (l ++ [k])) f0 c tr (mkNode f q c i tr)) as Hskip.
  { exists f, q, cs. split_and!; try done. intros x Hx. apply HR. set_solver. }
  destruct (FSM_GetSlot k f) as [d|]; [|by apply returns_ret].
  case_decide; [|by apply returns_ret].
  destruct (co_cold _ _ Hf _ Hm) as (e & _ & Hkey & Hok).
  assert (in64 k) as Hk64 by (rewrite <-Hkey; apply Hok).
  apply returns_bind. eapply returns_mono; [by apply at_UnarchiveSlot|].
  intros err n1 [-> Hn1]. destruct (unarchive_cold f cs k Hrel Hf Hk64 Hm) as (cs' & Hf' & Hv').
  destruct (Add_ok k (q_wheel q)) as (w & E & Hw & _ & _ & Hg & _); [apply Hq|done|].
  eapply evicting_wheel; [exact Hn1|done|exact Hf'|by transitivity f| |exact E|done|done].
  intros x Hx. rewrite <-(HR x) by set_solver.
  rewrite (unarchive_result f cs k Hk64 (co_store _ _ Hf) (co_readable _ _ Hf)). simpl.
  rewrite lookup_delete_ne by set_solver. by destruct (cold_at cs k).
Qed.

Lemma at_archive_loop wheel thr f0 c tr n :
  reliable → healthy_env → evicting (hot_left f0 []) f0 c tr n →
  returns (for_each (archive_old wheel thr) (range_map (FSM_GetAllSlots f0))) n
    (λ _ n', evicting (λ _, True) f0 c tr n').
Proof.
  intros Hrel He Hn.
  destruct (for_each_ind (λ l n, evicting (hot_left f0 l.*1) f0 c tr n)
    (archive_old wheel thr) (range_map (FSM_GetAllSlots f0)) n Hn)
    as (n' & E & f & q & cs & Hf); [|exists tt, n'; split; [done|]; exists f, q, cs; tauto].
  intros l1 [k d] l2 w Hl Hw. pose proof (range_map_NoDup (FSM_GetAllSlots f0)) as Hnd.
  rewrite Hl, fmap_app in Hnd. apply NoDup_app in Hnd as (_ & Hnd & _).
  assert ((k, d) ∈ range_map (FSM_GetAllSlots f0)) as Hin by (rewrite Hl; set_solver).
  apply elem_of_range_map in Hin. unfold FSM_GetAllSlots in Hin.
  rewrite clone_map_id in Hin by apply SlotData_Clone_id.
  destruct (at_archive_old wheel thr f0 c tr l1.*1 k d w) as ([] & w' & E & Hw'); [done..| |done|].
  - intros Hk. apply (Hnd k Hk). simpl. set_solver.
  - exists w'. by rewrite fmap_app.
Qed.

Lemma at_promote_loop wheel thr hw f0 f1 cs1 c tr n :
  reliable → healthy_env → cold_ok f1 cs1 → evicting (cold_left f1 []) f0 c tr n →
  returns (for_each (promote_recent wheel thr hw) (FSM_GetColdSlotKeys f1)) n
    (λ _ n', evicting (λ _, True) f0 c tr n').
Proof.
  intros Hrel He Hf1 Hn.
  destruct (for_each_ind (λ l n, evicting (cold_left f1 l) f0 c tr n)
    (promote_recent wheel thr hw) (FSM_GetColdSlotKeys f1) n Hn)
    as (n' & E & f & q & cs & Hf); [|exists tt, n'; split; [done|]; exists f, q, cs; tauto].
  intros l1 k l2 w Hl Hw. pose proof (range_map_NoDup (f_coldSlotMeta f1)) as Hnd.
  unfold FSM_GetColdSlotKeys in Hl. rewrite Hl in Hnd. apply NoDup_app in Hnd as (_ & Hnd & _).
  assert (k ∈ (range_map (f_coldSlotMeta f1)).*1) as Hin by (rewrite Hl; set_solver).
  apply list_elem_of_fmap in Hin as ([k' b] & -> & Hin). apply elem_of_range_map in Hin.
  pose proof (co_meta _ _ Hf1 _ _ Hin) as Hb. simpl in Hb. subst b.
  destruct (at_promote_recent wheel thr hw f0 f1 c tr l1 k' w) as ([] & w' & E & Hw');
    [done..| |done|by exists w'].
  intros Hk. apply (Hnd k' Hk). simpl. set_solver.
Qed.

(** C25: Eviction is invisible to readers. On a healthy leader, with a cold
    store that neither fails nor forgets and holds a readable slot for every
    key the state machine believes archived, and with no key both hot and
    archived and every slot filed under its own key ([cold_ok]): [evict]
    returns, whatever the configuration, every slot, hot, archived or brought
    back, reads exactly as before, no job and no status has changed, and the
    conditions hold again, so that the next round is invisible as well. A key
    that is both hot and archived is outside: bringing it back replaces the
    newer slot ([unarchive_overwrites_newer_hot_slot]). *)
Theorem evict_keeps_every_slot cfg wheel n cs :
  reliable → healthy_env → queue_ok (n_queue n) → cold_ok (n_fsm n) cs →
  ∃ n' cs', evict cfg wheel n = Some (tt, n') ∧ cold_ok (n_fsm n') cs' ∧
    queue_ok (n_queue n') ∧ (∀ k, FSM_GetSlot k (n_fsm n') = FSM_GetSlot k (n_fsm n)) ∧
    f_jobs (n_fsm n') = f_jobs (n_fsm n) ∧
    f_executionStates (n_fsm n') = f_executionStates (n_fsm n).
Proof.
  intros Hrel He Hq Hf. set (c := n_cancelFuncs n). set (tr := n_trace n). set (f0 := n_fsm n) in *.
  assert (returns (evict cfg wheel) n (λ _ n', evicting (λ _, True) f0 c tr n')) as Hev.
  2:{ destruct Hev as ([] & n' & E & f & q & cs' & [i ->] & Hq' & Hf' & [Hv [Hj Hs]] & _).
      eexists _, cs'. split; [exact E|]. by split_and!. }
  unfold evict. apply returns_bind. eapply returns_mono; [apply at_IsLeader; [done|apply at_node]|].
  intros b n1 [-> Hn1]. apply returns_bind. eapply returns_mono; [apply at_Now; [apply He|exact Hn1]|].
  intros t n2 [_ Hn2]. pose proof Hn2 as [i2 ->]. apply returns_bind, returns_gets. apply returns_bind.
  eapply returns_mono; [apply at_archive_loop; [done..|]|].
  { exists f0, (n_queue n), cs. by split_and!. }
  intros [] n3 (f1 & q1 & cs1 & Hn3 & Hq1 & Hf1 & Hv1 & _). pose proof Hn3 as [i3 ->].
  apply returns_bind, returns_gets. eapply at_promote_loop; [done..|exact Hf1|].
  exists f1, q1, cs1. by split_and!.
Qed.

End evict.

(** ** A concrete eviction *)

Lemma ex_reliable : reliable (CS := MemBolt).
Proof.
  split.
  - intros k d cs Hd Hr. eexists. split; [unfold PutColdSlot; simpl; unfold PutColdSlot_bolt;
      rewrite Marshal_enc_Slot; done|].
    intros k'. destruct (Hr k') as [o Ho]. unfold GetColdSlot in *. simpl in *.
    unfold GetColdSlot_bolt in *. simpl in *.
    destruct (decide (itob k = itob k')) as [<-|Hne].
    + rewrite lookup_insert_eq, dec_enc_Slot by done. by eexists.
    + rewrite lookup_insert_ne by done. by exists o.
  - intros k cs Hr. eexists. split; [done|]. intros k'. destruct (Hr k') as [o Ho].
    unfold GetColdSlot in *. simpl in *. unfold GetColdSlot_bolt in *. simpl in *.
    destruct (decide (itob k = itob k')) as [<-|Hne].
    + rewrite lookup_delete_eq. by eexists.
    + rewrite lookup_delete_ne by done. by exists o.
Qed.

Lemma ex_hot_cold_ok : cold_ok ex_hot ∅.
Proof.
  split; try done.
  - apply ex_readable_empty.
  - apply map_Forall_singleton. vm_compute. split; [reflexivity|]. split_and!; congruence.
Qed.

Lemma evict_keeps_every_slot_witness :
  ∃ n', @evict MemBolt _ sorted_range (clock_env 1000000) (fill_defaults DefaultSlotEvictionConfig)
      true (ex_qnode ex_hot) = Some (tt, n') ∧ FSM_GetSlot 10 (n_fsm n') = Some ex_slot ∧
    f_slots (n_fsm n') = ∅.
Proof.
  destruct (@evict_keeps_every_slot MemBolt _ _ sorted_range (clock_env 1000000)
    (fill_defaults DefaultSlotEvictionConfig) true (ex_qnode ex_hot) ∅)
    as (n' & cs' & E & _ & _ & Hv & _).
  - exact ex_reliable.
  - by split.
  - exact ex_queue_ok.
  - exact ex_hot_cold_ok.
  - exists n'. split; [exact E|]. split; [rewrite Hv; vm_compute; reflexivity|].
    vm_compute in E. injection E as <-. vm_compute. reflexivity.
Defined.
