(* ===== verification/Gateway.v ===== *)
(** * Requests, responses and the way to the leader: [handlers.go], [router.go]

    A response is a status code, the operations on its headers in the order
    they were made and a body. JSON documents are trees as elsewhere; a body
    that is no JSON document is [None] on the way in. What belongs to the
    network and the Raft library (the leader's address, the proxy client, the
    environment variables) is class [Cluster]. *)

From S2P Require Import Prelude GoStrings GoFloat Json Sanitize Types Codec ColdStore FSM Store.
From S2P Require Import StoreProps StatusTracker Limits.
From Stdlib Require Import Ascii.

(** ** Requests and responses *)

Notation Headers := (gmap string (list string)).

Inductive header_op := HSet (name value : string) | HAdd (name value : string).

Definition apply_op (h : Headers) (op : header_op) : Headers :=
  match op with
  | HSet k v => <[k := [v]]> h
  | HAdd k v => <[k := default [] (h !! k) ++ [v]]> h
  end.

Record JobStats := mkJobStats { js_Count : Z; js_Limit : Z; js_Available : Z }.

Record HealthResponse := mkHealth {
  hr_Status : string;
  hr_Role : string;
  hr_Leader : string;
  hr_NodeID : string;
  hr_Memory : option MemoryUsage;
  hr_Jobs : option JobStats;
  hr_Execution : ExecutionStats }.

Record ClusterDebugResponse := mkDebug {
  cd_NodeID : string;
  cd_IsLeader : bool;
  cd_Leader : string;
  cd_RaftState : string;
  cd_Servers : list (gmap string string);
  cd_JobCount : Z }.

(** A struct with floating-point members is kept as a record. *)
Inductive Body :=
  | BEmpty
  | BJson (j : json)
  | BText (s : string)
  | BHealth (h : HealthResponse)
  | BDebug (d : ClusterDebugResponse).

Record Response := mkResponse {
  rs_status : Z;
  rs_headers : list header_op;
  rs_body : Body }.

(** [rq_id] is the route variable, [rq_statusParam] the query parameter. *)
Record Request := mkRequest {
  rq_Method : string;
  rq_URI : string;
  rq_Header : Headers;
  rq_id : string;
  rq_statusParam : string;
  rq_Body : option json }.

(** What the proxy client sends. *)
Record ProxyRequest := mkProxyRequest {
  px_Method : string;
  px_URL : string;
  px_Header : Headers;
  px_Body : option json }.

Class Cluster := {
  leaderAddr : nat → string;
  raftState : nat → string;
  http_newRequest : string → string → option error;
  roundTrip : nat → ProxyRequest → (Z * Headers * Body) + error }.

(** The environment variables. *)
Definition Getenv : Type := string → string.

Record Handlers := mkHandlers {
  h_executionManager : bool;
  h_limitManager : option LimitManager;
  h_addressMap : gmap string string;
  h_healthFailureThreshold : float64 }.

Definition content_json : header_op := HSet "Content-Type" "application/json".

(** [json.NewEncoder(w).Encode(v)]: nothing is written when it fails. *)
Definition encode (j : json) : Body := match Marshal j with inl d => BJson d | inr _ => BEmpty end.

Definition writeError (status : Z) (message : string) : Response :=
  mkResponse status [content_json] (encode (JObj [("error", JStr message)])).

(** ** The address of the leader *)

Definition strings_Split (s : string) (sep : ascii) : list string :=
  unchars <$> split_on sep (chars s).

(** [strings.TrimSpace], for ASCII white space. *)
Definition is_white (c : ascii) : bool := bool_decide (byte_of c ∈ [9; 10; 11; 12; 13; 32]).

Fixpoint trim_left (l : list ascii) : list ascii :=
  match l with c :: l' => if is_white c then trim_left l' else l | [] => [] end.

Definition TrimSpace (s : string) : string :=
  unchars (reverse (trim_left (reverse (trim_left (chars s))))).

(** [strings.TrimPrefix] *)
Definition TrimPrefix (s p : string) : string :=
  if HasPrefix s p then String.substring (String.length p) (String.length s - String.length p) s else s.

(** One round of the loop of [buildAddressMapping]. *)
Definition map_node (getenv : Getenv) (m : gmap string string) (i : Z) : gmap string string :=
  let envValue := getenv ("CLUSTER_NODE_" +:+ pretty i) in
  if decide (envValue = "") then m
  else
    match strings_Split envValue "," with
    | [a; b] =>
        let raftAddr := TrimSpace a in
        let httpAddr := TrimSpace b in
        let httpAddr :=
          if negb (HasPrefix httpAddr "http://") && negb (HasPrefix httpAddr "https://")
          then "http://" +:+ httpAddr else httpAddr in
        <[raftAddr := httpAddr]> m
    | _ => m
    end.

(** The fallback for an empty map only logs. *)
Definition buildAddressMapping (getenv : Getenv) : gmap string string :=
  foldl (map_node getenv) ∅ (seqZ 1 10).

Definition NewHandlers (getenv : Getenv) (em : bool) (lm : option LimitManager)
    (threshold : float64) : Handlers :=
  mkHandlers em lm (buildAddressMapping getenv) threshold.

Definition calculateHTTPAddress (getenv : Getenv) (raftAddr : string) : string + error :=
  match strings_Split raftAddr ":" with
  | [host; _] =>
      if Contains host ".svc.cluster.local" then inl ("http://" +:+ host +:+ ":8080")
      else
        let host := if decide (host = "localhost") then "127.0.0.1" else host in
        let httpPort :=
          if decide (getenv "HTTP_PORT" = "") then 8080
          else default 8080 (ParseInt (getenv "HTTP_PORT")) in
        inl ("http://" +:+ host +:+ ":" +:+ pretty httpPort)
  | _ => inr (errors_New ("invalid Raft address format: " +:+ raftAddr))
  end.

Definition getHTTPAddressForRaft (getenv : Getenv) (h : Handlers) (raftAddr : string)
    : string + error :=
  (* [strings.Replace(addr, old, new, 1)] of a prefix, looked up in the map *)
  let swapped (old new : string) :=
    if HasPrefix raftAddr old then h_addressMap h !! (new +:+ TrimPrefix raftAddr old) else None in
  match h_addressMap h !! raftAddr with
  | Some httpAddr => inl httpAddr
  | None =>
      match swapped "localhost:" "127.0.0.1:" with
      | Some httpAddr => inl httpAddr
      | None =>
          match swapped "127.0.0.1:" "localhost:" with
          | Some httpAddr => inl httpAddr
          | None => calculateHTTPAddress getenv raftAddr
          end
      end
  end.

(** ** The proxy *)

(** [for name, values := range h { for _, value := range values { Add } }] *)
Definition copy_headers `{GoRange} (h : Headers) : list header_op :=
  p ← range_map h; HAdd p.1 <$> p.2.

Section proxy.

Context {CS Q : Type} `{GoRange} `{Cluster}.

Local Open Scope go_scope.

Notation P := (M (Node CS Q)).

Definition GetLeader : P string := ask leaderAddr.

Definition proxyToLeader (getenv : Getenv) (h : Handlers) (r : Request) : P Response :=
  leader <- GetLeader ;;
  if decide (leader = "") then mreturn (writeError 503 "No leader available")
  else
    match getHTTPAddressForRaft getenv h leader with
    | inr _ => mreturn (writeError 503 "Leader unavailable")
    | inl httpAddr =>
        let url := httpAddr +:+ rq_URI r in
        match http_newRequest (rq_Method r) url with
        | Some _ => mreturn (writeError 500 "Internal error")
        | None =>
            let headers := foldl apply_op ∅ (copy_headers (rq_Header r)) in
            resp <- ask (λ i, roundTrip i (mkProxyRequest (rq_Method r) url headers (rq_Body r))) ;;
            match resp with
            | inr _ => mreturn (writeError 502 "Unable to reach leader")
            | inl (status, hs, body) => mreturn (mkResponse status (copy_headers hs) body)
            end
        end
    end.

End proxy.

(** ** Middleware, over any state *)

Section middleware.

Context {W : Type}.

Local Open Scope go_scope.

Notation P := (M W).

(** [r.Header.Get(name)] *)
Definition Header_Get (h : Headers) (name : string) : string := default "" (h !! name ≫= head).

Definition unauthorized : Response :=
  mkResponse 401 [HSet "Content-Type" "text/plain; charset=utf-8";
                  HSet "X-Content-Type-Options" "nosniff"]
    (BText ("{" +:+ dquote +:+ "error" +:+ dquote +:+ ":" +:+ dquote +:+ "unauthorized" +:+ dquote +:+
            "}" +:+ String "010" "")).

Definition authMiddleware (expectedToken : string) (next : Request → P Response) (r : Request)
    : P Response :=
  if decide (expectedToken = "") then next r
  else
    let auth := Header_Get (rq_Header r) "Authorization" in
    if HasPrefix auth "Bearer " then
      if decide (TrimPrefix auth "Bearer " = expectedToken) then next r else mreturn unauthorized
    else mreturn unauthorized.

Definition cors_headers : list header_op :=
  [HSet "Access-Control-Allow-Origin" "*";
   HSet "Access-Control-Allow-Methods" "GET, POST, DELETE, OPTIONS";
   HSet "Access-Control-Allow-Headers" "Content-Type, Authorization"].

Definition corsMiddleware (next : Request → P Response) (r : Request) : P Response :=
  if decide (rq_Method r = "OPTIONS") then mreturn (mkResponse 200 cors_headers BEmpty)
  else
    resp <- next r ;;
    mreturn (mkResponse (rs_status resp) (cors_headers ++ rs_headers resp) (rs_body resp)).

End middleware.

(** ** What the proxy passes on *)

Section headers.

Context `{GoRange}.

(** [h] with the values [vs] added under [k]. *)
Definition add_values (o : option (list string)) (vs : list string) : option (list string) :=
  if decide (vs = []) then o else Some (default [] o ++ vs).

Lemma add_values_lookup h k vs k' :
  foldl apply_op h (HAdd k <$> vs) !! k' = if decide (k = k') then add_values (h !! k) vs else h !! k'.
Proof.
  revert h. induction vs as [|v vs IH]; intros h; simpl.
  { unfold add_values. case_decide; [by subst|done]. }
  rewrite IH. unfold apply_op. case_decide as E; [subst k'|by rewrite lookup_insert_ne].
  rewrite lookup_insert_eq. unfold add_values. simpl. case_decide as Ev; subst; [done|].
  by rewrite <-app_assoc.
Qed.

Lemma copy_list_lookup (l : list (string * list string)) h k :
  NoDup l.*1 →
  (∀ vs, (k, vs) ∈ l →
     foldl apply_op h (p ← l; HAdd p.1 <$> p.2) !! k = add_values (h !! k) vs) ∧
  (k ∉ l.*1 → foldl apply_op h (p ← l; HAdd p.1 <$> p.2) !! k = h !! k).
Proof.
  revert h. induction l as [|[k0 vs0] l IH]; intros h Hnd; [split; [set_solver|done]|].
  apply NoDup_cons in Hnd as [Hk0 Hnd]. simpl in Hk0. cbn. rewrite foldl_app.
  destruct (IH (foldl apply_op h (HAdd k0 <$> vs0)) Hnd) as [IH1 IH2]. split.
  - intros vs [[= -> ->]|Hin]%elem_of_cons.
    + rewrite IH2 by done. rewrite add_values_lookup. by rewrite decide_True.
    + rewrite (IH1 vs Hin), add_values_lookup, decide_False; [done|]. intros ->.
      apply Hk0. by apply (list_elem_of_fmap_2 fst) in Hin.
  - intros Hk. rewrite IH2 by set_solver. rewrite add_values_lookup, decide_False by set_solver. done.
Qed.

Lemma copy_headers_lookup h0 (h : Headers) k :
  foldl apply_op h0 (copy_headers h) !! k = add_values (h0 !! k) (default [] (h !! k)).
Proof.
  destruct (copy_list_lookup (range_map h) h0 k (range_map_NoDup h)) as [H1 H2]. unfold copy_headers.
  destruct (h !! k) as [vs|] eqn:E.
  - simpl. apply H1. by apply elem_of_range_map.
  - apply H2. intros Hk. apply list_elem_of_fmap in Hk as ([k' vs] & -> & Hin).
    apply elem_of_range_map in Hin. simpl in E. congruence.
Qed.

(** Every header has a value, as in a request that was parsed. *)
Definition headers_ok (h : Headers) : Prop := map_Forall (λ _ vs, vs ≠ []) h.

Lemma copy_headers_id (h : Headers) : headers_ok h → foldl apply_op ∅ (copy_headers h) = h.
Proof.
  intros Hh. apply map_eq. intros k. rewrite copy_headers_lookup, lookup_empty. unfold add_values.
  destruct (h !! k) as [vs|] eqn:E; [|done]. simpl. by rewrite decide_False by (by apply (Hh k)).
Qed.

End headers.

Section strings.

Lemma substring_all s : String.substring 0 (String.length s) s = s.
Proof. induction s as [|c s IH]; [done|]. simpl. by rewrite IH. Qed.

Lemma prefix_app p s : String.prefix p (p +:+ s) = true.
Proof.
  induction p as [|c p IH]; [by destruct s|]. simpl. by destruct (ascii_dec c c).
Qed.

Lemma substring_app p s : String.substring (String.length p) (String.length s) (p +:+ s) = s.
Proof. induction p as [|c p IH]; [apply substring_all|]. simpl. exact IH. Qed.

Lemma length_app_string p s : String.length (p +:+ s) = (String.length p + String.length s)%nat.
Proof. induction p as [|c p IH]; [done|]. simpl. by rewrite IH. Qed.

Lemma prefix_split p s : String.prefix p s = true → ∃ t, s = p +:+ t.
Proof.
  revert s. induction p as [|c p IH]; intros s Hp; [by exists s|].
  destruct s as [|c' s]; [done|]. simpl in Hp. destruct (ascii_dec c c') as [->|]; [|done].
  destruct (IH s Hp) as [t ->]. by exists t.
Qed.

Lemma TrimPrefix_app p t : TrimPrefix (p +:+ t) p = t.
Proof.
  unfold TrimPrefix, HasPrefix. rewrite prefix_app, length_app_string.
  replace (String.length p + String.length t - String.length p)%nat with (String.length t) by lia.
  apply substring_app.
Qed.

(** A prefix is there and what follows it is [t]. *)
Lemma trim_prefix_iff s p t : HasPrefix s p = true ∧ TrimPrefix s p = t ↔ s = p +:+ t.
Proof.
  split.
  - intros [Hp Ht]. destruct (prefix_split _ _ Hp) as [u ->]. by rewrite TrimPrefix_app in Ht; subst.
  - intros ->. split; [apply prefix_app|apply TrimPrefix_app].
Qed.

End strings.

Section gateway.

Context {CS Q : Type} `{GoRange} `{Cluster}.

Implicit Types n : Node CS Q.

(** C40: Only the bearer of the token gets through. With a token set,
    [authMiddleware] calls the handler exactly for requests whose
    authorization header is the word Bearer, a blank and that token; any
    other request is answered 401 and nothing happens. *)
Theorem auth_exact token (next : Request → M (Node CS Q) Response) r n :
  authMiddleware token next r n =
    if decide (token = "" ∨ Header_Get (rq_Header r) "Authorization" = "Bearer " +:+ token)
    then next r n else Some (unauthorized, n).
Proof.
  unfold authMiddleware. case_decide as Ht; [rewrite decide_True by tauto; done|].
  destruct (HasPrefix _ "Bearer ") eqn:Hp; [case_decide as Htok|].
  - rewrite decide_True; [done|]. right. by apply trim_prefix_iff.
  - rewrite decide_False; [done|]. intros [|E]; [done|]. apply trim_prefix_iff in E. tauto.
  - rewrite decide_False; [done|]. intros [|E]; [done|].
    apply trim_prefix_iff in E as [E _]. by rewrite E in Hp.
Qed.

(** The proxy is transparent. When the leader is known and answers, the
    request it gets has the method, the target, the headers and the body of
    the client's, whatever the order Go ranges over the headers in, the
    client gets the leader's status and body, and the node's own state is
    not touched. *)
Theorem proxy_transparent getenv h r n addr status hs body :
  leaderAddr (n_step n) ≠ "" → getHTTPAddressForRaft getenv h (leaderAddr (n_step n)) = inl addr →
  http_newRequest (rq_Method r) (addr +:+ rq_URI r) = None → headers_ok (rq_Header r) →
  roundTrip (S (n_step n)) (mkProxyRequest (rq_Method r) (addr +:+ rq_URI r) (rq_Header r) (rq_Body r))
    = inl (status, hs, body) →
  ∃ resp n', proxyToLeader getenv h r n = Some (resp, n') ∧ rs_status resp = status ∧
    rs_body resp = body ∧ n_fsm n' = n_fsm n ∧ n_queue n' = n_queue n ∧ n_trace n' = n_trace n.
Proof.
  intros Hl Ha Hr Hh Hrt. unfold proxyToLeader, GetLeader, ask, mthen. cbn. rewrite decide_False by done.
  rewrite Ha, Hr, copy_headers_id by done. cbn. rewrite Hrt. eexists _, _. by split_and!.
Qed.

(** A proxied answer carries every cross-origin header twice. The proxy
    adds the leader's headers to those the middleware of this node has set,
    so when the leader's answer has a cross-origin header, the client gets
    both values, which browsers refuse. *)
Theorem proxy_doubles_cors getenv h r n addr status hs body v :
  rq_Method r ≠ "OPTIONS" → leaderAddr (n_step n) ≠ "" →
  getHTTPAddressForRaft getenv h (leaderAddr (n_step n)) = inl addr →
  http_newRequest (rq_Method r) (addr +:+ rq_URI r) = None → headers_ok (rq_Header r) →
  roundTrip (S (n_step n)) (mkProxyRequest (rq_Method r) (addr +:+ rq_URI r) (rq_Header r) (rq_Body r))
    = inl (status, hs, body) →
  hs !! "Access-Control-Allow-Origin" = Some [v] →
  ∃ resp n', corsMiddleware (proxyToLeader getenv h) r n = Some (resp, n') ∧
    foldl apply_op ∅ (rs_headers resp) !! "Access-Control-Allow-Origin" = Some ["*"; v].
Proof.
  intros Hm Hl Ha Hr Hh Hrt Hv. unfold corsMiddleware. rewrite decide_False by done.
  unfold proxyToLeader, GetLeader, ask, mthen. cbn. rewrite decide_False by done.
  rewrite Ha, Hr, copy_headers_id by done. cbn. rewrite Hrt. eexists _, _. split; [done|].
  cbn. rewrite copy_headers_lookup, Hv. done.
Qed.

End gateway.

(** ** A concrete cluster *)

Definition ex_getenv : Getenv := λ k,
  if decide (k = "CLUSTER_NODE_1") then "127.0.0.1:7000, 10.0.0.1:8080" else "".

(** The leader answers 200 with its own cross-origin header. *)
Definition ex_cluster : Cluster := {|
  leaderAddr _ := "localhost:7000";
  raftState _ := "Follower";
  http_newRequest _ _ := None;
  roundTrip _ px := inl (if decide (px_URL px = "http://10.0.0.1:8080/jobs") then 200 else 404,
    {["Access-Control-Allow-Origin" := ["*"]]}, BEmpty) |}.

Definition ex_handlers : Handlers := NewHandlers ex_getenv true (Some ex_limits) (f_of_Z 0).

Definition ex_post : Request :=
  mkRequest "POST" "/jobs" {["Authorization" := ["Bearer s3"]; "Accept" := ["a"; "b"]]} "" "" (Some JNull).

Lemma ex_post_headers : headers_ok (rq_Header ex_post).
Proof. apply map_Forall_insert_2; [done|]. by apply map_Forall_singleton. Qed.

Lemma proxy_transparent_witness :
  ∃ resp n', @proxyToLeader MemBolt unit sorted_range ex_cluster ex_getenv ex_handlers ex_post
    (ex_node_of NewFSM) = Some (resp, n') ∧ rs_status resp = 200.
Proof.
  destruct (@proxy_transparent MemBolt unit sorted_range ex_cluster ex_getenv ex_handlers ex_post
    (ex_node_of NewFSM) "http://10.0.0.1:8080" 200 {["Access-Control-Allow-Origin" := ["*"]]} BEmpty)
    as (resp & n' & E & Hs & _);
    [vm_compute; congruence|vm_compute; reflexivity|reflexivity|exact ex_post_headers|reflexivity|].
  exists resp, n'. split; [exact E|exact Hs].
Defined.

Lemma proxy_doubles_cors_witness :
  ∃ resp n', corsMiddleware (@proxyToLeader MemBolt unit sorted_range ex_cluster ex_getenv ex_handlers)
      ex_post (ex_node_of NewFSM) = Some (resp, n') ∧
    foldl apply_op ∅ (rs_headers resp) !! "Access-Control-Allow-Origin" = Some ["*"; "*"].
Proof.
  apply (@proxy_doubles_cors MemBolt unit sorted_range ex_cluster ex_getenv ex_handlers ex_post
    (ex_node_of NewFSM) "http://10.0.0.1:8080" 200 {["Access-Control-Allow-Origin" := ["*"]]} BEmpty "*");
    [vm_compute; congruence|vm_compute; congruence|vm_compute; reflexivity|reflexivity|
     exact ex_post_headers|reflexivity|reflexivity].
Defined.
