(* ===== verification/Config.v ===== *)
(** * Configuration: [cmd/scheduled-db/main.go]

    The environment variables are a function; [Sys] is what the runtime
    reports. Durations are read in [GoDuration] and [Startup], floats and the
    command line in [GoNumber] and [CommandLine]. *)

From S2P Require Import Prelude GoStrings GoFloat Json Sanitize TimingWheel Types Codec ColdStore FSM Store.
From S2P Require Import StoreProps StatusTracker Limits WheelProps Gateway.
From Stdlib Require Import Ascii SpecFloat.

(** ** Environment variables *)

Definition getEnvOrDefault (getenv : Getenv) (key defaultValue : string) : string :=
  if decide (getenv key = "") then defaultValue else getenv key.

(** The parser's result, or the default when there is none. *)
Definition getEnvParsed {A} (parse : string → option A) (getenv : Getenv) (key : string) (dflt : A) : A :=
  if decide (getenv key = "") then dflt else default dflt (parse (getenv key)).

(** [strconv.ParseBool] *)
Definition ParseBool (s : string) : option bool :=
  if decide (s ∈ ["1"; "t"; "T"; "true"; "TRUE"; "True"]) then Some true
  else if decide (s ∈ ["0"; "f"; "F"; "false"; "FALSE"; "False"]) then Some false
  else None.

Definition getEnvBoolOrDefault : Getenv → string → bool → bool := getEnvParsed ParseBool.

(** [int] has 64 bits. *)
Definition getEnvIntOrDefault : Getenv → string → Z → Z := getEnvParsed ParseInt.

Definition getEnvInt64OrDefault : Getenv → string → Z → Z := getEnvParsed ParseInt.

(** ** Memory limit *)

Definition upper (c : ascii) : ascii :=
  let b := byte_of c in
  if between 97 122 b then ascii_of_nat (Z.to_nat (b - 32)) else c.

(** [strings.ToUpper]; only the last two characters are looked at, and no
    character outside ASCII has an upper case among them. *)
Definition ToUpper (s : string) : string := unchars (upper <$> chars s).

Definition TrimSuffix (s p : string) : string :=
  if HasSuffix s p then String.substring 0 (String.length s - String.length p) s else s.

(** The text of the parser's error is left out of the message. *)
Definition ParseMemoryLimit (value : string) : Z + error :=
  let value := TrimSpace value in
  if decide (value = "") then inr (errors_New "empty memory limit value")
  else
    let up := ToUpper value in
    let '(multiplier, value) :=
      if HasSuffix up "GB" then (1024 * 1024 * 1024, TrimSuffix (TrimSuffix value "GB") "gb")
      else if HasSuffix up "MB" then (1024 * 1024, TrimSuffix (TrimSuffix value "MB") "mb")
      else if HasSuffix up "KB" then (1024, TrimSuffix (TrimSuffix value "KB") "kb")
      else (1, value) in
    let value := TrimSpace value in
    match ParseInt value with
    | None => inr (errors_New "invalid memory limit format")
    | Some num =>
        if decide (num <= 0) then inr (errors_New "memory limit must be positive")
        else inl (i64 (num * multiplier))
    end.

Definition f_100 : float64 := f_of_Z 100.

(** [Sys] is [runtime.MemStats.Sys], an unsigned number. *)
Definition DetectMemoryLimit (Sys : Z) (explicitLimit : string) (memoryPercent : float64) : Z :=
  let detected :=
    let systemMemory := i64 Sys in
    let percent :=
      if SFleb memoryPercent (f_of_Z 0) || f_ltb f_100 memoryPercent
      then f_of_Z 50 else memoryPercent in
    f_trunc (f_mul (f_of_Z systemMemory) (f_div percent f_100)) in
  if decide (explicitLimit = "") then detected
  else match ParseMemoryLimit explicitLimit with inl limit => limit | inr _ => detected end.

(** ** What [main] makes of the flags *)

Definition valid_job_limit (queueJobLimit : Z) : Z :=
  if decide (queueJobLimit <= 0) then 100000 else queueJobLimit.

Definition peer_list (peers : string) : list string :=
  if decide (peers = "") then [] else TrimSpace <$> strings_Split peers ",".

Definition main_wheel_configs (slotGap g0 b0 g1 b1 g2 b2 : Z) : list WheelLevelConfig :=
  let l0g := if decide (g0 = 0) then slotGap else g0 in
  let l1g := if decide (g1 = 0) then i64 (slotGap * 360) else g1 in
  let l2g := if decide (g2 = 0) then i64 (i64 (slotGap * 360) * 24) else g2 in
  [mkConfig l0g b0; mkConfig l1g b1; mkConfig l2g b2].

(** The address a node gives to the others: the host of [raft-advertise-host],
    or the one it listens on. *)
Definition raft_advertise (raftHost raftAdvertiseHost raftPort : string) : string :=
  (if decide (raftAdvertiseHost = "") then raftHost else raftAdvertiseHost) +:+ ":" +:+ raftPort.

(** ** Discovery *)

(** The constants of [pkgcluster] the sources use. *)
Inductive StrategyType :=
  | StrategyStatic | StrategyKubernetes | StrategyDNS | StrategyKubernetesDNS
  | StrategyKubernetesDNSSRV | StrategyGossip.

#[export] Instance StrategyType_eq_dec : EqDecision StrategyType.
Proof. solve_decision. Defined.

Record Topology := mkTopology {
  topo_Name : string;
  topo_Strategy : StrategyType;
  topo_Config : gmap string json }.

(** What [strconv.Atoi] returns, with its error dropped: zero for what is not
    a number, the nearest [int64] for a number that is none. *)
Definition Atoi_value (s : string) : Z :=
  let '(neg, s1) := scan_sign s in
  let '(n, rest) := scan_digits 0 s1 in
  if starts_with_digit s1 && (bool_decide (rest = "") || bool_decide (2 ^ 64 <= n)) then
    Z.max (- two63) (Z.min (two63 - 1) (if neg then - n else n))
  else 0.

Definition discovery_strategy (getenv : Getenv) (flag : string) : string :=
  if decide (flag = "") then
    if decide (getenv "DISCOVERY_STRATEGY" = "") then "none" else getenv "DISCOVERY_STRATEGY"
  else flag.

Definition buildTopology (getenv : Getenv) (strategy nodeID : string) (peers : list string)
    (kubernetesNamespace kubernetesServiceName : string) : Topology + error :=
  let raftPortStr := getEnvOrDefault getenv "RAFT_PORT" "7000" in
  let raftPort := JNum (pretty (Atoi_value raftPortStr)) in
  if decide (strategy = "static") then
    inl (mkTopology "static" StrategyStatic {["addresses" := JArr (JStr <$> peers)]})
  else if decide (strategy = "kubernetes") then
    inl (mkTopology "kubernetes" StrategyKubernetes {[
      "namespace" := JStr kubernetesNamespace; "selector" := JStr ("app=" +:+ kubernetesServiceName);
      "node_basename" := JStr nodeID; "service_name" := JStr kubernetesServiceName; "port" := raftPort ]})
  else if decide (strategy = "dns") then
    inl (mkTopology "dns" StrategyDNS {[
      "query" := JStr kubernetesServiceName; "node_basename" := JStr nodeID; "port" := raftPort ]})
  else if decide (strategy = "kubernetes_dns") then
    inl (mkTopology "kubernetes_dns" StrategyKubernetesDNS {[
      "service" := JStr kubernetesServiceName; "application_name" := JStr nodeID; "port" := raftPort ]})
  else if decide (strategy = "kubernetes_dns_srv" ∨ strategy = "dns_srv") then
    inl (mkTopology "kubernetes_dns_srv" StrategyKubernetesDNSSRV {[
      "service" := JStr kubernetesServiceName; "application_name" := JStr nodeID;
      "namespace" := JStr kubernetesNamespace; "port" := raftPort ]})
  else if decide (strategy = "gossip") then
    inl (mkTopology "gossip" StrategyGossip {[
      "port" := JNum (pretty 45892); "node_addr" := JStr (nodeID +:+ ":" +:+ raftPortStr) ]})
  else inr (errors_New ("unsupported discovery strategy: " +:+ strategy)).

(** ** Facts *)

Section limits.

Lemma chars_app a b : chars (a +:+ b) = chars a ++ chars b.
Proof. induction a as [|c a IH]; [done|]. simpl. unfold chars in *. simpl. by rewrite IH. Qed.

Lemma unchars_app a b : unchars (a ++ b) = unchars a +:+ unchars b.
Proof. induction a as [|c a IH]; [done|]. simpl. unfold unchars in *. simpl. by rewrite IH. Qed.

Lemma substring_0_app a b : String.substring 0 (String.length a) (a +:+ b) = a.
Proof. induction a as [|c a IH]; [by destruct b|]. simpl. by rewrite IH. Qed.

Lemma HasSuffix_app a b : HasSuffix (a +:+ b) b = true.
Proof.
  unfold HasSuffix. rewrite length_app_string. apply andb_true_intro.
  split; apply bool_decide_eq_true; [lia|].
  replace (String.length a + String.length b - String.length b)%nat with (String.length a) by lia.
  apply substring_app.
Qed.

Lemma TrimSuffix_app a b : TrimSuffix (a +:+ b) b = a.
Proof.
  unfold TrimSuffix. rewrite HasSuffix_app, length_app_string.
  replace (String.length a + String.length b - String.length b)%nat with (String.length a) by lia.
  apply substring_0_app.
Qed.

Lemma substring_split k s :
  (k <= String.length s)%nat →
  s = String.substring 0 k s +:+ String.substring k (String.length s - k) s.
Proof.
  revert k. induction s as [|c s IH]; intros [|k] Hk; [done|simpl in Hk; lia| |].
  - simpl. by rewrite substring_all.
  - simpl in *. rewrite (IH k) at 1 by lia. done.
Qed.

Lemma HasSuffix_split s p : HasSuffix s p = true → ∃ a, s = a +:+ p.
Proof.
  unfold HasSuffix. intros [Hl Hs]%andb_prop. apply bool_decide_eq_true in Hl, Hs.
  eexists. rewrite (substring_split (String.length s - String.length p) s) at 1 by lia.
  replace (String.length s - (String.length s - String.length p))%nat with (String.length p) by lia.
  by rewrite Hs.
Qed.

Lemma HasSuffix_other a p p' :
  String.length p = String.length p' → HasSuffix (a +:+ p) p' = bool_decide (p = p').
Proof.
  intros Hl. unfold HasSuffix. rewrite length_app_string, <-Hl.
  replace (String.length a + String.length p - String.length p)%nat with (String.length a) by lia.
  rewrite substring_app, bool_decide_true by lia. done.
Qed.

Lemma append_empty s : s +:+ "" = s.
Proof. induction s as [|c s IH]; [done|]. change (String c (s +:+ "") = String c s). by rewrite IH. Qed.

(** *** Digits *)

Lemma digits_go (x : N) s : Forall is_digit (chars s) → Forall is_digit (chars (pretty_N_go x s)).
Proof.
  revert s. induction (N.lt_wf_0 x) as [x _ IH]; intros s Hs.
  destruct (decide (x = 0%N)) as [->|Hx]; [by rewrite pretty_N_go_0|].
  rewrite pretty_N_go_step by lia. apply IH; [apply N.div_lt; lia|].
  constructor; [|done]. assert (x mod 10 < 10)%N as Hd by (by apply N.mod_lt).
  revert Hd. generalize (x mod 10)%N. intros d Hd.
  assert (d = 0 ∨ d = 1 ∨ d = 2 ∨ d = 3 ∨ d = 4 ∨ d = 5 ∨ d = 6 ∨ d = 7 ∨ d = 8 ∨ d = 9)%N as Hc by lia.
  by destruct_or! Hc; subst.
Qed.

Lemma digits_pretty_N (x : N) : Forall is_digit (chars (pretty x)).
Proof. unfold pretty, pretty_N. case_decide; [by repeat constructor|]. by apply digits_go. Qed.

Lemma digits_pretty z : 0 < z → Forall is_digit (chars (pretty z)).
Proof. intros Hz. destruct z as [|q|q]; [lia| |lia]. apply (digits_pretty_N (N.pos q)). Qed.

Lemma digit_not_white c : is_digit c → is_white c = false.
Proof. destruct c as [[] [] [] [] [] [] [] []]; done. Qed.

Lemma digit_upper c : is_digit c → upper c = c.
Proof. destruct c as [[] [] [] [] [] [] [] []]; done. Qed.

Lemma trim_left_id l : (∀ c, head l = Some c → is_white c = false) → trim_left l = l.
Proof. destruct l as [|c l]; [done|]. simpl. intros Hc. by rewrite (Hc c). Qed.

Lemma TrimSpace_id s : Forall (λ c, is_white c = false) (chars s) → TrimSpace s = s.
Proof.
  intros Hs. assert (∀ l, Forall (λ c, is_white c = false) l → trim_left l = l) as Ht.
  { intros l Hl. apply trim_left_id. intros c Hc. destruct Hl; [done|]. by injection Hc as <-. }
  unfold TrimSpace. rewrite (Ht (chars s)) by done.
  rewrite Ht by (by apply Forall_reverse). by rewrite reverse_involutive, unchars_chars.
Qed.

(** The suffixes, with what they stand for. *)
Definition units : list (string * Z) :=
  [("GB", 2 ^ 30); ("gb", 2 ^ 30); ("MB", 2 ^ 20); ("mb", 2 ^ 20); ("KB", 2 ^ 10); ("kb", 2 ^ 10); ("", 1)].

Lemma ToUpper_digits d p : Forall is_digit (chars d) → ToUpper (d +:+ p) = d +:+ ToUpper p.
Proof.
  intros Hd. unfold ToUpper. rewrite chars_app, fmap_app, unchars_app. f_equal.
  rewrite <-(unchars_chars d) at 2. f_equal. induction Hd as [|c l Hc Hl IH]; [done|].
  cbn. by rewrite IH, digit_upper.
Qed.

Lemma no_suffix d a p : Forall is_digit (chars d) → ¬ is_digit a → HasSuffix d (String a p) = false.
Proof.
  intros Hd Ha. destruct (HasSuffix d (String a p)) eqn:E; [|done].
  apply HasSuffix_split in E as [b ->]. rewrite chars_app, Forall_app in Hd.
  destruct Hd as [_ Hd]. by inversion Hd.
Qed.

(** Both spellings of a unit are taken off. *)
Lemma trim_unit d p a P b p' :
  Forall is_digit (chars d) → String.length (String a P) = String.length (String b p') → ¬ is_digit b →
  String a P ≠ String b p' → p = String a P ∨ p = String b p' →
  TrimSuffix (TrimSuffix (d +:+ p) (String a P)) (String b p') = d.
Proof.
  intros Hd Hl Hb Hne [->| ->].
  - rewrite TrimSuffix_app. unfold TrimSuffix. by rewrite no_suffix.
  - unfold TrimSuffix at 2. rewrite HasSuffix_other, bool_decide_false by done. apply TrimSuffix_app.
Qed.

(** Reading a memory limit. A positive number with one of the units is
    that many bytes, as an [int64] multiplication gives it: exactly the
    product when that fits, and otherwise whatever it wraps around to, which
    the check for a positive limit, made before multiplying, lets through. *)
Theorem memory_limit_value num suffix mult :
  0 < num < two63 → (suffix, mult) ∈ units →
  ParseMemoryLimit (pretty num +:+ suffix) = inl (i64 (num * mult)) ∧
  (num * mult < two63 → ParseMemoryLimit (pretty num +:+ suffix) = inl (num * mult)).
Proof.
  intros Hn Hu. pose proof (digits_pretty num ltac:(lia)) as Hd. set (d := pretty num) in *.
  assert (mult = 2 ^ 30 ∨ mult = 2 ^ 20 ∨ mult = 2 ^ 10 ∨ mult = 1) as Hmult.
  { unfold units in Hu. rewrite !elem_of_cons, elem_of_nil in Hu. naive_solver. }
  assert (ParseMemoryLimit (d +:+ suffix) = inl (i64 (num * mult))) as E.
  2:{ split; [done|]. intros Hlt. rewrite E, i64_id; [done|]. unfold in64, two63 in *. nia. }
  assert (Forall (λ c, is_white c = false) (chars d)) as Hw
    by (eapply Forall_impl; [exact Hd|]; apply digit_not_white).
  assert (Forall (λ c, is_white c = false) (chars suffix)) as Hw'.
  { unfold units in Hu. rewrite !elem_of_cons, elem_of_nil in Hu.
    destruct_or! Hu; try done; injection Hu as -> ->; by repeat constructor. }
  assert (d ≠ "") as Hne by apply pretty_Z_ne_empty.
  unfold ParseMemoryLimit. rewrite TrimSpace_id by (rewrite chars_app; by apply Forall_app).
  rewrite decide_False by (by destruct d). rewrite ToUpper_digits by done.
  assert (∀ m, match ParseInt (TrimSpace d) with
    | Some n => if decide (n <= 0) then inr (errors_New "memory limit must be positive") else inl (i64 (n * m))
    | None => inr (errors_New "invalid memory limit format") end = inl (i64 (num * m))) as Hfin.
  { intros m. rewrite TrimSpace_id by done. unfold d. rewrite ParseInt_pretty by (unfold in64; lia).
    by rewrite decide_False by lia. }
  unfold units in Hu. rewrite !elem_of_cons, elem_of_nil in Hu.
  destruct_or! Hu; try done; injection Hu as -> ->.
  1, 2: change (ToUpper _) with "GB"; rewrite HasSuffix_app, trim_unit by (done || auto); apply Hfin.
  1, 2: change (ToUpper _) with "MB"; rewrite (HasSuffix_other d "MB" "GB"), bool_decide_false by done;
    rewrite HasSuffix_app, trim_unit by (done || auto); apply Hfin.
  1, 2: change (ToUpper _) with "KB"; rewrite (HasSuffix_other d "KB" "GB"), bool_decide_false by done;
    rewrite (HasSuffix_other d "KB" "MB"), bool_decide_false by done;
    rewrite HasSuffix_app, trim_unit by (done || auto); apply Hfin.
  change (ToUpper "") with "". rewrite append_empty.
  rewrite !no_suffix by (first [exact Hd | by vm_compute; intros []]). apply Hfin.
Qed.

Lemma memory_limit_value_witness :
  ParseMemoryLimit "2GB" = inl 2147483648 ∧ ParseMemoryLimit "8589934592GB" = inl (- two63).
Proof.
  split.
  - exact (proj2 (memory_limit_value 2 "GB" (2 ^ 30) ltac:(unfold two63; lia)
      ltac:(apply list_elem_of_here)) ltac:(unfold two63; lia)).
  - exact (proj1 (memory_limit_value 8589934592 "GB" (2 ^ 30) ltac:(unfold two63; lia)
      ltac:(apply list_elem_of_here))).
Defined.

(** A limit that is only different in case is not understood. *)
Lemma mixed_case_limit_refused : ∃ e, ParseMemoryLimit "2Gb" = inr e.
Proof. eexists. vm_compute. reflexivity. Qed.

End limits.

(** ** The wheel [main] configures *)

(** Without flags for the wheel, [main] configures the default wheel. *)
Lemma main_wheel_default gap :
  gap ≠ 0 → main_wheel_configs gap 0 360 0 24 0 365 = DefaultWheelConfigs gap.
Proof. intros Hg. unfold main_wheel_configs, DefaultWheelConfigs. simpl. by case_decide. Qed.

(** Bucket counts are not checked. A count below zero makes the start of the
    process panic; with a count of zero for the last level the wheel is made,
    and adding a slot a day ahead panics. *)
Lemma bucket_count_unchecked :
  NewHierarchicalTimingWheel DefaultSlotGap (main_wheel_configs DefaultSlotGap 0 (-1) 0 24 0 365) = None ∧
  (w ← NewHierarchicalTimingWheel DefaultSlotGap (main_wheel_configs DefaultSlotGap 0 360 0 24 0 0);
   w ← Init 0 w;
   Add 8640 w) = None.
Proof. split; vm_compute; reflexivity. Qed.
