(* ===== verification/Bootstrap.v ===== *)
(** * Forming a cluster: [internal/app.go], [store/address_provider.go]

    The peers that discovery reports, the node that bootstraps, and the names
    under which servers are added to Raft. [discoveryManager] is a library:
    it is the sequence of addresses [Connect] is called with. *)

From S2P Require Import Prelude GoStrings GoFloat Json Sanitize Types Codec ColdStore FSM Store StoreProps.
From S2P Require Import StatusTracker Limits Gateway Config.
From Stdlib Require Import Ascii.

(** ** Addresses *)

(** The position of the first [c] at or after [i]. *)
Fixpoint index_from (c : ascii) (i : nat) (l : list ascii) : option nat :=
  match l with
  | [] => None
  | d :: l => if decide (d = c) then Some i else index_from c (S i) l
  end.

(** [strings.IndexByte] *)
Definition index_byte (c : ascii) (l : list ascii) : option nat := index_from c 0 l.

(** [strings.LastIndexByte] *)
Definition last_index (c : ascii) (l : list ascii) : option nat :=
  (λ i, length l - 1 - i)%nat <$> index_byte c (reverse l).

(** [net.SplitHostPort], on characters. *)
Definition split_host_port (l : list ascii) : option (list ascii * list ascii) :=
  i ← last_index ":" l;
  '(host, j, k) ←
    (if decide (head l = Some "["%char) then
       e ← index_byte "]" l;
       if decide (S e = i) then Some (drop 1 (take e l), 1%nat, S e) else None
     else
       if decide (":"%char ∈ take i l) then None else Some (take i l, 0%nat, 0%nat));
  if decide ("["%char ∈ drop j l ∨ "]"%char ∈ drop k l) then None
  else Some (host, drop (S i) l).

Definition SplitHostPort (s : string) : option (string * string) :=
  '(h, p) ← split_host_port (chars s); Some (unchars h, unchars p).

Definition derivePeerID (addr : string) : string :=
  match split_host_port (chars addr) with
  | None => addr
  | Some (host, _) =>
      match index_byte "." host with
      | Some (S i) => unchars (take (S i) host)
      | _ => unchars host
      end
  end.

(** [NewStoreWithColdSpilling] first puts the pod's address in the address to
    advertise; [net.JoinHostPort] wraps a host with a colon in brackets. *)
Definition JoinHostPort (host port : string) : string :=
  if decide (":"%char ∈ chars host) then "[" +:+ host +:+ "]:" +:+ port else host +:+ ":" +:+ port.

Definition pod_advertise (getenv : Getenv) (raftAdvertise : string) : string :=
  if decide (getenv "POD_IP" ≠ "" ∧ getenv "DISCOVERY_STRATEGY" = "kubernetes") then
    match SplitHostPort raftAdvertise with
    | Some (_, port) => JoinHostPort (getenv "POD_IP") port
    | None => raftAdvertise
    end
  else raftAdvertise.

(** ** The address of a server *)

Record dnsAddressProvider := NewRaftAddressProvider {
  ap_serviceName : string;
  ap_namespace : string;
  ap_domain : string;
  ap_port : Z }.

(** [StatefulSetDNSName] and [StringConfigFromMap] belong to [pkgcluster]. *)
Class PkgCluster := {
  StatefulSetDNSName : string → string → string → string → Z → string;
  StringConfigFromMap : gmap string json → string → string → string }.

Definition ServerAddr `{PkgCluster} (p : dnsAddressProvider) (serverID : string) : string :=
  if HasPrefix serverID "scheduled-db-" then
    StatefulSetDNSName serverID (ap_serviceName p) (ap_namespace p) (ap_domain p) (ap_port p)
  else serverID.

(** The provider [NewApp] makes for the first topology that has names of
    pods; without one [NewStoreWithColdSpilling] takes the default. *)
Definition names_pods (t : Topology) : bool :=
  bool_decide (topo_Strategy t ∈ [StrategyKubernetes; StrategyKubernetesDNS; StrategyKubernetesDNSSRV]).

Definition address_provider `{PkgCluster} (topologies : list Topology) : dnsAddressProvider :=
  match list_find (Is_true ∘ names_pods) topologies with
  | Some (_, t) =>
      NewRaftAddressProvider
        (StringConfigFromMap (topo_Config t) "service_name" "scheduled-db")
        (StringConfigFromMap (topo_Config t) "namespace" "default")
        (StringConfigFromMap (topo_Config t) "cluster_domain" "cluster.local") 7000
  | None => NewRaftAddressProvider "scheduled-db" "default" "cluster.local" 7000
  end.

(** ** The tracker of peers *)

(** [pt_closed] is the field and the state of the channel [done]. *)
Record peerTracker := mkTracker {
  pt_addresses : gset string;
  pt_threshold : Z;
  pt_closed : bool }.

Definition newPeerTracker (threshold : Z) : peerTracker := mkTracker ∅ threshold false.

Definition pt_add (addr : string) (pt : peerTracker) : peerTracker :=
  if pt_closed pt then pt
  else
    let addresses := {[addr]} ∪ pt_addresses pt in
    mkTracker addresses (pt_threshold pt) (bool_decide (pt_threshold pt <= Z.of_nat (size addresses))).

Definition pt_count (pt : peerTracker) : Z := Z.of_nat (size (pt_addresses pt)).

Definition pt_list `{GoRange} (pt : peerTracker) : list string :=
  range_perm (elements (pt_addresses pt)).

(** [None] is a call that blocks: the channel is open and the context is not
    done. *)
Definition pt_wait `{GoRange} (ctxDone : bool) (pt : peerTracker) : option (list string) :=
  if pt_closed pt || ctxDone then Some (pt_list pt) else None.

(** ** Who bootstraps *)

Definition isBootstrapInitiator (nodeID : string) (peers : list string) : bool :=
  forallb (λ addr, negb (String.ltb (derivePeerID addr) nodeID)) peers.

Section bootstrap.

Context {CS Q : Type} `{ColdSlotStore CS} `{GoRange} `{Env} `{Cluster}.

Local Open Scope go_scope.

Implicit Types n : Node CS Q.

(** [leaderCh] says whether the channel delivers before the timeout. *)
Definition WaitForLeader (leaderCh : nat → bool) : M (Node CS Q) (option error) :=
  a <- GetLeader ;;
  if decide (a = "") then
    c <- ask leaderCh ;;
    if (c : bool) then mreturn None
    else
      a <- GetLeader ;;
      if decide (a = "") then mreturn (Some (errors_New "timeout waiting for leader")) else mreturn None
  else mreturn None.

(** The callback [Connect] of a topology: the peer is put down and offered to
    Raft, and the outcome of that is only logged. *)
Definition Connect (localRaftAddr addr : string) (tracker : option peerTracker)
    : M (Node CS Q) (option peerTracker) :=
  if decide (addr = localRaftAddr) then mreturn tracker
  else
    _e <- AddPeer (derivePeerID addr) addr ;;
    mreturn (pt_add addr <$> tracker).

Definition Disconnect (addr : string) : M (Node CS Q) (option error) := RemovePeer (derivePeerID addr).

Definition ListNodes : M (Node CS Q) (list string + error) :=
  c <- GetClusterConfiguration ;;
  mreturn (match c with inl servers => inl (srv_Address <$> servers) | inr e => inr e end).

Definition add_discovered (addr : string) : M (Node CS Q) unit :=
  _e <- AddPeer (derivePeerID addr) addr ;; mreturn tt.

(** The peers are what [wait] returned. The servers read at the end are only
    logged. *)
Definition form_cluster (leaderCh : nat → bool) (nodeID localAddr : string) (peers : list string)
    : M (Node CS Q) unit :=
  if isBootstrapInitiator nodeID peers then
    _e <- ForceBootstrap nodeID localAddr ;;
    _w <- WaitForLeader leaderCh ;;
    l <- IsLeader ;;
    if (l : bool) then for_each add_discovered peers ;; _c <- GetClusterConfiguration ;; mreturn tt
    else mreturn tt
  else
    _w <- WaitForLeader leaderCh ;;
    mreturn tt.

(** [None] is also a wait that does not end. *)
Definition waitForBootstrap (leaderCh : nat → bool) (nodeID localAddr : string)
    (tracker : option peerTracker) (ctxDone : bool) : M (Node CS Q) (option error) :=
  match tracker with
  | None => mreturn (Some (errors_New "bootstrap-expect enabled but peer tracker not initialized"))
  | Some pt =>
      match pt_wait ctxDone pt with
      | None => panic
      | Some peers => form_cluster leaderCh nodeID localAddr peers ;; mreturn None
      end
  end.

(** [attemptAutoBootstrap] *)
Definition attemptAutoBootstrap (nodeID localAddr : string) : M (Node CS Q) (option error) :=
  ForceBootstrap nodeID localAddr.

End bootstrap.

(** ** Names of peers *)

Lemma index_from_app c i l r : c ∉ l → index_from c i (l ++ c :: r) = Some (i + length l)%nat.
Proof.
  revert i. induction l as [|d l IH]; intros i Hc; simpl.
  - rewrite decide_True by done. f_equal. lia.
  - rewrite decide_False by set_solver. rewrite IH by set_solver. f_equal. lia.
Qed.

Lemma index_from_none c i l : c ∉ l → index_from c i l = None.
Proof. revert i. induction l as [|d l IH]; intros i Hc; simpl; [done|]. rewrite decide_False by set_solver. apply IH. set_solver. Qed.

Lemma last_index_app c l r : c ∉ r → last_index c (l ++ c :: r) = Some (length l).
Proof.
  intros Hc. unfold last_index, index_byte. rewrite reverse_app, reverse_cons, <-(assoc_L (++)).
  simpl. rewrite index_from_app by (by rewrite elem_of_reverse). simpl. f_equal.
  rewrite length_app, length_reverse. simpl. lia.
Qed.

(** A host and a port without special characters are split where they meet. *)
Definition plain (l : list ascii) : Prop := ":"%char ∉ l ∧ "["%char ∉ l ∧ "]"%char ∉ l.

Lemma split_host_port_plain h p :
  plain h → plain p → split_host_port (h ++ ":"%char :: p) = Some (h, p).
Proof.
  intros (Hh & Hh2 & Hh3) (Hp & Hp2 & Hp3). unfold split_host_port. rewrite last_index_app by done. simpl.
  rewrite decide_False; [|destruct h as [|c h]; [done|]; simpl; intros [= ->]; set_solver].
  rewrite take_app_length, decide_False by done. simpl.
  rewrite !drop_0, decide_False by (rewrite !elem_of_app, !elem_of_cons; naive_solver).
  do 2 f_equal. rewrite cons_middle, (assoc_L (++)). apply drop_app_length'. rewrite length_app. simpl. lia.
Qed.

Lemma peer_id_first_label name rest port :
  name ≠ "" → "."%char ∉ chars name → plain (chars name) → plain (chars rest) → plain (chars port) →
  derivePeerID (name +:+ "." +:+ rest +:+ ":" +:+ port) = name.
Proof.
  intros Hne Hdot Hn Hr Hp. unfold derivePeerID. rewrite !chars_app.
  replace (chars name ++ chars "." ++ chars rest ++ chars ":" ++ chars port)
    with ((chars name ++ "."%char :: chars rest) ++ ":"%char :: chars port)
    by (by rewrite <-!(assoc_L (++))).
  rewrite split_host_port_plain; [|unfold plain in *; set_solver|done].
  unfold index_byte. rewrite index_from_app by done. simpl.
  destruct name as [|c name]; [done|]. change (length (chars (String c name))) with (S (length (chars name))).
  cbv iota. change (S (length (chars name))) with (length (chars (String c name))).
  by rewrite take_app_length, unchars_chars.
Qed.

(** Names of pods. The peer id of an address that starts with a name and
    a dot is that name, as the comment on [derivePeerID] promises; the id of a
    host without dots is the host. *)
Theorem peer_id_is_the_first_label name rest port :
  name ≠ "" → "."%char ∉ chars name → plain (chars name) → plain (chars rest) → plain (chars port) →
  derivePeerID (name +:+ "." +:+ rest +:+ ":" +:+ port) = name ∧ derivePeerID (name +:+ ":" +:+ port) = name.
Proof.
  intros Hne Hdot Hn Hr Hp. split; [by apply peer_id_first_label|].
  unfold derivePeerID. rewrite !chars_app. change (chars ":" ++ chars port) with (":"%char :: chars port).
  rewrite split_host_port_plain by done. unfold index_byte. rewrite index_from_none by done.
  apply unchars_chars.
Qed.

Lemma peer_id_is_the_first_label_witness :
  derivePeerID "scheduled-db-1.scheduled-db.default.svc:7000" = "scheduled-db-1".
Proof.
  refine (proj1 (peer_id_is_the_first_label "scheduled-db-1" "scheduled-db.default.svc" "7000" _ _ _ _ _));
    [discriminate|..]; unfold plain; split_and?; vm_compute; set_solver.
Defined.

Lemma digits_plain l : Forall is_digit l → plain l ∧ "."%char ∉ l.
Proof.
  intros Hl. unfold plain. split_and!; intros Hc; apply (proj1 (Forall_forall _ _) Hl) in Hc; by vm_compute in Hc.
Qed.

Lemma append_assoc s1 s2 s3 : (s1 +:+ s2) +:+ s3 = s1 +:+ (s2 +:+ s3).
Proof.
  induction s1 as [|c s1 IH]; [done|]. change (String c ((s1 +:+ s2) +:+ s3) = String c (s1 +:+ s2 +:+ s3)).
  by rewrite IH.
Qed.

Definition ipv4 (a b c d : N) : string :=
  pretty a +:+ "." +:+ pretty b +:+ "." +:+ pretty c +:+ "." +:+ pretty d.

(** Addresses by number. The id derived from an IPv4 address is not the
    address, as the comment on [derivePeerID] says, but its first number: all
    nodes of a network that begins with it have the same id. *)
Theorem ipv4_peers_share_an_id a b c d port :
  derivePeerID (ipv4 a b c d +:+ ":" +:+ pretty (port : N)) = pretty a.
Proof.
  assert (∀ x : N, plain (chars (pretty x)) ∧ "."%char ∉ chars (pretty x)) as Hx
    by (intros x; apply digits_plain, digits_pretty_N).
  replace (ipv4 a b c d +:+ ":" +:+ pretty port)
    with (pretty a +:+ "." +:+ (pretty b +:+ "." +:+ pretty c +:+ "." +:+ pretty d) +:+ ":" +:+ pretty port)
    by (unfold ipv4; by rewrite !append_assoc).
  apply peer_id_first_label; try apply Hx.
  - destruct a as [|q]; [done|exact (pretty_Z_ne_empty (Z.pos q))].
  - rewrite !chars_app. destruct (Hx b) as [[]], (Hx c) as [[]], (Hx d) as [[]].
    unfold plain. change (chars ".") with ["."%char]. set_solver.
Qed.

(** ** Which node bootstraps *)

Lemma not_ltb_le s t : String.ltb s t = false ↔ String.le t s.
Proof.
  unfold String.le, String.leb, String.ltb. rewrite String.compare_antisym.
  destruct (String.compare t s); simpl; split; done.
Qed.

Lemma initiator_spec nodeID peers :
  isBootstrapInitiator nodeID peers = true ↔ ∀ a, a ∈ peers → String.le nodeID (derivePeerID a).
Proof.
  unfold isBootstrapInitiator. rewrite forallb_forall. setoid_rewrite <-list_elem_of_In.
  split; intros Hp a Ha; specialize (Hp a Ha).
  - apply negb_true_iff, not_ltb_le in Hp. done.
  - by apply negb_true_iff, not_ltb_le.
Qed.

(** What a node with a complete view knows: the addresses of the others. *)
Definition others_of (x : Server) (nodes : list Server) : list string :=
  srv_Address <$> filter (λ y, y ≠ x) nodes.

Lemma least_node (nodes : list Server) :
  nodes ≠ [] → ∃ x, x ∈ nodes ∧ ∀ y, y ∈ nodes → String.le (srv_ID x) (srv_ID y).
Proof.
  induction nodes as [|z nodes IH]; [done|]. intros _. destruct nodes as [|w nodes].
  { exists z. split; [set_solver|]. intros y ->%list_elem_of_singleton. reflexivity. }
  destruct IH as (x & Hx & Hmin); [done|]. destruct (total String.le (srv_ID z) (srv_ID x)) as [Hl|Hl].
  - exists z. split; [set_solver|]. intros y [->|Hy]%elem_of_cons; [reflexivity|].
    etrans; [exact Hl|]. by apply Hmin.
  - exists x. split; [set_solver|]. intros y [->|Hy]%elem_of_cons; [done|]. by apply Hmin.
Qed.

(** C27: The initiator is unique. When node ids differ, each is what
    [derivePeerID] makes of the node's address, and every node has found all
    the others, exactly one node of the cluster takes itself for the initiator
    of the bootstrap. This is the decision of [isBootstrapInitiator] alone:
    with partial views two nodes take it ([partial_views_two_initiators]), and
    the monitor of leadership bootstraps a node that has seen no leader for a
    minute without asking. *)
Theorem exactly_one_initiator (nodes : list Server) :
  nodes ≠ [] → NoDup (srv_ID <$> nodes) → Forall (λ x, derivePeerID (srv_Address x) = srv_ID x) nodes →
  ∃ x, x ∈ nodes ∧
    ∀ y, y ∈ nodes → (isBootstrapInitiator (srv_ID y) (others_of y nodes) = true ↔ y = x).
Proof.
  intros Hne Hnd Hid. rewrite Forall_forall in Hid. destruct (least_node nodes Hne) as (x & Hx & Hmin).
  assert (∀ y, y ∈ nodes → srv_ID x = srv_ID y → y = x) as Hinj.
  { intros y Hy E. apply list_elem_of_lookup in Hx as [i Hi], Hy as [j Hj].
    enough (i = j) as -> by congruence. eapply NoDup_lookup; [exact Hnd|..]; rewrite list_lookup_fmap.
    - by rewrite Hi.
    - by rewrite Hj, E. }
  exists x. split; [done|]. intros y Hy. rewrite initiator_spec. split.
  - intros Hall. destruct (decide (y = x)) as [|Hyx]; [done|]. apply Hinj; [done|].
    apply (anti_symm String.le); [by apply Hmin|]. rewrite <-(Hid x) by done. apply Hall.
    apply list_elem_of_fmap. exists x. split; [done|]. by apply list_elem_of_filter.
  - intros -> a (z & -> & [Hz1 Hz2]%list_elem_of_filter)%list_elem_of_fmap. rewrite Hid by done. by apply Hmin.
Qed.

Definition ex_nodes : list Server :=
  [mkServer "db-1" "db-1.svc:7000"; mkServer "db-0" "db-0.svc:7000"; mkServer "db-2" "db-2.svc:7000"].

Lemma exactly_one_initiator_witness :
  ∃ x, x ∈ ex_nodes ∧
    ∀ y, y ∈ ex_nodes → (isBootstrapInitiator (srv_ID y) (others_of y ex_nodes) = true ↔ y = x).
Proof.
  apply (exactly_one_initiator ex_nodes).
  - discriminate.
  - vm_compute. repeat constructor; set_solver.
  - by repeat constructor.
Defined.

(** Two nodes whose wait ended before they found each other both bootstrap,
    although the comment on [isBootstrapInitiator] says one does. *)
Lemma partial_views_two_initiators :
  isBootstrapInitiator "db-0" ["db-2.svc:7000"] = true ∧ isBootstrapInitiator "db-1" ["db-2.svc:7000"] = true.
Proof. split; reflexivity. Qed.

(** ** The tracker *)

(** A tracker that was fed the addresses [P]. *)
Record tracker_fed (N : Z) (P : gset string) (pt : peerTracker) : Prop := {
  fed_threshold : pt_threshold pt = N;
  fed_closed : pt_closed pt = true ↔ N <= Z.of_nat (size P);
  fed_open : pt_closed pt = false → pt_addresses pt = P }.

Lemma tracker_fed_new N : 0 < N → tracker_fed N ∅ (newPeerTracker N).
Proof. intros HN. split; [done| |done]. rewrite size_empty. simpl. split; [done|lia]. Qed.

Lemma tracker_fed_add N P a pt : tracker_fed N P pt → tracker_fed N ({[a]} ∪ P) (pt_add a pt).
Proof.
  intros [Ht Hc Ho]. assert (size P <= size ({[a]} ∪ P))%nat as Hs by (apply subseteq_size; set_solver).
  unfold pt_add. destruct (pt_closed pt) eqn:E.
  - split; rewrite ?E; [done| |done]. split; [|done]. intros _. assert (N <= Z.of_nat (size P)) by tauto. lia.
  - rewrite (Ho eq_refl). split; cbn; [done| |done]. by rewrite bool_decide_eq_true, Ht.
Qed.

Section flow.

Context {CS Q : Type} `{ColdSlotStore CS} `{GoRange} `{Env} `{Cluster}.

Implicit Types n : Node CS Q.

(** The node but for the steps it asked for, with calls to Raft appended. *)
Definition raft_calls (tr : list event) n n' : Prop :=
  n_fsm n' = n_fsm n ∧ n_queue n' = n_queue n ∧ n_cancelFuncs n' = n_cancelFuncs n ∧
  n_trace n' = n_trace n ++ tr.

Lemma raft_calls_trans tr1 tr2 n1 n2 n3 :
  raft_calls tr1 n1 n2 → raft_calls tr2 n2 n3 → raft_calls (tr1 ++ tr2) n1 n3.
Proof. unfold raft_calls. rewrite app_assoc. intros (?&?&?&<-) (?&?&?&?). split_and!; by etrans. Qed.

Lemma raft_calls_nil n n' :
  n_fsm n' = n_fsm n → n_queue n' = n_queue n → n_cancelFuncs n' = n_cancelFuncs n → n_trace n' = n_trace n →
  raft_calls [] n n'.
Proof. unfold raft_calls. rewrite app_nil_r. done. Qed.

(** What a call to Raft may add to the trace. *)
Definition at_most (e : event) (tr : list event) : Prop := tr = [] ∨ tr = [e].

Lemma AddPeer_calls id a n :
  ∃ r n' tr, AddPeer id a n = Some (r, n') ∧ raft_calls tr n n' ∧ at_most (EAddVoter id a) tr.
Proof.
  unfold AddPeer, IsLeader, GetClusterConfiguration, ask, mthen. cbn.
  destruct (leader _); [|eexists _, _, []; split_and!; [done|by apply raft_calls_nil|by left]].
  cbn. destruct (configuration _) as [servers|e];
    [|eexists _, _, []; split_and!; [done|by apply raft_calls_nil|by left]].
  cbn. case_decide; [eexists _, _, []; split_and!; [done|by apply raft_calls_nil|by left]|].
  eexists _, _, [_]. split_and!; [done|by split_and!|by right].
Qed.

Lemma ForceBootstrap_calls id a n :
  ∃ r n', ForceBootstrap id a n = Some (r, n') ∧
    raft_calls (if leader (n_step n) then [] else [EBootstrap [mkServer id a]]) n n'.
Proof.
  unfold ForceBootstrap, IsLeader, ask, mthen. cbn.
  destruct (leader _); eexists _, _; (split; [done|]); [by apply raft_calls_nil|by split_and!].
Qed.

Lemma WaitForLeader_calls ch n : ∃ r n', WaitForLeader ch n = Some (r, n') ∧ raft_calls [] n n'.
Proof.
  unfold WaitForLeader, GetLeader, ask, mthen. cbn.
  case_decide; [|eexists _, _; split; [done|by apply raft_calls_nil]].
  destruct (ch _); [eexists _, _; split; [done|by apply raft_calls_nil]|]. cbn.
  case_decide; (eexists _, _; split; [done|by apply raft_calls_nil]).
Qed.

(** The loop over the peers adds some of them, in order. *)
Lemma add_discovered_calls peers n :
  ∃ n' added, for_each add_discovered peers n = Some (tt, n') ∧ added `sublist_of` peers ∧
    raft_calls ((λ a, EAddVoter (derivePeerID a) a) <$> added) n n'.
Proof.
  destruct (for_each_ind (λ l n1, ∃ added, added `sublist_of` l ∧
      raft_calls ((λ a, EAddVoter (derivePeerID a) a) <$> added) n n1) add_discovered peers n)
    as (n' & E & added & Hs & Hr).
  - exists []. split; [done|by apply raft_calls_nil].
  - intros l1 a l2 n1 _ (added & Hs & Hr).
    destruct (AddPeer_calls (derivePeerID a) a n1) as (r & n2 & tr & E & Hr2 & Hm).
    exists n2. unfold add_discovered, mthen. rewrite E. split; [done|].
    pose proof (raft_calls_trans _ _ _ _ _ Hr Hr2) as Hr3. destruct Hm as [-> | ->].
    + exists added. rewrite app_nil_r in Hr3. split; [by apply sublist_inserts_r|done].
    + exists (added ++ [a]). rewrite fmap_app. split; [by apply sublist_app|done].
  - by exists n', added.
Qed.

(** What the tracker waits for. After any sequence of addresses that
    discovery connects, the wait is over exactly when [bootstrap-expect]
    different addresses other than the node's own were among them. A cluster
    of that many nodes has one address less to offer, so in it the wait only
    ends with its timeout. Nothing but additions of peers reached Raft. *)
Theorem bootstrap_expect_waits_for_one_more expect self addrs n :
  0 < expect →
  ∃ pt n' tr, for_acc (Connect self) addrs (Some (newPeerTracker expect)) n = Some (Some pt, n') ∧
    raft_calls tr n n' ∧ Forall (λ e, ∃ a, a ∈ addrs ∧ e = EAddVoter (derivePeerID a) a) tr ∧
    (pt_closed pt = true ↔ expect <= Z.of_nat (size (list_to_set addrs ∖ {[self]} : gset string))) ∧
    (∀ cluster : gset string, Z.of_nat (size cluster) = expect → self ∈ cluster →
       list_to_set addrs ⊆ cluster → pt_wait false pt = None ∧ pt_wait true pt = Some (pt_list pt)).
Proof.
  intros He.
  destruct (for_acc_ind (λ l acc n1, ∃ pt tr, acc = Some pt ∧ raft_calls tr n n1 ∧
      Forall (λ e, ∃ a, a ∈ l ∧ e = EAddVoter (derivePeerID a) a) tr ∧
      tracker_fed expect (list_to_set l ∖ {[self]}) pt)
    (Connect self) addrs (Some (newPeerTracker expect)) n) as (acc & n' & E & pt & tr & -> & Hr & Htr & Hfed).
  - exists (newPeerTracker expect), []. split_and!; [done| |done|].
    { unfold raft_calls. by rewrite app_nil_r. }
    replace (list_to_set [] ∖ {[self]} : gset string) with (∅ : gset string) by set_solver. by apply tracker_fed_new.
  - intros l1 a l2 acc n1 -> (pt & tr & -> & Hr & Htr & Hfed).
    assert (Forall (λ e, ∃ x, x ∈ l1 ++ [a] ∧ e = EAddVoter (derivePeerID x) x) tr) as Htr'.
    { eapply Forall_impl; [exact Htr|]. intros e (x & Hx & ->). exists x. set_solver. }
    unfold Connect. case_decide as Ha.
    + eexists _, _. split; [done|]. exists pt, tr. split_and!; [done..|].
      by replace (list_to_set (l1 ++ [a]) ∖ {[self]} : gset string) with
        (list_to_set l1 ∖ {[self]} : gset string) by set_solver.
    + destruct (AddPeer_calls (derivePeerID a) a n1) as (r & n2 & tr2 & E & Hr2 & Hm).
      unfold mthen. rewrite E. eexists _, _. split; [done|]. exists (pt_add a pt), (tr ++ tr2).
      split_and!; [done|by eapply raft_calls_trans| |].
      * apply Forall_app. split; [done|]. destruct Hm as [-> | ->]; [done|].
        apply Forall_singleton. exists a. set_solver.
      * replace (list_to_set (l1 ++ [a]) ∖ {[self]} : gset string) with
          ({[a]} ∪ (list_to_set l1 ∖ {[self]}) : gset string) by set_solver.
        by apply tracker_fed_add.
  - exists pt, n', tr. destruct Hfed as [Ht Hc Ho]. split_and!; [done..|].
    intros cluster Hsz Hself Hsub. unfold pt_wait.
    assert (size (list_to_set addrs ∖ {[self]} : gset string) < size cluster)%nat as Hlt.
    { apply subset_size. split; [set_solver|]. intros Hx. specialize (Hx self Hself). set_solver. }
    destruct (pt_closed pt); [|done]. assert (expect <= Z.of_nat (size (list_to_set addrs ∖ {[self]} : gset string)))
      by tauto. lia.
Qed.

Lemma waitForBootstrap_calls ch nodeID localAddr pt done_ n :
  pt_closed pt = true ∨ done_ = true →
  ∃ n' tr, waitForBootstrap ch nodeID localAddr (Some pt) done_ n = Some (None, n') ∧
    raft_calls tr n n' ∧
    (isBootstrapInitiator nodeID (pt_list pt) = false → tr = []) ∧
    (isBootstrapInitiator nodeID (pt_list pt) = true →
     ∃ added, added `sublist_of` pt_list pt ∧
       tr = (if leader (n_step n) then [] else [EBootstrap [mkServer nodeID localAddr]]) ++
            ((λ a, EAddVoter (derivePeerID a) a) <$> added)).
Proof.
  intros Hd. unfold waitForBootstrap, pt_wait.
  replace (pt_closed pt || done_) with true by (by destruct Hd as [-> | ->]; rewrite ?orb_true_r).
  unfold form_cluster. destruct (isBootstrapInitiator nodeID (pt_list pt)).
  - destruct (ForceBootstrap_calls nodeID localAddr n) as (r1 & n1 & E1 & K1).
    destruct (WaitForLeader_calls ch n1) as (r2 & n2 & E2 & K2).
    pose proof (raft_calls_trans _ _ _ _ _ K1 K2) as K12. rewrite app_nil_r in K12.
    unfold mthen. rewrite E1, E2. unfold IsLeader, ask. cbn.
    set (n3 := mkNode _ _ _ _ _). assert (raft_calls [] n2 n3) as K3 by (by apply raft_calls_nil).
    pose proof (raft_calls_trans _ _ _ _ _ K12 K3) as K13. rewrite app_nil_r in K13.
    destruct (leader (n_step n2)).
    + destruct (add_discovered_calls (pt_list pt) n3) as (n4 & added & E4 & Hs & K4). unfold mthen. rewrite E4.
      eexists _, _. split_and!; [done|exact (raft_calls_trans _ _ _ _ _ K13 K4)|done|].
      intros _. by exists added.
    + eexists _, _. split_and!; [done|exact K13|done|]. intros _. exists []. split; [apply sublist_nil_l|].
      by rewrite app_nil_r.
  - destruct (WaitForLeader_calls ch n) as (r & n1 & E & Hr). unfold mthen. rewrite E.
    exists n1, []. by split_and!.
Qed.

(** What the wait leads to. When it is over, [waitForBootstrap] returns
    without an error and without touching jobs or queue. A node with a peer
    of a smaller id asks Raft for nothing. Any other node, unless it leads
    already, bootstraps itself and only itself; then, if it leads, it adds
    discovered peers, each under its derived id and in the order of the
    list. *)
Theorem wait_for_bootstrap ch nodeID localAddr pt done_ n :
  pt_closed pt = true ∨ done_ = true →
  ∃ n' tr, waitForBootstrap ch nodeID localAddr (Some pt) done_ n = Some (None, n') ∧
    raft_calls tr n n' ∧
    (isBootstrapInitiator nodeID (pt_list pt) = false → tr = []) ∧
    (isBootstrapInitiator nodeID (pt_list pt) = true →
     ∃ added, added `sublist_of` pt_list pt ∧
       tr = (if leader (n_step n) then [] else [EBootstrap [mkServer nodeID localAddr]]) ++
            ((λ a, EAddVoter (derivePeerID a) a) <$> added)).
Proof. apply waitForBootstrap_calls. Qed.

End flow.

(** ** Concrete clusters *)

Definition ex_tracker : peerTracker := pt_add "db-1.svc:7000" (pt_add "db-2.svc:7000" (newPeerTracker 2)).

Lemma bootstrap_expect_waits_for_one_more_witness :
  ∃ pt n', for_acc (@Connect MemBolt unit (ex_env 200) "db-0.svc:7000")
      ["db-1.svc:7000"; "db-0.svc:7000"; "db-2.svc:7000"; "db-1.svc:7000"] (Some (newPeerTracker 3)) (ex_node_of NewFSM)
      = Some (Some pt, n') ∧ @pt_wait sorted_range false pt = None.
Proof.
  destruct (@bootstrap_expect_waits_for_one_more MemBolt unit sorted_range (ex_env 200) 3 "db-0.svc:7000"
    ["db-1.svc:7000"; "db-0.svc:7000"; "db-2.svc:7000"; "db-1.svc:7000"] (ex_node_of NewFSM))
    as (pt & n' & tr & E & _ & _ & _ & Hw); [lia|].
  exists pt, n'. split; [exact E|].
  apply (Hw (list_to_set ["db-0.svc:7000"; "db-1.svc:7000"; "db-2.svc:7000"])).
  - reflexivity.
  - set_solver.
  - set_solver.
Defined.

Lemma wait_for_bootstrap_witness :
  ∃ n', @waitForBootstrap MemBolt unit sorted_range (ex_env 200) ex_cluster (λ _, true) "db-0" "db-0.svc:7000"
    (Some ex_tracker) false (ex_node_of NewFSM) = Some (None, n').
Proof.
  destruct (@wait_for_bootstrap MemBolt unit sorted_range (ex_env 200) ex_cluster (λ _, true) "db-0"
    "db-0.svc:7000" ex_tracker false (ex_node_of NewFSM)) as (n' & tr & E & _); [left; reflexivity|].
  exists n'. exact E.
Defined.

(** ** The names of the pods *)

Lemma provider_service `{PkgCluster} t :
  ap_serviceName (address_provider [t]) =
  if names_pods t then StringConfigFromMap (topo_Config t) "service_name" "scheduled-db" else "scheduled-db".
Proof. unfold address_provider. simpl. by destruct (names_pods t). Qed.

(** The service behind the names of pods. Of the strategies that
    [buildTopology] knows only [kubernetes] stores the service under the key
    [NewApp] reads; whatever service the others are given, pods are looked up
    in the service [scheduled-db]. The hypotheses say what
    [StringConfigFromMap] returns for a missing key and for a string. *)
Theorem service_only_for_kubernetes `{PkgCluster} getenv strategy nodeID peers ns service t :
  (∀ m k d, m !! k = None → StringConfigFromMap m k d = d) →
  (∀ m k s d, m !! k = Some (JStr s) → StringConfigFromMap m k d = s) →
  buildTopology getenv strategy nodeID peers ns service = inl t →
  ap_serviceName (address_provider [t]) = if decide (strategy = "kubernetes") then service else "scheduled-db".
Proof.
  intros Hn Hs. rewrite provider_service. unfold buildTopology.
  destruct (decide (strategy = "kubernetes")) as [->|Hk].
  - intros [= <-]. by apply Hs.
  - repeat case_decide; intros [= <-]; try done; by apply Hn.
Qed.

(** The library as its names suggest. *)
Definition ex_pkg : PkgCluster := {|
  StatefulSetDNSName id service ns domain port :=
    id +:+ "." +:+ service +:+ "." +:+ ns +:+ ".svc." +:+ domain +:+ ":" +:+ pretty port;
  StringConfigFromMap m k d := match m !! k with Some (JStr s) => s | _ => d end |}.

Lemma service_only_for_kubernetes_witness :
  ∃ t, buildTopology (λ _, "") "kubernetes_dns" "scheduled-db-0" [] "prod" "jobs" = inl t ∧
    ap_serviceName (@address_provider ex_pkg [t]) = "scheduled-db".
Proof.
  eexists. split; [reflexivity|].
  refine (@service_only_for_kubernetes ex_pkg (λ _, "") "kubernetes_dns" "scheduled-db-0" [] "prod" "jobs" _ _ _ _).
  - intros m k d E. cbn. by rewrite E.
  - intros m k s d E. cbn. by rewrite E.
  - reflexivity.
Defined.
