(* ===== verification/Api.v ===== *)
(** * The HTTP handlers: [job_handlers.go] and [cluster_handlers.go]

    Every handler in full, from the leader check to the response, over the
    store, the status tracker, the limits and the execution manager. [Metered]
    has them with the metrics they record, [Router] what surrounds them. The
    members of a Go map are encoded in the order of their keys. *)

From S2P Require Import Prelude GoStrings GoFloat Json Sanitize GoTime Types Codec Request ColdStore.
From S2P Require Import FSM Store StoreProps StatusTracker Limits TimingWheel SlotQueue.
From S2P Require Import ExecutionManager Worker Gateway.

(** [http.StatusXxx] *)
Definition StatusOK : Z := 200.
Definition StatusNoContent : Z := 204.
Definition StatusBadRequest : Z := 400.
Definition StatusForbidden : Z := 403.
Definition StatusNotFound : Z := 404.
Definition StatusInternalServerError : Z := 500.
Definition StatusServiceUnavailable : Z := 503.

Definition ok_json (j : json) : Response := mkResponse StatusOK [content_json] (encode j).

Definition id_required : Response := writeError StatusBadRequest "Job ID is required".

Definition job_not_found : Response := writeError StatusNotFound "Job not found".

Definition internal (message : string) : Response := writeError StatusInternalServerError message.

(** The answer to a job that does not fit. *)
Definition capacity_response (e : CapacityError) : Response :=
  mkResponse (CapacityError_HTTPStatus e) [content_json]
    (encode (JObj [("current", JNum (pretty (ce_Current e)));
                   ("error", JStr (CapacityError_Error e));
                   ("limit", JNum (pretty (ce_Limit e)));
                   ("requested", JNum (pretty (ce_Requested e)));
                   ("type", JStr (ce_Type e))])).

(** [Decode] into the struct with the one member [reason]; an error leaves it
    empty. *)
Definition cancel_reason (body : option json) : string :=
  default "" (j ← body; l ← members j; read_str "reason" l).

Definition dec_JoinRequest (j : json) : option (string * string) :=
  l ← members j;
  id ← read_str "node_id" l;
  addr ← read_str "address" l;
  Some (id, addr).

Definition validStatuses : list string :=
  [StatusPending; StatusInProgress; StatusCompleted; StatusFailed; StatusCancelled; StatusTimeout].

Section Api.

Context {CS : Type} `{ColdSlotStore CS} `{GoRange} `{Env} `{Cluster} `{Cron}.

Local Open Scope go_scope.

Notation P := (M (Node CS Queue)).

(** [if !h.store.IsLeader() { h.proxyToLeader(w, r); return }] *)
Definition on_leader (getenv : Getenv) (h : Handlers) (r : Request) (k : P Response) : P Response :=
  l <- IsLeader ;; if (l : bool) then k else proxyToLeader getenv h r.

(** ** job_handlers.go *)

(** From the capacity check to the response. *)
Definition admit_job (h : Handlers) (job : Job) : P Response :=
  full <- (match h_limitManager h with Some lm => CheckCapacity lm job | None => mreturn None end) ;;
  match full with
  | Some e => mreturn (capacity_response e)
  | None =>
      e <- CreateJob handler job ;;
      match e with
      | Some _ => mreturn (internal "Failed to create job")
      | None =>
          _ <- (match h_limitManager h with Some lm => RecordJobAdded lm job | None => mreturn None end) ;;
          mreturn (ok_json (enc_Job job))
      end
  end.

Definition API_CreateJob (getenv : Getenv) (h : Handlers) (uuid : string) (r : Request) : P Response :=
  on_leader getenv h r (
    match rq_Body r ≫= dec_CreateJobRequest with
    | None => mreturn (writeError StatusBadRequest "Invalid request body")
    | Some req =>
        now <- Now ;;
        match ToJob now uuid req with
        | inr e =>
            mreturn (writeError StatusBadRequest (safeErrorMessage "Invalid job data" (Some e) true))
        | inl job =>
            now <- Now ;;
            match Job_Validate now job with
            | Some e =>
                mreturn (writeError StatusBadRequest
                           (safeErrorMessage "Job validation failed" (Some e) true))
            | None => admit_job h job
            end
        end
    end).

Definition API_GetJob (r : Request) : P Response :=
  if decide (rq_id r = "") then mreturn id_required
  else
    job <- GetJob (rq_id r) ;;
    mreturn (match job with Some job => ok_json (enc_Job job) | None => job_not_found end).

Definition API_DeleteJob (getenv : Getenv) (h : Handlers) (r : Request) : P Response :=
  on_leader getenv h r (
    if decide (rq_id r = "") then mreturn id_required
    else
      job <- GetJob (rq_id r) ;;
      match job with
      | None => mreturn job_not_found
      | Some job =>
          e <- DeleteJob handler (rq_id r) ;;
          match e with
          | Some _ => mreturn (internal "Failed to delete job")
          | None =>
              _ <- (match h_limitManager h with
                    | Some lm => RecordJobRemoved lm job
                    | None => mreturn None
                    end) ;;
              mreturn (mkResponse StatusNoContent [] BEmpty)
          end
      end).

Definition API_GetJobStatus (r : Request) : P Response :=
  if decide (rq_id r = "") then mreturn id_required
  else
    job <- GetJob (rq_id r) ;;
    match job with
    | None => mreturn job_not_found
    | Some _ =>
        state <- GetStatus (rq_id r) ;;
        match state with
        | inl state => mreturn (ok_json (enc_State state))
        | inr _ =>
            now <- Now ;;
            mreturn (ok_json (enc_State (pending_state (rq_id r) now)))
        end
    end.

Definition API_GetJobExecutions (r : Request) : P Response :=
  if decide (rq_id r = "") then mreturn id_required
  else
    job <- GetJob (rq_id r) ;;
    match job with
    | None => mreturn job_not_found
    | Some _ =>
        attempts <- GetExecutionHistory (rq_id r) ;;
        let attempts := match attempts with inl l => l | inr _ => [] end in
        mreturn (ok_json (JObj [("attempts", JArr (enc_Attempt <$> attempts));
                                ("job_id", JStr (rq_id r))]))
    end.

(** The tracker of the handler, which reports no status changes. *)
Definition api_MarkCancelled (jobID reason : string) : P (option error) :=
  @MarkCancelled (Node CS Queue) node_StatusStore api_TrackerRuntime jobID reason.

Definition API_CancelJob (getenv : Getenv) (h : Handlers) (r : Request) : P Response :=
  on_leader getenv h r (
    if decide (rq_id r = "") then mreturn id_required
    else
      job <- GetJob (rq_id r) ;;
      match job with
      | None => mreturn job_not_found
      | Some _ =>
          let reason := cancel_reason (rq_Body r) in
          state <- GetStatus (rq_id r) ;;
          let wasInProgress :=
            match state with inl s => bool_decide (es_Status s = StatusInProgress) | inr _ => false end in
          (if wasInProgress && h_executionManager h
           then (_ <- CancelJob (rq_id r) ;; mreturn tt) else mreturn tt) ;;
          e <- api_MarkCancelled (rq_id r) reason ;;
          match e with
          | Some _ => mreturn (internal "Failed to cancel job")
          | None =>
              state <- GetStatus (rq_id r) ;;
              match state with
              | inr _ => mreturn (internal "Failed to get job status")
              | inl s =>
                  mreturn (ok_json (JObj (
                    [("cancelled_at", JNum (pretty (es_CancelledAt s))); ("job_id", JStr (rq_id r))] ++
                    (if wasInProgress
                     then [("message", JStr "Job was in progress, cancellation attempted")] else []) ++
                    [("status", JStr (es_Status s))])))
              end
          end
      end).

Definition API_ListJobsByStatus (r : Request) : P Response :=
  if decide (rq_statusParam r = "") then
    mreturn (writeError StatusBadRequest "status query parameter is required")
  else if decide (rq_statusParam r ∈ validStatuses) then
    states <- ListByStatus (rq_statusParam r) ;;
    mreturn (ok_json (JObj [("jobs", JArr (enc_State <$> states));
                            ("total", JNum (pretty (Z.of_nat (length states))))]))
  else mreturn (writeError StatusBadRequest "invalid status parameter").

(** ** cluster_handlers.go *)

Definition Ready : P Response :=
  leader <- GetLeader ;;
  ready <- (if decide (leader = "") then IsLeader else mreturn true) ;;
  if (ready : bool) then mreturn (ok_json (JObj [("status", JStr "ready")]))
  else
    mreturn (mkResponse StatusServiceUnavailable []
      (encode (JObj [("reason", JStr "no leader"); ("status", JStr "not ready")]))).

(** What memory says of the status. *)
Definition memory_status (m : MemoryUsage) : string :=
  if f_ltb (f_of_Z 90) (mu_Utilization m) then "degraded" else "ok".

(** The literal [0.5]. *)
Definition f_05 : float64 := f_div (f_of_Z 1) (f_of_Z 2).

(** What the failure rate makes of it. *)
Definition failure_status (threshold : float64) (st : ExecutionStats) (status : string) : string :=
  let finishedJobs := stat_Completed st + stat_Failed st + stat_Timeout st in
  if bool_decide (finishedJobs >= 10) && f_ltb threshold (stat_FailureRate st) then
    if decide (status = "ok") then "degraded"
    else if bool_decide (status = "degraded") && f_ltb f_05 (stat_FailureRate st) then "unhealthy"
    else status
  else status.

(** [Health] after the role is known. *)
Definition Health_rest (nodeID : string) (h : Handlers) (l : bool) (leader : string) : P Response :=
  cap <- (match h_limitManager h with
          | None => mreturn None
          | Some lm =>
              memUsage <- GetUsage (lm_memoryLimit lm) ;;
              jobCount <- GetJobCount ;;
              let available := i64 (lm_jobLimit lm - jobCount) in
              mreturn (Some (memUsage,
                mkJobStats jobCount (lm_jobLimit lm) (if decide (available < 0) then 0 else available)))
          end) ;;
  execStats <- GetExecutionStats ;;
  let status := match cap with Some (m, _) => memory_status m | None => "ok" end in
  let status := failure_status (h_healthFailureThreshold h) execStats status in
  mreturn (mkResponse (if decide (status = "unhealthy") then StatusServiceUnavailable else StatusOK)
    [content_json]
    (BHealth (mkHealth status (if l then "leader" else "follower") leader nodeID
                (fst <$> cap) (snd <$> cap) execStats))).

Definition Health (nodeID : string) (h : Handlers) : P Response :=
  l <- IsLeader ;;
  leader <- (if (l : bool) then mreturn "" else GetLeader) ;;
  Health_rest nodeID h l leader.

Definition ClusterDebug (nodeID : string) : P Response :=
  servers <- GetClusterConfiguration ;;
  let serverList : list (gmap string string) :=
    match servers with
    | inr _ => [{["error" := "Unable to retrieve cluster configuration"]}]
    | inl servers => (λ s, {["id" := srv_ID s; "address" := srv_Address s]}) <$> servers
    end in
  jobs <- GetAllJobs ;;
  l <- IsLeader ;;
  leader <- GetLeader ;;
  state <- ask raftState ;;
  mreturn (mkResponse StatusOK [content_json]
    (BDebug (mkDebug nodeID l leader state serverList (Z.of_nat (size jobs))))).

Definition JoinCluster (r : Request) : P Response :=
  l <- IsLeader ;;
  if (l : bool) then
    match rq_Body r ≫= dec_JoinRequest with
    | None => mreturn (writeError StatusBadRequest "Invalid request body")
    | Some (id, addr) =>
        if decide (id = "" ∨ addr = "") then
          mreturn (writeError StatusBadRequest "node_id and address are required")
        else
          e <- AddPeer id addr ;;
          match e with
          | Some _ => mreturn (internal "Failed to join cluster")
          | None =>
              mreturn (ok_json (JObj [("success", JBool true);
                ("message", JStr ("Node " +:+ id +:+ " successfully joined cluster"))]))
          end
    end
  else mreturn (writeError StatusForbidden "not leader, cannot accept join requests").

End Api.
