(* ===== verification/ApiProps.v ===== *)
(** * Properties of the HTTP handlers

    The handlers are run against a healthy node with the rules of
    [StoreProps.v] and [SlotQueueProps.v]; what they promise in every
    environment comes at the end. *)

From S2P Require Import Prelude GoStrings GoFloat Json Sanitize GoTime Types Codec Request ColdStore.
From S2P Require Import FSM Store StoreProps StatusTracker Limits TimingWheel WheelProps SlotQueue.
From S2P Require Import SlotQueueProps ExecutionManager Worker Gateway Api.

(** ** Decoded requests *)

Section decoded.

Lemma decoded_payload j req p :
  plain j → dec_CreateJobRequest j = Some req → req_Payload req = Some p →
  map_Forall (λ _ v, plain v) p.
Proof.
  intros Hj E Hp. unfold dec_CreateJobRequest in E. simplify_option_eq.
  destruct j as [| | | | |l|]; simplify_eq/=; by eapply read_map_plain.
Qed.

End decoded.

(** ** The parts of a request on a healthy node *)

Section healthy_api.

Context {CS : Type} `{ColdSlotStoreLaws CS} `{GoRange} `{Env} `{Cluster} `{Cron}.

Implicit Types (n : Node CS Queue) (f : FSM CS) (q : Queue) (c : gset string) (tr : list event).

(** The state machine with one more job. *)
Definition with_job (j : Job) f : FSM CS := (applyCommandInternal (cmd_create_job (job_norm j)) f).2.

Definition without_job (id : string) f : FSM CS :=
  (applyCommandInternal (cmd_with_id CommandDeleteJob id) f).2.

Lemma without_job_eq id f :
  id ≠ "" → without_job id f =
    set_executionStates (delete id (f_executionStates f)) (set_jobs (delete id (f_jobs f)) f).
Proof.
  intros Hid. unfold without_job, applyCommandInternal. simpl. unfold applyDeleteJob. simpl.
  by rewrite decide_False.
Qed.

Lemma without_job_slot id f k : FSM_GetSlot k (without_job id f) = FSM_GetSlot k f.
Proof.
  unfold without_job, applyCommandInternal. simpl. unfold applyDeleteJob. simpl. by case_decide.
Qed.

Lemma at_event_created job ts f q c tr n :
  healthy_env → queue_ok q → slots_ok f → job_time job = Some ts → in64 ts → node_at f q c tr n →
  let key := Z.quot ts (secs (q_slotGap q)) in
  returns (notify handler "created" (Some job)) n (λ _ n', ∃ q',
    node_at (put_slot (filed job key q f) f) q' c tr n' ∧ queue_ok q').
Proof.
  intros He Hq Hf Hj Hts Hn key. unfold notify, handler. apply returns_bind.
  eapply returns_mono; [by apply at_IsLeader|]. intros b n1 [-> Hn1]. unfold event_handler.
  apply returns_bind. eapply returns_mono; [by apply at_IsLeader|]. intros b n2 [-> Hn2].
  eapply returns_mono; [exact (at_AddJob job ts f q c tr n2 He Hq Hf Hj Hts Hn2)|].
  intros [] n3 (w & Hn3 & Hw & _ & Hg). eexists. split; [exact Hn3|].
  by apply (queue_ok_wheel (set_jobToSlot _ _)); [apply queue_ok_jobs|..].
Qed.

Lemma command_ok_job j : job_ints_ok j → command_ok (cmd_create_job j).
Proof.
  intros Hj. unfold command_ok. cbn.
  split_and!; [by intros ? [= <-]|by intros ? [=]|by intros ? [=]|by intros ? [=]|constructor|
    unfold in64, two63; lia..].
Qed.

(** Creating a job through the store, with the queue listening. *)
Lemma at_CreateJob job ts f q c tr n :
  healthy_env → queue_ok q → slots_ok f → job_ints_ok job → plain (enc_Job job) →
  job_time job = Some ts → in64 ts → node_at f q c tr n →
  let key := Z.quot ts (secs (q_slotGap q)) in
  returns (CreateJob handler job) n (λ e n', e = None ∧ ∃ q',
    node_at (put_slot (filed job key q (with_job job f)) (with_job job f)) q' c tr n' ∧ queue_ok q').
Proof.
  intros He Hq Hf Hi Hp Hj Hts Hn key. eapply at_if_leader; [done..|]. intros n1 Hn1.
  apply returns_bind. eapply returns_mono;
    [apply (at_send (cmd_create_job job)); [done|exact Hn1|by apply command_ok_job|by intros ? [= <-]]|].
  intros e n2 [-> Hn2]. apply returns_bind.
  eapply returns_mono; [apply (at_event_created job ts (with_job job f) q c tr n2)|]; try done.
  intros [] n3 (q' & Hn3 & Hq'). apply returns_ret. split; [done|]. by exists q'.
Qed.

Lemma at_UpdateMemoryUsage d f q c tr n :
  healthy_env → in64 d → node_at f q c tr n →
  returns (UpdateMemoryUsage d) n (λ e n', e = None ∧
    node_at (set_memoryUsage (clamp_add (f_memoryUsage f) d) f) q c tr n').
Proof.
  intros He Hd Hn. eapply at_if_leader; [done..|]. intros n1 Hn1.
  apply (at_send (cmd_memory d)); [done|exact Hn1| |by intros ? [=]]. unfold command_ok. cbn.
  split_and!; [by intros ? [=]|by intros ? [=]|by intros ? [=]|by intros ? [=]|constructor|done|].
  unfold in64, two63. lia.
Qed.

Lemma at_UpdateJobCount d f q c tr n :
  healthy_env → in64 d → node_at f q c tr n →
  returns (UpdateJobCount d) n (λ e n', e = None ∧
    node_at (set_jobCount (clamp_add (f_jobCount f) d) f) q c tr n').
Proof.
  intros He Hd Hn. eapply at_if_leader; [done..|]. intros n1 Hn1.
  apply (at_send (cmd_job_count d)); [done|exact Hn1| |by intros ? [=]]. unfold command_ok. cbn.
  split_and!; [by intros ? [=]|by intros ? [=]|by intros ? [=]|by intros ? [=]|constructor| |done].
  unfold in64, two63. lia.
Qed.

(** The state machine with counters moved. *)
Definition counted (dm dc : Z) f : FSM CS :=
  set_jobCount (clamp_add (f_jobCount f) dc) (set_memoryUsage (clamp_add (f_memoryUsage f) dm) f).

Lemma CalculateSize_in64 sc j : in64 (CalculateSize sc j).
Proof. rewrite CalculateSize_wrap. apply i64_in64. Qed.

Lemma at_RecordJobAdded lm j f q c tr n :
  healthy_env → node_at f q c tr n →
  returns (RecordJobAdded lm j) n (λ e n', e = None ∧
    node_at (counted (CalculateSize (lm_sizeCalculator lm) j) 1 f) q c tr n').
Proof.
  intros He Hn. apply returns_bind.
  eapply returns_mono; [apply at_UpdateMemoryUsage; [done|apply CalculateSize_in64|exact Hn]|].
  intros e n1 [-> Hn1]. apply returns_bind.
  eapply returns_mono; [apply at_UpdateJobCount; [done|unfold in64, two63; lia|exact Hn1]|].
  intros e n2 [-> Hn2]. by apply returns_ret.
Qed.

Lemma at_RecordJobRemoved lm j f q c tr n :
  healthy_env → node_at f q c tr n →
  returns (RecordJobRemoved lm j) n (λ e n', e = None ∧
    node_at (counted (i64 (- CalculateSize (lm_sizeCalculator lm) j)) (-1) f) q c tr n').
Proof.
  intros He Hn. apply returns_bind.
  eapply returns_mono; [apply at_UpdateMemoryUsage; [done|apply i64_in64|exact Hn]|].
  intros e n1 [-> Hn1].
  eapply returns_mono; [apply at_UpdateJobCount; [done|unfold in64, two63; lia|exact Hn1]|].
  by intros e n2 [-> Hn2].
Qed.

(** A valid job has a time to be filed under. *)
Lemma valid_job_time now job :
  job_valid now job → job_ints_ok job → ∃ ts, job_time job = Some ts ∧ in64 ts.
Proof.
  intros [_ [(Ht & ts & Hts & _)|(Ht & _)]] (Hi & _ & Hc); unfold job_time; rewrite Ht.
  - rewrite Hts. exists ts. split; [by rewrite decide_True|by apply Hi].
  - exists (job_CreatedAt job). split; [|done].
    destruct (job_Timestamp job); [rewrite decide_False by done|]; by rewrite decide_True.
Qed.

Lemma at_on_leader getenv h r k f q c tr n R :
  healthy_env → node_at f q c tr n → (∀ n', node_at f q c tr n' → returns k n' R) →
  returns (on_leader getenv h r k) n R.
Proof.
  intros He Hn Hk. unfold on_leader. apply returns_bind.
  eapply returns_mono; [by apply at_IsLeader|]. intros b n' [-> Hn']. by apply Hk.
Qed.

End healthy_api.

(** ** Creating and deleting over HTTP *)

Section api_theorems.

Context {CS : Type} `{ColdSlotStoreLaws CS} `{GoRange} `{Env} `{Cluster} `{Cron}.

Implicit Types (n : Node CS Queue) (f : FSM CS) (q : Queue) (c : gset string) (tr : list event).

(** What the answer 200 to a creation stands for. *)
Definition created (lm : LimitManager) n (resp : Response) n' : Prop :=
  ∃ job, rs_body resp = BJson (enc_Job job) ∧
    FSM_GetJob (job_ID job) (n_fsm n') = Some (job_norm job) ∧
    FSM_GetExecutionState (job_ID job) (n_fsm n') = Some (pending_state (job_ID job) (job_CreatedAt job)) ∧
    (∀ id, id ≠ job_ID job → f_jobs (n_fsm n') !! id = f_jobs (n_fsm n) !! id) ∧
    (∃ k d, FSM_GetSlot k (n_fsm n') = Some d ∧ job_ID job ∈ slot_JobIDs d) ∧
    usage n' = (f_memoryUsage (n_fsm n) + job_size (lm_sizeCalculator lm) job,
                f_jobCount (n_fsm n) + 1) ∧
    (usage n').1 <= lm_memoryLimit lm ∧ (usage n').2 <= lm_jobLimit lm.

(** What 507 stands for. *)
Definition full (lm : LimitManager) n (job : Job) : Prop :=
  lm_memoryLimit lm < f_memoryUsage (n_fsm n) + job_size (lm_sizeCalculator lm) job ∨
  lm_jobLimit lm <= f_jobCount (n_fsm n).

Lemma CheckCapacity_pure lm job n e n' : CheckCapacity lm job n = Some (e, n') → n' = n.
Proof.
  unfold CheckCapacity, MemoryTracker_CheckCapacity, JobCounter_CheckCapacity, GetUsage,
    GetMemoryUsage, GetJobCount, gets, mthen, mreturn.
  case_decide; by intros [= _ <-].
Qed.

(** [CheckCapacity] on a node whose sums do not overflow. *)
Lemma CheckCapacity_cases lm job n :
  fsm_inv (n_fsm n) → 0 <= baseOverhead (lm_sizeCalculator lm) →
  f_memoryUsage (n_fsm n) + job_size (lm_sizeCalculator lm) job < two63 →
  (∃ e, CheckCapacity lm job n = Some (Some e, n) ∧ full lm n job) ∨
  (CheckCapacity lm job n = Some (None, n) ∧
   f_memoryUsage (n_fsm n) + job_size (lm_sizeCalculator lm) job <= lm_memoryLimit lm ∧
   f_jobCount (n_fsm n) < lm_jobLimit lm).
Proof.
  intros [_ _ _ Hm Hc] Hb Hsum.
  destruct (CalculateSize_sum (lm_sizeCalculator lm) job Hb) as [Hsize Hpos]; [lia|].
  unfold CheckCapacity, MemoryTracker_CheckCapacity, JobCounter_CheckCapacity, GetUsage,
    GetMemoryUsage, GetJobCount, gets, mthen, mreturn, full. cbn [mu_CurrentBytes mu_LimitBytes].
  unfold FSM_GetMemoryUsage, FSM_GetJobCount. rewrite Hsize.
  rewrite i64_id by (unfold in64, two63 in *; lia).
  case_decide; [left; eexists; split; [done|lia]|]. case_decide; [left; eexists; split; [done|lia]|].
  right. split; [done|lia].
Qed.

Lemma at_admit_job h lm job n now :
  healthy_env → queue_ok (n_queue n) → slots_ok (n_fsm n) → fsm_inv (n_fsm n) →
  h_limitManager h = Some lm → 0 <= baseOverhead (lm_sizeCalculator lm) → in64 (lm_jobLimit lm) →
  f_memoryUsage (n_fsm n) + job_size (lm_sizeCalculator lm) job < two63 →
  job_valid now job → job_ints_ok job → plain (enc_Job job) →
  returns (admit_job h job) n (λ resp n',
    (rs_status resp = 200 ∧ created lm n resp n' ∧ queue_ok (n_queue n')) ∨
    (rs_status resp = 507 ∧ full lm n job ∧ n_fsm n' = n_fsm n ∧ n_queue n' = n_queue n)).
Proof.
  intros He Hq Hf Hi Hlm Hb Hjl Hsum Hv Hints Hp. unfold admit_job. rewrite Hlm. apply returns_bind.
  destruct (CheckCapacity_cases lm job n Hi Hb Hsum) as [(e & E & Hfull)|(E & Hm & Hcnt)].
  { eexists _, _. split; [exact E|]. apply returns_ret. by right. }
  eexists _, _. split; [exact E|]. apply returns_bind.
  destruct (valid_job_time _ _ Hv Hints) as (ts & Hts & Hts64).
  eapply returns_mono; [exact (at_CreateJob job ts _ _ _ _ _ He Hq Hf Hints Hp Hts Hts64 (at_node n))|].
  intros err n1 (-> & q1 & Hn1 & Hq1). apply returns_bind.
  eapply returns_mono; [exact (at_RecordJobAdded lm job _ _ _ _ _ He Hn1)|].
  intros err n2 (-> & [i ->]). apply returns_ret. left. split; [done|]. split; [|done].
  set (key := Z.quot ts _). set (f1 := with_job job (n_fsm n)).
  destruct (CalculateSize_sum (lm_sizeCalculator lm) job Hb) as [Hsize Hpos];
    [destruct Hi as [_ _ _ ? _]; lia|].
  destruct Hi as [_ _ _ Hm0 Hc0].
  assert (in64 key) as Hkey by (apply quot_in64; [done|apply Hq]).
  destruct (filed_ok job key (n_queue n) f1 Hf Hkey) as [Hfk _].
  exists job. unfold ok_json, encode. rewrite Marshal_plain by done. simpl. split_and!; try done.
  - unfold FSM_GetJob. simpl. rewrite lookup_insert_eq. simpl. by rewrite Job_Clone_id.
  - unfold FSM_GetExecutionState. simpl. by rewrite lookup_insert_eq.
  - intros id Hid. by rewrite lookup_insert_ne.
  - exists key, (filed job key (n_queue n) f1). split; [by apply (get_put_slot key)|].
    rewrite filed_ids. set_solver.
  - unfold usage, counted. simpl. rewrite Hsize, !clamp_add_exact; [done|unfold in64 in *; lia..].
  - rewrite Hsize, clamp_add_exact; lia.
  - unfold in64 in *. rewrite clamp_add_exact; lia.
Qed.

(** C9: creating a job over HTTP. On a healthy leader with limits set, every
    request is answered, and in one of three ways. 200: the job of the answer
    can be read back with a pending status, it is listed in a slot, no other
    job changed, memory and count went up by exactly its size and one, and
    both are within the limits. 400 for a request that is not a valid job,
    507 for a job that does not fit; then nothing has changed. *)
Theorem api_create_job getenv h lm uuid r n :
  healthy_env → queue_ok (n_queue n) → slots_ok (n_fsm n) → fsm_inv (n_fsm n) →
  h_limitManager h = Some lm → 0 <= baseOverhead (lm_sizeCalculator lm) → in64 (lm_jobLimit lm) →
  uuid ≠ "" → (∀ j, rq_Body r = Some j → plain j) →
  (∀ req t job, rq_Body r ≫= dec_CreateJobRequest = Some req → ToJob t uuid req = inl job →
     f_memoryUsage (n_fsm n) + job_size (lm_sizeCalculator lm) job < two63) →
  ∃ resp n', API_CreateJob getenv h uuid r n = Some (resp, n') ∧
    ((rs_status resp = 200 ∧ created lm n resp n' ∧ queue_ok (n_queue n')) ∨
     ((rs_status resp = 400 ∨ rs_status resp = 507 ∧ ∃ job, full lm n job) ∧
      n_fsm n' = n_fsm n ∧ n_queue n' = n_queue n)).
Proof.
  intros He Hq Hf Hi Hlm Hb Hjl Hu Hbody Hsum.
  assert (∀ m n0, node_at (n_fsm n) (n_queue n) (n_cancelFuncs n) (n_trace n) n0 →
    returns (mreturn (writeError StatusBadRequest m)) n0 (λ resp n',
      (rs_status resp = 200 ∧ created lm n resp n' ∧ queue_ok (n_queue n')) ∨
      ((rs_status resp = 400 ∨ rs_status resp = 507 ∧ ∃ job, full lm n job) ∧
       n_fsm n' = n_fsm n ∧ n_queue n' = n_queue n))) as Hbad.
  { intros m n0 [i ->]. apply returns_ret. right. split; [by left|done]. }
  eapply at_on_leader; [done|apply at_node|]. intros n1 Hn1.
  destruct (rq_Body r ≫= dec_CreateJobRequest) as [req|] eqn:Ereq; [|by apply Hbad].
  apply returns_bind. eapply returns_mono; [by apply at_Now; [apply He|]|]. intros t1 n2 [Ht1 Hn2].
  destruct (ToJob t1 uuid req) as [job|e] eqn:Ejob; [|by apply Hbad].
  apply returns_bind. eapply returns_mono; [by apply at_Now; [apply He|]|]. intros t2 n3 [_ Hn3].
  destruct (Job_Validate t2 job) eqn:Ev; [by apply Hbad|]. apply Job_Validate_spec in Ev.
  destruct (ToJob_inl _ _ _ _ Ejob Ht1 Hu) as (_ & Hints & Hpay & _).
  assert (plain (enc_Job job)) as Hp.
  { destruct (rq_Body r) as [j|] eqn:Eb; [|done]. simpl in Ereq. apply plain_Job. intros p Hp.
    rewrite Hpay in Hp. eapply decoded_payload; [by apply Hbody|done|done]. }
  destruct Hn3 as [i ->]. eapply returns_mono; [eapply (at_admit_job h lm job); try done|].
  - simpl. by eapply Hsum.
  - intros resp n' [(? & ? & ?)|(? & ? & ? & ?)]; [by left|]. right. split; [|done]. right.
    split; [done|]. by exists job.
Qed.

(** *** Deleting *)

(** What [f'] still has of the slots of [f]: some of them, with the same
    window and no new jobs. *)
Definition shrinks f f' : Prop :=
  ∀ k d', FSM_GetSlot k f' = Some d' → ∃ d, FSM_GetSlot k f = Some d ∧
    slot_Key d' = slot_Key d ∧ slot_MinTime d' = slot_MinTime d ∧ (slot_ok d → slot_ok d') ∧
    slot_JobIDs d' ⊆ slot_JobIDs d.

(** What taking a job out of its slot leaves alone. *)
Record taken f q f' q' : Prop := {
  tk_jobs : same_jobs f f';
  tk_memory : f_memoryUsage f' = f_memoryUsage f;
  tk_count : f_jobCount f' = f_jobCount f;
  tk_queue : queue_ok q';
  tk_gap : q_slotGap q' = q_slotGap q;
  tk_skel : skel (q_wheel q') = skel (q_wheel q);
  tk_keys : wheel_keys (q_wheel q') ⊆ wheel_keys (q_wheel q);
  tk_slots : f_coldStore f = None → f_coldStore f' = None ∧ shrinks f f' }.

Lemma shrinks_refl f : shrinks f f.
Proof. intros k d Hd. by exists d. Qed.

Lemma taken_refl f q : queue_ok q → taken f q f q.
Proof. intros Hq. split; try done. intros Hc. split; [done|apply shrinks_refl]. Qed.

Lemma taken_forget f q m f' q' : taken f (set_jobToSlot m q) f' q' → taken f q f' q'.
Proof. intros []. by split. Qed.

Lemma taken_forgotten f q f' q' m : taken f q f' q' → taken f q f' (set_jobToSlot m q').
Proof. intros []. by split; try apply queue_ok_jobs. Qed.

Lemma remove_first_sub (id : string) l : remove_first id l ⊆ l.
Proof. induction l as [|x l IH]; [done|]. simpl. case_decide; set_solver. Qed.

Lemma shrinks_del k f : in64 k → f_coldStore f = None → shrinks f (del_slot k f).
Proof.
  intros Hk Hc k' d'. rewrite del_slot_eq, Hc by done. unfold FSM_GetSlot. simpl. rewrite Hc.
  destruct (decide (k' = k)) as [->|Hne]; [rewrite !lookup_delete_eq; done|].
  rewrite !lookup_delete_ne by done. intros E. by exists d'.
Qed.

Lemma shrinks_put d id f :
  FSM_GetSlot (slot_Key d) f = Some d →
  shrinks f (put_slot (set_JobIDs (remove_first id (slot_JobIDs d)) d) f).
Proof.
  intros Hd k d'. destruct (decide (k = slot_Key d)) as [->|Hne].
  - rewrite get_put_slot by done. intros [= <-]. exists d. split_and!; try done. apply remove_first_sub.
  - rewrite get_put_slot_ne by done. intros E. by exists d'.
Qed.

(** Taking a job out of the slot it is found in. *)
Lemma at_take_out k d id f q c tr n :
  healthy_env → queue_ok q → slots_ok f → FSM_GetSlot k f = Some d → node_at f q c tr n →
  returns (take_out k d id) n (λ _ n', ∃ f' q', node_at f' q' c tr n' ∧ taken f q f' q').
Proof.
  intros He Hq Hf Hd Hn. destruct (Hf _ _ Hd) as [Hkey Hok]. unfold take_out. case_decide.
  - apply returns_bind. eapply at_when_leader; [done|exact Hn|]. intros n1 Hn1.
    eapply returns_mono; [by apply at_DeleteSlot|]. intros e n2 [_ Hn2].
    eapply returns_mono; [by apply at_Remove|]. intros [] n3 (w & Hn3 & Hw & Hk & _ & Hs).
    exists (del_slot k f), (set_wheel w q). split; [done|]. split; try done.
    + split; [apply del_slot_jobs|apply del_slot_states].
    + unfold del_slot, applyDeleteSlot. by repeat case_match.
    + unfold del_slot, applyDeleteSlot. by repeat case_match.
    + apply queue_ok_wheel; [done..|]. by apply skel_clock in Hs as (? & _).
    + intros Hc. assert (in64 k) as Hin by (rewrite <-Hkey; apply Hok). split; [|by apply shrinks_del].
      rewrite del_slot_eq by done. by rewrite Hc.
  - eapply at_when_leader; [done|exact Hn|]. intros n1 Hn1.
    eapply returns_mono; [by apply at_CreateSlot|]. intros e n2 [_ Hn2].
    eexists _, q. split; [exact Hn2|]. split; try done. intros Hc. split; [done|]. apply shrinks_put. congruence.
Qed.

Lemma at_fallback_loop id l f q c tr n :
  healthy_env → queue_ok q → slots_ok f → Forall (λ e, FSM_GetSlot e.1 f = Some e.2) l → node_at f q c tr n →
  returns (for_until (fallback_slot id) l) n (λ _ n', ∃ f' q', node_at f' q' c tr n' ∧ taken f q f' q').
Proof.
  intros He Hq Hf Hl Hn. revert n Hn. induction Hl as [|[k d] l Hd Hl IH]; intros n Hn.
  { apply returns_ret. exists f, q. split; [done|by apply taken_refl]. }
  apply returns_bind. unfold fallback_slot. case_decide; [|by apply returns_ret, IH].
  apply returns_bind. eapply returns_mono; [by eapply at_take_out|].
  intros [] n1 (f1 & q1 & Hn1 & Ht). apply returns_bind.
  eapply returns_mono; [by eapply at_set_q|]. intros [] n2 Hn2. do 2 apply returns_ret.
  eexists f1, _. split; [exact Hn2|by apply taken_forgotten].
Qed.

(** Unarchived slots only, or the queue knows the job. *)
Lemma at_RemoveJob_any id f q c tr n :
  healthy_env → queue_ok q → slots_ok f →
  is_Some (q_jobToSlot q !! id) ∨ f_coldStore f = None → node_at f q c tr n →
  returns (RemoveJob id) n (λ _ n', ∃ f' q', node_at f' q' c tr n' ∧ taken f q f' q').
Proof.
  intros He Hq Hf Hk Hn. pose proof Hn as [i ->]. unfold RemoveJob. apply returns_bind, returns_gets.
  simpl. destruct (q_jobToSlot q !! id) as [key|].
  - apply returns_bind. eapply returns_mono; [by eapply at_set_q|]. intros [] n1 [i1 ->].
    apply returns_bind, returns_gets. simpl. destruct (FSM_GetSlot key f) as [d|] eqn:Ed.
    + eapply returns_mono; [eapply at_take_out; [done|by apply queue_ok_jobs|done|done|by exists i1]|].
      intros [] n2 (f' & q' & Hn2 & Ht). exists f', q'. split; [done|]. by eapply taken_forget.
    + apply returns_ret. eexists f, _. split; [by exists i1|]. by apply taken_forgotten, taken_refl.
  - destruct Hk as [[? ?]|Hcold]; [done|]. unfold removeJobFallback. apply returns_bind, returns_gets.
    simpl. rewrite Hcold. apply returns_bind, returns_gets. apply returns_bind.
    eapply returns_mono; [apply (at_fallback_loop id _ f q c tr); [done|done|done| |done]|].
    + apply Forall_forall. intros [k d] Hin. apply elem_of_range_map in Hin. simpl in *.
      unfold FSM_GetAllSlots in Hin. rewrite clone_map_id in Hin by apply SlotData_Clone_id.
      unfold FSM_GetSlot. by rewrite Hin, SlotData_Clone_id.
    + intros b n1 Hn1. by apply returns_ret.
Qed.

Lemma clamp_add_down v d : in64 v → 0 <= v → 0 <= d < two63 → clamp_add v (- d) = Z.max 0 (v - d).
Proof.
  intros Hv Hp Hd. unfold clamp_add. rewrite i64_id by (unfold in64, two63 in *; lia).
  case_decide; lia.
Qed.

Lemma at_DeleteJob id job f q c tr n :
  healthy_env → queue_ok q → slots_ok f → id ≠ "" → job_ID job = id → f_jobs f !! id = Some job →
  is_Some (q_jobToSlot q !! id) ∨ f_coldStore f = None → node_at f q c tr n →
  returns (DeleteJob handler id) n (λ e n', e = None ∧ ∃ f' q', node_at f' q' c tr n' ∧
    taken (without_job id f) q f' q').
Proof.
  intros He Hq Hf Hid Hjob Hj Hk Hn. eapply at_if_leader; [done|exact Hn|]. intros n1 Hn1.
  pose proof Hn1 as [i1 ->]. apply returns_bind, returns_gets. apply returns_bind.
  unfold FSM_GetJob. simpl. rewrite Hj. simpl. rewrite Job_Clone_id.
  eapply returns_mono; [apply (at_send (cmd_with_id CommandDeleteJob id)); [done|exact Hn1| |by intros ? [=]]|].
  { apply command_ok_id. }
  intros e n2 [-> Hn2]. change (node_at (without_job id f) q c tr n2) in Hn2. apply returns_bind.
  unfold notify, handler. apply returns_bind. eapply returns_mono; [by apply at_IsLeader|].
  intros b n3 [-> Hn3]. unfold event_handler. apply returns_bind.
  eapply returns_mono; [by apply at_IsLeader|]. intros b n4 [-> Hn4]. rewrite Hjob.
  eapply returns_mono; [apply (at_RemoveJob_any id (without_job id f) q c tr n4); try done|].
  - intros k d. rewrite without_job_slot. apply Hf.
  - rewrite without_job_eq by done. exact Hk.
  - intros [] n5 (f' & q' & Hn5 & Ht). apply returns_ret. split; [done|]. by exists f', q'.
Qed.

(** *** What taking a job off the queue leaves alone, archived slots included *)

(** The state machines agree on all but slots. *)
Definition same_but_slots f f' : Prop :=
  same_jobs f f' ∧ f_memoryUsage f' = f_memoryUsage f ∧ f_jobCount f' = f_jobCount f.

Definition apart n n' : Prop := same_but_slots (n_fsm n) (n_fsm n') ∧ queue_ok (n_queue n').

Lemma same_but_slots_refl f : same_but_slots f f.
Proof. done. Qed.

Lemma same_but_slots_trans f1 f2 f3 : same_but_slots f1 f2 → same_but_slots f2 f3 → same_but_slots f1 f3.
Proof. intros ([? ?] & ? & ?) ([? ?] & ? & ?). split_and!; [split|..]; congruence. Qed.

(** [c] returns, keeps the wheel in order and changes at most slots. *)
Definition slots_only {A} (c : M (Node CS Queue) A) : Prop :=
  ∀ n, queue_ok (n_queue n) → returns c n (λ _ n', apart n n').

Lemma slots_only_ret {A} (a : A) : slots_only (mreturn a).
Proof. intros n Hq. by apply returns_ret. Qed.

Lemma slots_only_gets {A} (g : Node CS Queue → A) : slots_only (gets g).
Proof. intros n Hq. by apply returns_gets. Qed.

Lemma slots_only_bind {A B} (c : M (Node CS Queue) A) (k : A → M (Node CS Queue) B) :
  slots_only c → (∀ a, slots_only (k a)) → slots_only (mthen c k).
Proof.
  intros Hc Hk n Hq. apply returns_bind. eapply returns_mono; [by apply Hc|]. intros a n1 [K1 Hq1].
  eapply returns_mono; [by apply Hk|]. intros b n2 [K2 Hq2]. split; [|done]. by eapply same_but_slots_trans.
Qed.

Lemma slots_only_for_until {A} (body : A → M (Node CS Queue) bool) l :
  (∀ x, slots_only (body x)) → slots_only (for_until body l).
Proof.
  intros Hb. induction l as [|x l IH]; [apply slots_only_ret|].
  apply slots_only_bind; [apply Hb|]. intros []; [apply slots_only_ret|exact IH].
Qed.

Lemma slots_only_forget id : slots_only (forget id).
Proof. intros n Hq. apply returns_modify. split; [done|]. by apply queue_ok_jobs. Qed.

Lemma slots_only_Remove k : slots_only (on_wheel_ (Remove k)).
Proof.
  intros n Hq. eapply returns_mono; [exact (at_Remove k _ _ _ _ n Hq (at_node n))|].
  intros [] n' (w & [i ->] & Hw & _ & _ & Hs). split; [done|]. apply queue_ok_wheel; [done..|].
  by apply skel_clock in Hs as (? & _).
Qed.

(** [CreateSlot] touches slots only, even where a slot does not survive its
    encoding. *)
Lemma create_slot_frame d f : same_but_slots f (FSM_Apply (enc_Command (cmd_create_slot d)) f).2.
Proof.
  unfold FSM_Apply. destruct (dec_Command _) as [cmd|] eqn:E; [|done].
  assert (cmd_Type cmd = CommandCreateSlot) as Ht.
  { unfold dec_Command in E. apply bind_Some in E as (l & [= <-] & E). apply bind_Some in E as (ty & Hty & E).
    vm_compute in Hty. injection Hty as <-. repeat (apply bind_Some in E as (? & ? & E)). by injection E as <-. }
  unfold applyCommandInternal. rewrite Ht. cbn. unfold applyCreateSlot. by destruct (cmd_Slot cmd).
Qed.

Lemma slots_only_CreateSlot d : healthy_env → slots_only (when_leader (CreateSlot d)).
Proof.
  intros He n Hq. eapply at_when_leader; [done|apply at_node|]. intros n1 Hn1.
  eapply at_if_leader; [done|exact Hn1|]. intros n2 [i ->]. unfold send.
  rewrite Marshal_plain by (apply plain_Command; by intros ? [=]).
  destruct (healthy_raft_Apply (enc_Command (cmd_create_slot d))
    (mkNode (n_fsm n) (n_queue n) (n_cancelFuncs n) i (n_trace n)) He) as (n' & E & Hf & Hqq & _).
  eexists _, n'. unfold mthen. rewrite E. split; [done|]. split; [|by rewrite Hqq].
  rewrite Hf. apply create_slot_frame.
Qed.

Lemma slots_only_DeleteSlot k : healthy_env → slots_only (when_leader (DeleteSlot k)).
Proof.
  intros He n Hq. eapply at_when_leader; [done|apply at_node|]. intros n1 Hn1.
  eapply returns_mono; [by apply at_DeleteSlot|]. intros e n2 [_ [i ->]]. split; [|done].
  unfold same_but_slots, del_slot, applyDeleteSlot. simpl. by repeat case_match.
Qed.

Lemma slots_only_take_out k d id : healthy_env → slots_only (take_out k d id).
Proof.
  intros He. unfold take_out. case_decide.
  - apply slots_only_bind; [by apply slots_only_DeleteSlot|]. intros _. apply slots_only_Remove.
  - by apply slots_only_CreateSlot.
Qed.

Lemma slots_only_fallback id e : healthy_env → slots_only (fallback_slot id e).
Proof.
  intros He. destruct e as [k d]. unfold fallback_slot. case_decide; [|apply slots_only_ret].
  apply slots_only_bind; [by apply slots_only_take_out|]. intros _.
  apply slots_only_bind; [apply slots_only_forget|]. intros _. apply slots_only_ret.
Qed.

Lemma slots_only_RemoveJob id : healthy_env → slots_only (RemoveJob id).
Proof.
  intros He. unfold RemoveJob, removeJobFallback. apply slots_only_bind; [apply slots_only_gets|]. intros q.
  destruct (q_jobToSlot q !! id) as [key|].
  - apply slots_only_bind; [apply slots_only_forget|]. intros _. apply slots_only_bind; [apply slots_only_gets|].
    intros [d|]; [by apply slots_only_take_out|apply slots_only_ret].
  - apply slots_only_bind; [apply slots_only_gets|]. intros [].
    + apply slots_only_bind; [apply slots_only_gets|]. intros slots.
      apply slots_only_bind; [apply slots_only_gets|]. intros keys. apply slots_only_bind.
      * apply slots_only_for_until. intros k. unfold fallback_cold. apply slots_only_bind; [apply slots_only_gets|].
        intros [[d|]|]; [by apply slots_only_fallback|apply slots_only_ret..].
      * intros []; [apply slots_only_ret|]. apply slots_only_bind; [|intros b; apply slots_only_ret].
        apply slots_only_for_until. intros e. by apply slots_only_fallback.
    + apply slots_only_bind; [apply slots_only_gets|]. intros slots.
      apply slots_only_bind; [|intros b; apply slots_only_ret].
      apply slots_only_for_until. intros e. by apply slots_only_fallback.
Qed.

(** [DeleteJob] with the queue listening. *)
Lemma deletes_job id job f q c tr n :
  healthy_env → queue_ok q → id ≠ "" → job_ID job = id → f_jobs f !! id = Some job → node_at f q c tr n →
  returns (DeleteJob handler id) n (λ e n', e = None ∧ same_but_slots (without_job id f) (n_fsm n')).
Proof.
  intros He Hq Hid Hjob Hj Hn. eapply at_if_leader; [done|exact Hn|]. intros n1 Hn1.
  pose proof Hn1 as [i1 ->]. apply returns_bind, returns_gets. apply returns_bind.
  unfold FSM_GetJob. simpl. rewrite Hj. simpl. rewrite Job_Clone_id.
  eapply returns_mono; [apply (at_send (cmd_with_id CommandDeleteJob id)); [done|exact Hn1| |by intros ? [=]]|].
  { apply command_ok_id. }
  intros e n2 [-> Hn2]. change (node_at (without_job id f) q c tr n2) in Hn2. apply returns_bind.
  unfold notify, handler. apply returns_bind. eapply returns_mono; [by apply at_IsLeader|].
  intros b n3 [-> Hn3]. unfold event_handler. apply returns_bind.
  eapply returns_mono; [by apply at_IsLeader|]. intros b n4 [-> [i4 ->]]. rewrite Hjob.
  eapply returns_mono; [by apply (slots_only_RemoveJob id He)|].
  intros [] n5 [Hs _]. by apply returns_ret.
Qed.


End api_theorems.

(** ** Cancelling, listing, health, joining *)

Section api_more.

Context {CS : Type} `{ColdSlotStoreLaws CS} `{GoRange} `{Env} `{Cluster} `{Cron}.

Implicit Types (n : Node CS Queue).

(** [MarkCancelled] with the tracker of the handler: the time is the second
    reading of the environment. *)
Lemma api_MarkCancelled_effect id reason n :
  healthy_env → ∃ n', api_MarkCancelled id reason n = Some (None, n') ∧ n_trace n' = n_trace n ∧
    n_fsm n' = set_executionStates
      (status_effect (cmd_status CommandUpdateJobStatus
         (mkStatusCommand id StatusCancelled "" None (unix (now (S (n_step n)))) reason))
         (f_executionStates (n_fsm n))) (n_fsm n).
Proof.
  intros He. set (cmd := cmd_status _ _).
  assert (command_ok cmd) as Hok by (apply status_cmd_ok; [apply He|done]).
  destruct (healthy_Store_Apply (enc_Command cmd)
    (mkNode (n_fsm n) (n_queue n) (n_cancelFuncs n) (S (S (n_step n))) (n_trace n)) He) as (n' & E & Hf & _ & _ & Ht).
  exists n'. split; [|split; [done|]].
  - unfold api_MarkCancelled, MarkCancelled, ss_IsLeader. simpl. unfold IsLeader, ask, mthen at 1. rewrite (he_leader He).
    unfold mthen at 1. rewrite (prev_same (H1 := api_StatusStoreLaws)).
    unfold tr_Now, tr_TimeNow, api_TrackerRuntime, TimeNow, ask, mthen, mreturn. cbn [n_step n_fsm n_queue n_cancelFuncs n_trace].
    unfold applyStatusCommand, applyCommand. rewrite Marshal_Command by done. unfold mthen.
    change (ss_Apply ?d) with (Store_Apply (CS := CS) (Q := Queue) d). fold cmd. rewrite E. done.
  - rewrite Hf. unfold FSM_Apply. rewrite dec_enc_Command by done. rewrite status_effect_fsm; [done|by left].
Qed.

Lemma GetStatus_at id n :
  GetStatus id n = Some (match f_executionStates (n_fsm n) !! id with
                         | Some s => inl s
                         | None => inr (state_not_found id)
                         end, n).
Proof.
  unfold GetStatus, ss_GetExecutionState, mthen. simpl. unfold GetExecutionState, gets.
  unfold FSM_GetExecutionState. destruct (f_executionStates (n_fsm n) !! id) as [s|]; [|done].
  simpl. by rewrite JobExecutionState_Clone_id.
Qed.

Lemma CancelJob_eq id n :
  CancelJob id n =
    let run := bool_decide (id ∈ n_cancelFuncs n) in
    Some (run, mkNode (n_fsm n) (n_queue n) (n_cancelFuncs n) (n_step n)
                 (n_trace n ++ if run then [ECancel id] else [])).
Proof.
  unfold CancelJob, gets, mthen. case_bool_decide; [done|]. rewrite app_nil_r. by destruct n.
Qed.

(** The member [status] of the answer. *)
Definition answered_status (resp : Response) : option string :=
  match rs_body resp with
  | BJson (JObj l) => match field "status" l with Some (JStr s) => Some s | _ => None end
  | _ => None
  end.

(** The calls that stop a running execution of the job. *)
Definition stops (h : Handlers) (id : string) (s : JobExecutionState) n : list event :=
  if bool_decide (es_Status s = StatusInProgress) && h_executionManager h && bool_decide (id ∈ n_cancelFuncs n)
  then [ECancel id] else [].

(** The handler on a stored job with a status. *)
Lemma API_CancelJob_eq getenv h r n s :
  healthy_env → rq_id r ≠ "" → is_Some (f_jobs (n_fsm n) !! rq_id r) →
  f_executionStates (n_fsm n) !! rq_id r = Some s →
  ∃ resp n' s', API_CancelJob getenv h r n = Some (resp, n') ∧ rs_status resp = 200 ∧
    n_fsm n' = set_executionStates
      (status_effect (cmd_status CommandUpdateJobStatus
         (mkStatusCommand (rq_id r) StatusCancelled "" None (unix (now (S (S (n_step n))))) (cancel_reason (rq_Body r))))
         (f_executionStates (n_fsm n))) (n_fsm n) ∧
    n_trace n' = n_trace n ++ stops h (rq_id r) s n ∧
    f_executionStates (n_fsm n') !! rq_id r = Some s' ∧ answered_status resp = Some (es_Status s').
Proof.
  intros He Hid [job Hjob] Hs. unfold API_CancelJob, on_leader, IsLeader, ask, mthen at 1.
  rewrite (he_leader He). rewrite decide_False by done. unfold GetJob, gets, mthen at 1.
  unfold FSM_GetJob. simpl. rewrite Hjob. cbn [fmap option_fmap option_map].
  unfold mthen at 1. rewrite GetStatus_at. simpl n_fsm. rewrite Hs. unfold stops.
  set (wip := bool_decide (es_Status s = _)). set (n1 := mkNode _ _ _ _ _).
  set (ev := if wip && h_executionManager h && bool_decide (rq_id r ∈ n_cancelFuncs n) then [ECancel (rq_id r)] else []).
  set (n2 := mkNode (n_fsm n) (n_queue n) (n_cancelFuncs n) (S (n_step n)) (n_trace n ++ ev)).
  assert ((if wip && h_executionManager h
     then mthen (CancelJob (rq_id r)) (λ _, mreturn tt) else mreturn tt) n1 = Some (tt, n2)) as E2.
  { unfold n2, ev. destruct (wip && h_executionManager h); [|simpl; rewrite app_nil_r; done].
    unfold mthen. rewrite CancelJob_eq. simpl. by case_bool_decide. }
  unfold mthen at 1. rewrite E2.
  destruct (api_MarkCancelled_effect (rq_id r) (cancel_reason (rq_Body r)) n2 He) as (n3 & E3 & T3 & F3).
  unfold mthen at 1. rewrite E3. unfold mthen at 1. rewrite GetStatus_at. simpl in F3, T3.
  destruct (f_executionStates (n_fsm n3) !! rq_id r) as [s'|] eqn:Es'.
  - eexists _, n3, s'. split; [done|]. split_and!; try done. by destruct wip.
  - rewrite F3 in Es'. simpl in Es'. rewrite status_effect_update in Es'. cbn [sc_JobID sc_Status] in Es'. rewrite Hs in Es'.
    destruct (validateStateTransition _ _); [congruence|]. by rewrite lookup_insert_eq in Es'.
Qed.

(** C11: cancelling a job over HTTP. On a healthy leader a request without an
    id is answered 400 and one for an unknown job 404, and nothing changes. A
    job that is pending or in progress is cancelled: the answer is 200 and
    says so, its entry records the reason of the request and the time the
    clock reads after the two leader checks, no longer names a node, and keeps
    its attempts; nothing else in the store changes; and if it is being
    executed by this node, its execution is told to stop. *)
Theorem api_cancel_job getenv h r n :
  healthy_env →
  let f := n_fsm n in
  let t := unix (now (S (S (n_step n)))) in
  ∃ resp n', API_CancelJob getenv h r n = Some (resp, n') ∧
    (rq_id r = "" → rs_status resp = 400 ∧ n_fsm n' = f ∧ n_trace n' = n_trace n) ∧
    (rq_id r ≠ "" → f_jobs f !! rq_id r = None → rs_status resp = 404 ∧ n_fsm n' = f ∧ n_trace n' = n_trace n) ∧
    ∀ s, rq_id r ≠ "" → is_Some (f_jobs f !! rq_id r) → f_executionStates f !! rq_id r = Some s →
      es_Status s = StatusPending ∨ es_Status s = StatusInProgress →
      rs_status resp = 200 ∧ answered_status resp = Some StatusCancelled ∧
      n_fsm n' = set_executionStates
        (<[rq_id r := mkState (es_JobID s) StatusCancelled (es_AttemptCount s) (es_CreatedAt s) (es_FirstAttemptAt s)
             (es_LastAttemptAt s) t t (cancel_reason (rq_Body r)) "" (es_Attempts s)]> (f_executionStates f)) f ∧
      n_trace n' = n_trace n ++
        if decide (es_Status s = StatusInProgress ∧ h_executionManager h = true ∧ rq_id r ∈ n_cancelFuncs n)
        then [ECancel (rq_id r)] else [].
Proof.
  intros He. cbv zeta. destruct (decide (rq_id r = "")) as [Hid|Hid].
  { unfold API_CancelJob, on_leader, IsLeader, ask, mthen. rewrite (he_leader He), decide_True by done.
    eexists _, _. split; [done|]. split_and!; by intros. }
  destruct (f_jobs (n_fsm n) !! rq_id r) as [job|] eqn:Ejob.
  2:{ unfold API_CancelJob, on_leader, IsLeader, ask, mthen. rewrite (he_leader He), decide_False by done.
      unfold GetJob, gets, FSM_GetJob. simpl. rewrite Ejob. eexists _, _. split; [done|]. split_and!; by intros. }
  destruct (f_executionStates (n_fsm n) !! rq_id r) as [s|] eqn:Es.
  - destruct (API_CancelJob_eq getenv h r n s He Hid) as (resp & n' & s' & E & Hok & Hf & Ht & Hs' & Ha);
      [by rewrite Ejob|done|].
    exists resp, n'. split; [done|]. split_and!; [done|by intros|]. intros s0 _ _ [= <-] Hst.
    rewrite status_effect_update in Hf. cbn [sc_JobID sc_Status] in Hf. rewrite Es in Hf.
    assert (validateStateTransition (es_Status s) StatusCancelled = None) as Hv
      by (destruct Hst as [-> | ->]; reflexivity).
    rewrite Hv in Hf. rewrite Hf in Hs'. simpl in Hs'. rewrite lookup_insert_eq in Hs'. injection Hs' as <-.
    split_and!; [done|done|done|]. rewrite Ht. f_equal. unfold stops. destruct (h_executionManager h); simpl;
      repeat case_bool_decide; repeat case_decide; simpl; naive_solver.
  - unfold API_CancelJob, on_leader, IsLeader, ask, mthen at 1. rewrite (he_leader He), decide_False by done.
    unfold GetJob, gets, mthen at 1. unfold FSM_GetJob. simpl. rewrite Ejob. cbn [fmap option_fmap option_map].
    unfold mthen at 1. rewrite GetStatus_at. simpl n_fsm. rewrite Es. simpl.
    set (n1 := mkNode _ _ _ _ _). unfold mthen at 1, mreturn at 1.
    destruct (api_MarkCancelled_effect (rq_id r) (cancel_reason (rq_Body r)) n1 He) as (n3 & E3 & T3 & F3).
    unfold mthen at 1. rewrite E3. unfold mthen at 1. rewrite GetStatus_at.
    destruct (f_executionStates (n_fsm n3) !! rq_id r); (eexists _, _; split; [done|]; split_and!; by intros).
Qed.

(** A refused cancellation is answered 200 as well. A stored job that has
    completed, failed, timed out or was cancelled before stays as it is, and
    the answer shows that status, where a refusal is documented. *)
Theorem api_cancel_refused getenv h r n s :
  healthy_env → rq_id r ≠ "" → is_Some (f_jobs (n_fsm n) !! rq_id r) →
  f_executionStates (n_fsm n) !! rq_id r = Some s → validateStateTransition (es_Status s) StatusCancelled ≠ None →
  ∃ resp n', API_CancelJob getenv h r n = Some (resp, n') ∧ rs_status resp = 200 ∧
    answered_status resp = Some (es_Status s) ∧ f_executionStates (n_fsm n') = f_executionStates (n_fsm n).
Proof.
  intros He Hid Hj Hs Hv.
  destruct (API_CancelJob_eq getenv h r n s He Hid Hj Hs) as (resp & n' & s' & E & Hok & Hf & _ & Hs' & Ha).
  rewrite status_effect_update in Hf. cbn [sc_JobID sc_Status] in Hf. rewrite Hs in Hf.
  destruct (validateStateTransition (es_Status s) StatusCancelled); [|done].
  rewrite Hf in Hs'. simpl in Hs'. rewrite Hs in Hs'. injection Hs' as <-.
  exists resp, n'. split_and!; [done..|]. by rewrite Hf.
Qed.

(** C39: Listing by status is exact. A request with a known status is answered
    200 with exactly the execution states that have it, in some order, and
    their number; without one, or with an unknown one, the answer is 400. *)
Theorem api_list_by_status r n :
  ∃ resp, API_ListJobsByStatus r n = Some (resp, n) ∧
    if decide (rq_statusParam r ∈ validStatuses) then
      rs_status resp = 200 ∧ ∃ l, NoDup l ∧
        (∀ id s, (id, s) ∈ l ↔
           f_executionStates (n_fsm n) !! id = Some s ∧ es_Status s = rq_statusParam r) ∧
        rs_body resp = encode (JObj [("jobs", JArr (enc_State <$> l.*2));
                                     ("total", JNum (pretty (Z.of_nat (length l))))])
    else rs_status resp = 400.
Proof.
  unfold API_ListJobsByStatus. destruct (decide (rq_statusParam r = "")) as [E|E].
  { eexists. split; [done|]. rewrite decide_False; [done|]. rewrite E. intros Hin.
    repeat (apply elem_of_cons in Hin as [Hin|Hin]; [discriminate Hin|]). by apply not_elem_of_nil in Hin. }
  case_decide; [|by eexists].
  unfold ListByStatus, ss_GetAllExecutionStates, mthen. simpl. unfold GetAllExecutionStates, gets.
  eexists. split; [done|]. split; [done|]. unfold FSM_GetAllExecutionStates.
  rewrite clone_map_id by apply JobExecutionState_Clone_id.
  exists (filter (λ p, es_Status p.2 = rq_statusParam r) (range_map (f_executionStates (n_fsm n)))).
  assert (∀ l : list (string * JobExecutionState),
    (filter (λ p, es_Status p.2 = rq_statusParam r) l).*2 =
    filter (λ s, es_Status s = rq_statusParam r) l.*2) as Hfil.
  { intros l. induction l as [|p l IH]; [done|]. rewrite fmap_cons, !filter_cons.
    case_decide; [rewrite fmap_cons|]; by rewrite IH. }
  split_and!.
  - apply NoDup_filter. eapply NoDup_fmap_1, range_map_NoDup.
  - intros id s. rewrite list_elem_of_filter, elem_of_range_map. simpl. tauto.
  - rewrite Hfil, <-Hfil, length_fmap. done.
Qed.

Lemma health_code th st m :
  (if decide (failure_status th st (memory_status m) = "unhealthy")
   then StatusServiceUnavailable else StatusOK) = 503 ↔
  f_ltb (f_of_Z 90) (mu_Utilization m) = true ∧
  10 <= stat_Completed st + stat_Failed st + stat_Timeout st ∧
  f_ltb th (stat_FailureRate st) = true ∧ f_ltb f_05 (stat_FailureRate st) = true.
Proof.
  unfold failure_status, memory_status. case_bool_decide;
    destruct (f_ltb th (stat_FailureRate st)), (f_ltb (f_of_Z 90) (mu_Utilization m)); simpl;
    try (split; [done|naive_solver lia]).
  destruct (f_ltb f_05 (stat_FailureRate st)); simpl; (split; [intros E; try discriminate E|naive_solver]).
  split_and!; try done. lia.
Qed.

Lemma health_ok_not_503 th st :
  (if decide (failure_status th st "ok" = "unhealthy") then StatusServiceUnavailable else StatusOK) ≠ 503.
Proof. unfold failure_status. by destruct (bool_decide _ && _). Qed.

(** When the health check fails. Whatever the environment, [Health]
    answers 503 exactly if limits are set, memory is over 90 percent, ten jobs
    have finished and the failure rate is over both the configured threshold
    and one half; the failure rate alone never makes a node unhealthy. *)
Theorem health_503_iff nodeID h n :
  ∃ resp n' st, Health nodeID h n = Some (resp, n') ∧ GetExecutionStats n = Some (st, n) ∧
    n_fsm n' = n_fsm n ∧
    (rs_status resp = 503 ↔ ∃ lm m,
       h_limitManager h = Some lm ∧ GetUsage (lm_memoryLimit lm) n = Some (m, n) ∧
       f_ltb (f_of_Z 90) (mu_Utilization m) = true ∧
       10 <= stat_Completed st + stat_Failed st + stat_Timeout st ∧
       f_ltb (h_healthFailureThreshold h) (stat_FailureRate st) = true ∧
       f_ltb f_05 (stat_FailureRate st) = true).
Proof.
  set (st := failure_rate (foldl count_state
    (mkStats 0 0 0 0 0 0 (Z.of_nat (size (FSM_GetAllExecutionStates (n_fsm n)))) 0 (f_of_Z 0))
    (range_map (FSM_GetAllExecutionStates (n_fsm n))).*2)).
  assert (∀ l leader i, ∃ resp n',
    Health_rest nodeID h l leader (mkNode (n_fsm n) (n_queue n) (n_cancelFuncs n) i (n_trace n)) =
      Some (resp, n') ∧ n_fsm n' = n_fsm n ∧
    (rs_status resp = 503 ↔ ∃ lm m,
       h_limitManager h = Some lm ∧ GetUsage (lm_memoryLimit lm) n = Some (m, n) ∧
       f_ltb (f_of_Z 90) (mu_Utilization m) = true ∧
       10 <= stat_Completed st + stat_Failed st + stat_Timeout st ∧
       f_ltb (h_healthFailureThreshold h) (stat_FailureRate st) = true ∧
       f_ltb f_05 (stat_FailureRate st) = true)) as Hrest.
  { intros l leader i. unfold Health_rest, GetUsage, GetJobCount, GetMemoryUsage, GetExecutionStats,
      ss_GetAllExecutionStates, node_StatusStore, GetAllExecutionStates, gets, mthen, mreturn.
    destruct (h_limitManager h) as [lm|].
    - eexists _, _. split; [reflexivity|]. split; [done|]. cbn [rs_status].
      fold st. rewrite health_code. split.
      + intros (Hm & Hf & Ht & Hh). eexists lm, _. split; [done|]. split; [reflexivity|]. done.
      + intros (lm' & m & [= <-] & [= <-] & Hm & Hf & Ht & Hh). done.
    - eexists _, _. split; [reflexivity|]. split; [done|]. cbn [rs_status]. fold st.
      split; [|by intros (? & ? & [=] & _)]. intros E. exfalso. revert E. apply health_ok_not_503. }
  unfold Health, IsLeader, ask, mthen. destruct (leader (n_step n)); cbn.
  - destruct (Hrest true "" (S (n_step n))) as (resp & n' & E & F & Hiff). exists resp, n', st. by split_and!.
  - destruct (Hrest false (leaderAddr (S (n_step n))) (S (S (n_step n)))) as (resp & n' & E & F & Hiff).
    exists resp, n', st. by split_and!.
Qed.

End api_more.

(** ** In every environment *)

Section api_safety.

Context {CS : Type} `{ColdSlotStore CS} `{GoRange} `{Env} `{Cluster} `{Cron}.

Implicit Types (n : Node CS Queue).

(** Only the clock of the environment moved. *)
Definition untouched n n' : Prop :=
  n_fsm n' = n_fsm n ∧ n_queue n' = n_queue n ∧ n_cancelFuncs n' = n_cancelFuncs n ∧
  n_trace n' = n_trace n.

Lemma proxy_untouched getenv h r n :
  ∃ resp n', proxyToLeader getenv h r n = Some (resp, n') ∧ untouched n n'.
Proof.
  unfold proxyToLeader, GetLeader, ask, mthen. cbn. case_decide; [by eexists _, _|].
  destruct (getHTTPAddressForRaft _ _ _); [|by eexists _, _].
  destruct (http_newRequest _ _); [by eexists _, _|]. cbn.
  destruct (roundTrip _ _) as [[[status hs] body]|]; by eexists _, _.
Qed.

(** C12: a follower only forwards. Whatever the environment does, a node that
    is not the leader answers a request to create, delete or cancel a job
    with what the proxy got, and leaves its state machine, its queue and the
    running executions as they are. *)
Theorem follower_only_forwards getenv h uuid r n (k : M (Node CS Queue) Response) :
  leader (n_step n) = false →
  k = API_CreateJob getenv h uuid r ∨ k = API_DeleteJob getenv h r ∨ k = API_CancelJob getenv h r →
  ∃ resp n1 n', IsLeader n = Some (false, n1) ∧ proxyToLeader getenv h r n1 = Some (resp, n') ∧
    k n = Some (resp, n') ∧ untouched n n'.
Proof.
  intros Hl Hk. assert (k n = on_leader getenv h r panic n) as ->
    by (destruct Hk as [-> | [-> | ->]];
        unfold API_CreateJob, API_DeleteJob, API_CancelJob, on_leader, IsLeader, ask, mthen; by rewrite Hl).
  unfold on_leader, IsLeader, ask, mthen. rewrite Hl.
  destruct (proxy_untouched getenv h r (mkNode (n_fsm n) (n_queue n) (n_cancelFuncs n) (S (n_step n)) (n_trace n)))
    as (resp & n' & E & Hu). eexists resp, _, n'. split; [done|]. by split.
Qed.

(** Who may join. Whatever the environment does, [JoinCluster] returns
    and touches neither jobs nor the queue, and the one call it can make to
    Raft is to add the server of the request, made only by a leader, for a
    request with a node id and an address, that is not yet a member. *)
Theorem join_adds_only_the_sender r n :
  ∃ resp n', JoinCluster r n = Some (resp, n') ∧ n_fsm n' = n_fsm n ∧ n_queue n' = n_queue n ∧
    (n_trace n' = n_trace n ∨
     ∃ id addr servers, rq_Body r ≫= dec_JoinRequest = Some (id, addr) ∧ id ≠ "" ∧ addr ≠ "" ∧
       leader (n_step n) = true ∧ leader (S (n_step n)) = true ∧
       configuration (S (S (n_step n))) = inl servers ∧ mkServer id addr ∉ servers ∧
       n_trace n' = n_trace n ++ [EAddVoter id addr]).
Proof.
  unfold JoinCluster, IsLeader, ask, mthen. destruct (leader (n_step n)) eqn:El;
    [|eexists _, _; split_and!; by auto].
  destruct (rq_Body r ≫= dec_JoinRequest) as [[id addr]|] eqn:Er; [|eexists _, _; split_and!; by auto].
  case_decide as Hne; [eexists _, _; split_and!; by auto|].
  unfold AddPeer, IsLeader, GetClusterConfiguration, ask, mthen. cbn.
  destruct (leader (S (n_step n))) eqn:El2; [|eexists _, _; split_and!; by auto]. cbn.
  destruct (configuration (S (S (n_step n)))) as [servers|e] eqn:Ec; [|eexists _, _; split_and!; by auto].
  cbn. case_decide as Hin; [eexists _, _; split_and!; by auto|]. cbn.
  destruct (membership (S (S (S (n_step n))))) as [e|]; cbn; eexists _, _;
    (split_and!; [done..|]); right; exists id, addr, servers; split_and!; try done; tauto.
Qed.

End api_safety.

(** ** Concrete requests *)

Definition ex_body : json := JObj
  [("type", JStr "unico"); ("timestamp", JStr "205"); ("id", JStr "b"); ("payload", JObj [("x", JBool true)])].

Definition ex_create : Request := mkRequest "POST" "/jobs" ∅ "" "" (Some ex_body).

(** Requests about job [a]. *)
Definition ex_about : Request := mkRequest "DELETE" "/jobs/a" ∅ "a" "" None.

Lemma ex_running_slots : slots_ok ex_running.
Proof. intros k d E. vm_compute in E. discriminate E. Qed.

Lemma ex_running_inv : fsm_inv ex_running.
Proof. do 2 apply apply_inv. apply ex_new_inv. Qed.

Lemma api_create_job_witness :
  ∃ resp n', @API_CreateJob MemBolt _ sorted_range (clock_env 100) ex_cluster every_minute ex_getenv
      ex_handlers "u" ex_create (ex_qnode ex_running) = Some (resp, n') ∧
    rs_status resp = 200 ∧ usage n' = (203, 1).
Proof.
  destruct (@api_create_job MemBolt _ sorted_range (clock_env 100) ex_cluster every_minute ex_getenv
    ex_handlers ex_limits "u" ex_create (ex_qnode ex_running)) as (resp & n' & E & Hr).
  - by split.
  - exact ex_queue_ok.
  - exact ex_running_slots.
  - exact ex_running_inv.
  - reflexivity.
  - vm_compute. congruence.
  - split; vm_compute; congruence.
  - discriminate.
  - intros j [= <-]. reflexivity.
  - intros req t job Hreq Hjob. vm_compute in Hreq. injection Hreq as <-.
    unfold ToJob in Hjob. vm_compute in Hjob. injection Hjob as <-. vm_compute. reflexivity.
  - exists resp, n'. split; [exact E|]. vm_compute in E. injection E as <- <-.
    split; vm_compute; reflexivity.
Defined.


(** Job [a] is running, and [ex_running] says so. *)
Lemma api_cancel_job_witness :
  ∃ resp n', @API_CancelJob MemBolt _ sorted_range (clock_env 100) ex_cluster ex_getenv ex_handlers
      ex_about (ex_qnode ex_running) = Some (resp, n') ∧ rs_status resp = 200 ∧
    answered_status resp = Some StatusCancelled ∧
    es_CancelledAt <$> f_executionStates (n_fsm n') !! "a" = Some 100.
Proof.
  destruct (@api_cancel_job MemBolt _ sorted_range (clock_env 100) ex_cluster ex_getenv ex_handlers
    ex_about (ex_qnode ex_running)) as (resp & n' & E & _ & _ & Hr).
  - by split.
  - destruct (f_executionStates (n_fsm (ex_qnode ex_running)) !! rq_id ex_about) as [s|] eqn:Hs;
      [|vm_compute in Hs; discriminate Hs].
    destruct (Hr s) as (Hok & Ha & Hf & _).
    + discriminate.
    + by eexists.
    + reflexivity.
    + vm_compute in Hs. injection Hs as <-. right. reflexivity.
    + exists resp, n'. split; [exact E|]. split; [exact Hok|]. split; [exact Ha|]. rewrite Hf. reflexivity.
Defined.

Lemma api_cancel_refused_witness :
  ∃ resp n', @API_CancelJob MemBolt _ sorted_range (clock_env 100) ex_cluster ex_getenv ex_handlers
      ex_about (ex_qnode ex_done) = Some (resp, n') ∧ rs_status resp = 200 ∧
    answered_status resp = Some StatusCompleted.
Proof.
  destruct (@api_cancel_refused MemBolt _ sorted_range (clock_env 100) ex_cluster ex_getenv ex_handlers
    ex_about (ex_qnode ex_done) ex_done_state) as (resp & n' & E & Hs & Hr & _).
  - by split.
  - discriminate.
  - by eexists.
  - vm_compute. reflexivity.
  - vm_compute. congruence.
  - exists resp, n'. split; [exact E|]. split; [exact Hs|exact Hr].
Defined.

Lemma follower_only_forwards_witness :
  ∃ resp n', @API_DeleteJob MemBolt _ sorted_range ex_env_follower ex_cluster ex_getenv ex_handlers
      ex_about (ex_qnode ex_done) = Some (resp, n') ∧ n_fsm n' = ex_done.
Proof.
  destruct (@follower_only_forwards MemBolt _ sorted_range ex_env_follower ex_cluster every_minute
    ex_getenv ex_handlers "u" ex_about (ex_qnode ex_done) _ eq_refl (or_intror (or_introl eq_refl)))
    as (resp & n1 & n' & _ & _ & E & Hf & _).
  exists resp, n'. split; [exact E|exact Hf].
Defined.
