(* ===== verification/Delivery.v ===== *)
(** * From the wheel to the webhook

    The parts put together: on a healthy leader, while the clock reads times
    from that of a job to the end of the window of its slot, one tick of the worker ([worker.go]) takes the slot off
    the queue ([persistent_slots.go], [timing_wheel.go]), executes its job
    ([execution_manager.go]) and removes it from store and queue. *)

From S2P Require Import Prelude GoStrings GoFloat Json Types Codec ColdStore FSM TimingWheel WheelProps WheelTime.
From S2P Require Import Store StoreProps StatusTracker SlotQueue SlotQueueProps ExecutionManager Worker.
From S2P Require Import Limits Gateway Api ApiProps.

(** ** An execution touches execution states only *)

Section calm.

Context {CS Q : Type} `{ColdSlotStore CS} `{GoRange} `{Env} `{HTTP}.

Implicit Types n : Node CS Q.

Definition only_states n n' : Prop :=
  n_queue n' = n_queue n ∧ ∃ m, n_fsm n' = set_executionStates m (n_fsm n).

Lemma only_states_refl n : only_states n n.
Proof. split; [done|]. exists (f_executionStates (n_fsm n)). by destruct (n_fsm n). Qed.

Lemma only_states_same n n' : n_queue n' = n_queue n → n_fsm n' = n_fsm n → only_states n n'.
Proof. intros Hq Hf. destruct (only_states_refl n) as [_ Hm]. split; [done|]. by rewrite Hf. Qed.

Lemma only_states_trans n1 n2 n3 : only_states n1 n2 → only_states n2 n3 → only_states n1 n3.
Proof.
  intros [Hq1 [m1 Hf1]] [Hq2 [m2 Hf2]]. split; [congruence|]. exists m2. by rewrite Hf2, Hf1.
Qed.

(** [c] returns and touches execution states only. *)
Definition calm {A} (c : M (Node CS Q) A) : Prop := ∀ n, returns c n (λ _ n', only_states n n').

Lemma calm_ret {A} (a : A) : calm (mreturn a).
Proof. intros n. apply returns_ret, only_states_refl. Qed.

Lemma calm_bind {A B} (c : M (Node CS Q) A) (k : A → M (Node CS Q) B) :
  calm c → (∀ a, calm (k a)) → calm (mthen c k).
Proof.
  intros Hc Hk n. apply returns_bind. eapply returns_mono; [apply Hc|]. intros a n1 K1.
  eapply returns_mono; [apply Hk|]. intros b n2 K2. exact (only_states_trans _ _ _ K1 K2).
Qed.

Lemma calm_gets {A} (f : Node CS Q → A) : calm (gets f).
Proof. intros n. apply returns_gets, only_states_refl. Qed.

Lemma calm_ask {A} (f : nat → A) : calm (ask f).
Proof. intros n. eexists _, _. split; [done|]. by apply only_states_same. Qed.

Lemma calm_emit e : calm (emit (CS := CS) (Q := Q) e).
Proof. intros n. apply returns_modify. by apply only_states_same. Qed.

Lemma calm_set_cancel f : calm (set_cancel (CS := CS) (Q := Q) f).
Proof. intros n. apply returns_modify. by apply only_states_same. Qed.

Lemma status_command_states t sc (f : FSM CS) :
  t = CommandUpdateJobStatus ∨ t = CommandRecordAttempt →
  ∃ m, (FSM_Apply (enc_Command (cmd_status t sc)) f).2 = set_executionStates m f.
Proof.
  intros Ht. assert (∃ m, f = set_executionStates m f) as Hsame
    by (exists (f_executionStates f); by destruct f).
  unfold FSM_Apply. destruct (dec_Command _) as [cmd|] eqn:E; [|exact Hsame].
  assert (cmd_Type cmd = t) as Hc.
  { unfold dec_Command in E. apply bind_Some in E as (l & [= <-] & E). apply bind_Some in E as (ty & Hty & E).
    assert (ty = t) as ->.
    { destruct Ht as [-> | ->]; vm_compute in Hty; by injection Hty as <-. }
    repeat (apply bind_Some in E as (? & ? & E)). by injection E as <-. }
  unfold applyCommandInternal. rewrite Hc.
  destruct Ht as [-> | ->]; cbn; destruct (cmd_StatusCommand cmd) as [s|]; try exact Hsame; cbn.
  - unfold applyStatusUpdate. destruct (f_executionStates f !! sc_JobID s); simpl;
      destruct (validateStateTransition _ _); simpl; eauto.
  - unfold applyRecordAttempt. destruct (f_executionStates f !! sc_JobID s); simpl; [|exact Hsame].
    destruct (sc_Attempt s); simpl; eauto.
Qed.

Context (He : healthy_env).

Lemma calm_interleave : calm (interleave (CS := CS) (Q := Q)).
Proof.
  intros n. unfold interleave, ask. apply returns_bind. eexists _, _. split; [done|].
  apply returns_modify. rewrite (he_others He). by apply only_states_same.
Qed.

Lemma calm_status_command t sc :
  t = CommandUpdateJobStatus ∨ t = CommandRecordAttempt → calm (applyStatusCommand (W := Node CS Q) t sc).
Proof.
  intros Ht. unfold applyStatusCommand, applyCommand.
  destruct (Marshal _) as [data|] eqn:E; [|apply calm_ret]. apply Marshal_same in E as ->.
  apply calm_bind; [|intros e; apply calm_ret]. intros n.
  destruct (healthy_Store_Apply (enc_Command (cmd_status t sc)) n He) as (n' & E & Hf & Hq & _).
  exists None, n'. split; [done|]. split; [done|]. rewrite Hf. by apply status_command_states.
Qed.

Lemma calm_IsLeader : calm (ss_IsLeader (W := Node CS Q)).
Proof. apply calm_ask. Qed.

Lemma calm_GetStatus id : calm (GetStatus (W := Node CS Q) id).
Proof. apply calm_bind; [apply calm_gets|]. intros s. apply calm_ret. Qed.

Lemma calm_CanExecute id : calm (CanExecute (W := Node CS Q) id).
Proof. apply calm_bind; [apply calm_gets|]. intros s. apply calm_ret. Qed.

Lemma calm_prev id dflt : calm (prevStatus (W := Node CS Q) id dflt).
Proof. apply calm_bind; [apply calm_GetStatus|]. intros s. apply calm_ret. Qed.

Lemma calm_tr_Now : calm (tr_Now (W := Node CS Q)).
Proof. apply calm_bind; [apply calm_ask|]. intros t. apply calm_ret. Qed.

Lemma calm_Now : calm (Now (CS := CS) (Q := Q)).
Proof. apply calm_bind; [apply calm_ask|]. intros t. apply calm_ret. Qed.

Lemma calm_callback old new : calm (callback (W := Node CS Q) old new).
Proof. apply calm_emit. Qed.

Lemma calm_since t : calm (since_ms (CS := CS) (Q := Q) t).
Proof. apply calm_bind; [apply calm_ask|]. intros t'. apply calm_ret. Qed.

Lemma calm_was_cancelled id : calm (was_cancelled (CS := CS) (Q := Q) id).
Proof. apply calm_bind; [apply calm_GetStatus|]. intros s. apply calm_ret. Qed.

Lemma calm_http_Do job body : calm (http_Do (CS := CS) (Q := Q) job body).
Proof.
  apply calm_bind; [apply calm_emit|]. intros _. apply calm_bind; [apply calm_interleave|].
  intros _. apply calm_ask.
Qed.

(** Sequences and branches of calm calls. *)
Ltac calm_with tac :=
  repeat match goal with
    | |- calm (mreturn _) => apply calm_ret
    | |- calm (mthen _ _) => apply calm_bind; [|intros ?]
    | |- calm (match ?x with _ => _ end) => destruct x
    | |- calm (let _ := _ in _) => intros ?
    | |- calm (applyStatusCommand _ _) => apply calm_status_command; by auto
    | |- calm _ => tac
    end.

Lemma calm_recordAttempt id att : calm (recordAttempt (W := Node CS Q) id att).
Proof. unfold recordAttempt. calm_with ltac:(apply calm_tr_Now). Qed.

Lemma calm_MarkInProgress id node : calm (MarkInProgress (W := Node CS Q) id node).
Proof.
  unfold MarkInProgress.
  calm_with ltac:(first [apply calm_IsLeader | apply calm_prev | apply calm_tr_Now | apply calm_callback]).
Qed.

Lemma calm_markFinished st id att : calm (markFinished (W := Node CS Q) st id att).
Proof.
  unfold markFinished. calm_with ltac:(first [apply calm_IsLeader | apply calm_prev | apply calm_recordAttempt
    | apply calm_tr_Now | apply calm_callback]).
Qed.

Lemma calm_executeWebhook job : calm (executeWebhook (CS := CS) (Q := Q) job).
Proof.
  unfold executeWebhook. calm_with ltac:(first [apply calm_Now | apply calm_since | apply calm_http_Do | apply calm_ask]).
Qed.

Lemma calm_run_attempt em job k : calm (run_attempt (CS := CS) (Q := Q) em job k).
Proof.
  unfold run_attempt, MarkFailed, MarkCompleted.
  calm_with ltac:(first [apply calm_Now | apply calm_executeWebhook | apply calm_was_cancelled
    | apply calm_markFinished | apply calm_recordAttempt]).
Qed.

Lemma calm_Execute em job : calm (Execute (CS := CS) (Q := Q) em job).
Proof.
  unfold Execute. calm_with ltac:(first [apply calm_CanExecute | apply calm_GetStatus | apply calm_MarkInProgress
    | apply calm_run_attempt | apply calm_set_cancel]).
Qed.

End calm.

(** ** The slot that is being served *)

Section serving.

Context {CS : Type} `{ColdSlotStore CS} `{GoRange} `{Env}.

Implicit Types (n : Node CS Queue) (f : FSM CS) (q : Queue) (c : gset string) (tr : list event).

(** What [GetNextSlot] makes of the stored slot [key]. *)
Definition slot_at (key : Z) f : option Slot :=
  d ← FSM_GetSlot key f;
  let jobs := omap (λ id, FSM_GetJob id f) (slot_JobIDs d) in
  if decide (length jobs = 0%nat) then None
  else Some (mkSlot key (slot_MinTime d) (slot_MaxTime d) jobs).

Lemma at_earliest_exact m f q c tr n :
  queue_ok q → PeekMin (q_wheel q) = Some m → in64 m → node_at f q c tr n →
  returns (earliest_slot (secs (q_slotGap q))) n (λ o n',
    o = (if decide (m = -1) then None else slot_at (Z.quot m (secs (q_slotGap q))) f) ∧ node_at f q c tr n').
Proof.
  intros Hq Em Hm [i ->]. unfold earliest_slot. apply returns_bind. unfold on_wheel.
  apply returns_bind, returns_gets. simpl. rewrite Em. simpl. apply returns_bind.
  eapply returns_lift; [done|]. apply returns_bind, returns_modify, returns_ret. simpl.
  assert (∀ i, node_at f q c tr (mkNode f (set_wheel (q_wheel q) q) c i tr)) as Hn
    by (intros i'; exists i'; by destruct q).
  case_decide; [apply returns_ret; split; [done|apply Hn]|]. apply returns_bind.
  eapply returns_lift; [apply go_quot_pos; [done|apply Hq]|]. apply returns_bind, returns_gets. simpl.
  unfold slot_at. destruct (FSM_GetSlot _ f) as [d|]; [|apply returns_ret; split; [done|apply Hn]].
  apply returns_bind. eexists _, _. split; [apply collect_jobs|]. simpl.
  case_decide; (apply returns_ret; split; [done|apply Hn]).
Qed.

(** The queue has come to slot [k], whose window holds the time [T]: no older
    slot waits on the wheel. *)
Record serves (T k : Z) q : Prop := {
  sv_queue : queue_ok q;
  sv_base : time_base (q_wheel q);
  sv_init : initialized (q_wheel q) = true;
  sv_keys : ∀ k', k' ∈ wheel_keys (q_wheel q) → k <= k';
  sv_pos : 0 <= k;
  sv_window : k * secs (q_slotGap q) <= T < (k + 1) * secs (q_slotGap q) }.

Lemma queue_gap q : queue_ok q → slotGapSeconds (q_wheel q) = secs (q_slotGap q).
Proof.
  intros Hq. pose proof (qo_gap _ Hq). unfold slotGapSeconds. rewrite (qo_same _ Hq). by rewrite decide_False by lia.
Qed.

Lemma serves_new_base T k q : serves T k q → new_base T (q_wheel q) = k * secs (q_slotGap q).
Proof.
  intros [Hq _ _ _ Hp Hw]. pose proof (qo_gap _ Hq) as Hg. unfold new_base. rewrite (queue_gap _ Hq).
  rewrite Z.quot_div_nonneg by nia. f_equal. symmetry. apply (Z.div_unique_pos _ _ k (T - k * secs (q_slotGap q))); nia.
Qed.

Lemma serves_time T k q k' :
  serves T k q → k' ∈ wheel_keys (q_wheel q) → 0 <= slot_time k' (q_wheel q) ∧ in64 (slot_time k' (q_wheel q)).
Proof.
  intros Hs Hk. pose proof (sv_keys _ _ _ Hs k' Hk). pose proof (sv_pos _ _ _ Hs).
  pose proof (qo_gap _ (sv_queue _ _ _ Hs)). pose proof (tb_keys _ (sv_base _ _ _ Hs) k' Hk) as Hn.
  unfold slot_time in *. rewrite (queue_gap _ (sv_queue _ _ _ Hs)) in *.
  unfold near, horizon, in64, two63 in *. nia.
Qed.

Lemma serves_quot T k q k' : serves T k q → Z.quot (slot_time k' (q_wheel q)) (secs (q_slotGap q)) = k'.
Proof.
  intros [Hq _ _ _ _ _]. pose proof (qo_gap _ Hq). unfold slot_time. rewrite (queue_gap _ Hq). apply Z.quot_mul. lia.
Qed.

(** [GetNextSlot] up to the call of [PeekMin], when [Advance] finds nothing,
    whatever the clock reads. *)
Lemma at_GetNextSlot_peek f q c tr n R :
  initialized (q_wheel q) = true →
  (∀ i, ∃ w, Advance (unix (now i)) (q_wheel q) = Some ([], w) ∧
     ∀ n', node_at f (set_wheel w q) c tr n' → returns (earliest_slot (secs (q_slotGap q))) n' R) →
  node_at f q c tr n → returns GetNextSlot n R.
Proof.
  intros Hi Hk [i ->]. unfold GetNextSlot. apply returns_bind. unfold ensure_init.
  apply returns_bind, returns_gets. simpl. rewrite Hi. apply returns_ret, returns_bind.
  unfold Now, TimeNow, ask, mthen, mreturn. eexists _, _. split; [done|]. cbn [n_step].
  destruct (Hk i) as (w & Ha & Hk').
  apply returns_bind, returns_gets. simpl. apply returns_bind. unfold on_wheel.
  apply returns_bind, returns_gets. simpl. apply returns_bind. eapply returns_lift; [exact Ha|].
  apply returns_bind, returns_modify, returns_ret.
  apply Hk'. by eexists.
Qed.

(** The wheel keeps time, and the first slot on it is [k] or later, which has
    not been passed. *)
Record waits (k : Z) q : Prop := {
  wt_queue : queue_ok q;
  wt_time : time_inv (q_wheel q);
  wt_init : initialized (q_wheel q) = true;
  wt_keys : ∀ k', k' ∈ wheel_keys (q_wheel q) → k <= k';
  wt_pos : 0 <= k;
  wt_base : currentBase (q_wheel q) <= k * secs (q_slotGap q) }.

Lemma waits_serves T k q :
  waits k q → k * secs (q_slotGap q) <= T < (k + 1) * secs (q_slotGap q) → serves T k q.
Proof. intros [Hq Ht Hi Hk Hp _] Hw. split; try done. apply Ht. Qed.

(** Any other time of the window serves as well. *)
Lemma serves_at T T' k q :
  serves T k q → k * secs (q_slotGap q) <= T' < (k + 1) * secs (q_slotGap q) → serves T' k q.
Proof. intros [] Hw. by split. Qed.

Lemma window_quot T k s : 0 < s → 0 <= k → T < (k + 1) * s → Z.quot T s <= k.
Proof.
  intros Hs Hk HT. destruct (decide (0 <= T)).
  - rewrite Z.quot_div_nonneg by lia. enough (T / s < k + 1) by lia. apply Z.div_lt_upper_bound; lia.
  - transitivity (Z.quot 0 s); [apply Z.quot_le_mono; lia|]. rewrite Z.quot_0_l by lia. lia.
Qed.

(** As long as slot [k] is not over, moving the wheel finds nothing that was
    missed. *)
Lemma waits_advance T k q :
  waits k q → near T → Z.quot T (secs (q_slotGap q)) <= k →
  ∃ w, Advance T (q_wheel q) = Some ([], w) ∧ waits k (set_wheel w q) ∧
    wheel_keys w = wheel_keys (q_wheel q) ∧ currentBase w = Z.max (currentBase (q_wheel q)) (new_base T (q_wheel q)).
Proof.
  intros [Hq Ht Hi Hk Hp Hb] Hn Hle. pose proof (qo_gap _ Hq) as Hg. pose proof (queue_gap _ Hq) as Hgap.
  assert (in64 T) as HT by (unfold near, horizon, in64, two63 in *; lia).
  assert (new_base T (q_wheel q) <= k * secs (q_slotGap q)) as Hnb by (unfold new_base; rewrite Hgap; nia).
  destruct (Advance_time T (q_wheel q) Ht Hi Hn) as (ready & w & E & Htw & _ & Hbase & _ & Hl & _).
  destruct (Advance_releases T (q_wheel q)) as (r' & w' & E' & Hw & Hc & (Hrel & Hloc & _) & Hsg & Hini & _);
    [apply (qo_wheel _ Hq)..|done|]. rewrite E in E'. injection E' as <- <-.
  assert (ready = []) as ->.
  { destruct ready as [|x ready]; [done|]. assert (x ∈ wheel_keys (q_wheel q)) as Hx by (apply Hrel; set_solver).
    specialize (Hl x ltac:(set_solver)). apply Hk in Hx. unfold slot_time in Hl. rewrite Hgap in Hl. nia. }
  assert (wheel_keys w = wheel_keys (q_wheel q)) as Hkeys.
  { apply set_eq. intros x. rewrite Hrel. set_solver. }
  exists w. split_and!; [done| |done|done]. split; simpl; try done.
  - apply queue_ok_wheel; [done| |done]. split; [done..|]. apply Hloc, Hq.
  - congruence.
  - by rewrite Hkeys.
  - lia.
Qed.

(** Later calls of the same tick leave the wheel alone. *)
Lemma serves_still T k q :
  serves T k q → in64 T → currentBase (q_wheel q) = k * secs (q_slotGap q) →
  Advance T (q_wheel q) = Some ([], q_wheel q).
Proof.
  intros Hs HT Hb. pose proof (serves_new_base _ _ _ Hs) as Hnb. unfold Advance. rewrite (sv_init _ _ _ Hs).
  destruct (new_base_ok T (q_wheel q)) as (-> & Hi & _); [apply (sv_base _ _ _ Hs)|done|].
  cbn [mbind option_bind]. fold (new_base T (q_wheel q)). rewrite Hi, Hnb. by rewrite decide_True by lia.
Qed.

Lemma serves_peek T k q :
  serves T k q → time_inv (q_wheel q) → k ∈ wheel_keys (q_wheel q) →
  currentBase (q_wheel q) = k * secs (q_slotGap q) → PeekMin (q_wheel q) = Some (slot_time k (q_wheel q)).
Proof.
  intros Hs Ht Hk Hb.
  destruct (peek_min_sound (q_wheel q) Ht (sv_init _ _ _ Hs)) as (m & E & Hempty & Hin & Hle).
  { intros k' Hk'. by apply (serves_time T k q k'). }
  rewrite E. f_equal. assert (slot_time k (q_wheel q) = currentBase (q_wheel q)) as Hkb.
  { unfold slot_time. by rewrite (queue_gap _ (sv_queue _ _ _ Hs)). }
  assert (m <= slot_time k (q_wheel q)) as K1.
  { pose proof Hk as Hk'. apply elem_of_wheel_keys in Hk' as [[loc Hloc]|Ho]; [|apply (Hle k 0); by right].
    destruct (rings (q_wheel q) !! 0%nat) as [r|] eqn:Er.
    - rewrite (proj1 (due_in_current (q_wheel q) r k loc Ht Er Hloc)) in Hloc by lia. eapply Hle. by left.
    - pose proof (ro_len _ _ (tb_rings _ (ti_base _ Ht))) as Hlen.
      apply lookup_ge_None in Er. lia. }
  destruct Hin as (k0 & Hk0 & Hm0); [intros ->; set_solver|]. rewrite Hm0 in K1 |- *.
  apply (sv_keys _ _ _ Hs) in Hk0. unfold slot_time in *. rewrite (queue_gap _ (sv_queue _ _ _ Hs)) in *.
  pose proof (qo_gap _ (sv_queue _ _ _ Hs)). nia.
Qed.

(** The slot of the window comes up, as long as the clock reads a time of the
    window. *)
Lemma at_served_slot T k f q c tr n :
  (∀ i, near (unix (now i)) ∧ k * secs (q_slotGap q) <= unix (now i) < (k + 1) * secs (q_slotGap q)) →
  waits k q → k ∈ wheel_keys (q_wheel q) →
  k * secs (q_slotGap q) <= T < (k + 1) * secs (q_slotGap q) → node_at f q c tr n →
  returns GetNextSlot n (λ o n', o = slot_at k f ∧ ∃ w, node_at f (set_wheel w q) c tr n' ∧
    serves T k (set_wheel w q) ∧ currentBase w = k * secs (q_slotGap q)).
Proof.
  intros Hclk Hwt Hk Hwin Hat. pose proof (qo_gap _ (wt_queue _ _ Hwt)) as Hg. pose proof (wt_pos _ _ Hwt) as Hp.
  eapply at_GetNextSlot_peek; [apply Hwt| |exact Hat]. intros i. destruct (Hclk i) as [Hn Hi].
  pose proof (waits_serves (unix (now i)) k q Hwt Hi) as Hs.
  destruct (waits_advance (unix (now i)) k q Hwt Hn) as (w & E & Hwt' & Hkeys & Hbase).
  { apply window_quot; lia. }
  exists w. split; [exact E|]. intros n1 Hn1.
  rewrite (serves_new_base _ _ _ Hs) in Hbase. pose proof (wt_base _ _ Hwt) as Hb.
  pose proof (waits_serves T k (set_wheel w q) Hwt' Hwin) as Hs'.
  assert (k ∈ wheel_keys (q_wheel (set_wheel w q))) as Hk' by (simpl; by rewrite Hkeys).
  assert (currentBase w = k * secs (q_slotGap q)) as Hbase' by lia.
  pose proof (serves_peek T k (set_wheel w q) Hs' (wt_time _ _ Hwt') Hk' Hbase') as Hpk.
  destruct (serves_time T k (set_wheel w q) k Hs' Hk') as [Hpos Hin].
  eapply returns_mono; [eapply (at_earliest_exact _ f (set_wheel w q)); [apply Hs'|exact Hpk|done|exact Hn1]|].
  intros o n2 [-> Hn2]. rewrite decide_False by lia. rewrite (serves_quot T k (set_wheel w q)) by done.
  split; [done|]. by exists w.
Qed.

(** Before the window is over, [GetNextSlot] answers nothing, or slot [k], or
    a later one. *)
Lemma at_early_slot k f q c tr n :
  (∀ i, near (unix (now i)) ∧ unix (now i) < (k + 1) * secs (q_slotGap q)) → waits k q → node_at f q c tr n →
  returns GetNextSlot n (λ o n', (∀ s, o = Some s → ∃ k', k <= k' ∧ slot_at k' f = Some s) ∧
    ∃ w, node_at f (set_wheel w q) c tr n' ∧ waits k (set_wheel w q) ∧ wheel_keys w = wheel_keys (q_wheel q)).
Proof.
  intros Hclk Hwt Hat. pose proof (qo_gap _ (wt_queue _ _ Hwt)) as Hg. pose proof (wt_pos _ _ Hwt) as Hp.
  eapply at_GetNextSlot_peek; [apply Hwt| |exact Hat]. intros i. destruct (Hclk i) as [Hn Hi].
  destruct (waits_advance (unix (now i)) k q Hwt Hn) as (w & E & Hwt' & Hkeys & _).
  { apply window_quot; lia. }
  exists w. split; [exact E|]. intros n1 Hn1.
  assert (∀ k', k' ∈ wheel_keys w → 0 <= slot_time k' w ∧ in64 (slot_time k' w) ∧
    Z.quot (slot_time k' w) (secs (q_slotGap q)) = k' ∧ k <= k') as Htime.
  { intros k' Hk'. pose proof (tb_keys _ (ti_base _ (wt_time _ _ Hwt')) k' Hk') as Hnear.
    apply (wt_keys _ _ Hwt') in Hk'. simpl in Hnear. unfold slot_time in *.
    pose proof (queue_gap _ (wt_queue _ _ Hwt')) as Hgap. simpl in Hgap. rewrite Hgap in *.
    unfold near, horizon, in64, two63 in *. rewrite Z.quot_mul by lia. split_and!; nia. }
  destruct (PeekMin_key w (ti_base _ (wt_time _ _ Hwt')) (wt_init _ _ Hwt')) as (m & Em & Hm).
  { intros k' Hk'. by apply Htime. }
  assert (in64 m) as Him by (destruct Hm as [->|(k' & Hk' & ->)]; [done|by apply Htime]).
  eapply returns_mono; [eapply (at_earliest_exact m f (set_wheel w q)); [apply Hwt'|exact Em|done|exact Hn1]|].
  intros o n2 [-> Hn2]. split; [|by exists w]. intros s Ho. case_decide; [done|].
  destruct Hm as [->|(k' & Hk' & ->)]; [done|]. destruct (Htime k' Hk') as (_ & _ & Hquot & Hle).
  simpl in Ho. rewrite Hquot in Ho. by exists k'.
Qed.

(** A slot that [GetNextSlot] answers is a stored one. *)
Lemma slot_at_stored k f s :
  slot_at k f = Some s → ∃ d, FSM_GetSlot k f = Some d ∧ s_MinTime s = slot_MinTime d ∧
    s_Jobs s = omap (λ id, FSM_GetJob id f) (slot_JobIDs d).
Proof.
  intros Ho. unfold slot_at in Ho. apply bind_Some in Ho as (d & Hd & Ho).
  case_decide; [done|]. injection Ho as <-. by exists d.
Qed.

(** After it only slots that have not begun are left. *)
Lemma at_nothing_more T k f q c tr n :
  (∀ i, in64 (unix (now i)) ∧ k * secs (q_slotGap q) <= unix (now i) < (k + 1) * secs (q_slotGap q)) →
  serves T k q → currentBase (q_wheel q) = k * secs (q_slotGap q) →
  slot_at k f = None → (∀ k' d, k < k' → FSM_GetSlot k' f = Some d → T < slot_MinTime d) →
  node_at f q c tr n →
  returns GetNextSlot n (λ o n', (∀ s, o = Some s → T < s_MinTime s) ∧ node_at f q c tr n').
Proof.
  intros Hclk Hs Hb Hk Hlater Hat.
  eapply at_GetNextSlot_peek; [apply Hs| |exact Hat]. intros i. destruct (Hclk i) as [Hin Hi].
  exists (q_wheel q). split; [by eapply serves_still, Hb; [eapply serves_at|]|]. intros n1 Hn1.
  replace (set_wheel (q_wheel q) q) with q in Hn1 by (by destruct q).
  destruct (PeekMin_key (q_wheel q) (sv_base _ _ _ Hs) (sv_init _ _ _ Hs)) as (m & Em & Hm).
  { intros k' Hk'. by apply (serves_time T k q k'). }
  assert (in64 m) as Him by (destruct Hm as [->|(k' & Hk' & ->)]; [done|by apply (serves_time T k q k')]).
  eapply returns_mono; [by eapply at_earliest_exact; [apply Hs|..]|]. intros o n2 [-> Hn2]. split; [|done].
  intros s Ho. case_decide; [done|]. destruct Hm as [->|(k' & Hk' & ->)]; [done|].
  rewrite (serves_quot T k q) in Ho by done. apply (sv_keys _ _ _ Hs) in Hk'.
  destruct (decide (k' = k)) as [->|Hne]; [congruence|].
  apply slot_at_stored in Ho as (d & Hd & -> & _). apply (Hlater k'); [lia|done].
Qed.

End serving.

(** ** A tick delivers *)

Section delivery.

Context {CS : Type} `{ColdSlotStoreLaws CS} `{GoRange} `{Env} `{HTTP} `{Cron}.

Implicit Types (n : Node CS Queue) (f : FSM CS) (q : Queue) (c : gset string) (tr : list event).

(** A slot with one job that is to run once, at [ts]; nothing is archived. *)
Record one_off_slot (ts k : Z) (d : SlotData) (job : Job) f : Prop := {
  ds_slot : FSM_GetSlot k f = Some d;
  ds_ids : slot_JobIDs d = [job_ID job];
  ds_began : slot_MinTime d <= ts;
  ds_stored : f_jobs f !! job_ID job = Some job;
  ds_name : job_ID job ≠ "";
  ds_once : job_Type job = JobUnico;
  ds_due : job_Timestamp job = Some ts;
  ds_hot : f_coldStore f = None }.

(** A webhook that can be called, and what it answers. *)
Record callable (job : Job) (r : Reply) : Prop := {
  cl_url : job_WebhookURL job ≠ "";
  cl_request : http_NewRequest (job_WebhookURL job) = None;
  cl_body : ∀ t, plain (webhook_body job t);
  cl_reply : ∀ i, reply i = r;
  cl_code : in64 (verdict r).1 }.

Lemma serves_taken T k f q f' q' : serves T k q → taken f q f' q' → serves T k q'.
Proof.
  intros [Hq Hb Hi Hk Hp Hw] [_ _ _ Hq' Hg Hs Hsub _]. pose proof (skel_clock _ _ Hs) as (_ & _ & Hi' & _).
  split; try done.
  - eapply time_base_sub; [exact Hb|apply Hq'|done|done].
  - congruence.
  - intros k' Hk'. by apply Hk, Hsub.
  - by rewrite Hg.
Qed.

Lemma shrinks_trans f1 f2 f3 : shrinks f1 f2 → shrinks f2 f3 → shrinks f1 f3.
Proof.
  intros K12 K23 k d3 Hd3. destruct (K23 _ _ Hd3) as (d2 & Hd2 & E2 & M2 & O2 & J2).
  destruct (K12 _ _ Hd2) as (d1 & Hd1 & E1 & M1 & O1 & J1). exists d1.
  split_and!; [done|congruence|congruence|auto|set_solver].
Qed.

Lemma shrinks_slots_ok f f' : shrinks f f' → slots_ok f → slots_ok f'.
Proof.
  intros Hs Hf k d Hd. destruct (Hs _ _ Hd) as (d0 & Hd0 & E & _ & O & _). destruct (Hf _ _ Hd0) as [Hk Hok].
  split; [congruence|auto].
Qed.

Lemma omap_all_none {A B} (g : A → option B) l : (∀ x, x ∈ l → g x = None) → omap g l = [].
Proof. induction l as [|x l IH]; intros Hg; [done|]. simpl. rewrite Hg by set_solver. apply IH. set_solver. Qed.

Lemma slot_at_gone k id f f' d :
  FSM_GetSlot k f = Some d → slot_JobIDs d = [id] → shrinks f f' → f_jobs f' !! id = None → slot_at k f' = None.
Proof.
  intros Hd Hids Hs Hj. unfold slot_at. destruct (FSM_GetSlot k f') as [d'|] eqn:Ed; [|done]. simpl.
  destruct (Hs _ _ Ed) as (d0 & Hd0 & _ & _ & _ & Hsub). assert (d0 = d) as -> by congruence.
  rewrite omap_all_none; [done|]. intros x Hx. apply Hsub in Hx. rewrite Hids in Hx.
  apply list_elem_of_singleton in Hx as ->. unfold FSM_GetJob. by rewrite Hj.
Qed.

(** The execution of the job: only its entry changes, and the webhook is
    called. *)
Lemma at_executeJob em job s r f q c tr n :
  healthy_env → fsm_inv f → callable job r → f_executionStates f !! job_ID job = Some s → claimable (Some s) →
  i64 (es_AttemptCount s + 1) <= em_maxAttempts em → node_at f q c tr n →
  returns (executeJob em job) n (λ _ n', ∃ s' c' tr' t,
    node_at (set_executionStates (<[job_ID job := s']> (f_executionStates f)) f) q c' tr' n' ∧
    webhooks tr' = webhooks tr ++ [call_of job (webhook_body job t)]).
Proof.
  intros He Hinv [Hu Hreq Hb Hr Hc] Hs Hcl Hmax [i ->].
  destruct (Execute_yields em job s r (mkNode f q c i tr)) as (start & fin & ms & t1 & t2 & n' & E & Hst & t & Ht);
    [done..|]. unfold executeJob. apply returns_bind. eexists _, n'. split; [exact E|]. apply returns_ret.
  destruct (calm_Execute (CS := CS) (Q := Queue) He em job (mkNode f q c i tr)) as (e' & n2 & E2 & Hq & m & Hm).
  rewrite E in E2. injection E2 as _ <-. unfold node_states in Hst. simpl in *.
  eexists _, (n_cancelFuncs n'), (n_trace n'), t. split; [|exact Ht].
  exists (n_step n'). rewrite Hm in Hst. simpl in Hst. destruct n'. simpl in *. subst. reflexivity.
Qed.

(** Taking the job out of store and queue. *)
Lemma at_remove_job id job f q c tr n :
  healthy_env → queue_ok q → slots_ok f → id ≠ "" → job_ID job = id → f_jobs f !! id = Some job →
  f_coldStore f = None → node_at f q c tr n →
  returns (remove_job id) n (λ _ n', ∃ f' q', node_at f' q' c tr n' ∧
    (∀ T k, serves T k q → serves T k q') ∧ currentBase (q_wheel q') = currentBase (q_wheel q) ∧
    q_slotGap q' = q_slotGap q ∧ same_jobs (without_job id f) f' ∧ shrinks f f').
Proof.
  intros He Hq Hf Hid Hname Hj Hcold Hn. unfold remove_job. apply returns_bind.
  assert (∀ k, FSM_GetSlot k (without_job id f) = FSM_GetSlot k f) as Hsl by apply without_job_slot.
  assert (f_coldStore (without_job id f) = None) as Hcold' by (by rewrite without_job_eq).
  eapply at_when_leader; [done|exact Hn|]. intros n1 Hn1.
  eapply returns_mono; [eapply at_DeleteJob; [done|exact Hq|exact Hf|done|exact Hname|done|by right|exact Hn1]|].
  intros e n2 (_ & f2 & q2 & Hn2 & Ht2). destruct (tk_slots _ _ _ _ Ht2 Hcold') as [Hc2 Hs2].
  assert (shrinks f f2) as Hs2' by (intros k' d' Hd'; destruct (Hs2 _ _ Hd') as (d0 & Hd0 & ?); exists d0; by rewrite <-Hsl).
  eapply returns_mono; [eapply (at_RemoveJob_any id f2 q2 c tr);
    [done|apply Ht2|by eapply shrinks_slots_ok|by right|exact Hn2]|].
  intros [] n3 (f3 & q3 & Hn3 & Ht3). destruct (tk_slots _ _ _ _ Ht3 Hc2) as [_ Hs3].
  destruct (skel_clock _ _ (tk_skel _ _ _ _ Ht2)) as (_ & Hb2 & _).
  destruct (skel_clock _ _ (tk_skel _ _ _ _ Ht3)) as (_ & Hb3 & _).
  destruct (tk_jobs _ _ _ _ Ht2) as [Hj2 Hst2], (tk_jobs _ _ _ _ Ht3) as [Hj3 Hst3].
  exists f3, q3. split_and!; [done| |congruence| | |by eapply shrinks_trans].
  - intros T k Hsv. eapply serves_taken; [|exact Ht3]. by eapply serves_taken.
  - rewrite (tk_gap _ _ _ _ Ht3). apply Ht2.
  - split; congruence.
Qed.

(** The clock reads only times of [P]. *)
Definition clock_in (P : Z → Prop) : Prop := ∀ i, near (unix (now i)) ∧ P (unix (now i)).

(** The slot that comes first in the tick. *)
Lemma at_due_slot em T ts k d job s r f q c tr n :
  healthy_env → clock_in (λ t, k * secs (q_slotGap q) <= t < (k + 1) * secs (q_slotGap q)) →
  waits k q → k ∈ wheel_keys (q_wheel q) →
  k * secs (q_slotGap q) <= T < (k + 1) * secs (q_slotGap q) → ts <= T →
  one_off_slot ts k d job f → slots_ok f → fsm_inv f → callable job r →
  f_executionStates f !! job_ID job = Some s → claimable (Some s) →
  i64 (es_AttemptCount s + 1) <= em_maxAttempts em → node_at f q c tr n →
  returns (process_slot em T) n (λ more n', more = true ∧ ∃ f' q' c' tr' t, node_at f' q' c' tr' n' ∧
    webhooks tr' = webhooks tr ++ [call_of job (webhook_body job t)] ∧
    f_jobs f' = delete (job_ID job) (f_jobs f) ∧
    f_executionStates f' = delete (job_ID job) (f_executionStates f) ∧ shrinks f f' ∧
    serves T k q' ∧ currentBase (q_wheel q') = k * secs (q_slotGap q') ∧ q_slotGap q' = q_slotGap q).
Proof.
  intros He Hclk Hwt Hk Hwin Hle [Hsl Hids Hbeg Hst Hname Honce Hts Hhot] Hok Hinv Hcall Hs Hcl Hmax Hn.
  unfold process_slot. apply returns_bind.
  eapply returns_mono; [by eapply at_served_slot|]. intros o n1 (-> & w & Hn1 & Hsv1 & Hb1).
  assert (slot_at k f = Some (mkSlot k (slot_MinTime d) (slot_MaxTime d) [job])) as ->.
  { unfold slot_at. rewrite Hsl. simpl. rewrite Hids. simpl. unfold FSM_GetJob. rewrite Hst. simpl. by rewrite Job_Clone_id. }
  simpl. rewrite decide_False by lia. apply returns_bind, returns_bind.
  unfold process_job. unfold shouldExecuteJob. rewrite Hts, decide_True, bool_decide_true by done.
  apply returns_bind. eapply returns_mono; [by eapply at_executeJob|].
  intros [] n2 (s' & c' & tr' & t & Hn2 & Hcalls). rewrite decide_True by done. do 2 apply returns_ret. simpl.
  apply returns_bind, returns_bind. set (f2 := set_executionStates _ f) in *.
  eapply returns_mono; [eapply (at_remove_job (job_ID job) job f2 (set_wheel w q) c' tr');
    [done|apply Hsv1|exact Hok|done|done|exact Hst|exact Hhot|exact Hn2]|].
  intros [] n3 (f3 & q3 & Hn3 & Hsv3 & Hb3 & Hg3 & [Hj3 Hst3] & Hsh). apply returns_ret, returns_bind, returns_ret, returns_ret.
  rewrite without_job_eq in Hj3, Hst3 by done. simpl in Hj3, Hst3, Hb3, Hg3. split; [done|].
  exists f3, q3, c', tr', t. split_and!; [done|done|done| |exact Hsh|by apply Hsv3|congruence|done].
  by rewrite Hst3, delete_insert_eq.
Qed.

(** The call after it ends the tick. *)
Lemma at_no_slot em T k f q c tr n :
  clock_in (λ t, k * secs (q_slotGap q) <= t < (k + 1) * secs (q_slotGap q)) →
  serves T k q → currentBase (q_wheel q) = k * secs (q_slotGap q) →
  slot_at k f = None → (∀ k' d, k < k' → FSM_GetSlot k' f = Some d → T < slot_MinTime d) →
  node_at f q c tr n →
  returns (process_slot em T) n (λ more n', more = false ∧ node_at f q c tr n').
Proof.
  intros Hclk Hsv Hb Hk Hlat Hn. unfold process_slot. apply returns_bind.
  eapply returns_mono; [eapply at_nothing_more; try done|].
  { intros i. destruct (Hclk i) as [Hnear Hi]. split; [|done]. unfold near, horizon, in64, two63 in *. lia. }
  intros o n1 [Ho Hn1].
  destruct o as [sl|]; [|by apply returns_ret]. rewrite decide_True by (by apply Ho). by apply returns_ret.
Qed.

(** One tick in the window. *)
Lemma at_due_tick em ts k d job s r f q c tr n :
  healthy_env → clock_in (λ t, ts <= t < (k + 1) * secs (q_slotGap q)) → k * secs (q_slotGap q) <= ts →
  waits k q → k ∈ wheel_keys (q_wheel q) →
  (∀ k' d', k < k' → FSM_GetSlot k' f = Some d' → (k + 1) * secs (q_slotGap q) <= slot_MinTime d') →
  one_off_slot ts k d job f → slots_ok f → fsm_inv f → callable job r →
  f_executionStates f !! job_ID job = Some s → claimable (Some s) →
  i64 (es_AttemptCount s + 1) <= em_maxAttempts em → node_at f q c tr n →
  returns (processSlots em) n (λ _ n', ∃ t,
    webhooks (n_trace n') = webhooks tr ++ [call_of job (webhook_body job t)] ∧
    f_jobs (n_fsm n') = delete (job_ID job) (f_jobs f) ∧
    f_executionStates (n_fsm n') = delete (job_ID job) (f_executionStates f)).
Proof.
  intros He Hclk Hts Hwt Hk Hlat Hds Hok Hinv Hcall Hs Hcl Hmax [i ->].
  assert (clock_in (λ t, k * secs (q_slotGap q) <= t < (k + 1) * secs (q_slotGap q))) as Hwin
    by (intros j; destruct (Hclk j); split; [done|lia]).
  unfold processSlots. apply returns_bind. unfold Now, TimeNow, ask, mthen, mreturn. eexists _, _. split; [done|].
  cbn [n_step]. destruct (Hclk i) as [_ HT], (Hwin i) as [_ HTw]. set (T := unix (now i)) in *.
  change 10%nat with (S (S 8)). cbn [process_slots]. apply returns_bind.
  eapply returns_mono; [eapply (at_due_slot em T ts k d job s r f q c tr); try done; [lia|by exists (S i)]|].
  intros more n2 (-> & f2 & q2 & c2 & tr2 & t & Hn2 & Hcalls & Hj2 & Hst2 & Hsh & Hsv2 & Hb2 & Hg2).
  apply returns_bind. eapply returns_mono; [eapply (at_no_slot em T k f2 q2 c2 tr2); try done|].
  - by rewrite Hg2.
  - eapply slot_at_gone; [apply Hds|apply Hds|exact Hsh|]. by rewrite Hj2, lookup_delete_eq.
  - intros k' d' Hlt Hd'. destruct (Hsh _ _ Hd') as (d0 & Hd0 & _ & -> & _). specialize (Hlat k' d0 Hlt Hd0). lia.
  - intros more n3 [-> [i3 ->]]. apply returns_ret. by exists t.
Qed.

(** One tick before it. *)
Lemma at_early_tick em ts k d job f q c tr n :
  clock_in (λ t, t < ts) → ts <= (k + 1) * secs (q_slotGap q) → waits k q → one_off_slot ts k d job f →
  (∀ k' d', k < k' → FSM_GetSlot k' f = Some d' → (k + 1) * secs (q_slotGap q) <= slot_MinTime d') →
  node_at f q c tr n →
  returns (processSlots em) n (λ _ n', ∃ w, node_at f (set_wheel w q) c tr n' ∧
    waits k (set_wheel w q) ∧ wheel_keys w = wheel_keys (q_wheel q)).
Proof.
  intros Hclk Hts Hwt [Hsl Hids _ Hst _ Honce Hdue _] Hlat [i ->]. unfold processSlots. apply returns_bind.
  unfold Now, TimeNow, ask, mthen, mreturn. eexists _, _. split; [done|]. cbn [n_step].
  destruct (Hclk i) as [_ HT]. set (T := unix (now i)) in *.
  change 10%nat with (S 9). cbn [process_slots]. apply returns_bind. unfold process_slot. apply returns_bind.
  eapply returns_mono; [eapply (at_early_slot k f q c tr); [|done|by exists (S i)]|].
  { intros j. destruct (Hclk j). split; [done|lia]. }
  intros o n1 (Ho & w & Hn1 & Hw). destruct o as [sl|]; [|do 2 apply returns_ret; by exists w].
  destruct (Ho sl eq_refl) as (k' & Hle & Hsl'). apply slot_at_stored in Hsl' as (d' & Hd' & Hmin & Hjobs).
  case_decide as Hnot; [do 2 apply returns_ret; by exists w|].
  destruct (decide (k' = k)) as [->|Hne].
  2:{ specialize (Hlat k' d' ltac:(lia) Hd'). lia. }
  rewrite Hsl in Hd'. injection Hd' as <-. rewrite Hjobs, Hids. simpl. unfold FSM_GetJob. rewrite Hst. simpl.
  rewrite Job_Clone_id. do 2 apply returns_bind. unfold process_job, shouldExecuteJob.
  rewrite Hdue, decide_True, bool_decide_false by (done || lia).
  do 2 apply returns_ret. apply returns_bind, returns_ret, returns_bind, returns_ret.
  do 2 apply returns_ret. by exists w.
Qed.

End delivery.

(** ** Ticks until a job is delivered *)

Section ticks.

Context {CS : Type} `{ColdSlotStoreLaws CS} `{GoRange} `{HTTP} `{Cron}.

Implicit Types (n : Node CS Queue) (f : FSM CS) (q : Queue).

(** A healthy environment whose clock stands at [T] for the length of a
    tick. *)
Record stands_at (T : Z) (env : Env) : Prop := {
  sa_healthy : @healthy_env env;
  sa_clock : ∀ i, unix (@now env i) = T;
  sa_near : near T }.

(** A healthy environment whose clock reads only times of [P]. *)
Record clocked (P : Z → Prop) (env : Env) : Prop := {
  ck_healthy : @healthy_env env;
  ck_clock : @clock_in env P }.

(** Ticks of the worker, each in its own environment. *)
Definition run_ticks (em : ExecutionManager) (envs : list Env) n : option (Node CS Queue) :=
  ofold (λ env n, snd <$> @processSlots CS _ _ env _ _ em n) envs n.

Lemma early_ticks em ts k d job envs f q c tr n :
  waits k q → Forall (clocked (λ t, t < ts)) envs → ts <= (k + 1) * secs (q_slotGap q) → one_off_slot ts k d job f →
  (∀ k' d', k < k' → FSM_GetSlot k' f = Some d' → (k + 1) * secs (q_slotGap q) <= slot_MinTime d') →
  node_at f q c tr n →
  ∃ n' w, run_ticks em envs n = Some n' ∧ node_at f (set_wheel w q) c tr n' ∧
    waits k (set_wheel w q) ∧ wheel_keys w = wheel_keys (q_wheel q).
Proof.
  intros Hwt Henvs Hts Hds Hsl Hn. revert q n Hwt Henvs Hts Hsl Hn.
  induction envs as [|env envs IH]; intros q n Hwt Henvs Hts Hsl Hn.
  { exists n, (q_wheel q). replace (set_wheel (q_wheel q) q) with q by (by destruct q). done. }
  apply Forall_cons in Henvs as [[_ Hclk] Henvs].
  destruct (@at_early_tick CS _ _ env _ _ em ts k d job f q c tr n Hclk Hts Hwt Hds Hsl Hn)
    as ([] & n1 & E & w & Hn1 & Hw1 & Hk1).
  destruct (IH (set_wheel w q) n1) as (n' & w' & E' & Hn' & Hw' & Hk'); [done..|].
  exists n', w'. unfold run_ticks in *. simpl. rewrite E. simpl. split_and!; [done|done|done|]. rewrite Hk'. exact Hk1.
Qed.

(** A scheduled job is delivered, once. The leader is healthy, its wheel
    keeps time, and a slot with one one-off job is the first on it. However
    many ticks the worker makes before the job is due, whatever the clock reads
    during them, they return, call no webhook and leave the store as it is;
    one tick between the time of the job and the end of the window of its slot
    calls exactly one webhook: that of the job, whatever it answers. Then the
    job and its status are gone from the store, and every other job and status
    is as it was. *)
Theorem scheduled_job_is_delivered em envs env ts k d job s r n :
  waits k (n_queue n) → k ∈ wheel_keys (q_wheel (n_queue n)) →
  Forall (clocked (λ t, t < ts)) envs →
  clocked (λ t, ts <= t < (k + 1) * secs (q_slotGap (n_queue n))) env →
  k * secs (q_slotGap (n_queue n)) <= ts <= (k + 1) * secs (q_slotGap (n_queue n)) →
  (∀ k' d', k < k' → FSM_GetSlot k' (n_fsm n) = Some d' →
     (k + 1) * secs (q_slotGap (n_queue n)) <= slot_MinTime d') →
  one_off_slot ts k d job (n_fsm n) → slots_ok (n_fsm n) → fsm_inv (n_fsm n) → @callable env _ job r →
  f_executionStates (n_fsm n) !! job_ID job = Some s → claimable (Some s) →
  i64 (es_AttemptCount s + 1) <= em_maxAttempts em →
  ∃ n1 n2 t, run_ticks em envs n = Some n1 ∧ n_trace n1 = n_trace n ∧ n_fsm n1 = n_fsm n ∧
    run_ticks em [env] n1 = Some n2 ∧
    webhooks (n_trace n2) = webhooks (n_trace n) ++ [call_of job (webhook_body job t)] ∧
    f_jobs (n_fsm n2) = delete (job_ID job) (f_jobs (n_fsm n)) ∧
    f_executionStates (n_fsm n2) = delete (job_ID job) (f_executionStates (n_fsm n)).
Proof.
  intros Hwt Hk Henvs [He Hclk] Hwin Hsl Hds Hok Hinv Hcall Hs Hcl Hmax.
  destruct (early_ticks em ts k d job envs (n_fsm n) (n_queue n) (n_cancelFuncs n) (n_trace n) n)
    as (n1 & w & E1 & Hn1 & Hw1 & Hk1); [done|done|lia|done|done|apply at_node|].
  destruct (@at_due_tick CS _ _ env _ _ em ts k d job s r (n_fsm n) (set_wheel w (n_queue n)) (n_cancelFuncs n) (n_trace n) n1)
    as ([] & n2 & E & t & Hr); try done; [simpl; lia|simpl; by rewrite Hk1|].
  exists n1, n2, t. split; [done|]. destruct Hn1 as [i ->]. do 2 (split; [done|]). split; [|done].
  unfold run_ticks. simpl. by rewrite E.
Qed.

End ticks.

(** ** A concrete delivery *)

(** A job due at 52, filed in slot 5 of a ten-second queue. *)
Definition ex_due_job : Job := mkJob "a" "unico" (Some 52) "" None 5 "http://w" None.

Definition ex_due_fsm : FSM MemBolt :=
  (applyCommandInternal (cmd_create_slot (mkSlotData 5 50 60 ["a"]))
    (applyCommandInternal (cmd_create_job ex_due_job) NewFSM).2).2.

Lemma ex_due_slots k d : FSM_GetSlot k ex_due_fsm = Some d → k = 5 ∧ d = mkSlotData 5 50 60 ["a"].
Proof.
  assert (f_slots ex_due_fsm = {[5 := mkSlotData 5 50 60 ["a"]]}) as E by (vm_compute; reflexivity).
  assert (f_coldSlotMeta ex_due_fsm = ∅) as E' by (vm_compute; reflexivity).
  unfold FSM_GetSlot. rewrite E, E'. destruct (decide (k = 5)) as [->|Hne].
  - rewrite lookup_singleton_eq. by intros [= <-].
  - rewrite lookup_singleton_ne by done. by rewrite lookup_empty.
Qed.

Lemma ex_due_waits : waits 5 ex_queue.
Proof.
  split; [exact ex_queue_ok|apply ex_wheel_time|apply ex_wheel_time| |lia|].
  - intros k. change (q_wheel ex_queue) with ex_wheel. rewrite (proj2 (proj2 ex_wheel_ok)). set_solver by lia.
  - vm_compute. congruence.
Qed.

Lemma clock_stands_at t : in64 t → near t → stands_at t (clock_env t).
Proof.
  intros Ht Hn. assert (∀ i, unix (@now (clock_env t) i) = t) as Hu by (intros i; apply Z.div_mul; done).
  split; [|done|done]. split; try done. intros i. by rewrite Hu.
Qed.

Lemma ex_stands_at t : -1000000 < t < 1000000 → stands_at t (clock_env t).
Proof. intros Ht. apply clock_stands_at; [unfold in64, two63; lia|by apply near_small]. Qed.

(** A clock that starts at [t], moves on by a second with every reading, and
    stops after [d] seconds. *)
Definition moving_env (t d : Z) : Env :=
  mkEnv (λ _, true) (λ i, (t + Z.min (Z.of_nat i) d) * Second) (λ _, Committed) (λ _, []) (λ _, inl [])
    (λ _, None) (λ _, inl 200).

Lemma moving_clocked (P : Z → Prop) t d :
  0 <= t → 0 <= d → t + d < 1000000 → (∀ x, t <= x <= t + d → P x) → clocked P (moving_env t d).
Proof.
  intros Ht Hd Htd HP.
  assert (∀ i, ∃ x, unix (@now (moving_env t d) i) = x ∧ t <= x <= t + d) as Hu.
  { intros i. eexists. split; [apply Z.div_mul; done|]. lia. }
  split; [split; try done|]; intros i; destruct (Hu i) as (x & E & Hx); rewrite E.
  - unfold in64, two63. lia.
  - split; [apply near_small; lia|by apply HP].
Qed.

Lemma scheduled_job_is_delivered_witness :
  ∃ n1 n2 t, @run_ticks MemBolt _ sorted_range ex_http every_minute ex_em [moving_env 30 15; moving_env 49 2]
      (ex_qnode ex_due_fsm) = Some n1 ∧ webhooks (n_trace n1) = [] ∧
    @run_ticks MemBolt _ sorted_range ex_http every_minute ex_em [moving_env 55 3] n1 = Some n2 ∧
    webhooks (n_trace n2) = [call_of ex_due_job (webhook_body ex_due_job t)] ∧ f_jobs (n_fsm n2) = ∅.
Proof.
  destruct (@scheduled_job_is_delivered MemBolt _ sorted_range ex_http every_minute ex_em [moving_env 30 15; moving_env 49 2]
    (moving_env 55 3) 52 5 (mkSlotData 5 50 60 ["a"]) ex_due_job (pending_state "a" 5) (inl 200) (ex_qnode ex_due_fsm))
    as (n1 & n2 & t & E1 & Ht & _ & E2 & Hw & Hj & _).
  - exact ex_due_waits.
  - change (5 ∈ wheel_keys ex_wheel). rewrite (proj2 (proj2 ex_wheel_ok)). set_solver.
  - do 2 (apply Forall_cons_2; [apply moving_clocked; lia|]). apply Forall_nil_2.
  - apply moving_clocked; try lia. intros x Hx. vm_compute (secs _). lia.
  - vm_compute. split; congruence.
  - intros k' d' Hk' [-> ->]%ex_due_slots. lia.
  - split; vm_compute; congruence.
  - intros k d [-> ->]%ex_due_slots. split; [reflexivity|]. vm_compute. split_and!; congruence.
  - do 2 apply apply_inv. exact ex_new_inv.
  - split; [discriminate|reflexivity|reflexivity|reflexivity|vm_compute; split; congruence].
  - vm_compute. reflexivity.
  - vm_compute. reflexivity.
  - vm_compute. congruence.
  - exists n1, n2, t. split; [exact E1|]. split; [by rewrite Ht|]. split; [exact E2|]. split; [exact Hw|].
    rewrite Hj. vm_compute. reflexivity.
Defined.
