(* ===== verification/Restart.v ===== *)
(** * A node that starts, and a node that takes over

    The wheel of a queue is memory of one process ([persistent_slots.go]):
    [NewPersistentSlotQueue] makes an empty one, the handler of [app.go] files
    the jobs that this node accepts while it leads, and [LoadJobs] would file
    those in the store. [Start] and [becomeLeader] of [app.go] announce to
    load the jobs and do not; nothing else calls [LoadJobs]. What follows is
    that composition: a fresh queue, the log replayed or a snapshot installed
    behind it, and the ticks of the worker. *)

From S2P Require Import Prelude GoStrings GoFloat Json Types Codec ColdStore FSM Snapshot.
From S2P Require Import TimingWheel WheelProps WheelTime Store StoreProps SlotQueue SlotQueueProps.
From S2P Require Import ExecutionManager Worker Delivery.

Section empty_wheel.

Context `{GoRange}.

Lemma range_set_empty {A} `{Countable A} : range_set (∅ : gset A) = [].
Proof.
  destruct (range_set ∅) as [|x l] eqn:E; [done|].
  assert (x ∈ range_set (∅ : gset A)) as Hx%elem_of_range_set by (rewrite E; constructor). set_solver.
Qed.

(** Without keys every bucket that [PeekMin] looks at is empty. *)
Lemma PeekMin_empty w : peekable w → wheel_keys w = ∅ → PeekMin w = Some (-1).
Proof.
  intros Hw Hk. unfold PeekMin. destruct (initialized w); [|done].
  assert (overflow w = ∅) as ->.
  { apply set_eq. intros k. split; [|set_solver]. intros Hin. rewrite <-Hk. apply elem_of_wheel_keys. by right. }
  assert (∀ i L b B, levels w !! i = Some L → go_index (buckets L) b = Some B → B = ∅) as Hempty.
  { intros i L b B HL HB. apply set_eq. intros k. split; [|set_solver]. intros Hin. rewrite <-Hk.
    apply elem_of_wheel_keys. left. exists (mkLoc (Z.of_nat i) b). unfold at_loc, bucket_of.
    cbn [level bucket]. rewrite go_index_of_nat, HL. simpl. by rewrite HB. }
  destruct (ofold_ind (λ _ m, m = -1)
    (λ L m, B ← first_bucket (S (Z.to_nat (bucketCount L))) 0 L;
            Some (min_times (slotGapSeconds w) m (range_set B))) (levels w) (-1))
    as (m & E & ->); [done| |].
  - intros l1 L l2 m Hl ->. assert (L ∈ levels w) as HL by (rewrite Hl; set_solver).
    destruct (Hw L HL) as [HLw Hh]. apply list_elem_of_lookup_1 in HL as [i HL].
    destruct (first_bucket_some L HLw Hh) as (B & -> & HC).
    assert (B = ∅) as -> by (destruct HC as [[-> _]|(b & _ & HB & _)]; [done|by eapply Hempty]).
    simpl. by rewrite range_set_empty; eauto.
  - rewrite E. simpl. by rewrite range_set_empty.
Qed.

End empty_wheel.

(** A queue that holds nothing: as [NewPersistentSlotQueue] made it, or with a
    clock that has been set. *)
Record idle (q : Queue) : Prop := {
  id_queue : queue_ok q;
  id_keys : wheel_keys (q_wheel q) = ∅;
  id_wheel : if initialized (q_wheel q) then time_inv (q_wheel q)
             else ∃ s, 1 <= s <= 1000000 ∧ q_wheel q = default_wheel s }.

(** What [NewPersistentSlotQueue] makes of a gap of [s] seconds. *)
Lemma new_queue_default s q :
  1 <= s <= 1000000 → NewPersistentSlotQueue (s * Second) = Some q → q = mkQueue (s * Second) ∅ (default_wheel s) 0.
Proof.
  intros Hs E. unfold NewPersistentSlotQueue in E. rewrite decide_False in E by (unfold Second; lia).
  replace (NewHierarchicalTimingWheel (s * Second) (DefaultWheelConfigs (s * Second)))
    with (Some (default_wheel s)) in E by (by rewrite <-(new_default_wheel s Hs)).
  by injection E as <-.
Qed.

Lemma new_queue_idle s q :
  1 <= s <= 1000000 → NewPersistentSlotQueue (s * Second) = Some q → idle q.
Proof.
  intros Hs ->%new_queue_default; [|done]. destruct (default_wheel_ok s Hs) as (Hw & _ & Hk).
  split; [split; simpl; [rewrite secs_gap by done; lia|done|done]|done|by exists s].
Qed.

(** ** Ticks of an idle queue *)

Section idle_ticks.

Context {CS : Type} `{ColdSlotStore CS} `{GoRange} `{Env} `{HTTP} `{Cron}.

Implicit Types (n : Node CS Queue) (f : FSM CS) (q : Queue) (c : gset string) (tr : list event).

Hypothesis Hnear : ∀ i, near (unix (now i)).

Lemma clocks_in64 i : in64 (unix (now i)).
Proof. specialize (Hnear i). unfold near, horizon, in64, two63 in *. lia. Qed.

Lemma at_Now_near f q c tr n :
  node_at f q c tr n → returns Now n (λ t n', near t ∧ node_at f q c tr n').
Proof.
  intros [i ->]. unfold Now, TimeNow, ask, mthen, mreturn. eexists _, _. split; [done|].
  split; [apply Hnear|by eexists].
Qed.

Lemma idle_set_wheel q w :
  idle q → wheel_ok w → slotGap w = slotGap (q_wheel q) → wheel_keys w = ∅ → initialized w = true →
  time_inv w → idle (set_wheel w q).
Proof.
  intros Hq Hw Hg Hk Hi Ht. split; [apply queue_ok_wheel; [apply Hq|done|done]|done|].
  simpl. by rewrite Hi.
Qed.

Lemma idle_ensure_init f q c tr n :
  idle q → node_at f q c tr n →
  returns ensure_init n (λ _ n', ∃ q', node_at f q' c tr n' ∧ idle q' ∧ initialized (q_wheel q') = true ∧
    q_slotGap q' = q_slotGap q).
Proof.
  intros Hq Hn. pose proof Hn as [i ->]. unfold ensure_init. apply returns_bind, returns_gets. simpl.
  pose proof (id_wheel _ Hq) as Hw. destruct (initialized (q_wheel q)) eqn:Hi.
  { apply returns_ret. by exists q. }
  apply returns_bind. eapply returns_mono; [by apply at_Now_near|]. intros t n1 [Ht Hn1].
  destruct Hw as (s & Hs & Ew).
  destruct (init_time s t Hs Ht) as (w & E & Htw & _ & _ & Hiw & _ & Hk & _).
  destruct (Init_ok t (q_wheel q)) as (w' & E' & Hok & _ & _ & Hg & _);
    [apply (id_queue _ Hq)|unfold near, horizon, in64, two63 in *; lia|].
  rewrite Ew, E in E'. injection E' as <-.
  eapply returns_mono; [eapply at_on_wheel_; [exact Hn1|by rewrite Ew]|].
  intros [] n2 Hn2. exists (set_wheel w q). split; [exact Hn2|]. split; [|done].
  by apply idle_set_wheel.
Qed.

Lemma idle_Advance t q :
  near t → idle q → initialized (q_wheel q) = true →
  ∃ w, Advance t (q_wheel q) = Some ([], w) ∧ idle (set_wheel w q) ∧ initialized w = true.
Proof.
  intros Hn Hq Hi. pose proof (id_wheel _ Hq) as Ht. rewrite Hi in Ht. pose proof (id_queue _ Hq) as Hok.
  destruct (Advance_time t (q_wheel q) Ht Hi Hn) as (ready & w & E & Htw & _).
  destruct (Advance_releases t (q_wheel q)) as (r' & w' & E' & Hw & Hc & (Hrel & Hloc & _) & Hg & Hiw & _);
    [apply (qo_wheel _ Hok)..|unfold near, horizon, in64, two63 in *; lia|].
  rewrite E in E'. injection E' as <- <-. rewrite (id_keys _ Hq) in Hrel.
  assert (ready = []) as -> by (destruct ready as [|x l]; [done|]; specialize (Hrel x); set_solver).
  assert (wheel_keys w = ∅) as Hk by (apply set_eq; intros x; specialize (Hrel x); set_solver).
  exists w. split; [done|]. split; [|congruence]. apply idle_set_wheel; try done; [|congruence].
  split; [done..|]. apply Hloc, Hok.
Qed.

Lemma idle_GetNextSlot f q c tr n :
  idle q → node_at f q c tr n →
  returns GetNextSlot n (λ o n', o = None ∧ ∃ q', node_at f q' c tr n' ∧ idle q').
Proof.
  intros Hq Hn. unfold GetNextSlot. apply returns_bind.
  eapply returns_mono; [by apply idle_ensure_init|]. intros [] n1 (q1 & Hn1 & Hq1 & Hi & _).
  apply returns_bind. eapply returns_mono; [by apply at_Now_near|]. intros t n2 [Ht [i ->]].
  apply returns_bind, returns_gets. simpl. apply returns_bind.
  destruct (idle_Advance t q1 Ht Hq1 Hi) as (w & E & Hq2 & Hiw).
  unfold on_wheel. apply returns_bind, returns_gets. simpl. apply returns_bind.
  eapply returns_lift; [exact E|]. apply returns_bind, returns_modify, returns_ret. simpl.
  apply returns_bind, returns_ret.
  eapply returns_mono; [apply (at_earliest_exact (-1) f (set_wheel w q1) c tr)|].
  - apply Hq2.
  - pose proof (id_wheel _ Hq2) as Htw. simpl in Htw. rewrite Hiw in Htw. apply PeekMin_empty; [by apply peekable_time|apply Hq2].
  - unfold in64, two63. lia.
  - by eexists.
  - intros o n3 [-> Hn3]. split; [done|]. by exists (set_wheel w q1).
Qed.

Lemma idle_queue_tick em f q c tr n :
  idle q → node_at f q c tr n →
  returns (processSlots em) n (λ _ n', ∃ q', node_at f q' c tr n' ∧ idle q').
Proof.
  intros Hq Hn. unfold processSlots. apply returns_bind.
  eapply returns_mono; [by apply at_Now_near|]. intros t n1 [_ Hn1].
  change 10%nat with (S 9). cbn [process_slots]. apply returns_bind. unfold process_slot.
  apply returns_bind. eapply returns_mono; [by eapply idle_GetNextSlot|].
  intros o n2 [-> Hn2]. by do 2 apply returns_ret.
Qed.

End idle_ticks.

(** ** What a process that starts goes through *)

(** A tick of its worker, a log entry that Raft hands to it, a snapshot that
    Raft installs. *)
Inductive happening :=
  | Tick (env : Env)
  | Entry (data : json)
  | Install (doc : json).

Section happenings.

Context {CS : Type} `{ColdSlotStore CS} `{GoRange} `{HTTP} `{Cron}.

Implicit Types (n : Node CS Queue) (f : FSM CS).

Definition happen (em : ExecutionManager) (h : happening) n : option (Node CS Queue) :=
  match h with
  | Tick env => snd <$> @processSlots CS _ _ env _ _ em n
  | Entry data => Some (set_fsm (FSM_Apply data (n_fsm n)).2 n)
  | Install doc => Some (set_fsm (Restore doc (n_fsm n)).2 n)
  end.

(** The same for the state machine alone. *)
Definition replayed (h : happening) f : FSM CS :=
  match h with
  | Tick _ => f
  | Entry data => (FSM_Apply data f).2
  | Install doc => (Restore doc f).2
  end.

Definition happenings_ok : list happening → Prop :=
  Forall (λ h, match h with Tick env => ∀ i, near (unix (@now env i)) | _ => True end).

Lemma happen_idle em hs n :
  happenings_ok hs → idle (n_queue n) →
  ∃ n', ofold (happen em) hs n = Some n' ∧ idle (n_queue n') ∧ n_trace n' = n_trace n ∧
    n_cancelFuncs n' = n_cancelFuncs n ∧ n_fsm n' = foldl (λ f h, replayed h f) (n_fsm n) hs.
Proof.
  intros Hhs. revert n. induction Hhs as [|h hs Hh _ IH]; intros n Hq; [by exists n|]. simpl.
  destruct h as [env|data|doc]; simpl.
  - destruct (@idle_queue_tick CS _ _ env _ _ Hh em _ _ _ _ n Hq (at_node n)) as ([] & n1 & E & q' & [i ->] & Hq').
    rewrite E. simpl. destruct (IH (mkNode (n_fsm n) q' (n_cancelFuncs n) i (n_trace n)) Hq') as (n' & E' & Hn').
    by exists n'.
  - by apply IH.
  - by apply IH.
Qed.

(** A restart forgets the schedule. A process starts with a queue that
    [NewPersistentSlotQueue] made. Whatever snapshots are installed and
    entries are replayed behind it, so that the store holds every job, and
    whoever leads: every tick of the worker returns, at whatever times, finds
    nothing, and neither calls a webhook nor changes the store. A job accepted
    before the restart, or by another leader, is not executed. *)
Theorem restart_forgets_schedule em s hs n :
  1 <= s <= 1000000 → NewPersistentSlotQueue (s * Second) = Some (n_queue n) → happenings_ok hs →
  ∃ n', ofold (happen em) hs n = Some n' ∧ n_trace n' = n_trace n ∧
    wheel_keys (q_wheel (n_queue n')) = ∅ ∧ n_fsm n' = foldl (λ f h, replayed h f) (n_fsm n) hs.
Proof.
  intros Hs Hq Hhs. destruct (happen_idle em hs n Hhs) as (n' & E & Hq' & Ht & _ & Hf).
  { by eapply new_queue_idle. }
  exists n'. split_and!; try done. apply Hq'.
Qed.

End happenings.

(** ** A concrete restart *)

(** The log that creates a job due at 52 and its slot. *)
Definition ex_due_log : list json :=
  [enc_Command (cmd_create_job ex_due_job); enc_Command (cmd_create_slot (mkSlotData 5 50 60 ["a"]))].

(** A process that just started, with a slot gap of ten seconds. *)
Definition ex_started : Node MemBolt Queue := mkNode NewFSM (mkQueue (10 * Second) ∅ (default_wheel 10) 0) ∅ 0 [].

Definition ex_life : list happening :=
  (Entry <$> ex_due_log) ++ [Tick (clock_env 49); Tick (clock_env 55); Tick (clock_env 65)].

Lemma ex_started_queue : NewPersistentSlotQueue (10 * Second) = Some (n_queue ex_started).
Proof. vm_compute. reflexivity. Qed.

Lemma ex_life_ok : happenings_ok ex_life.
Proof.
  repeat constructor; intros i; change (near (unix (@now (clock_env ?t) i))); apply ex_stands_at; lia.
Qed.

Lemma restart_forgets_schedule_witness :
  ∃ n', ofold (@happen MemBolt _ sorted_range ex_http every_minute ex_em) ex_life ex_started = Some n' ∧
    webhooks (n_trace n') = [] ∧ FSM_GetJob "a" (n_fsm n') = Some ex_due_job.
Proof.
  destruct (@restart_forgets_schedule MemBolt _ sorted_range ex_http every_minute ex_em 10 ex_life ex_started)
    as (n' & E & Ht & _ & Hf).
  - lia.
  - exact ex_started_queue.
  - exact ex_life_ok.
  - exists n'. split; [exact E|]. rewrite Ht, Hf. vm_compute. split; reflexivity.
Defined.

(** The same process, had it called [LoadJobs] when it took over. *)
Definition ex_loaded_life : option (Node MemBolt Queue) :=
  n ← ofold (@happen MemBolt _ sorted_range ex_http every_minute ex_em) (take 2 ex_life) ex_started;
  r ← @LoadJobs MemBolt _ sorted_range (clock_env 40) n;
  ofold (@happen MemBolt _ sorted_range ex_http every_minute ex_em) (drop 2 ex_life) r.2.

Lemma load_jobs_would_deliver :
  (λ n, (webhooks (n_trace n), FSM_GetJob "a" (n_fsm n))) <$> ex_loaded_life =
    Some ([call_of ex_due_job (webhook_body ex_due_job 55)], None).
Proof. vm_compute. reflexivity. Qed.
