(* ===== verification/EndToEnd.v ===== *)
(** * From the request to the webhook

    The whole path of a one-off job on a healthy leader that has just started:
    the handler of [POST /jobs] ([job_handlers.go]) validates it and checks the
    limits, the store replicates it, the handler of events ([app.go]) files it
    in a slot and puts the slot on the wheel; the ticks of the worker find it
    in the window of its slot, call the webhook and remove it. *)

From S2P Require Import Prelude GoStrings GoFloat Json Types Codec Request ColdStore FSM TimingWheel WheelProps WheelTime.
From S2P Require Import Store StoreProps StatusTracker Limits SlotQueue SlotQueueProps ExecutionManager Worker.
From S2P Require Import Gateway Api ApiProps Delivery Restart.

Section accepting.

Context {CS : Type} `{ColdSlotStoreLaws CS} `{GoRange} `{Env} `{Cluster} `{Cron}.

Implicit Types (n : Node CS Queue) (f : FSM CS) (q : Queue) (c : gset string) (tr : list event).

(** A queue as [NewPersistentSlotQueue] makes it, with a gap of [s] seconds. *)
Record fresh_queue (s : Z) q : Prop := {
  fq_range : 1 <= s <= 1000000;
  fq_gap : q_slotGap q = s * Second;
  fq_wheel : q_wheel q = default_wheel s }.

Lemma fresh_queue_ok s q : fresh_queue s q → queue_ok q ∧ secs (q_slotGap q) = s.
Proof.
  intros [Hs Hg Hw]. assert (secs (q_slotGap q) = s) as E by (rewrite Hg; by apply secs_gap).
  split; [|done]. split; [lia|by rewrite Hw, Hg|]. rewrite Hw. by apply default_wheel_ok.
Qed.

Lemma new_queue_fresh s q : 1 <= s <= 1000000 → NewPersistentSlotQueue (s * Second) = Some q → fresh_queue s q.
Proof. intros Hs ->%new_queue_default; [|done]. by split. Qed.

(** Filing the first job: the wheel starts to run at the time of the clock,
    and waits for the slot of the job. *)
Lemma at_AddJob_fresh s T0 job ts f q c tr n :
  healthy_env → (∀ i, unix (now i) = T0) → fresh_queue s q → slots_ok f →
  job_time job = Some ts → 0 <= T0 <= ts → near ts → node_at f q c tr n →
  let key := Z.quot ts s in
  returns (AddJob job) n (λ _ n', ∃ q',
    node_at (put_slot (filed job key q f) f) q' c tr n' ∧ waits key q' ∧
    key ∈ wheel_keys (q_wheel q') ∧ q_slotGap q' = q_slotGap q).
Proof.
  intros He HT Hq Hf Ht Hts Hnear Hn key. destruct (fresh_queue_ok s q Hq) as [Hok Hsecs].
  destruct Hq as [Hs Hgap Hw]. assert (near T0) as Hn0 by (unfold near in *; lia).
  assert (in64 ts) as Hts64 by (unfold near, horizon, in64, two63 in *; lia).
  assert (in64 key) as Hkey by (apply quot_in64; [done|lia]).
  assert (0 <= key ∧ key * s <= ts < (key + 1) * s) as (Hk0 & Hk1 & Hk2).
  { unfold key. rewrite Z.quot_div_nonneg by lia. pose proof (Z.div_pos ts s).
    pose proof (Z.mul_div_le ts s). pose proof (Z.mul_succ_div_gt ts s). lia. }
  unfold AddJob. rewrite Ht. apply returns_bind. destruct Hn as [i ->]. apply returns_gets. simpl.
  apply returns_bind. rewrite <-Hsecs in *. eapply returns_lift; [apply go_quot_pos; [done|apply Hok]|]. fold key.
  apply returns_bind. unfold ensure_init. apply returns_bind, returns_gets. simpl. rewrite Hw. simpl.
  apply returns_bind. unfold Now, TimeNow, ask, mthen at 1, mreturn. eexists _, _. split; [done|]. rewrite HT.
  rewrite Hsecs in *. destruct (init_time s T0 Hs Hn0) as (w & E & Htw & _ & _ & Hi & Hg & Hks & _ & Hb).
  destruct (Init_ok T0 (q_wheel q)) as (w' & E' & Hwok & _ & _ & Hg' & _);
    [apply Hok|unfold near, horizon, in64, two63 in *; lia|].
  rewrite Hw, E in E'. injection E' as <-.
  eapply returns_mono; [eapply (at_on_wheel_ _ f q c tr); [by eexists|by rewrite Hw]|].
  intros [] n1 [i1 ->]. apply returns_bind, returns_gets. simpl.
  change (match FSM_GetSlot key f with Some _ => _ | None => _ end) with (filed job key q f).
  destruct (filed_ok job key q f Hf Hkey) as [_ Hd].
  apply returns_bind. eapply at_when_leader; [done|by exists i1|]. intros n2 Hn2.
  eapply returns_mono; [by apply at_CreateSlot|]. intros e n3 [_ Hn3].
  apply returns_bind. eapply returns_mono; [by apply at_set_q|]. intros [] n4 Hn4.
  destruct (Add_time key w Htw Hi) as (w2 & E2 & Htw2 & _ & Hk2' & Hsk);
    [unfold slot_time, near in *; rewrite Hg; lia|].
  destruct (Add_ok key w Hwok Hkey) as (w2' & E2' & Hok2 & _ & _ & Hg2 & _).
  rewrite E2 in E2'. injection E2' as <-.
  eapply returns_mono; [eapply at_on_wheel_; [exact Hn4|exact E2]|]. intros [] n5 Hn5.
  eexists. split; [exact Hn5|]. pose proof (skel_clock _ _ Hsk) as (_ & Hb2 & Hi2 & _).
  split_and!; [|simpl; rewrite Hk2'; set_solver|done].
  split; simpl; [|done|congruence| |done|].
  - apply queue_ok_wheel; [apply queue_ok_jobs, queue_ok_wheel; done|done|by rewrite Hg2].
  - intros k'. rewrite Hk2', Hks. set_solver.
  - rewrite Hb2, Hb, Hsecs, !Z.quot_div_nonneg by lia.
    assert (T0 / s <= ts / s) by (apply Z.div_le_mono; lia). unfold key. rewrite Z.quot_div_nonneg by lia. nia.
Qed.

(** [CreateJob] with the handler of the application comes down to [AddJob]. *)
Lemma at_CreateJob_files job f q c tr n R :
  healthy_env → job_ints_ok job → plain (enc_Job job) → node_at f q c tr n →
  (∀ n', node_at (with_job job f) q c tr n' → returns (AddJob job) n' (λ _ n'', R n'')) →
  returns (CreateJob handler job) n (λ e n', e = None ∧ R n').
Proof.
  intros He Hi Hp Hn HR. eapply at_if_leader; [done..|]. intros n1 Hn1. apply returns_bind. eapply returns_mono;
    [apply (at_send (cmd_create_job job)); [done|exact Hn1|by apply command_ok_job|by intros ? [= <-]]|].
  intros e n2 [-> Hn2]. apply returns_bind. unfold notify, handler. apply returns_bind.
  eapply returns_mono; [by apply at_IsLeader|]. intros b n3 [-> Hn3]. unfold event_handler. apply returns_bind.
  eapply returns_mono; [by apply at_IsLeader|]. intros b n4 [-> Hn4].
  eapply returns_mono; [by apply HR|]. intros [] n5 Hn5. by apply returns_ret.
Qed.

(** What a leader that has accepted its first job looks like. *)
Record accepted (job : Job) (key : Z) f q n' : Prop := {
  ac_waits : waits key (n_queue n');
  ac_key : key ∈ wheel_keys (q_wheel (n_queue n'));
  ac_gap : q_slotGap (n_queue n') = q_slotGap q;
  ac_slots : ∀ k, FSM_GetSlot k (n_fsm n') =
    if decide (k = key) then Some (new_slot (q_slotGap q) key (job_ID job)) else FSM_GetSlot k f;
  ac_jobs : f_jobs (n_fsm n') = <[job_ID job := job_norm job]> (f_jobs f);
  ac_states : f_executionStates (n_fsm n') =
    <[job_ID job := pending_state (job_ID job) (job_CreatedAt job)]> (f_executionStates f);
  ac_cold : f_coldStore (n_fsm n') = f_coldStore f;
  ac_inv : fsm_inv (n_fsm n') }.

Lemma at_admit_fresh h lm s T0 job ts n :
  healthy_env → (∀ i, unix (now i) = T0) → fresh_queue s (n_queue n) → slots_ok (n_fsm n) → fsm_inv (n_fsm n) →
  h_limitManager h = Some lm → CheckCapacity lm job n = Some (None, n) →
  job_ints_ok job → plain (enc_Job job) → job_time job = Some ts → 0 <= T0 <= ts → near ts →
  FSM_GetSlot (Z.quot ts s) (n_fsm n) = None →
  returns (admit_job h job) n (λ resp n', resp = ok_json (enc_Job job) ∧ n_trace n' = n_trace n ∧
    accepted job (Z.quot ts s) (n_fsm n) (n_queue n) n').
Proof.
  intros He HT Hq Hf Hinv Hlm Hcap Hi Hp Hts Hle Hnear Hnone. unfold admit_job. rewrite Hlm.
  apply returns_bind. eexists _, _. split; [exact Hcap|]. apply returns_bind. set (key := Z.quot ts s) in *.
  assert (∀ k, FSM_GetSlot k (with_job job (n_fsm n)) = FSM_GetSlot k (n_fsm n)) as Hsl by done.
  eapply returns_mono; [eapply (at_CreateJob_files job _ _ _ _ _ _ He Hi Hp (at_node n))|].
  { intros n1 Hn1. exact (at_AddJob_fresh s T0 job ts (with_job job (n_fsm n)) _ _ _ n1 He HT Hq Hf Hts Hle Hnear Hn1). }
  intros e n1 (-> & q1 & Hn1 & Hwt & Hk & Hg). apply returns_bind.
  eapply returns_mono; [exact (at_RecordJobAdded lm job _ _ _ _ _ He Hn1)|].
  intros e n2 (_ & [i ->]). apply returns_ret. split; [done|]. split; [done|].
  destruct (fresh_queue_ok s _ Hq) as [Hok Hsecs].
  assert (in64 key) as Hkey.
  { apply quot_in64; [unfold near, horizon, in64, two63 in *; lia|destruct Hq; lia]. }
  destruct (filed_ok job key (n_queue n) (with_job job (n_fsm n)) Hf Hkey) as [Hfk Hfo].
  assert (filed job key (n_queue n) (with_job job (n_fsm n)) = new_slot (q_slotGap (n_queue n)) key (job_ID job)) as Efile
    by (unfold filed; by rewrite Hsl, Hnone).
  split; simpl; try done.
  - intros k. change (FSM_GetSlot k (counted ?a ?b ?g)) with (FSM_GetSlot k g).
    case_decide as Hd; [rewrite Hd, get_put_slot by done; by f_equal|].
    rewrite get_put_slot_ne; [apply Hsl|]. intros Heq. apply Hd. rewrite Heq. exact Hfk.
  - destruct (apply_inv (cmd_create_job (job_norm job)) (n_fsm n) Hinv) as [I1 I2 I3 I4 I5].
    pose proof (apply_inv (cmd_create_slot (filed job key (n_queue n) (with_job job (n_fsm n)))) _
      (apply_inv (cmd_create_job (job_norm job)) (n_fsm n) Hinv)) as J1.
    pose proof (apply_inv (cmd_memory (CalculateSize (lm_sizeCalculator lm) job)) _ J1) as J2.
    exact (apply_inv (cmd_job_count 1) _ J2).
Qed.

End accepting.

Section end_to_end.

Context {CS : Type} `{ColdSlotStoreLaws CS} `{GoRange} `{HTTP} `{Cluster} `{Cron}.

Implicit Types n : Node CS Queue.

(** The capacity check reads the counters alone. *)
Lemma CheckCapacity_fsm lm job n n' :
  n_fsm n' = n_fsm n → CheckCapacity lm job n = Some (None, n) → CheckCapacity lm job n' = Some (None, n').
Proof.
  intros Hf. unfold CheckCapacity, MemoryTracker_CheckCapacity, JobCounter_CheckCapacity, GetUsage,
    GetMemoryUsage, GetJobCount, gets, mthen, mreturn. cbn. rewrite Hf. case_decide; cbn; [by intros [=]|]. rewrite Hf. case_decide; [by intros [=]|done].
Qed.

Lemma at_Now_is `{Env} T f q c tr n :
  (∀ i, unix (now i) = T) → node_at f q c tr n → returns Now n (λ t n', t = T ∧ node_at f q c tr n').
Proof.
  intros HT [i ->]. unfold Now, TimeNow, ask, mthen, mreturn. eexists _, _. split; [done|].
  split; [apply HT|by eexists].
Qed.

(** The handler on a request whose job passes every check. *)
Lemma API_CreateJob_admits `{Env} getenv h uuid r req job T0 n (R : Response → Node CS Queue → Prop) :
  healthy_env → (∀ i, unix (now i) = T0) → rq_Body r ≫= dec_CreateJobRequest = Some req →
  ToJob T0 uuid req = inl job → Job_Validate T0 job = None →
  (∀ n', node_at (n_fsm n) (n_queue n) (n_cancelFuncs n) (n_trace n) n' → returns (admit_job h job) n' R) →
  returns (API_CreateJob getenv h uuid r) n R.
Proof.
  intros He HT Hreq Hjob Hv HR. eapply at_on_leader; [done|apply at_node|]. intros n1 [i1 ->]. rewrite Hreq.
  apply returns_bind. eapply returns_mono; [apply (at_Now_is T0); [done|by eexists]|]. intros t n2 [-> Hn2].
  rewrite Hjob. apply returns_bind. eapply returns_mono; [by apply (at_Now_is T0)|]. intros t n3 [-> Hn3].
  rewrite Hv. by apply HR.
Qed.


End end_to_end.

(** ** A concrete path *)

Definition ex_order : Request := mkRequest "POST" "/jobs" ∅ "" "" (Some (JObj
  [("type", JStr "unico"); ("timestamp", JStr "52"); ("id", JStr "b"); ("webhook_url", JStr "http://w")])).

Definition ex_ordered : Job := mkJob "b" "unico" (Some 52) "" None 30 "http://w" None.

