(* ===== verification/NodeRules.v ===== *)
(** * Rules for every operation of a node

    One invariant of a node, and for each operation of the program the fact
    that it returns, keeps the invariant and calls only allowed webhooks, in
    every environment. The facts compose along the code: [does] is closed under
    sequencing and loops, and what an operation reads (a time, the jobs of a
    slot) comes with what is known of it. *)

From S2P Require Import Prelude GoStrings GoFloat Json GoTime Types Codec Request ColdStore FSM Snapshot.
From S2P Require Import TimingWheel WheelProps WheelTime Store StoreProps StatusTracker Limits SlotQueue.
From S2P Require Import SlotQueueProps ExecutionManager Worker WorkerProps Evictor Gateway Api.

(** ** The rings of a wheel keep their sizes *)

Definition ring_sizes (w : HierarchicalTimingWheel) : list Z := bucketCount <$> levels w.

Section sizes.

Context `{GoRange}.

Implicit Types w : HierarchicalTimingWheel.

Lemma sizes_alter (f : wheelLevel → wheelLevel) (i : nat) (ls : list wheelLevel) :
  (∀ L, bucketCount (f L) = bucketCount L) → bucketCount <$> alter f i ls = bucketCount <$> ls.
Proof.
  intros Hf. revert i. induction ls as [|L ls IH]; intros [|i]; simpl; try done; f_equal; auto. apply IH.
Qed.

Lemma sizes_place loc k w w' : place loc k w = Some w' → ring_sizes w' = ring_sizes w.
Proof. unfold place. intros E. simplify_option_eq. by apply sizes_alter. Qed.

Lemma sizes_write loc B w : ring_sizes (write_bucket loc B w) = ring_sizes w.
Proof. by apply sizes_alter. Qed.

Lemma sizes_bump lvl w c w' : bump lvl w = Some (c, w') → ring_sizes w' = ring_sizes w.
Proof.
  unfold bump. intros E. destruct (go_index _ _) as [L|] eqn:EL; [|done]. simplify_option_eq.
  unfold go_index in EL. case_decide; [|done]. unfold ring_sizes. simpl.
  rewrite list_fmap_insert. apply list_insert_id. by rewrite list_lookup_fmap, EL.
Qed.

Lemma sizes_ofold {A} (body : A → HierarchicalTimingWheel → option HierarchicalTimingWheel) l w w' :
  (∀ x w w', body x w = Some w' → ring_sizes w' = ring_sizes w) →
  ofold body l w = Some w' → ring_sizes w' = ring_sizes w.
Proof.
  intros Hb. revert w. induction l as [|x l IH]; intros w E; simpl in E; [by simplify_eq|].
  destruct (body x w) as [w1|] eqn:E1; [|done]. rewrite (IH w1 E). by eapply Hb.
Qed.

Lemma sizes_cascade fuel lvl w w' : cascade fuel lvl w = Some w' → ring_sizes w' = ring_sizes w.
Proof.
  revert lvl w. induction fuel as [|fuel IH]; intros lvl w E; [done|]. cbn [cascade] in E.
  case_decide; [by simplify_eq|].
  destruct (go_index (levels w) lvl) as [L|]; [|done]. cbn [mbind option_bind] in E.
  destruct (go_index (buckets L) (current L)) as [B|]; [|done]. cbn [mbind option_bind] in E.
  destruct (ofold _ _ _) as [w1|] eqn:E1; [|done]. cbn [mbind option_bind] in E.
  apply sizes_ofold in E1.
  2:{ intros k v v' Ev. unfold cascade_key in Ev. destruct (findBucket _ v) as [[loc|]|]; [|by simplify_eq/=|done].
      cbn [mbind option_bind] in Ev. case_decide; [by eapply sizes_place|by simplify_eq]. }
  rewrite sizes_write in E1.
  destruct (bump lvl w1) as [[c w2]|] eqn:E2; [|done]. cbn [mbind option_bind] in E.
  apply sizes_bump in E2. case_decide; [apply IH in E; congruence|by simplify_eq; congruence].
Qed.

Lemma sizes_tick w keys w' : tick w = Some (keys, w') → ring_sizes w' = ring_sizes w.
Proof.
  unfold tick. intros E.
  destruct (go_index _ 0) as [L|]; [|done]. cbn [mbind option_bind] in E.
  destruct (go_index (buckets L) (current L)) as [B|]; [|done]. cbn [mbind option_bind] in E.
  destruct (bump 0 _) as [[c w1]|] eqn:E1; [|done]. cbn [mbind option_bind] in E.
  apply sizes_bump in E1. rewrite sizes_write in E1.
  match type of E1 with _ = ring_sizes ?v => change (ring_sizes v) with (ring_sizes w) in E1 end.
  case_decide; [|by simplify_eq/=; congruence].
  destruct (cascade _ 1 w1) as [w2|] eqn:E2; [|done]. cbn [mbind option_bind] in E. simplify_eq.
  apply sizes_cascade in E2. congruence.
Qed.

Lemma sizes_advance_loop fuel b ready w keys w' :
  advance_loop fuel b ready w = Some (keys, w') → ring_sizes w' = ring_sizes w.
Proof.
  revert ready w. induction fuel as [|fuel IH]; intros ready w E; cbn [advance_loop] in E;
    case_decide; try (by simplify_eq).
  destruct (tick w) as [[k w1]|] eqn:E1; [|done]. cbn [mbind option_bind] in E.
  apply IH in E. apply sizes_tick in E1. congruence.
Qed.

Lemma sizes_refill w w' : refill w = Some w' → ring_sizes w' = ring_sizes w.
Proof.
  unfold refill. intros E. destruct (ofold _ _ _) as [[l w1]|] eqn:E1; [|done]. simplify_eq/=.
  transitivity (ring_sizes w1); [done|].
  assert (∀ ks (s s' : list Z * HierarchicalTimingWheel), ofold refill_key ks s = Some s' →
    ring_sizes s'.2 = ring_sizes s.2) as Hl; [|by apply Hl in E1].
  induction ks as [|k ks IH]; intros s s' E; simpl in E; [by simplify_eq|].
  destruct (refill_key k s) as [s1|] eqn:E2; [|done]. rewrite (IH _ _ E).
  destruct s as [d v]. unfold refill_key in E2. case_decide; [|by simplify_eq].
  destruct (findBucket _ v) as [[loc|]|]; [|by simplify_eq/=|done]. cbn [mbind option_bind] in E2.
  destruct (place loc k v) as [v'|] eqn:Ep; [|done]. simplify_eq/=. by eapply sizes_place.
Qed.

Lemma sizes_Advance t w ready w' : Advance t w = Some (ready, w') → ring_sizes w' = ring_sizes w.
Proof.
  unfold Advance. intros E. destruct (initialized w); [|by simplify_eq].
  destruct (go_quot _ _) as [q|]; [|done]. cbn [mbind option_bind] in E. case_decide; [by simplify_eq|].
  destruct (advance_loop _ _ _ w) as [[l w1]|] eqn:E1; [|done]. cbn [mbind option_bind] in E.
  destruct (refill w1) as [w2|] eqn:E2; [|done]. simplify_eq/=.
  apply sizes_advance_loop in E1. apply sizes_refill in E2.
  transitivity (ring_sizes w2); [done|congruence].
Qed.

Lemma sizes_Init t w w' : Init t w = Some w' → ring_sizes w' = ring_sizes w.
Proof.
  unfold Init. intros E. destruct (initialized w); [by simplify_eq|].
  destruct (go_quot _ _); [|done]. cbn [mbind option_bind] in E. by simplify_eq.
Qed.

Lemma sizes_Add k w w' : Add k w = Some w' → ring_sizes w' = ring_sizes w.
Proof.
  unfold Add. intros E. destruct (if initialized w then _ else _) as [w1|] eqn:E1; [|done].
  cbn [mbind option_bind] in E.
  assert (ring_sizes w1 = ring_sizes w) as <-.
  { destruct (initialized w); [by simplify_eq|]. destruct (go_quot _ _); [|done].
    cbn [mbind option_bind] in E1. by simplify_eq. }
  destruct (findBucket _ w1) as [[loc|]|]; [|by simplify_eq/=|done]. by apply sizes_place in E.
Qed.

Lemma sizes_Remove k w w' : Remove k w = Some w' → ring_sizes w' = ring_sizes w.
Proof.
  unfold Remove. intros E. destruct (slotLocation w !! k) as [loc|]; [|by simplify_eq].
  destruct (bucket_of loc w) as [B|]; [|done].
  cbn [mbind option_bind] in E. simplify_eq. apply sizes_write.
Qed.

Lemma sizes_Reset w : ring_sizes (Reset w) = ring_sizes w.
Proof. unfold ring_sizes. simpl. rewrite <-list_fmap_compose. by apply list_fmap_ext. Qed.

(** A wheel on which every operation returns. *)
Record wheel_fit w : Prop := {
  wf_ok : wheel_ok w;
  wf_sizes : Forall (λ c, c < horizon) (ring_sizes w) }.

Lemma wheel_fit_peekable w : wheel_fit w → peekable w.
Proof.
  intros [[Hw _ _] Hs] L HL. split.
  - apply list_elem_of_lookup_1 in HL as [i HL]. by eapply wf_level.
  - rewrite Forall_forall in Hs. apply Hs. by apply list_elem_of_fmap_2.
Qed.

End sizes.

(** ** What the state of a node holds *)

(** [known] is any set of jobs; log entries speak only of jobs in it. *)
Definition known_entry (known : Job → Prop) (data : json) : Prop :=
  ∀ cmd job, dec_Command data = Some cmd → cmd_Job cmd = Some job → known job.

Section fsm.

Context {CS : Type} `{ColdSlotStore CS} (known : Job → Prop).

Implicit Types f : FSM CS.

Record fsm_fit f : Prop := {
  ff_inv : fsm_inv f;
  ff_jobs : map_Forall (λ _ j, job_ints_ok j ∧ known j) (f_jobs f);
  ff_slots : map_Forall (λ k _, in64 k) (f_slots f);
  ff_meta : map_Forall (λ k _, in64 k) (f_coldSlotMeta f) }.

Definition maps_fit f : Prop :=
  map_Forall (λ _ j, job_ints_ok j ∧ known j) (f_jobs f) ∧
  map_Forall (λ k _, in64 k) (f_slots f) ∧ map_Forall (λ k _, in64 k) (f_coldSlotMeta f).

Lemma apply_maps_fit cmd f :
  command_ok cmd → (∀ j, cmd_Job cmd = Some j → known j) → maps_fit f →
  maps_fit (applyCommandInternal cmd f).2.
Proof.
  intros (Hj & Hs & Hc & _) Hk Hf. pose proof Hf as (H1 & H2 & H3).
  apply applyCommand_cases; intros; try done.
  - unfold applyCreateJob. destruct (cmd_Job cmd) as [j|]; [|done]. split_and!; try done. simpl.
    apply map_Forall_insert_2; [|done]. split; auto.
  - unfold applyDeleteJob. case_decide; [done|]. split_and!; try done. simpl. by apply map_Forall_delete.
  - unfold applyCreateSlot. destruct (cmd_Slot cmd) as [s|]; [|done]. split_and!; try done. simpl.
    apply map_Forall_insert_2; [|done]. by destruct (Hs s eq_refl).
  - unfold applyDeleteSlot. case_decide; [done|]. destruct (Sscanf_d _) as [k|]; [|done].
    simpl. by destruct (f_coldStore f); split_and!; try done; apply map_Forall_delete.
  - unfold applyArchiveSlot. destruct (cmd_ColdSlot cmd) as [d|]; [|done].
    destruct (f_coldStore f) as [cs|]; [|done]. destruct (PutColdSlot _ d cs) as [cs' [e|]]; [done|].
    split_and!; [done|by apply map_Forall_delete|]. simpl.
    apply map_Forall_insert_2; [|done]. by destruct (Hc d eq_refl).
  - unfold applyUnarchiveSlot. case_decide; [done|]. destruct (f_coldStore f) as [cs|]; [|done].
    destruct (Sscanf_d _) as [k|] eqn:Ek; [|done]. apply Sscanf_d_in64 in Ek.
    destruct (GetColdSlot k cs) as [[d|]|]; [..|done]; (split_and!; simpl; [done| |by apply map_Forall_delete]);
      [by apply map_Forall_insert_2|done].
  - unfold applyStatusUpdate. by destruct (f_executionStates f !! _); destruct (validateStateTransition _ _).
  - unfold applyRecordAttempt. destruct (f_executionStates f !! _); [|done]. by destruct (sc_Attempt sc).
  - unfold applyPruneAttempts. by destruct (f_executionStates f !! _).
Qed.

Lemma apply_fit data f : known_entry known data → fsm_fit f → fsm_fit (FSM_Apply data f).2.
Proof.
  intros Hk [Hi Hj Hs Hm]. unfold FSM_Apply. destruct (dec_Command data) as [cmd|] eqn:E; [|done].
  destruct (apply_maps_fit cmd f) as (? & ? & ?); [by eapply dec_Command_ok|by eauto|done|].
  split; [by apply apply_inv|done..].
Qed.

Lemma run_log_fit log f : Forall (known_entry known) log → fsm_fit f → fsm_fit (run_log log f).
Proof.
  intros Hl. revert f. unfold run_log. induction Hl as [|data log Hd _ IH]; intros f Hf; simpl; [done|].
  by apply IH, apply_fit.
Qed.

Lemma initial_fit cs : fsm_fit (initial_fsm cs).
Proof. split; [by apply initial_fsm_inv|by destruct cs..]. Qed.

(** Installing what another state machine of this kind has persisted. *)
Lemma restore_fit f g :
  (∀ j, known j → known (job_norm j)) → fsm_fit f → fsm_encodable f →
  fsm_fit (Restore (enc_Snapshot (GetSnapshot f)) g).2.
Proof.
  intros Hn [[H1 H2 H3 H4 H5] Hj Hs Hm] He. unfold Restore. rewrite dec_enc_Snapshot by done. simpl. split; simpl.
  - split; simpl; try done; [by apply map_Forall_fmap|by rewrite dom_fmap_L].
  - apply map_Forall_fmap. eapply map_Forall_impl; [exact Hj|]. intros k j [? ?]. split; [done|by apply Hn].
  - done.
  - done.
Qed.

Lemma fit_get_job id f j : fsm_fit f → FSM_GetJob id f = Some j → job_ints_ok j ∧ known j.
Proof.
  intros Hf. unfold FSM_GetJob. intros E. apply fmap_Some in E as (j' & E & ->). rewrite Job_Clone_id.
  by apply (ff_jobs _ Hf) in E.
Qed.

End fsm.

(** Commands without a job speak of no job. *)
Lemma known_without_job known c : cmd_Job c = None → known_entry known (enc_Command c).
Proof.
  intros Hc cmd job E Ej. unfold dec_Command, enc_Command in E. rewrite Hc in E.
  revert E. eval_fields. cbn [omit_opt fmap option_fmap option_map]. intros E.
  destruct (get_str _) as [ty|]; [|done]. cbn [mbind option_bind get_ptr] in E. by simplify_option_eq.
Qed.

Lemma known_create (known : Job → Prop) job :
  job_ints_ok job → known (job_norm job) → known_entry known (enc_Command (cmd_create_job job)).
Proof.
  intros Hj Hk cmd job' E Ej. rewrite dec_enc_Command in E.
  - injection E as <-. simpl in Ej. by injection Ej as <-.
  - unfold command_ok. cbn. split_and!; try done; first [by intros ? [= <-] | by constructor | by vm_compute].
Qed.

(** ** Rules *)

Section rules.

Context {CS : Type} `{ColdSlotStore CS} `{GoRange} `{Env}.
Context (known : Job → Prop) (R : event → Prop).

Implicit Types n : Node CS Queue.

Record node_fit n : Prop := {
  nf_fsm : fsm_fit known (n_fsm n);
  nf_gap : 0 < secs (q_slotGap (n_queue n));
  nf_same : slotGap (q_wheel (n_queue n)) = q_slotGap (n_queue n);
  nf_wheel : wheel_fit (q_wheel (n_queue n)) }.

(** On a node that is fit, [c] returns something in [P], leaves a fit node, and
    calls only webhooks in [R]. *)
Definition does {A} (c : M (Node CS Queue) A) (P : A → Prop) : Prop :=
  ∀ n, node_fit n → returns c n (λ a n', P a ∧ node_fit n' ∧
    ∃ evs, webhooks (n_trace n') = webhooks (n_trace n) ++ evs ∧ Forall R evs).

Definition any {A} (_ : A) : Prop := True.

Lemma does_mono {A} (c : M (Node CS Queue) A) (P P' : A → Prop) :
  does c P → (∀ a, P a → P' a) → does c P'.
Proof. intros Hc HP n Hn. eapply returns_mono; [by apply Hc|]. intros a n' (? & ? & ?). auto. Qed.

Lemma does_any {A} (c : M (Node CS Queue) A) P : does c P → does c any.
Proof. intros Hc. by eapply does_mono. Qed.

Lemma does_bind {A B} (c : M (Node CS Queue) A) (k : A → M (Node CS Queue) B) P P' :
  does c P → (∀ a, P a → does (k a) P') → does (mthen c k) P'.
Proof.
  intros Hc Hk n Hn. apply returns_bind. eapply returns_mono; [by apply Hc|].
  intros a n1 (Ha & Hn1 & e1 & T1 & F1). eapply returns_mono; [by apply (Hk a Ha)|].
  intros b n2 (Hb & Hn2 & e2 & T2 & F2). split_and!; [done..|]. exists (e1 ++ e2).
  rewrite T2, T1, app_assoc. split; [done|by apply Forall_app].
Qed.

Lemma does_seq {A B} (c : M (Node CS Queue) A) (k : A → M (Node CS Queue) B) P :
  does c any → (∀ a, does (k a) P) → does (mthen c k) P.
Proof. intros Hc Hk. eapply does_bind; [exact Hc|auto]. Qed.

Lemma does_ret {A} (a : A) (P : A → Prop) : P a → does (mreturn a) P.
Proof. intros Ha n Hn. apply returns_ret. split_and!; [done..|]. exists []. by rewrite app_nil_r. Qed.

Lemma does_gets {A} (f : Node CS Queue → A) (P : A → Prop) :
  (∀ n, node_fit n → P (f n)) → does (gets f) P.
Proof. intros Hf n Hn. apply returns_gets. split_and!; [auto|done|]. exists []. by rewrite app_nil_r. Qed.

Lemma does_ask {A} (f : nat → A) (P : A → Prop) : (∀ i, P (f i)) → does (ask f) P.
Proof.
  intros Hf n [? ? ? ?]. eexists _, _. split; [done|]. split_and!; [done|by split|].
  exists []. by rewrite app_nil_r.
Qed.

Lemma does_modify (f : Node CS Queue → Node CS Queue) :
  (∀ n, node_fit n → node_fit (f n)) → (∀ n, n_trace (f n) = n_trace n) → does (modify f) any.
Proof.
  intros Hf Ht n Hn. apply returns_modify. split_and!; [done|auto|]. exists []. by rewrite Ht, app_nil_r.
Qed.

Lemma does_emit e : ¬ is_webhook e ∨ R e → does (emit e) any.
Proof.
  intros He n [? ? ? ?]. apply returns_modify. split_and!; [done|by split|]. unfold webhooks. simpl.
  rewrite filter_app. eexists. split; [done|]. rewrite filter_cons. case_decide; [|by constructor].
  destruct He; [done|]. by repeat constructor.
Qed.

Lemma does_lift {A} (o : option A) (a : A) (P : A → Prop) : o = Some a → P a → does (lift_opt o) P.
Proof. intros -> Ha. by apply does_ret. Qed.

Lemma does_for_each {A} (Q : A → Prop) (body : A → M (Node CS Queue) unit) l :
  Forall Q l → (∀ x, Q x → does (body x) any) → does (for_each body l) any.
Proof.
  intros Hl Hb. induction Hl as [|x l Hx _ IH]; [by apply does_ret|]. apply does_seq; [by apply Hb|done].
Qed.

Lemma does_for_acc {A B} (Q : A → Prop) (P : B → Prop) (body : A → B → M (Node CS Queue) B) l acc :
  Forall Q l → P acc → (∀ x acc, Q x → P acc → does (body x acc) P) → does (for_acc body l acc) P.
Proof.
  intros Hl Hacc Hb. revert acc Hacc. induction Hl as [|x l Hx _ IH]; intros acc Hacc; [by apply does_ret|].
  simpl. eapply does_bind; [by apply Hb|exact IH].
Qed.

Lemma does_for_until {A} (Q : A → Prop) (body : A → M (Node CS Queue) bool) l :
  Forall Q l → (∀ x, Q x → does (body x) any) → does (for_until body l) any.
Proof.
  intros Hl Hb. induction Hl as [|x l Hx _ IH]; [by apply does_ret|]. apply does_seq; [by apply Hb|].
  intros [|]; [by apply does_ret|done].
Qed.

End rules.

Create HintDb does.
#[export] Hint Resolve does_ret does_gets does_ask does_any : does.
#[export] Hint Extern 1 (any _) => exact I : does.
#[export] Hint Extern 1 (∀ _, any _) => (intros; exact I) : does.

(** Along binds and branches, where no result matters. *)
Ltac does_solver :=
  repeat first
    [ progress intros
    | solve [eauto with does]
    | match goal with
      | |- does _ _ (mthen _ _) _ => apply does_seq
      | |- does _ _ (if ?x then _ else _) _ => destruct x
      | |- does _ _ (match ?x with _ => _ end) _ => destruct x
      end ].

(** ** The operations of the program *)

(** What the outside promises: the clock and the cron library answer with
    [int64], and others put only known jobs into the log. *)
Class Outside `{Env} `{Cron} (known : Job → Prop) : Prop := {
  out_clock : ∀ i, in64 (unix (now i));
  out_cron : ∀ s t, in64 (cron_next s t);
  out_others : ∀ i, Forall (known_entry known) (others i) }.

(** Jobs stay known when they are stored and rescheduled. *)
Class Closed `{Cron} (known : Job → Prop) : Prop := {
  cl_norm : ∀ j, known j → known (job_norm j);
  cl_next : ∀ j t, known j → 0 < calculateNextExecution j t →
    known (set_CreatedAt (calculateNextExecution j t) j) }.

Section operations.

Context {CS : Type} `{ColdSlotStore CS} `{GoRange} `{Env} `{HTTP} `{Cron}.
Context (known : Job → Prop) (R : event → Prop) `{!Outside known} `{!Closed known}.

Local Open Scope go_scope.

Notation does := (does (CS := CS) known R).

(** *** The store *)

Lemma does_IsLeader : does IsLeader any.
Proof. apply does_ask. done. Qed.

Lemma does_TimeNow : does TimeNow (λ t, in64 (unix t)).
Proof. apply does_ask. apply out_clock. Qed.

Lemma does_Now : does Now in64.
Proof. eapply does_bind; [apply does_TimeNow|]. intros t Ht. by apply does_ret. Qed.

Lemma fit_set_fsm f (n : Node CS Queue) : node_fit known n → fsm_fit known f → node_fit known (set_fsm f n).
Proof. intros [? ? ? ?] Hf. by split. Qed.

Lemma does_interleave : does interleave any.
Proof.
  unfold interleave. eapply does_bind; [apply does_ask, out_others|]. intros log Hlog.
  apply does_modify; [|done]. intros n Hn. apply fit_set_fsm; [done|]. apply run_log_fit; [done|apply Hn].
Qed.

Lemma does_raft_Apply data : known_entry known data → does (raft_Apply data) any.
Proof.
  intros Hd. unfold raft_Apply. apply does_seq; [apply does_interleave|]. intros _.
  apply does_seq; [by apply does_ask|].
  assert (does (modify (λ n, set_fsm (FSM_Apply data (n_fsm n)).2 n)) any) as Hm.
  { apply does_modify; [|done]. intros n Hn. apply fit_set_fsm; [done|]. by apply apply_fit, Hn. }
  does_solver.
Qed.

Lemma does_send cmd : known_entry known (enc_Command cmd) → does (send cmd) any.
Proof.
  intros Hc. unfold send, Marshal. destruct (unsupported _); [by apply does_ret|].
  apply does_seq; [by apply does_raft_Apply|]. does_solver.
Qed.

Lemma does_if_leader k : does k any → does (if_leader k) any.
Proof. intros Hk. unfold if_leader. apply does_seq; [apply does_IsLeader|]. does_solver. Qed.

Lemma does_jobless cmd : cmd_Job cmd = None → does (send cmd) any.
Proof. intros Hc. by apply does_send, known_without_job. Qed.

Lemma does_CreateSlot s : does (CreateSlot s) any.
Proof. by apply does_if_leader, does_jobless. Qed.

Lemma does_DeleteSlot k : does (DeleteSlot k) any.
Proof. by apply does_if_leader, does_jobless. Qed.

Lemma does_ArchiveSlot k : does (ArchiveSlot k) any.
Proof.
  apply does_if_leader. apply does_seq; [by apply does_gets|]. intros [d|]; [by apply does_jobless|by apply does_ret].
Qed.

Lemma does_UnarchiveSlot k : does (UnarchiveSlot k) any.
Proof. by apply does_if_leader, does_jobless. Qed.

Lemma does_UpdateMemoryUsage d : does (UpdateMemoryUsage d) any.
Proof. by apply does_if_leader, does_jobless. Qed.

Lemma does_UpdateJobCount d : does (UpdateJobCount d) any.
Proof. by apply does_if_leader, does_jobless. Qed.

Lemma does_Store_Apply data : known_entry known data → does (Store_Apply data) any.
Proof.
  intros Hd. apply does_if_leader, does_seq; [by apply does_raft_Apply|]. does_solver.
Qed.

Lemma does_GetJob id : does (GetJob id) (λ o, ∀ j, o = Some j → job_ints_ok j ∧ known j).
Proof. apply does_gets. intros n Hn j. apply fit_get_job, Hn. Qed.

(** *** The queue *)

(** The two maps of the queue that are not the wheel may change. *)
Lemma does_set_q (g : Queue → Queue) :
  (∀ q, q_slotGap (g q) = q_slotGap q ∧ q_wheel (g q) = q_wheel q) → does (set_q g) any.
Proof.
  intros Hg. apply does_modify; [|done]. intros n [? ? ? ?]. destruct (Hg (n_queue n)) as [E1 E2].
  split; simpl; rewrite ?E1, ?E2; done.
Qed.

Lemma does_queue : does queue (λ q, 0 < secs (q_slotGap q)).
Proof. apply does_gets. intros n Hn. apply Hn. Qed.

(** A call of a wheel method that returns and leaves a wheel alike. *)
Definition wheel_method {A} (f : HierarchicalTimingWheel → option (A * HierarchicalTimingWheel)) (P : A → Prop)
    : Prop :=
  ∀ w, wheel_fit w → ∃ a w', f w = Some (a, w') ∧ P a ∧ wheel_ok w' ∧ slotGap w' = slotGap w ∧
    ring_sizes w' = ring_sizes w.

Lemma does_on_wheel {A} (f : HierarchicalTimingWheel → option (A * HierarchicalTimingWheel)) P :
  wheel_method f P → does (on_wheel f) P.
Proof.
  intros Hf n [Hn Hg Hs Hw]. destruct (Hf _ Hw) as (a & w & E & Ha & Hok & Hg' & Hr).
  unfold on_wheel, returns, mthen, queue, gets, lift_opt. simpl. rewrite E. simpl.
  eexists _, _. split; [done|]. split_and!; [done| |exists []; by rewrite app_nil_r].
  split; simpl; [done|done|congruence|]. split; [done|]. rewrite Hr. apply Hw.
Qed.

Lemma does_on_wheel_ (f : HierarchicalTimingWheel → option HierarchicalTimingWheel) :
  wheel_method (λ w, (λ w', (tt, w')) <$> f w) any → does (on_wheel_ f) any.
Proof. apply does_on_wheel. Qed.

Lemma does_wheel_Init t : in64 t → does (on_wheel_ (Init t)) any.
Proof.
  intros Ht. apply does_on_wheel_. intros w [Hw _]. destruct (Init_ok t w Hw Ht) as (w' & E & ? & _ & _ & ? & _).
  exists tt, w'. rewrite E. split_and!; try done. by eapply sizes_Init.
Qed.

Lemma does_wheel_Add k : in64 k → does (on_wheel_ (Add k)) any.
Proof.
  intros Hk. apply does_on_wheel_. intros w [Hw _]. destruct (Add_ok k w Hw Hk) as (w' & E & ? & _ & _ & ? & _).
  exists tt, w'. rewrite E. split_and!; try done. by eapply sizes_Add.
Qed.

Lemma does_wheel_Remove k : does (on_wheel_ (Remove k)) any.
Proof.
  apply does_on_wheel_. intros w [Hw _]. destruct (Remove_ok k w Hw) as (w' & E & ? & Hs & _).
  apply skel_clock in Hs as (? & _). exists tt, w'. rewrite E. split_and!; try done. by eapply sizes_Remove.
Qed.

Lemma does_wheel_Reset : does (on_wheel_ (λ w, Some (Reset w))) any.
Proof.
  apply does_on_wheel_. intros w [Hw _]. exists tt, (Reset w). split_and!; try done; [by apply Reset_ok|apply sizes_Reset].
Qed.

Lemma does_wheel_Advance t : in64 t → does (on_wheel (Advance t)) any.
Proof.
  intros Ht. apply does_on_wheel. intros w [Hw _].
  destruct (Advance_releases t w) as (r & w' & E & ? & ? & (_ & Hl & _) & ? & _); [apply Hw..|done|].
  exists r, w'. split_and!; try done; [|by eapply sizes_Advance]. split; [done..|]. apply Hl, Hw.
Qed.

Lemma does_wheel_PeekMin : does (on_wheel (λ w, (λ m, (m, w)) <$> PeekMin w)) in64.
Proof.
  apply does_on_wheel. intros w Hw. destruct (PeekMin_total w) as (m & E & Hm); [by apply wheel_fit_peekable|].
  exists m, w. rewrite E. split_and!; try done. apply Hw.
Qed.

Lemma does_when_leader k : does k any → does (when_leader k) any.
Proof. intros Hk. unfold when_leader. apply does_seq; [apply does_IsLeader|]. does_solver. Qed.

Lemma does_ensure_init : does ensure_init any.
Proof.
  unfold ensure_init. apply does_seq; [by apply does_gets|]. intros q. destruct (initialized _); [by apply does_ret|].
  eapply does_bind; [apply does_Now|]. apply does_wheel_Init.
Qed.

(** A job that can be filed. *)
Definition fit_job (j : Job) : Prop := job_ints_ok j ∧ known j.

Lemma fit_job_time j ts : job_ints_ok j → job_time j = Some ts → in64 ts.
Proof.
  intros (Ht & _ & Hc). unfold job_time. destruct (job_Timestamp j) as [t|]; [specialize (Ht t eq_refl)|];
    repeat case_decide; intros; by simplify_eq.
Qed.

Lemma does_AddJob j : job_ints_ok j → does (AddJob j) any.
Proof.
  intros Hj. unfold AddJob. destruct (job_time j) as [ts|] eqn:E; [|by apply does_ret].
  eapply fit_job_time in E as Hts; [|done].
  eapply does_bind; [apply does_queue|]. intros q Hg.
  eapply does_bind; [eapply does_lift; [by apply go_quot_pos|exact (quot_in64 _ _ Hts Hg)]|]. intros key Hk.
  apply does_seq; [apply does_ensure_init|]. intros _. apply does_seq; [by apply does_gets|]. intros d.
  apply does_seq; [apply does_when_leader, does_CreateSlot|]. intros _.
  apply does_seq; [by apply does_set_q|]. intros _. by apply does_wheel_Add.
Qed.

Lemma does_forget id : does (forget id) any.
Proof. by apply does_set_q. Qed.

Lemma does_take_out k d id : does (take_out k d id) any.
Proof.
  unfold take_out. case_decide; [|apply does_when_leader, does_CreateSlot].
  apply does_seq; [apply does_when_leader, does_DeleteSlot|]. intros _. apply does_wheel_Remove.
Qed.

Lemma does_fallback_slot id e : does (fallback_slot id e) any.
Proof.
  destruct e as [k d]. unfold fallback_slot. case_decide; [|by apply does_ret].
  apply does_seq; [apply does_take_out|]. intros _. apply does_seq; [apply does_forget|]. does_solver.
Qed.

Lemma does_GetColdSlotData k : does (GetColdSlotData k) any.
Proof. by apply does_gets. Qed.

Lemma does_fallback_cold id k : does (fallback_cold id k) any.
Proof.
  unfold fallback_cold. apply does_seq; [apply does_GetColdSlotData|].
  intros [[d|]|e]; [apply does_fallback_slot|by apply does_ret..].
Qed.

Lemma does_search {A} (body : A → M (Node CS Queue) bool) l :
  (∀ x, does (body x) any) → does (for_until body l) any.
Proof. intros Hb. apply (does_for_until _ _ any); [by apply Forall_true|auto]. Qed.

Lemma does_loop {A} (body : A → M (Node CS Queue) unit) l : (∀ x, does (body x) any) → does (for_each body l) any.
Proof. intros Hb. apply (does_for_each _ _ any); [by apply Forall_true|auto]. Qed.

Lemma does_RemoveJob id : does (RemoveJob id) any.
Proof.
  pose proof (does_search (fallback_slot id)) as Hs. pose proof (does_search (fallback_cold id)) as Hc.
  pose proof does_fallback_slot. pose proof does_fallback_cold. pose proof does_take_out. pose proof does_forget.
  unfold RemoveJob, removeJobFallback, IsColdSpillingEnabled, GetAllSlots, GetColdSlotKeys, GetSlot, queue.
  does_solver.
Qed.

Lemma does_event_handler ev o : (∀ j, o = Some j → job_ints_ok j) → does (event_handler ev o) any.
Proof.
  intros Ho. unfold event_handler. apply does_seq; [apply does_IsLeader|]. intros [|]; [|by apply does_ret].
  destruct o as [j|]; [|by apply does_ret].
  repeat case_decide; [by apply does_AddJob, Ho|apply does_RemoveJob|by apply does_ret].
Qed.

Lemma does_notify ev o : (∀ j, o = Some j → job_ints_ok j) → does (notify handler ev o) any.
Proof.
  intros Ho. unfold notify, handler. apply does_seq; [apply does_IsLeader|].
  intros [|]; [by apply does_event_handler|by apply does_ret].
Qed.

Lemma does_CreateJob j : fit_job j → does (CreateJob handler j) any.
Proof.
  intros [Hj Hk]. apply does_if_leader, does_seq; [by apply does_send, known_create, cl_norm|].
  intros [e|]; [by apply does_ret|]. apply does_seq; [apply does_notify; by intros ? [= <-]|]. does_solver.
Qed.

Lemma does_DeleteJob id : does (DeleteJob handler id) any.
Proof.
  apply does_if_leader. eapply does_bind; [apply does_GetJob|]. intros o Ho.
  apply does_seq; [by apply does_jobless|]. intros [e|]; [by apply does_ret|].
  apply does_seq; [apply does_notify; intros j Hj; by apply Ho|]. does_solver.
Qed.

Lemma does_drop_ready k : does (drop_ready k) any.
Proof.
  unfold drop_ready, GetSlot. apply does_seq; [by apply does_gets|].
  intros [d|]; [|apply does_wheel_Remove]. case_decide; [|by apply does_ret].
  apply does_seq; [apply does_wheel_Remove|]. intros _. apply does_when_leader, does_DeleteSlot.
Qed.

Lemma does_collect_jobs ids :
  does (for_acc collect_job ids []) (Forall fit_job).
Proof.
  apply (does_for_acc _ _ any); [by apply Forall_true|done|]. intros id jobs _ Hjobs.
  unfold collect_job. eapply does_bind; [apply does_GetJob|]. intros o Ho. apply does_ret.
  destruct o as [j|]; [|done]. apply Forall_app. split; [done|]. apply Forall_singleton. by apply Ho.
Qed.

(** The jobs of a slot that is handed out are stored. *)
Definition fit_slot (o : option Slot) : Prop := ∀ s, o = Some s → Forall fit_job (s_Jobs s).

Lemma does_earliest_slot s : 0 < s → does (earliest_slot s) fit_slot.
Proof.
  intros Hs. unfold earliest_slot, GetSlot. eapply does_bind; [apply does_wheel_PeekMin|]. intros m Hm.
  case_decide; [by apply does_ret|].
  apply does_seq; [by eapply does_any, (does_lift _ _ _ _ any); [apply go_quot_pos|]|]. intros k.
  apply does_seq; [by apply does_gets|]. intros [d|]; [|by apply does_ret].
  eapply does_bind; [apply does_collect_jobs|]. intros jobs Hjobs.
  case_decide; apply does_ret; [done|]. by intros ? [= <-].
Qed.

Lemma does_GetNextSlot : does GetNextSlot fit_slot.
Proof.
  unfold GetNextSlot. apply does_seq; [apply does_ensure_init|]. intros _.
  eapply does_bind; [apply does_Now|]. intros t Ht. eapply does_bind; [apply does_queue|]. intros q Hg.
  apply does_seq; [by apply does_wheel_Advance|]. intros ready.
  apply does_seq; [by apply does_loop, does_drop_ready|]. intros _. by apply does_earliest_slot.
Qed.

Lemma does_load_slot k d : in64 k → does (load_slot (k, d)) any.
Proof.
  intros Hk. unfold load_slot. apply does_seq; [|intros _; by apply does_wheel_Add].
  apply does_loop. intros id. by apply does_set_q.
Qed.

Lemma does_cold_keys : does GetColdSlotKeys (Forall in64).
Proof.
  apply does_gets. intros n Hn. apply Forall_forall. intros k Hk. unfold FSM_GetColdSlotKeys in Hk.
  apply list_elem_of_fmap in Hk as ([k' b] & -> & Hin). apply elem_of_range_map in Hin.
  by apply (ff_meta _ _ (nf_fsm _ _ Hn)) in Hin.
Qed.

Lemma does_LoadJobs : does LoadJobs any.
Proof.
  unfold LoadJobs. apply does_seq; [by apply does_set_q|]. intros _.
  apply does_seq; [apply does_wheel_Reset|]. intros _. eapply does_bind; [apply does_Now|]. intros t Ht.
  apply does_seq; [by apply does_wheel_Init|]. intros _.
  eapply does_bind; [apply (does_gets _ _ _ (map_Forall (λ k _, in64 k))); intros n Hn; apply map_Forall_fmap;
    eapply map_Forall_impl; [apply Hn|done]|]. intros slots Hslots.
  apply does_seq.
  { apply (does_for_each _ _ (λ e, in64 e.1)); [|by intros [k d] Hk; apply does_load_slot].
    apply Forall_forall. intros [k d] Hin. apply elem_of_range_map in Hin. by eapply (Hslots k d). }
  intros _. apply does_seq; [by apply does_gets|]. intros cold.
  apply does_seq; [|intros _; apply does_seq; [eapply does_any, does_Now|intros u; by apply does_set_q]].
  destruct cold; [|by apply does_ret].
  eapply does_bind; [apply does_cold_keys|].
  intros keys Hkeys. apply (does_for_each _ _ in64); [done|]. intros k Hk.
  unfold load_cold. apply does_seq; [apply does_GetColdSlotData|].
  intros [[d|]|e]; [by apply does_load_slot|by apply does_ret..].
Qed.

(** *** The status tracker, with either runtime *)

Section tracker.

Context (rt : TrackerRuntime (Node CS Queue)).

Hypothesis Htime : @tr_TimeNow _ rt = TimeNow.
Hypothesis Hcallback : ∀ cb old new, @tr_callback _ rt = Some cb → does (cb old new) any.

Lemma does_tr_Now : does (@tr_Now _ rt) in64.
Proof. unfold tr_Now. rewrite Htime. eapply does_bind; [apply does_TimeNow|]. intros t Ht. by apply does_ret. Qed.

Lemma does_callback old new : does (@callback _ rt old new) any.
Proof. unfold callback. destruct tr_callback eqn:E; [by apply Hcallback|by apply does_ret]. Qed.

Lemma does_applyCommand cmd : cmd_Job cmd = None → does (applyCommand cmd) any.
Proof.
  intros Hc. unfold applyCommand, Marshal. destruct (unsupported _); [by apply does_ret|].
  apply does_seq; [by apply does_Store_Apply, known_without_job|]. does_solver.
Qed.

Lemma does_status_command t sc : does (applyStatusCommand t sc) any.
Proof. by apply does_applyCommand. Qed.

Lemma does_GetStatus id : does (GetStatus id) any.
Proof. unfold GetStatus. apply does_seq; [by apply does_gets|]. does_solver. Qed.

Lemma does_prevStatus id dflt : does (prevStatus id dflt) any.
Proof. unfold prevStatus. apply does_seq; [apply does_GetStatus|]. does_solver. Qed.

Lemma does_recordAttempt id att : does (@recordAttempt _ _ rt id att) any.
Proof. unfold recordAttempt. apply does_seq; [eapply does_any, does_tr_Now|]. intros t. apply does_status_command. Qed.

(** A status command, and the callback when it was committed. *)
Lemma does_mark sc old new :
  does (e <- applyStatusCommand CommandUpdateJobStatus sc ;;
        match e with Some e => mreturn (Some e) | None => @callback _ rt old new ;; mreturn None end) any.
Proof.
  apply does_seq; [apply does_status_command|]. intros [e|]; [by apply does_ret|].
  apply does_seq; [apply does_callback|]. does_solver.
Qed.

Lemma does_MarkInProgress id node : does (@MarkInProgress _ _ rt id node) any.
Proof.
  unfold MarkInProgress. apply does_seq; [apply does_IsLeader|]. intros [|]; [|by apply does_ret].
  apply does_seq; [apply does_prevStatus|]. intros p. apply does_seq; [eapply does_any, does_tr_Now|]. intros t.
  apply does_mark.
Qed.

Lemma does_markFinished st id att : does (@markFinished _ _ rt st id att) any.
Proof.
  unfold markFinished. apply does_seq; [apply does_IsLeader|]. intros [|]; [|by apply does_ret].
  apply does_seq; [apply does_prevStatus|]. intros p. apply does_seq; [apply does_recordAttempt|].
  intros [e|]; [by apply does_ret|]. apply does_seq; [eapply does_any, does_tr_Now|]. intros t. apply does_mark.
Qed.

Lemma does_MarkCancelled id reason : does (@MarkCancelled _ _ rt id reason) any.
Proof.
  unfold MarkCancelled. apply does_seq; [apply does_IsLeader|]. intros [|]; [|by apply does_ret].
  apply does_seq; [apply does_prevStatus|]. intros p. apply does_seq; [eapply does_any, does_tr_Now|]. intros t.
  apply does_mark.
Qed.

Lemma does_checkTimeout t d e acc : does (@checkTimeout _ _ rt t d e acc) any.
Proof.
  destruct e as [id state]. unfold checkTimeout. repeat (case_decide; [|by apply does_ret]).
  apply does_seq; [apply does_status_command|]. intros [e|]; [by apply does_ret|].
  apply does_seq; [apply does_callback|]. does_solver.
Qed.

Lemma does_CheckTimeouts d : does (@CheckTimeouts _ _ rt _ d) any.
Proof.
  unfold CheckTimeouts. apply does_seq; [apply does_IsLeader|]. intros [|]; [|by apply does_ret].
  apply does_seq; [by apply does_gets|]. intros all. apply does_seq; [eapply does_any, does_tr_Now|]. intros t.
  apply does_seq; [|does_solver]. apply (does_for_acc _ _ any); [by apply Forall_true|done|].
  intros. apply does_checkTimeout.
Qed.

Lemma does_PruneOldAttempts d : does (@PruneOldAttempts _ _ rt _ d) any.
Proof.
  unfold PruneOldAttempts. apply does_seq; [apply does_IsLeader|]. intros [|]; [|by apply does_ret].
  apply does_seq; [by apply does_gets|]. intros all.
  apply does_seq; [rewrite Htime; eapply does_any, does_TimeNow|]. intros t.
  apply does_seq; [|does_solver]. apply does_loop. intros [id state]. unfold pruneJob, applyPruneCommand.
  case_decide; [by apply does_ret|]. case_decide; [|by apply does_ret].
  apply does_seq; [eapply does_any, does_tr_Now|]. intros u.
  apply does_seq; [by apply does_applyCommand|]. does_solver.
Qed.

End tracker.

Lemma node_callback_ok cb old new :
  @tr_callback (Node CS Queue) node_TrackerRuntime = Some cb → does (cb old new) any.
Proof. intros [= <-]. apply does_emit. left. by intros []. Qed.

Lemma api_callback_ok cb old new :
  @tr_callback (Node CS Queue) api_TrackerRuntime = Some cb → does (cb old new) any.
Proof. done. Qed.

(** *** Execution and worker *)

Lemma does_set_cancel f : does (set_cancel f) any.
Proof. apply does_modify; [|done]. intros n [? ? ? ?]. by split. Qed.

Lemma does_since_ms t : does (since_ms t) any.
Proof. unfold since_ms. apply does_seq; [eapply does_any, does_TimeNow|]. does_solver. Qed.

Lemma does_executeWebhook j : (∀ t, R (call_of j (webhook_body j t))) → does (executeWebhook j) any.
Proof.
  intros HR. unfold executeWebhook. case_decide; [by apply does_ret|].
  apply does_seq; [eapply does_any, does_TimeNow|]. intros t0. apply does_seq; [eapply does_any, does_Now|]. intros t.
  pose proof does_since_ms. unfold Marshal. destruct (unsupported _); [does_solver|].
  destruct (http_NewRequest _); [does_solver|]. apply does_seq; [|does_solver].
  unfold http_Do. apply does_seq; [by apply does_emit; right; apply HR|]. intros _.
  apply does_seq; [apply does_interleave|]. intros _. by apply does_ask.
Qed.

Lemma does_run_attempt em j k : (∀ t, R (call_of j (webhook_body j t))) → does (run_attempt em j k) any.
Proof.
  intros HR. unfold run_attempt, was_cancelled, MarkFailed, MarkCompleted.
  pose proof (does_markFinished node_TrackerRuntime eq_refl node_callback_ok).
  pose proof (does_recordAttempt node_TrackerRuntime eq_refl). pose proof does_GetStatus.
  apply does_seq; [eapply does_any, does_Now|]. intros t. apply does_seq; [by apply does_executeWebhook|].
  intros [[code ms] err]. apply does_seq; [eapply does_any, does_Now|]. does_solver.
Qed.

Lemma does_Execute em j : (∀ t, R (call_of j (webhook_body j t))) → does (Execute em j) any.
Proof.
  intros HR. unfold Execute, CanExecute. apply does_seq.
  { apply does_seq; [by apply does_gets|]. does_solver. }
  intros [[|]|e]; [|by apply does_ret..]. apply does_seq; [apply does_GetStatus|]. intros st.
  case_decide; [by apply does_ret|].
  apply does_seq; [apply (does_MarkInProgress node_TrackerRuntime eq_refl node_callback_ok)|].
  intros [e|]; [by apply does_ret|]. apply does_seq; [apply does_set_cancel|]. intros _.
  apply does_seq; [by apply does_run_attempt|]. intros res. apply does_seq; [apply does_set_cancel|]. does_solver.
Qed.

(** What a batch has collected can be stored again. *)
Definition fit_batch (b : Batch) : Prop := Forall fit_job (jobsToReschedule b).

Lemma fit_next j t :
  fit_job j → calculateNextExecution j t > 0 → fit_job (set_CreatedAt (calculateNextExecution j t) j).
Proof.
  intros [(Ht & Hl & _) Hk] Hn. split; [|by apply cl_next; [|lia]]. split_and!; [done..|]. simpl.
  unfold calculateNextExecution. destruct (cron_parse _); [|by vm_compute].
  destruct (job_LastDate j); [case_decide; [by vm_compute|]|]; apply out_cron.
Qed.

(** Due jobs may be called. *)
Definition due_allowed (t : Z) : Prop :=
  ∀ j u, known j → shouldExecuteJob j t = true → R (call_of j (webhook_body j u)).

Lemma does_process_job em t j b :
  due_allowed t → fit_job j → fit_batch b → does (process_job em t j b) fit_batch.
Proof.
  intros HR Hj Hb. unfold process_job. destruct (shouldExecuteJob j t) eqn:Hd; [|by apply does_ret].
  apply does_seq.
  { unfold executeJob. apply does_seq; [|does_solver]. apply does_Execute. intros u. by apply HR; [apply Hj|]. }
  intros _. repeat case_decide; apply does_ret; try done.
  apply Forall_app. split; [done|]. apply Forall_singleton. by apply fit_next.
Qed.

Lemma does_process_slot em t : due_allowed t → does (process_slot em t) any.
Proof.
  intros HR. unfold process_slot. eapply does_bind; [apply does_GetNextSlot|].
  intros [s|] Hs; [|by apply does_ret]. case_decide; [by apply does_ret|].
  eapply does_bind; [apply (does_for_acc _ _ fit_job fit_batch); [by apply Hs|by constructor|]|].
  { intros. by apply does_process_job. }
  intros b Hb. apply does_seq.
  { apply does_loop. intros id. unfold remove_job. apply does_seq; [apply does_when_leader, does_DeleteJob|].
    intros _. apply does_RemoveJob. }
  intros _. apply does_seq; [|does_solver]. apply (does_for_each _ _ fit_job); [done|].
  intros j Hj. by apply does_when_leader, does_CreateJob.
Qed.

Lemma does_process_slots k em t : due_allowed t → does (process_slots k em t) any.
Proof.
  intros HR. induction k as [|k IH]; [by apply does_ret|]. apply does_seq; [by apply does_process_slot|].
  intros [|]; [done|by apply does_ret].
Qed.

Lemma does_checkTimeouts d : does (checkTimeouts d) any.
Proof.
  unfold checkTimeouts. apply does_seq; [apply does_IsLeader|]. intros [|]; [|by apply does_ret].
  apply does_seq; [apply (does_CheckTimeouts node_TrackerRuntime eq_refl node_callback_ok)|]. does_solver.
Qed.

(** *** Eviction *)

Lemma does_evict c wheel : does (evict c wheel) any.
Proof.
  unfold evict. apply does_seq; [apply does_IsLeader|]. intros [|]; [|by apply does_ret].
  apply does_seq; [eapply does_any, does_Now|]. intros t. apply does_seq; [by apply does_gets|]. intros hot.
  apply does_seq.
  { apply does_loop. intros [k d]. unfold archive_old, if_wheel. case_decide; [|by apply does_ret].
    apply does_seq; [apply does_ArchiveSlot|]. intros [e|]; [by apply does_ret|].
    destruct wheel; [apply does_wheel_Remove|by apply does_ret]. }
  intros _. eapply does_bind; [apply does_cold_keys|]. intros keys Hkeys.
  apply (does_for_each _ _ in64); [done|]. intros k Hk. unfold promote_recent, if_wheel, GetSlot.
  apply does_seq; [by apply does_gets|]. intros [d|]; [|by apply does_ret]. case_decide; [|by apply does_ret].
  apply does_seq; [apply does_UnarchiveSlot|]. intros [e|]; [by apply does_ret|].
  destruct wheel; [by apply does_wheel_Add|by apply does_ret].
Qed.

End operations.

(** *** The API *)

Section api.

Context {CS : Type} `{ColdSlotStore CS} `{GoRange} `{Env} `{HTTP} `{Cron} `{Cluster}.
Context (known : Job → Prop) (R : event → Prop) `{!Outside known} `{!Closed known}.

Local Open Scope go_scope.

Notation does := (does (CS := CS) known R).

Lemma does_CheckCapacity lm j : does (CheckCapacity lm j) any.
Proof.
  unfold CheckCapacity, MemoryTracker_CheckCapacity, GetUsage, GetMemoryUsage, JobCounter_CheckCapacity, GetJobCount.
  does_solver.
Qed.

Lemma does_RecordJobAdded lm j : does (RecordJobAdded lm j) any.
Proof.
  pose proof (does_UpdateMemoryUsage (CS := CS) known R). pose proof (does_UpdateJobCount (CS := CS) known R).
  unfold RecordJobAdded, IncrementUsage, DecrementUsage, Increment. does_solver.
Qed.

Lemma does_RecordJobRemoved lm j : does (RecordJobRemoved lm j) any.
Proof.
  pose proof (does_UpdateMemoryUsage (CS := CS) known R). pose proof (does_UpdateJobCount (CS := CS) known R).
  unfold RecordJobRemoved, DecrementUsage, Decrement. does_solver.
Qed.

Lemma does_proxy getenv h r : does (proxyToLeader getenv h r) any.
Proof. unfold proxyToLeader, GetLeader. does_solver. Qed.

Lemma does_on_leader getenv h r k : does k any → does (on_leader getenv h r k) any.
Proof.
  intros Hk. unfold on_leader. apply does_seq; [apply does_IsLeader|].
  intros [|]; [done|apply does_proxy].
Qed.

Lemma does_admit h j : fit_job known j → does (admit_job h j) any.
Proof.
  intros Hj. pose proof (does_CheckCapacity). pose proof does_RecordJobAdded. unfold admit_job.
  apply does_seq; [destruct (h_limitManager h); [done|by apply does_ret]|].
  intros [e|]; [by apply does_ret|]. apply does_seq; [by apply does_CreateJob|]. does_solver.
Qed.

(** Whenever it is made, the job of a request is known. *)
Definition known_request (uuid : string) (r : Request) : Prop :=
  uuid ≠ "" ∧ ∀ t req j, in64 t → rq_Body r ≫= dec_CreateJobRequest = Some req →
    ToJob t uuid req = inl j → known j.

Lemma does_API_CreateJob getenv h uuid r : known_request uuid r → does (API_CreateJob getenv h uuid r) any.
Proof.
  intros [Hu Hr]. apply does_on_leader. destruct (rq_Body r ≫= _) as [req|] eqn:E; [|by apply does_ret].
  eapply does_bind; [by apply does_Now|]. intros t Ht. destruct (ToJob t uuid req) as [j|e] eqn:Ej; [|by apply does_ret].
  apply does_seq; [by eapply does_any, does_Now|]. intros u. destruct (Job_Validate u j); [by apply does_ret|].
  apply does_admit. split; [by apply (ToJob_inl t uuid req)|by eapply Hr].
Qed.

Lemma does_API_DeleteJob getenv h r : does (API_DeleteJob getenv h r) any.
Proof.
  pose proof does_RecordJobRemoved. apply does_on_leader. case_decide; [by apply does_ret|].
  apply does_seq; [by eapply does_any, does_GetJob|]. intros [j|]; [|by apply does_ret].
  apply does_seq; [by apply does_DeleteJob|]. does_solver.
Qed.

Lemma does_API_CancelJob getenv h r : does (API_CancelJob getenv h r) any.
Proof.
  pose proof (does_GetStatus (CS := CS) known R). apply does_on_leader. case_decide; [by apply does_ret|].
  apply does_seq; [by eapply does_any, does_GetJob|]. intros [j|]; [|by apply does_ret]. cbv zeta.
  apply does_seq; [done|]. intros st. apply does_seq.
  { destruct (_ && _); [|by apply does_ret]. apply does_seq; [|does_solver]. unfold CancelJob.
    apply does_seq; [by apply does_gets|]. intros [|]; [|by apply does_ret].
    apply does_seq; [apply does_emit; left; by intros []|]. does_solver. }
  intros _. apply does_seq; [by apply (does_MarkCancelled known R api_TrackerRuntime eq_refl), api_callback_ok|].
  does_solver.
Qed.

Lemma does_GetJob_any id : does (GetJob id) any.
Proof. by eapply does_any, does_GetJob. Qed.

Lemma does_Now_any : does Now any.
Proof. by eapply does_any, does_Now. Qed.

Lemma does_GetLeader : does GetLeader any.
Proof. by apply does_ask. Qed.

Lemma does_get_state id : does (ss_GetExecutionState id) any.
Proof. by apply does_gets. Qed.

Lemma does_all_states : does ss_GetAllExecutionStates any.
Proof. by apply does_gets. Qed.

Lemma does_reads r :
  does (API_GetJob r) any ∧ does (API_GetJobStatus r) any ∧ does (API_GetJobExecutions r) any ∧
  does (API_ListJobsByStatus r) any.
Proof.
  pose proof does_GetJob_any. pose proof does_Now_any. pose proof (does_GetStatus (CS := CS) known R).
  pose proof does_get_state. pose proof does_all_states.
  split_and!; unfold API_GetJob, API_GetJobStatus, API_GetJobExecutions, API_ListJobsByStatus,
    GetExecutionHistory, ListByStatus; does_solver.
Qed.

Lemma does_Ready : does Ready any.
Proof.
  pose proof (does_IsLeader (CS := CS) known R). pose proof does_GetLeader. unfold Ready. does_solver.
Qed.

Lemma does_Health nodeID h : does (Health nodeID h) any.
Proof.
  pose proof (does_IsLeader (CS := CS) known R). pose proof does_GetLeader. pose proof does_all_states.
  unfold Health, Health_rest, GetExecutionStats, GetUsage, GetMemoryUsage, GetJobCount. does_solver.
Qed.

Lemma does_ClusterDebug nodeID : does (ClusterDebug nodeID) any.
Proof.
  pose proof (does_IsLeader (CS := CS) known R). pose proof does_GetLeader.
  unfold ClusterDebug, GetClusterConfiguration, GetAllJobs. does_solver.
Qed.

Lemma does_JoinCluster r : does (JoinCluster r) any.
Proof.
  unfold JoinCluster. apply does_seq; [by apply does_IsLeader|]. intros [|]; [|by apply does_ret].
  destruct (_ ≫= _) as [[id addr]|]; [|by apply does_ret]. case_decide; [by apply does_ret|].
  apply does_seq; [|does_solver]. unfold AddPeer, GetClusterConfiguration, raft_change.
  apply does_seq; [by apply does_IsLeader|]. intros [|]; [|by apply does_ret].
  apply does_seq; [does_solver|]. intros [servers|e]; [|by apply does_ret]. case_decide; [by apply does_ret|].
  apply does_seq; [|does_solver]. apply does_seq; [apply does_emit; left; by intros []|]. does_solver.
Qed.

End api.
