(* ===== verification/System.v ===== *)
(** * The whole node

    Everything that can happen to a node, in any order and any environment:
    requests to its API, ticks of its worker, timeouts, pruning, eviction,
    loading of the queue, log entries and snapshots that Raft hands to it, and
    restarts. What happens is one step; while a step runs, other nodes and
    goroutines get entries into the log (class [Env]). *)

From S2P Require Import Prelude GoStrings GoFloat Json Types Codec ColdStore FSM Snapshot.
From S2P Require Import TimingWheel WheelProps WheelTime Store StoreProps StatusTracker Limits SlotQueue.
From S2P Require Import SlotQueueProps ExecutionManager Worker WorkerProps Evictor Gateway Api Delivery Restart.
From S2P Require Import NodeRules.

(** ** Runs of a node *)

Section runs.

Context {CS : Type} `{ColdSlotStore CS} `{GoRange} `{Env} `{HTTP} `{Cron} `{Cluster}.
Context (getenv : Getenv) (known : Job → Prop) `{!Outside known} `{!Closed known}.

Local Open Scope go_scope.

Implicit Types n : Node CS Queue.

(** What happens to a node: the requests of [api/router.go], what its
    goroutines do ([Worker], [Pruning], [Evictor] and [LoadJobs] of the queue),
    what Raft hands to its state machine, and its end: a process that starts
    again finds the cold store on its disk, and Raft replays the rest. *)
Inductive action :=
  | ACreateJob (h : Handlers) (uuid : string) (r : Request)
  | AGetJob (r : Request)
  | ADeleteJob (h : Handlers) (r : Request)
  | AGetJobStatus (r : Request)
  | AGetJobExecutions (r : Request)
  | ACancelJob (h : Handlers) (r : Request)
  | AListJobsByStatus (r : Request)
  | AReady
  | AHealth (nodeID : string) (h : Handlers)
  | AClusterDebug (nodeID : string)
  | AJoinCluster (r : Request)
  | ATick (em : ExecutionManager)
  | ACheckTimeouts (timeout : Z)
  | APrune (retention : Z)
  | AEvict (c : SlotEvictionConfig) (wheel : bool)
  | ALoadJobs
  | AEntry (data : json)
  | AInstall (doc : json)
  | ARestart (gap : Z).

Definition ignoring {A} (c : M (Node CS Queue) A) : M (Node CS Queue) unit := _ <- c ;; mreturn tt.

Definition restart (gap : Z) : M (Node CS Queue) unit := λ n,
  q ← NewPersistentSlotQueue gap;
  Some (tt, mkNode (initial_fsm (f_coldStore (n_fsm n))) q ∅ (n_step n) (n_trace n)).

Definition act (a : action) : M (Node CS Queue) unit :=
  match a with
  | ACreateJob h uuid r => ignoring (API_CreateJob getenv h uuid r)
  | AGetJob r => ignoring (API_GetJob r)
  | ADeleteJob h r => ignoring (API_DeleteJob getenv h r)
  | AGetJobStatus r => ignoring (API_GetJobStatus r)
  | AGetJobExecutions r => ignoring (API_GetJobExecutions r)
  | ACancelJob h r => ignoring (API_CancelJob getenv h r)
  | AListJobsByStatus r => ignoring (API_ListJobsByStatus r)
  | AReady => ignoring Ready
  | AHealth nodeID h => ignoring (Health nodeID h)
  | AClusterDebug nodeID => ignoring (ClusterDebug nodeID)
  | AJoinCluster r => ignoring (JoinCluster r)
  | ATick em => processSlots em
  | ACheckTimeouts timeout => checkTimeouts timeout
  | APrune retention => ignoring (PruneOldAttempts retention)
  | AEvict c wheel => evict c wheel
  | ALoadJobs => LoadJobs
  | AEntry data => modify (λ n, set_fsm (FSM_Apply data (n_fsm n)).2 n)
  | AInstall doc => modify (λ n, set_fsm (Restore doc (n_fsm n)).2 n)
  | ARestart gap => restart gap
  end.

(** Requests and entries ask for known jobs, snapshots come from nodes of this
    kind, and the slot gap is one to a million seconds. *)
Definition allowed (a : action) : Prop :=
  match a with
  | ACreateJob _ uuid r => known_request known uuid r
  | AEntry data => known_entry known data
  | AInstall doc => ∃ f : FSM CS, fsm_fit known f ∧ fsm_encodable f ∧ doc = enc_Snapshot (GetSnapshot f)
  | ARestart gap => ∃ s, 1 <= s <= 1000000 ∧ gap = s * Second
  | _ => True
  end.

Inductive reachable : Node CS Queue → Prop :=
  | reachable_start cs s q i :
      1 <= s <= 1000000 → NewPersistentSlotQueue (s * Second) = Some q →
      reachable (mkNode (initial_fsm cs) q ∅ i [])
  | reachable_act a n n' : reachable n → allowed a → act a n = Some (tt, n') → reachable n'.

(** The call of a known job that is due at [t]. *)
Definition due_known (t : Z) (e : event) : Prop :=
  ∃ j u, known j ∧ shouldExecuteJob j t = true ∧ e = call_of j (webhook_body j u).

Definition calls_nothing (_ : event) : Prop := False.

Lemma does_ignoring R {A} (c : M (Node CS Queue) A) : does known R c any → does known R (ignoring c) any.
Proof. intros Hc. apply does_seq; [done|]. intros _. by apply does_ret. Qed.

Lemma new_queue_fit s q f i tr :
  1 <= s <= 1000000 → NewPersistentSlotQueue (s * Second) = Some q → fsm_fit known f →
  node_fit known (mkNode f q ∅ i tr : Node CS Queue).
Proof.
  intros Hs Hq Hf. apply new_queue_default in Hq as ->; [|done].
  destruct (default_wheel_ok s Hs) as (Hw & _ & _). pose proof (secs_gap s Hs).
  split; simpl; [done|lia|done|]. split; [done|]. repeat constructor; simpl; unfold horizon; lia.
Qed.

Lemma new_queue_exists s : 1 <= s <= 1000000 → ∃ q, NewPersistentSlotQueue (s * Second) = Some q.
Proof.
  intros Hs. unfold NewPersistentSlotQueue, NewHierarchicalTimingWheel. simpl. by eexists.
Qed.

Lemma decide_tick a : (∃ em, a = ATick em) ∨ (∀ em, a ≠ ATick em).
Proof. destruct a; try (by right); left; by eexists. Qed.

(** Everything but a tick, and nothing of it calls a webhook. *)
Lemma act_quiet a :
  allowed a → (∀ em, a ≠ ATick em) → does known calls_nothing (act a) any.
Proof.
  intros Ha Hne.
  destruct a; simpl; try solve [apply does_ignoring, (does_reads known calls_nothing r)].
  - by apply does_ignoring, does_API_CreateJob.
  - by apply does_ignoring, does_API_DeleteJob.
  - by apply does_ignoring, does_API_CancelJob.
  - by apply does_ignoring, does_Ready.
  - by apply does_ignoring, does_Health.
  - by apply does_ignoring, does_ClusterDebug.
  - by apply does_ignoring, does_JoinCluster.
  - by destruct (Hne em).
  - by apply does_checkTimeouts.
  - by apply does_ignoring, (does_PruneOldAttempts _ _ node_TrackerRuntime).
  - by apply does_evict.
  - by apply does_LoadJobs.
  - apply does_modify; [|done]. intros n Hn. apply fit_set_fsm; [done|]. by apply apply_fit, Hn.
  - apply does_modify; [|done]. intros n Hn. apply fit_set_fsm; [done|]. destruct Ha as (f & Hf & He & ->).
    apply restore_fit; [apply cl_norm|done..].
  - destruct Ha as (s & Hs & ->). intros n Hn. destruct (new_queue_exists s Hs) as [q Eq].
    unfold returns, restart. rewrite Eq. eexists tt, _. split; [done|]. split_and!; [done| |exists []; by rewrite app_nil_r].
    by eapply new_queue_fit, initial_fit.
Qed.

(** A tick calls due jobs only. *)
Lemma tick_returns em n :
  node_fit known n →
  returns (processSlots em) n (λ _ n', node_fit known n' ∧
    ∃ evs, webhooks (n_trace n') = webhooks (n_trace n) ++ evs ∧
      Forall (due_known (unix (now (n_step n)))) evs).
Proof.
  intros Hn. unfold processSlots. apply returns_bind. unfold Now, TimeNow, ask, mthen at 1, mreturn at 1.
  eexists _, _. split; [done|]. set (n1 := mkNode _ _ _ _ _).
  assert (node_fit known n1) as Hn1 by (destruct Hn; by split).
  eapply returns_mono; [apply (does_process_slots known (due_known (unix (now (n_step n)))) 10 em _)|]; [|done|].
  - intros j u Hj Hd. by exists j, u.
  - intros [] n2 (_ & ? & ?). done.
Qed.

Lemma reachable_fit n :
  reachable n → node_fit known n ∧ Forall (λ e, ∃ i, due_known (unix (now i)) e) (webhooks (n_trace n)).
Proof.
  induction 1 as [cs s q i Hs Hq|a n n' Hn [IH IHt] Ha E].
  { split; [|constructor]. by eapply new_queue_fit, initial_fit. }
  destruct (decide_tick a) as [[em ->]|Hne].
  - destruct (tick_returns em n IH) as ([] & n2 & E2 & Hn2 & evs & T & F). simpl in E.
    rewrite E in E2. injection E2 as <-. split; [done|]. rewrite T. apply Forall_app. split; [done|].
    eapply Forall_impl; [exact F|]. intros e He. by eexists.
  - destruct (act_quiet a Ha Hne n IH) as ([] & n2 & E2 & _ & Hn2 & evs & T & F).
    rewrite E in E2. injection E2 as <-. split; [done|]. destruct F; [|done]. by rewrite T, app_nil_r.
Qed.

(** C4: The whole node is safe. Whatever happens to a node and in whatever
    order - requests, ticks, timeouts, pruning, eviction, loading of the
    queue, entries and snapshots from Raft, restarts - in every environment,
    the next thing that happens to it returns: nothing panics and no loop is
    endless. It leaves a state machine that keeps its invariant and a wheel
    that is well formed, and only a tick calls webhooks: of jobs that are due,
    and among those that clients and the log have named, in any sense of the
    word that outlives storing and rescheduling a job. *)
Theorem node_is_safe a n :
  reachable n → allowed a →
  ∃ n', act a n = Some (tt, n') ∧ fsm_inv (n_fsm n') ∧ queue_ok (n_queue n') ∧
    Forall (λ e, ∃ i, due_known (unix (now i)) e) (webhooks (n_trace n')) ∧
    ∃ evs, webhooks (n_trace n') = webhooks (n_trace n) ++ evs ∧
      Forall (due_known (unix (now (n_step n)))) evs ∧ ((∀ em, a ≠ ATick em) → evs = []).
Proof.
  intros Hn Ha. destruct (reachable_fit n Hn) as [Hfit _].
  assert (∃ n', act a n = Some (tt, n') ∧ ∃ evs, webhooks (n_trace n') = webhooks (n_trace n) ++ evs ∧
    Forall (due_known (unix (now (n_step n)))) evs ∧ ((∀ em, a ≠ ATick em) → evs = []))
    as (n' & E & Hevs).
  { destruct (decide_tick a) as [[em ->]|Hne].
    - destruct (tick_returns em n Hfit) as ([] & n' & E & _ & evs & T & F). exists n'. split; [done|].
      exists evs. split_and!; [done..|]. intros Hne. by destruct (Hne em).
    - destruct (act_quiet a Ha Hne n Hfit) as ([] & n' & E & _ & _ & evs & T & F). exists n'. split; [done|].
      destruct F; [|done]. by exists []. }
  destruct (reachable_fit n') as [Hfit' Ht']; [by eapply reachable_act|].
  exists n'. split_and!; try done; [apply Hfit'|]. destruct Hfit' as [? ? ? [? ?]]. by split.
Qed.

End runs.

(** ** A concrete run *)

(** Every full minute of some years, and then never. *)
Definition ex_cron : Cron := {|
  Schedule := unit;
  cron_parse := λ _, inl tt;
  cron_next := λ _ t, if decide (0 <= t < 2 ^ 40) then 60 * (t / 60 + 1) else zero_time_unix |}.

(** The jobs of one client, told by their webhook. *)
Definition of_client (j : Job) : Prop := job_WebhookURL j = "http://w".

#[local] Instance ex_outside : @Outside (clock_env 55) ex_cron of_client.
Proof.
  split.
  - intros i. vm_compute. split; congruence.
  - intros s t. simpl. case_decide; [|by vm_compute].
    pose proof (Z.div_le_upper_bound t 60 (2 ^ 40)). pose proof (Z.div_pos t 60). unfold in64, two63. lia.
  - intros i. constructor.
Qed.

#[local] Instance ex_closed : @Closed ex_cron of_client.
Proof. by split. Qed.

Local Notation ex_act := (@act MemBolt _ sorted_range (clock_env 55) ex_http ex_cron ex_cluster ex_getenv).

Local Notation ex_reachable :=
  (@reachable MemBolt _ sorted_range (clock_env 55) ex_http ex_cron ex_cluster ex_getenv of_client).

(** A node that has started, replayed its log and loaded its queue. *)
Definition ex_loaded : option (Node MemBolt Queue) :=
  ofold (λ a n, snd <$> ex_act a n) ((AEntry <$> ex_due_log) ++ [ALoadJobs]) ex_started.

Lemma ex_log_known : Forall (known_entry of_client) ex_due_log.
Proof.
  repeat constructor; [|by apply known_without_job].
  apply known_create; [|done]. split_and!; [intros t [= <-]|intros t [=]|]; by vm_compute.
Qed.

Lemma reachable_run acts (n n' : Node MemBolt Queue) :
  ex_reachable n → Forall (@allowed MemBolt of_client) acts →
  ofold (λ a n, snd <$> ex_act a n) acts n = Some n' → ex_reachable n'.
Proof.
  intros Hn Ha. revert n Hn. induction Ha as [|a acts Ha _ IH]; intros n Hn E; simpl in E; [by simplify_eq|].
  destruct (ex_act a n) as [[[] n1]|] eqn:E1; [|done]. apply (IH n1); [|done]. by eapply reachable_act.
Qed.

Lemma node_is_safe_witness :
  ∃ n n', ex_loaded = Some n ∧ ex_act (ATick ex_em) n = Some (tt, n') ∧
    (∃ u, webhooks (n_trace n') = [call_of ex_due_job (webhook_body ex_due_job u)]) ∧
    Forall (λ e, ∃ i, due_known of_client (unix (@now (clock_env 55) i)) e) (webhooks (n_trace n')).
Proof.
  destruct ex_loaded as [n|] eqn:E; [|vm_compute in E; discriminate].
  destruct (@node_is_safe MemBolt _ sorted_range (clock_env 55) ex_http ex_cron ex_cluster ex_getenv of_client
    ex_outside ex_closed (ATick ex_em) n) as (n' & E' & _ & _ & Ht & _).
  - eapply reachable_run; [|shelve|exact E]. apply (reachable_start _ _ None 10); [lia|exact ex_started_queue].
  - exact I.
  - exists n, n'. split; [done|]. split; [exact E'|]. split; [|exact Ht]. exists 55.
    vm_compute in E. injection E as <-. vm_compute in E'. injection E' as <-. reflexivity.
  Unshelve. apply Forall_app. split; [|by repeat constructor]. apply Forall_fmap.
  eapply Forall_impl; [exact ex_log_known|done].
Defined.
