(* ===== verification/Simulator.v ===== *)
(** * The simulator: [internal/simulator]

    A simulated node on one state machine, one wheel, a clock that is moved
    by hand and an executor that rolls dice. The worker holds the same
    objects as the simulator, so one record is the state of both. The random
    numbers of [math/rand] and the readings of the real clock are arguments. *)

From S2P Require Import Prelude GoStrings GoFloat GoTime Json Types Codec Request ColdStore FSM.
From S2P Require Import Snapshot TimingWheel WheelProps Store StoreProps SlotQueue Worker.
From Stdlib Require Import SpecFloat.

(** What the [i]-th call of the random source gives. *)
Class Rand := {
  Int63n : nat → Z → Z;
  Float64 : nat → float64 }.

(** ** clock.go *)

Record SimulatedClock := mkSimulatedClock { clk_now : Z; clk_speed : float64 }.

Definition NewSimulatedClock (wall startAt : Z) : SimulatedClock :=
  mkSimulatedClock (if decide (startAt = 0) then wall else startAt) (f_of_Z 1).

Definition Clock_SetSpeed (speed : float64) (c : SimulatedClock) : SimulatedClock :=
  mkSimulatedClock (clk_now c) (if f_ltb speed (f_of_Z 0) then f_of_Z 0 else speed).

Definition Clock_SetTime (t : Z) (c : SimulatedClock) : SimulatedClock :=
  mkSimulatedClock t (clk_speed c).

(** [Advance] and [Tick] move the clock alike; [Tick] also returns the time. *)
Definition Clock_Tick (elapsed : float64) (c : SimulatedClock) : SimulatedClock :=
  mkSimulatedClock (i64 (clk_now c + f_trunc (f_mul elapsed (clk_speed c)))) (clk_speed c).

(** ** executor.go *)

Record ExecutionResult := mkExecutionResult {
  er_JobID : string;
  er_Success : bool;
  er_ResponseTime : Z;
  er_Timestamp : Z }.

Record SimulatedExecutor := mkSimulatedExecutor {
  se_successRate : float64;
  se_latencyMs : Z;
  se_execLog : list ExecutionResult;
  se_logCapacity : Z;
  se_draws : nat }.

(** [if rate < 0 { rate = 0 }; if rate > 1 { rate = 1 }] *)
Definition clamp_rate (rate : float64) : float64 :=
  let rate := if f_ltb rate (f_of_Z 0) then f_of_Z 0 else rate in
  if f_ltb (f_of_Z 1) rate then f_of_Z 1 else rate.

Definition NewSimulatedExecutor (successRate : float64) (latencyMs : Z) : SimulatedExecutor :=
  mkSimulatedExecutor (clamp_rate successRate) (if decide (latencyMs < 0) then 0 else latencyMs)
    [] 200 0.

Definition Executor_SetSuccessRate (rate : float64) (e : SimulatedExecutor) : SimulatedExecutor :=
  mkSimulatedExecutor (clamp_rate rate) (se_latencyMs e) (se_execLog e) (se_logCapacity e)
    (se_draws e).

(** The last [n] entries, when there are more. *)
Definition keep_last {A} (n : Z) (l : list A) : list A :=
  if decide (Z.of_nat (length l) > n) then drop (Z.to_nat (Z.of_nat (length l) - n)) l else l.

Definition appendLog (r : ExecutionResult) (e : SimulatedExecutor) : SimulatedExecutor :=
  mkSimulatedExecutor (se_successRate e) (se_latencyMs e)
    (keep_last (se_logCapacity e) (se_execLog e ++ [r])) (se_logCapacity e) (se_draws e).

Definition draw (e : SimulatedExecutor) : SimulatedExecutor :=
  mkSimulatedExecutor (se_successRate e) (se_latencyMs e) (se_execLog e) (se_logCapacity e)
    (S (se_draws e)).

Definition Executor_Execute `{Rand} (job : Job) (now : Z) (e : SimulatedExecutor)
    : ExecutionResult * SimulatedExecutor :=
  let '(jitter, e) :=
    if decide (se_latencyMs e > 0) then (Int63n (se_draws e) (se_latencyMs e), draw e) else (0, e) in
  let success := f_ltb (Float64 (se_draws e)) (se_successRate e) in
  let e := draw e in
  let result := mkExecutionResult (job_ID job) success (i64 (se_latencyMs e + jitter)) now in
  (result, appendLog result e).

Definition GetLog (e : SimulatedExecutor) : list ExecutionResult := se_execLog e.

(** The log from its first entry at or after [since] on. *)
Fixpoint log_since (since : Z) (l : list ExecutionResult) : list ExecutionResult :=
  match l with
  | [] => []
  | r :: l' => if decide (er_Timestamp r >= since) then l else log_since since l'
  end.

Definition GetLogSince (since : Z) (e : SimulatedExecutor) : list ExecutionResult :=
  log_since since (se_execLog e).

Definition ClearLog (e : SimulatedExecutor) : SimulatedExecutor :=
  mkSimulatedExecutor (se_successRate e) (se_latencyMs e) [] (se_logCapacity e) (se_draws e).

(** ** The state *)

Record TickResult := mkTickResult {
  tr_ExecutedJobs : list ExecutionResult;
  tr_Rescheduled : list string;
  tr_ReadySlots : Z }.

Record SimConfig := mkSimConfig {
  cfg_SlotGap : Z;
  cfg_SuccessRate : float64;
  cfg_LatencyMs : Z;
  cfg_WheelConfigs : list WheelLevelConfig }.

(** The literal [0.95]. *)
Definition f_095 : float64 := f_div (f_of_Z 95) (f_of_Z 100).

Definition DefaultConfig : SimConfig := mkSimConfig DefaultSlotGap f_095 100 [].

Record Simulator (CS : Type) := mkSimulator {
  sim_fsm : FSM CS;
  sim_clock : SimulatedClock;
  sim_wheel : HierarchicalTimingWheel;
  sim_executor : SimulatedExecutor;
  sim_config : SimConfig;
  sim_tickLog : list TickResult }.

Arguments mkSimulator {CS}.
Arguments sim_fsm {CS}.
Arguments sim_clock {CS}.
Arguments sim_wheel {CS}.
Arguments sim_executor {CS}.
Arguments sim_config {CS}.
Arguments sim_tickLog {CS}.

Record SimState := mkSimState {
  ss_Now : Z;
  ss_ClockSpeed : float64;
  ss_Jobs : gmap string Job;
  ss_Slots : gmap Z SlotData;
  ss_ExecutionStates : gmap string JobExecutionState;
  ss_WheelSize : Z;
  ss_ExecLog : list ExecutionResult;
  ss_TickCount : Z;
  ss_TotalExecuted : Z;
  ss_TotalRescheduled : Z }.

Section Simulator.

Context {CS : Type} `{ColdSlotStore CS} `{GoRange} `{Cron} `{Rand}.

Local Open Scope go_scope.

Notation P := (M (Simulator CS)).

Implicit Types s : Simulator CS.

Definition sim_set_fsm (f : FSM CS) s : Simulator CS :=
  mkSimulator f (sim_clock s) (sim_wheel s) (sim_executor s) (sim_config s) (sim_tickLog s).

Definition sim_set_clock (c : SimulatedClock) s : Simulator CS :=
  mkSimulator (sim_fsm s) c (sim_wheel s) (sim_executor s) (sim_config s) (sim_tickLog s).

Definition sim_set_wheel (w : HierarchicalTimingWheel) s : Simulator CS :=
  mkSimulator (sim_fsm s) (sim_clock s) w (sim_executor s) (sim_config s) (sim_tickLog s).

Definition sim_set_executor (e : SimulatedExecutor) s : Simulator CS :=
  mkSimulator (sim_fsm s) (sim_clock s) (sim_wheel s) e (sim_config s) (sim_tickLog s).

Definition sim_set_tickLog (l : list TickResult) s : Simulator CS :=
  mkSimulator (sim_fsm s) (sim_clock s) (sim_wheel s) (sim_executor s) (sim_config s) l.

(** [fsm.ApplyCommand(cmd)] *)
Definition sim_apply (cmd : Command) : P ApplyResult :=
  λ s, let '(r, f) := applyCommandInternal cmd (sim_fsm s) in Some (r, sim_set_fsm f s).

Definition sim_wheel_op {A} (f : HierarchicalTimingWheel → option (A * HierarchicalTimingWheel))
    : P A :=
  λ s, '(a, w) ← f (sim_wheel s); Some (a, sim_set_wheel w s).

Definition sim_wheel_op_ (f : HierarchicalTimingWheel → option HierarchicalTimingWheel) : P unit :=
  sim_wheel_op (λ w, (λ w', (tt, w')) <$> f w).

(** [int64(slotGap.Seconds())], ten when that is zero. *)
Definition sim_gap_secs (gap : Z) : Z :=
  let g := secs gap in if decide (g = 0) then secs DefaultSlotGap else g.

(** ** worker.go *)

Definition shouldExecute (job : Job) (now : Z) : bool :=
  match job_Timestamp job with
  | Some ts =>
      if decide (job_Type job = JobUnico) then bool_decide (ts <= now)
      else if decide (job_Type job = JobRecurrente) then bool_decide (job_CreatedAt job <= now)
      else false
  | None =>
      if decide (job_Type job = JobRecurrente) then bool_decide (job_CreatedAt job <= now) else false
  end.

Definition sim_calculateNextExecution (job : Job) (now : Z) : Z :=
  match cron_parse (job_CronExpr job) with
  | inr _ => 0
  | inl schedule =>
      let nextTs := cron_next schedule now in
      match job_LastDate job with
      | Some last => if decide (nextTs > last) then 0 else nextTs
      | None => nextTs
      end
  end.

Definition Worker_addToWheel (job : Job) : P unit :=
  match job_time job with
  | None => mreturn tt
  | Some ts =>
      gap <- gets (λ s, sim_gap_secs (cfg_SlotGap (sim_config s))) ;;
      key <- lift_opt (go_quot ts gap) ;;
      sim_wheel_op_ (Add key)
  end.

(** The slot of the job, extended or made. *)
Definition updateSlotInFSM (job : Job) : P unit :=
  match job_time job with
  | None => mreturn tt
  | Some ts =>
      gap <- gets (λ s, sim_gap_secs (cfg_SlotGap (sim_config s))) ;;
      key <- lift_opt (go_quot ts gap) ;;
      slot <- gets (λ s, FSM_GetSlot key (sim_fsm s)) ;;
      let slotData :=
        match slot with
        | None => mkSlotData key (i64 (key * gap)) (i64 (i64 (i64 (key + 1) * gap) - 1)) [job_ID job]
        | Some d => set_JobIDs (slot_JobIDs d ++ [job_ID job]) d
        end in
      _ <- sim_apply (cmd_create_slot slotData) ;; mreturn tt
  end.

(** Delete the job and create it again with its next time. *)
Definition sim_reschedule (jobID : string) (job : Job) (nextTs : Z) : P unit :=
  _ <- sim_apply (cmd_with_id CommandDeleteJob jobID) ;;
  let rescheduled := set_CreatedAt nextTs (Job_Clone job) in
  _ <- sim_apply (cmd_create_job rescheduled) ;;
  Worker_addToWheel rescheduled ;;
  updateSlotInFSM rescheduled.

(** The body of the loop over the jobs of a slot. *)
Definition tick_job (now : Z) (jobID : string) (r : TickResult) : P TickResult :=
  job <- gets (λ s, FSM_GetJob jobID (sim_fsm s)) ;;
  match job with
  | None => mreturn r
  | Some job =>
      if shouldExecute job now then
        execResult <- (λ s, let '(x, e) := Executor_Execute job now (sim_executor s) in
                            Some (x, sim_set_executor e s)) ;;
        let r := mkTickResult (tr_ExecutedJobs r ++ [execResult]) (tr_Rescheduled r)
                   (tr_ReadySlots r) in
        if decide (job_Type job = JobUnico) then
          _ <- sim_apply (cmd_with_id CommandDeleteJob jobID) ;; mreturn r
        else if decide (job_Type job = JobRecurrente) then
          let nextTs := sim_calculateNextExecution job now in
          if decide (nextTs > 0) then
            sim_reschedule jobID job nextTs ;;
            mreturn (mkTickResult (tr_ExecutedJobs r) (tr_Rescheduled r ++ [jobID])
                       (tr_ReadySlots r))
          else _ <- sim_apply (cmd_with_id CommandDeleteJob jobID) ;; mreturn r
        else mreturn r
      else mreturn r
  end.

(** The body of the loop over the ready slots. *)
Definition tick_slot (now : Z) (slotKey : Z) (r : TickResult) : P TickResult :=
  slot <- gets (λ s, FSM_GetSlot slotKey (sim_fsm s)) ;;
  match slot with
  | None => sim_wheel_op_ (Remove slotKey) ;; mreturn r
  | Some slotData =>
      if decide (length (slot_JobIDs slotData) = 0%nat) then
        sim_wheel_op_ (Remove slotKey) ;; mreturn r
      else
        r <- for_acc (tick_job now) (slot_JobIDs slotData) r ;;
        sim_wheel_op_ (Remove slotKey) ;;
        mreturn r
  end.

Definition ProcessTick : P TickResult :=
  now <- gets (λ s, clk_now (sim_clock s)) ;;
  readyKeys <- sim_wheel_op (Advance now) ;;
  for_acc (tick_slot now) readyKeys (mkTickResult [] [] (Z.of_nat (length readyKeys))).

(** ** simulator.go *)

(** [wall] is [time.Now().Unix()]. *)
Definition NewSimulator (wall : Z) (cfg : SimConfig) : option (Simulator CS) :=
  let cfg := mkSimConfig
    (if decide (cfg_SlotGap cfg = 0) then DefaultSlotGap else cfg_SlotGap cfg)
    (if SFeqb (cfg_SuccessRate cfg) (f_of_Z 0) then f_095 else cfg_SuccessRate cfg)
    (cfg_LatencyMs cfg) (cfg_WheelConfigs cfg) in
  let configs := if decide (length (cfg_WheelConfigs cfg) = 0%nat)
                 then DefaultWheelConfigs (cfg_SlotGap cfg) else cfg_WheelConfigs cfg in
  wheel ← NewHierarchicalTimingWheel (cfg_SlotGap cfg) configs;
  wheel ← Init wall wheel;
  Some (mkSimulator NewFSM (NewSimulatedClock wall wall) wheel
          (NewSimulatedExecutor (cfg_SuccessRate cfg) (cfg_LatencyMs cfg)) cfg []).

(** Despite its name it files the job in the state machine only. *)
Definition Sim_addToWheel (job : Job) : P unit := updateSlotInFSM job.

Definition Sim_CreateJob (wall : Z) (uuid : string) (req : CreateJobRequest) : P (Job + error) :=
  match ToJob wall uuid req with
  | inr e => mreturn (inr (wrapf "invalid job request: " e))
  | inl job =>
      r <- sim_apply (cmd_create_job job) ;;
      match r with
      | RErr e => mreturn (inr (wrapf "failed to create job: " e))
      | _ => Sim_addToWheel job ;; mreturn (inl job)
      end
  end.

Definition Sim_DeleteJob (id : string) : P (option error) :=
  r <- sim_apply (cmd_with_id CommandDeleteJob id) ;;
  mreturn (match r with RErr e => Some (wrapf "failed to delete job: " e) | _ => None end).

Definition Sim_Tick : P TickResult :=
  result <- ProcessTick ;;
  modify (λ s, sim_set_tickLog (keep_last 200 (sim_tickLog s ++ [result])) s) ;;
  mreturn result.

Definition AdvanceTime (seconds : float64) : P Z :=
  modify (λ s, sim_set_clock (Clock_Tick seconds (sim_clock s)) s) ;;
  gets (λ s, clk_now (sim_clock s)).

Definition SetClockSpeed (speed : float64) : P unit :=
  modify (λ s, sim_set_clock (Clock_SetSpeed speed (sim_clock s)) s).

Definition SetTime (t : Z) : P unit :=
  modify (λ s, sim_set_clock (Clock_SetTime t (sim_clock s)) s).

Definition SetSuccessRate (rate : float64) : P unit :=
  modify (λ s, sim_set_executor (Executor_SetSuccessRate rate (sim_executor s)) s).

Definition GetState s : SimState :=
  let snap := GetSnapshot (sim_fsm s) in
  let total (f : TickResult → Z) := foldl (λ n t, i64 (n + f t)) 0 (sim_tickLog s) in
  mkSimState (clk_now (sim_clock s)) (clk_speed (sim_clock s)) (sn_jobs snap) (sn_slots snap)
    (sn_executionStates snap) (Size (sim_wheel s)) (GetLog (sim_executor s))
    (Z.of_nat (length (sim_tickLog s)))
    (total (λ t, Z.of_nat (length (tr_ExecutedJobs t))))
    (total (λ t, Z.of_nat (length (tr_Rescheduled t)))).

Definition Sim_Reset (wall : Z) : P unit :=
  modify (sim_set_fsm NewFSM) ;;
  modify (λ s, sim_set_clock (Clock_SetTime wall (sim_clock s)) s) ;;
  modify (λ s, sim_set_wheel (Reset (sim_wheel s)) s) ;;
  sim_wheel_op_ (Init wall) ;;
  modify (λ s, sim_set_executor (ClearLog (sim_executor s)) s) ;;
  modify (sim_set_tickLog []).

End Simulator.

(** ** What the parts do *)

Section rules.

Context {CS : Type} `{ColdSlotStore CS} `{GoRange} `{Cron} `{Rand}.

Implicit Types (s : Simulator CS) (f : FSM CS) (w : HierarchicalTimingWheel).

Lemma sim_gap_pos gap : sim_gap_secs gap ≠ 0.
Proof. unfold sim_gap_secs. by case_decide. Qed.

Lemma sim_key gap ts : ∃ key, go_quot ts (sim_gap_secs gap) = Some key ∧ in64 key.
Proof.
  unfold go_quot. rewrite decide_False by apply sim_gap_pos. eexists. split; [done|]. apply i64_in64.
Qed.

Lemma sim_apply_returns cmd s Q :
  Q (applyCommandInternal cmd (sim_fsm s)).1 (sim_set_fsm (applyCommandInternal cmd (sim_fsm s)).2 s) →
  returns (sim_apply cmd) s Q.
Proof.
  intros HQ. unfold returns, sim_apply. destruct (applyCommandInternal cmd (sim_fsm s)) as [r f].
  by eexists _, _.
Qed.

Lemma sim_wheel_returns {A} (g : HierarchicalTimingWheel → option (A * HierarchicalTimingWheel))
    a w s (Q : A → Simulator CS → Prop) :
  g (sim_wheel s) = Some (a, w) → Q a (sim_set_wheel w s) → returns (sim_wheel_op g) s Q.
Proof. intros E HQ. exists a, (sim_set_wheel w s). unfold sim_wheel_op. by rewrite E. Qed.

Lemma sim_wheel_returns_ (g : HierarchicalTimingWheel → option HierarchicalTimingWheel) w s
    (Q : unit → Simulator CS → Prop) :
  g (sim_wheel s) = Some w → Q tt (sim_set_wheel w s) → returns (sim_wheel_op_ g) s Q.
Proof. intros E. apply sim_wheel_returns. by rewrite E. Qed.

(** Filing a job changes slots only. *)
Lemma updateSlotInFSM_returns job s :
  returns (updateSlotInFSM job) s
    (λ _ s', ∃ f, s' = sim_set_fsm f s ∧ f_jobs f = f_jobs (sim_fsm s)).
Proof.
  unfold updateSlotInFSM. destruct (job_time job) as [ts|].
  2:{ apply returns_ret. exists (sim_fsm s). by destruct s. }
  apply returns_bind, returns_gets. apply returns_bind.
  destruct (sim_key (cfg_SlotGap (sim_config s)) ts) as (key & E & _).
  eapply returns_lift; [exact E|]. apply returns_bind, returns_gets, returns_bind, sim_apply_returns.
  apply returns_ret. eexists. by split.
Qed.

Lemma Worker_addToWheel_returns job s :
  wheel_ok (sim_wheel s) →
  returns (Worker_addToWheel job) s (λ _ s', ∃ w, s' = sim_set_wheel w s ∧ wheel_ok w).
Proof.
  intros Hw. unfold Worker_addToWheel. destruct (job_time job) as [ts|].
  2:{ apply returns_ret. exists (sim_wheel s). by destruct s. }
  apply returns_bind, returns_gets. apply returns_bind.
  destruct (sim_key (cfg_SlotGap (sim_config s)) ts) as (key & E & Hk).
  eapply returns_lift; [exact E|]. destruct (Add_ok key (sim_wheel s)) as (w & E' & Hw' & _); [done..|].
  eapply sim_wheel_returns_; [exact E'|]. by exists w.
Qed.

Lemma Remove_returns key s :
  wheel_ok (sim_wheel s) →
  returns (sim_wheel_op_ (Remove key)) s (λ _ s', ∃ w, s' = sim_set_wheel w s ∧ wheel_ok w).
Proof.
  intros Hw. destruct (Remove_ok key (sim_wheel s)) as (w & E & Hw' & _); [done|].
  eapply sim_wheel_returns_; [exact E|]. by exists w.
Qed.

Lemma delete_job_jobs id f :
  id ≠ "" → f_jobs (applyCommandInternal (cmd_with_id CommandDeleteJob id) f).2 = delete id (f_jobs f).
Proof.
  intros Hid. unfold applyCommandInternal. simpl. unfold applyDeleteJob. simpl.
  by rewrite decide_False.
Qed.

Lemma create_job_jobs j f :
  f_jobs (applyCommandInternal (cmd_create_job j) f).2 = <[job_ID j := j]> (f_jobs f).
Proof. done. Qed.

(** The job after [sim_reschedule]. *)
Lemma sim_reschedule_returns id job next s :
  wheel_ok (sim_wheel s) → id ≠ "" → job_ID job = id →
  returns (sim_reschedule id job next) s (λ _ s', ∃ f w,
    s' = sim_set_fsm f (sim_set_wheel w s) ∧ wheel_ok w ∧
    f_jobs f = <[id := set_CreatedAt next job]> (f_jobs (sim_fsm s))).
Proof.
  intros Hw Hid Hjob. unfold sim_reschedule. rewrite Job_Clone_id.
  apply returns_bind, sim_apply_returns, returns_bind, sim_apply_returns, returns_bind.
  eapply returns_mono; [by apply Worker_addToWheel_returns|]. intros [] s1 (w & -> & Hw').
  eapply returns_mono; [apply updateSlotInFSM_returns|]. intros [] s2 (f & -> & Hf).
  exists f, w. split_and!; [by destruct s|done|]. rewrite Hf.
  cbn [sim_fsm sim_set_wheel sim_set_fsm]. rewrite create_job_jobs, delete_job_jobs by done.
  cbn [job_ID set_CreatedAt]. by rewrite Hjob, insert_delete_eq.
Qed.

End rules.

(** ** A tick of the worker *)

Section tick.

Context {CS : Type} `{ColdSlotStore CS} `{GoRange} `{Rand} `{CronLaws}.

Implicit Types (s : Simulator CS) (f : FSM CS) (r : TickResult).

Definition executed r : list string := er_JobID <$> tr_ExecutedJobs r.

Definition jobs_named f : Prop := map_Forall (λ id j, job_ID j = id ∧ id ≠ "") (f_jobs f).

(** What holds between two jobs of a tick at time [now] that started in [f0]:
    a job that is still due is as it was and has not been executed. *)
Record ticking (now : Z) f0 r s : Prop := {
  ti_wheel : wheel_ok (sim_wheel s);
  ti_named : jobs_named (sim_fsm s);
  ti_due : ∀ id j, f_jobs (sim_fsm s) !! id = Some j → shouldExecute j now = true →
    f_jobs f0 !! id = Some j ∧ id ∉ executed r;
  ti_executed : Forall (λ x, er_Timestamp x = now ∧
    ∃ j, f_jobs f0 !! er_JobID x = Some j ∧ shouldExecute j now = true) (tr_ExecutedJobs r);
  ti_once : NoDup (executed r) }.

Lemma ticking_wheel now f0 r s w : ticking now f0 r s → wheel_ok w → ticking now f0 r (sim_set_wheel w s).
Proof. intros [? ? ? ? ?] ?. by split. Qed.

(** The worker calculates the next execution as the worker of a node does. *)
Lemma sim_next_future job now :
  0 < sim_calculateNextExecution job now → now < sim_calculateNextExecution job now.
Proof.
  unfold sim_calculateNextExecution. destruct (cron_parse _) as [sch|]; [|lia].
  destruct (cron_next_later sch now) as [|E]; [|rewrite E; unfold zero_time_unix];
    destruct (job_LastDate job); try case_decide; lia.
Qed.

Lemma shouldExecute_later job t now :
  job_Type job = JobRecurrente → now < t → shouldExecute (set_CreatedAt t job) now = false.
Proof.
  intros Ht Hlt. unfold shouldExecute. simpl. rewrite Ht.
  destruct (job_Timestamp job); rewrite ?(decide_False (P := JobRecurrente = JobUnico)) by done;
    rewrite decide_True by done; apply bool_decide_false; lia.
Qed.

Lemma shouldExecute_type job now :
  shouldExecute job now = true → job_Type job = JobUnico ∨ job_Type job = JobRecurrente.
Proof. unfold shouldExecute. destruct (job_Timestamp job); repeat case_decide; auto; done. Qed.

(** One more job [id] done: its entry is gone or not due any more. *)
Lemma ticking_done now f0 r s s' x j resch n :
  ticking now f0 r s → f_jobs (sim_fsm s) !! er_JobID x = Some j → shouldExecute j now = true →
  er_Timestamp x = now → wheel_ok (sim_wheel s') → jobs_named (sim_fsm s') →
  (∀ id, id ≠ er_JobID x → f_jobs (sim_fsm s') !! id = f_jobs (sim_fsm s) !! id) →
  (∀ j', f_jobs (sim_fsm s') !! er_JobID x = Some j' → shouldExecute j' now = false) →
  ticking now f0 (mkTickResult (tr_ExecutedJobs r ++ [x]) resch n) s'.
Proof.
  intros [Hw Hn Hd He Ho] Hj Hdue Ht Hw' Hn' Hsame Hgone.
  destruct (Hd _ _ Hj Hdue) as [Hf0 Hnew].
  assert (executed (mkTickResult (tr_ExecutedJobs r ++ [x]) resch n) = executed r ++ [er_JobID x]) as Ee
    by (unfold executed; simpl; by rewrite fmap_app).
  split; [done|done| | |].
  - intros id j' Hid Hdue'. destruct (decide (id = er_JobID x)) as [->|Hne].
    + by rewrite (Hgone _ Hid) in Hdue'.
    + rewrite Hsame in Hid by done. destruct (Hd _ _ Hid Hdue'). split; [done|]. rewrite Ee. set_solver.
  - simpl. apply Forall_app. split; [done|]. constructor; [|done]. split; [done|]. by exists j.
  - rewrite Ee. apply NoDup_app. split_and!; [done|set_solver|apply NoDup_singleton].
Qed.

Lemma named_delete f f' id : jobs_named f → f_jobs f' = delete id (f_jobs f) → jobs_named f'.
Proof. intros Hn E. unfold jobs_named. rewrite E. by apply map_Forall_delete. Qed.

Lemma named_insert f f' id j :
  jobs_named f → f_jobs f' = <[id := j]> (f_jobs f) → job_ID j = id → id ≠ "" → jobs_named f'.
Proof. intros Hn E Hj Hid. unfold jobs_named. rewrite E. by apply map_Forall_insert_2. Qed.

(** What the executor returns. *)
Lemma Executor_Execute_result job now e :
  er_JobID (Executor_Execute job now e).1 = job_ID job ∧
  er_Timestamp (Executor_Execute job now e).1 = now.
Proof. unfold Executor_Execute. by destruct (decide _). Qed.

Lemma tick_job_returns now f0 r s jobID :
  ticking now f0 r s → returns (tick_job now jobID r) s (λ r' s', ticking now f0 r' s').
Proof.
  intros Ht. pose proof Ht as [Hw Hn _ _ _]. unfold tick_job. apply returns_bind, returns_gets.
  unfold FSM_GetJob. destruct (f_jobs (sim_fsm s) !! jobID) as [job|] eqn:Hjob; simpl;
    [|by apply returns_ret]. rewrite Job_Clone_id.
  destruct (shouldExecute job now) eqn:Hdue; [|by apply returns_ret].
  destruct (Hn _ _ Hjob) as [Hid Hne]. apply returns_bind.
  destruct (Executor_Execute_result job now (sim_executor s)) as [Hx1 Hx2].
  destruct (Executor_Execute job now (sim_executor s)) as [x e] eqn:Ex. simpl in Hx1, Hx2.
  exists x, (sim_set_executor e s). split; [by rewrite Ex|]. assert (jobID = er_JobID x) as -> by congruence.
  assert (∀ n, returns (mthen (sim_apply (cmd_with_id CommandDeleteJob (er_JobID x)))
      (λ _, mreturn (mkTickResult (tr_ExecutedJobs r ++ [x]) (tr_Rescheduled r) n)))
    (sim_set_executor e s) (λ r' s', ticking now f0 r' s')) as Hdel.
  { intros n. apply returns_bind, sim_apply_returns, returns_ret.
    eapply ticking_done; [exact Ht|exact Hjob|done|done|done| | |];
      cbn [sim_fsm sim_set_fsm sim_set_executor].
    - by eapply named_delete, delete_job_jobs.
    - intros id Hne'. rewrite delete_job_jobs by done. by rewrite lookup_delete_ne.
    - intros j'. rewrite delete_job_jobs by done. by rewrite lookup_delete_eq. }
  destruct (decide (job_Type job = JobUnico)); [apply Hdel|].
  destruct (shouldExecute_type _ _ Hdue) as [|Hrec]; [done|]. rewrite decide_True by done.
  case_decide as Hnext; [|apply Hdel]. apply returns_bind.
  eapply returns_mono; [by apply sim_reschedule_returns|]. intros [] s' (f & w & -> & Hw' & Hf).
  apply returns_ret. simpl in Hf. eapply ticking_done; [exact Ht|exact Hjob|done|done|done| | |].
  - by eapply named_insert.
  - intros id Hne'. simpl. rewrite Hf. by rewrite lookup_insert_ne.
  - intros j'. simpl. rewrite Hf, lookup_insert_eq. intros [= <-].
    apply shouldExecute_later; [done|]. apply sim_next_future. lia.
Qed.

Lemma tick_jobs_returns now f0 l r s :
  ticking now f0 r s → returns (for_acc (tick_job now) l r) s (λ r' s', ticking now f0 r' s').
Proof.
  intros Ht. apply (for_acc_ind (λ _ r s, ticking now f0 r s)); [done|].
  intros _ id _ r' s' _ Ht'. by apply tick_job_returns.
Qed.

Lemma tick_slot_returns now f0 r s key :
  ticking now f0 r s → returns (tick_slot now key r) s (λ r' s', ticking now f0 r' s').
Proof.
  intros Ht. unfold tick_slot. apply returns_bind, returns_gets.
  assert (∀ r s, ticking now f0 r s →
    returns (mthen (sim_wheel_op_ (Remove key)) (λ _, mreturn r)) s
      (λ r' s', ticking now f0 r' s')) as Hrm.
  { intros r' s' Ht'. apply returns_bind. eapply returns_mono; [apply Remove_returns, Ht'|].
    intros [] s2 (w & -> & Hw). apply returns_ret. by apply ticking_wheel. }
  destruct (FSM_GetSlot key (sim_fsm s)) as [d|]; [|by apply Hrm].
  case_decide; [by apply Hrm|]. apply returns_bind.
  eapply returns_mono; [by apply tick_jobs_returns|]. intros r' s' Ht'. by apply Hrm.
Qed.

(** C29: a tick of the simulated worker executes each due job at most once and
    nothing else. From a well-formed wheel and jobs that are filed under
    their names, [ProcessTick] returns; every execution is of a job that was
    stored and due when the tick began, at the time of the clock; no job is
    executed twice; and no executed job is due any more. *)
Theorem process_tick_executes_due_once s :
  wheel_ok (sim_wheel s) → in64 (clk_now (sim_clock s)) → jobs_named (sim_fsm s) →
  ∃ r s', ProcessTick s = Some (r, s') ∧ wheel_ok (sim_wheel s') ∧ NoDup (executed r) ∧
    Forall (λ x, er_Timestamp x = clk_now (sim_clock s) ∧
      (∃ j, f_jobs (sim_fsm s) !! er_JobID x = Some j ∧
            shouldExecute j (clk_now (sim_clock s)) = true) ∧
      ∀ j, f_jobs (sim_fsm s') !! er_JobID x = Some j →
           shouldExecute j (clk_now (sim_clock s)) = false) (tr_ExecutedJobs r).
Proof.
  intros Hw Hnow Hn. set (now := clk_now (sim_clock s)) in *.
  assert (returns ProcessTick s (λ r s', ticking now (sim_fsm s) r s')) as (r & s' & E & [Hw' _ Hd He Ho]).
  { unfold ProcessTick. apply returns_bind, returns_gets. apply returns_bind.
    destruct (Advance_releases now (sim_wheel s)) as (keys & w & E & Hwf & Hc & (_ & Hl & _) & _);
      [apply Hw|apply Hw|done|].
    eapply sim_wheel_returns; [exact E|].
    apply (for_acc_ind (λ _ r s', ticking now (sim_fsm s) r s')).
    - split; [split; [done|done|by apply Hl, Hw]|done| |by constructor|by constructor].
      intros id j Hj Hdue. split; [done|]. unfold executed. simpl. set_solver.
    - intros _ key _ r s1 _ Ht. by apply tick_slot_returns. }
  exists r, s'. split_and!; [done..|]. eapply Forall_impl; [apply Forall_and; split; [exact He|]|].
  - apply Forall_forall. intros x Hx. exact Hx.
  - simpl. intros x [[Ht Hf0] Hx]. split_and!; [done..|]. intros j Hj.
    destruct (shouldExecute j now) eqn:Hdue; [|done]. destruct (Hd _ _ Hj Hdue) as [_ Hnot].
    destruct Hnot. unfold executed. by apply list_elem_of_fmap_2.
Qed.

End tick.

(** ** Sessions *)

(** The calls of a client, with the readings of the real clock and the
    identifier the call gets. *)
Inductive sim_call :=
  | SCreate (wall : Z) (uuid : string) (req : CreateJobRequest)
  | SDelete (id : string)
  | STick
  | SAdvance (seconds : float64)
  | SSetTime (t : Z)
  | SSetSpeed (speed : float64)
  | SSetRate (rate : float64)
  | SReset (wall : Z).

Definition sim_call_ok (c : sim_call) : Prop :=
  match c with SSetTime t | SReset t => in64 t | _ => True end.

Section sessions.

Context {CS : Type} `{ColdSlotStore CS} `{GoRange} `{Cron} `{Rand}.

Local Open Scope go_scope.

Implicit Types s : Simulator CS.

(** The results of the ticks so far. *)
Definition run_sim_call (c : sim_call) (out : list TickResult) : M (Simulator CS) (list TickResult) :=
  match c with
  | SCreate wall uuid req => _ <- Sim_CreateJob wall uuid req ;; mreturn out
  | SDelete id => _ <- Sim_DeleteJob id ;; mreturn out
  | STick => r <- Sim_Tick ;; mreturn (out ++ [r])
  | SAdvance seconds => _ <- AdvanceTime seconds ;; mreturn out
  | SSetTime t => SetTime t ;; mreturn out
  | SSetSpeed speed => SetClockSpeed speed ;; mreturn out
  | SSetRate rate => SetSuccessRate rate ;; mreturn out
  | SReset wall => Sim_Reset wall ;; mreturn out
  end.

(** A tick that does nothing. *)
Definition nothing : TickResult := mkTickResult [] [] 0.

Record sim_idle (out : list TickResult) s : Prop := {
  id_wheel : wheel_ok (sim_wheel s);
  id_empty : wheel_keys (sim_wheel s) = ∅;
  id_clock : in64 (clk_now (sim_clock s));
  id_log : se_execLog (sim_executor s) = [];
  id_out : Forall (λ r, r = nothing) out }.

Lemma idle_fsm out s f : sim_idle out s → sim_idle out (sim_set_fsm f s).
Proof. by intros [? ? ? ? ?]. Qed.

Lemma idle_create out wall uuid req s :
  sim_idle out s → returns (run_sim_call (SCreate wall uuid req) out) s sim_idle.
Proof.
  intros Hs. cbn [run_sim_call]. apply returns_bind. unfold Sim_CreateJob.
  destruct (ToJob wall uuid req) as [job|e]; [|by apply returns_ret, returns_ret].
  apply returns_bind, sim_apply_returns. cbn -[cmd_create_job]. apply returns_bind.
  eapply returns_mono; [apply updateSlotInFSM_returns|]. intros [] s' (f & -> & _).
  apply returns_ret, returns_ret. by do 2 apply idle_fsm.
Qed.

Lemma idle_tick out s : sim_idle out s → returns (run_sim_call STick out) s sim_idle.
Proof.
  intros [Hw He Hc Hl Ho]. cbn [run_sim_call]. apply returns_bind, returns_bind.
  unfold ProcessTick. apply returns_bind, returns_gets. apply returns_bind.
  destruct (Advance_releases (clk_now (sim_clock s)) (sim_wheel s))
    as (keys & w & E & Hwf & Hc' & (Hk & Hloc & _) & _); [apply Hw|apply Hw|done|].
  rewrite He in Hk.
  assert (keys = []) as -> by (destruct keys as [|k ?]; [done|]; specialize (Hk k); set_solver).
  eapply sim_wheel_returns; [exact E|]. apply returns_ret, returns_bind, returns_modify, returns_ret.
  apply returns_ret. split; [split; [done|done|by apply Hloc, Hw]| |done|done|].
  - apply set_eq. intros k. specialize (Hk k). simpl. set_solver.
  - apply Forall_app. split; [done|]. by repeat constructor.
Qed.

Lemma idle_reset out wall s :
  sim_idle out s → in64 wall → returns (run_sim_call (SReset wall) out) s sim_idle.
Proof.
  intros [Hw He Hc Hl Ho] Hwall. cbn [run_sim_call]. apply returns_bind. unfold Sim_Reset.
  do 3 apply returns_bind, returns_modify. apply returns_bind.
  destruct (Reset_ok (sim_wheel s) Hw) as (Hr & Hre & _).
  destruct (Init_ok wall (Reset (sim_wheel s))) as (w & E & Hw' & _ & Hk & _); [done..|].
  eapply sim_wheel_returns_; [exact E|]. apply returns_bind, returns_modify, returns_modify, returns_ret.
  split; simpl; [done|by rewrite Hk|done..].
Qed.

Lemma idle_call c out s : sim_idle out s → sim_call_ok c → returns (run_sim_call c out) s sim_idle.
Proof.
  intros Hs Hc. destruct c.
  - by apply idle_create.
  - apply returns_bind, returns_bind, sim_apply_returns, returns_ret, returns_ret. by apply idle_fsm.
  - by apply idle_tick.
  - apply returns_bind, returns_bind, returns_modify, returns_gets, returns_ret.
    destruct Hs. split; simpl; auto. apply i64_in64.
  - apply returns_bind, returns_modify, returns_ret. by destruct Hs.
  - apply returns_bind, returns_modify, returns_ret. by destruct Hs.
  - apply returns_bind, returns_modify, returns_ret. by destruct Hs.
  - by apply idle_reset.
Qed.

Lemma idle_new wall cfg g :
  1 <= g <= 1000000 → cfg_SlotGap cfg = g * Second → cfg_WheelConfigs cfg = [] → in64 wall →
  ∃ s : Simulator CS, NewSimulator wall cfg = Some s ∧ sim_idle [] s.
Proof.
  intros Hg Hgap Hcfg Hwall. unfold NewSimulator. rewrite Hgap, Hcfg. cbn [cfg_SlotGap cfg_WheelConfigs].
  rewrite !(decide_False (P := g * Second = 0)) by (unfold Second; lia). rewrite decide_True by done.
  assert (NewHierarchicalTimingWheel (g * Second) (DefaultWheelConfigs (g * Second)) =
    NewHierarchicalTimingWheel (g * Second) []) as -> by done.
  rewrite new_default_wheel by done. cbn [mbind option_bind].
  destruct (default_wheel_ok g) as (Hw & _ & He); [done|].
  destruct (Init_ok wall (default_wheel g)) as (w & -> & Hw' & _ & Hk & _); [done..|].
  eexists. split; [done|]. split; simpl; [done|by rewrite Hk|by case_decide|done|done].
Qed.

(** The simulator never executes anything. [CreateJob] files the job in
    the state machine but does not add its slot to the wheel, and only the
    worker, after an execution, ever adds one. So in every session, whatever
    is created and however far the clock is moved, every call returns and
    every tick finds no ready slot, executes no job and reschedules none. *)
Theorem simulator_never_executes wall cfg g calls :
  1 <= g <= 1000000 → cfg_SlotGap cfg = g * Second → cfg_WheelConfigs cfg = [] → in64 wall →
  Forall sim_call_ok calls →
  ∃ (s0 : Simulator CS) out s, NewSimulator wall cfg = Some s0 ∧
    for_acc run_sim_call calls [] s0 = Some (out, s) ∧
    Forall (λ r, r = nothing) out ∧ se_execLog (sim_executor s) = [].
Proof.
  intros Hg Hgap Hcfg Hwall Hcalls.
  destruct (idle_new wall cfg g) as (s0 & E0 & Hs0); [done..|].
  destruct (for_acc_ind (λ _ out s, sim_idle out s) run_sim_call calls [] s0 Hs0)
    as (out & s & E & [_ _ _ Hl Ho]); [|by exists s0, out, s].
  intros l1 c l2 out s Hl Hs. apply idle_call; [done|].
  rewrite Forall_forall in Hcalls. apply Hcalls. set_solver.
Qed.

End sessions.

(** ** The execution log *)

Section log.

(** [GetLogSince] is a filter as long as the clock was never set back. *)
Lemma GetLogSince_filter since e :
  StronglySorted (λ r1 r2, er_Timestamp r1 <= er_Timestamp r2) (se_execLog e) →
  GetLogSince since e = filter (λ r, since <= er_Timestamp r) (se_execLog e).
Proof.
  unfold GetLogSince. induction 1 as [|r l Hl IH Hr]; [done|]. simpl.
  rewrite filter_cons. destruct (decide (er_Timestamp r >= since)).
  - rewrite decide_True by lia. f_equal. clear IH Hl. induction Hr as [|r' l ? _ IH]; [done|].
    rewrite filter_cons_True by lia. by rewrite <-IH.
  - rewrite decide_False by lia. apply IH.
Qed.

Lemma keep_last_length {A} n (l : list A) : 0 <= n → Z.of_nat (length (keep_last n l)) <= n.
Proof. intros Hn. unfold keep_last. case_decide; [rewrite length_drop|]; lia. Qed.

End log.

(** ** Concrete sessions *)

Definition ex_rand : Rand := {| Int63n _ _ := 7; Float64 _ := f_div (f_of_Z 1) (f_of_Z 2) |}.

(** A request for a job at [ts] seconds. *)
Definition once_at (ts : string) : CreateJobRequest :=
  mkCreateJobRequest "a" JobUnico ts "" "" "" None.

(** The job is created for second 105 and the clock moved past it. *)
Lemma simulator_never_executes_witness :
  ∃ (s0 : Simulator MemBolt) out s, NewSimulator 100 DefaultConfig = Some s0 ∧
    for_acc (@run_sim_call _ _ sorted_range every_minute ex_rand)
      [SCreate 100 "u" (once_at "105"); SSetTime 200; STick] [] s0 = Some (out, s) ∧
    Forall (λ r, r = nothing) out ∧ se_execLog (sim_executor s) = [].
Proof.
  apply (@simulator_never_executes MemBolt _ sorted_range every_minute ex_rand 100 DefaultConfig 10);
    [lia|reflexivity|reflexivity|unfold in64, two63; lia|].
  repeat constructor; unfold two63; lia.
Defined.

(** A simulator whose wheel does hold the slot of its two jobs. *)
Definition ex_sim : Simulator MemBolt :=
  let a := mkJob "a" JobUnico (Some 52) "" None 0 "" None in
  let b := mkJob "b" JobRecurrente None "m" None 51 "" None in
  mkSimulator (mkFSM {["a" := a; "b" := b]} {[5 := mkSlotData 5 50 59 ["a"; "b"; "a"]]} ∅ None ∅ 0 0)
    (mkSimulatedClock 70 (f_of_Z 1)) ex_wheel (NewSimulatedExecutor f_095 100) DefaultConfig [].

Lemma process_tick_executes_due_once_witness :
  ∃ r s', @ProcessTick _ _ sorted_range every_minute ex_rand ex_sim = Some (r, s') ∧
    executed r = ["a"; "b"] ∧ NoDup (executed r) ∧ dom (f_jobs (sim_fsm s')) = {["b"]}.
Proof.
  destruct (@process_tick_executes_due_once MemBolt _ sorted_range ex_rand every_minute
    every_minute_laws ex_sim) as (r & s' & E & _ & Hn & _).
  - apply ex_wheel_ok.
  - unfold in64, two63; simpl; lia.
  - unfold jobs_named. simpl. apply map_Forall_insert_2; [by split|]. by apply map_Forall_singleton.
  - exists r, s'. vm_compute in E. injection E as <- <-. split; [vm_compute; reflexivity|].
    split_and!; [reflexivity|exact Hn|vm_compute; reflexivity].
Defined.
