(* ===== verification/Lifecycle.v ===== *)
(** * Starting and stopping: [worker.go], [slot_eviction.go], [app.go]

    The worker and the evictor each run a loop in a goroutine that ends when a
    stop channel is closed; [app.go] starts and stops both as leadership comes
    and goes. The loops are modelled as a step relation on the goroutines that
    exist, the calls as functions where [None] is the panic of closing a
    closed channel. Channels are numbered in the order in which they are
    made. *)

From S2P Require Import Prelude.

(** ** The worker *)

(** Where a goroutine of [run] is: outside the [select] (starting up or in
    [processSlots] or [checkTimeouts]), waiting in it, or gone. The [select]
    evaluates [w.stopCh] when it is entered. *)
Inductive goroutine :=
  | Busy
  | Selecting (stopCh : nat)
  | Exited.

Record WorkerState := mkWorkerState {
  w_running : bool;
  w_stopCh : nat;
  w_closed : gset nat;
  w_channels : nat;
  w_goroutines : list goroutine }.

(** [NewWorker]; channel 0 is the nil channel. *)
Definition NewWorker : WorkerState := mkWorkerState false 0 ∅ 1 [].

Definition Worker_Start (w : WorkerState) : WorkerState :=
  if w_running w then w
  else mkWorkerState true (w_channels w) (w_closed w) (S (w_channels w)) (w_goroutines w ++ [Busy]).

Definition Worker_Stop (w : WorkerState) : option WorkerState :=
  if w_running w then
    if decide (w_stopCh w ∈ w_closed w) then None
    else Some (mkWorkerState false (w_stopCh w) ({[w_stopCh w]} ∪ w_closed w) (w_channels w)
                 (w_goroutines w))
  else Some w.

Definition set_goroutine (i : nat) (g : goroutine) (w : WorkerState) : WorkerState :=
  mkWorkerState (w_running w) (w_stopCh w) (w_closed w) (w_channels w) (<[i := g]> (w_goroutines w)).

(** The calls and the loop of [run]; a [select] with several ready cases may
    take any. *)
Inductive worker_step : WorkerState → WorkerState → Prop :=
  | step_start w : worker_step w (Worker_Start w)
  | step_stop w w' : Worker_Stop w = Some w' → worker_step w w'
  | step_select w i :
      w_goroutines w !! i = Some Busy →
      worker_step w (set_goroutine i (Selecting (w_stopCh w)) w)
  | step_tick w i ch :
      w_goroutines w !! i = Some (Selecting ch) → worker_step w (set_goroutine i Busy w)
  | step_exit w i ch :
      w_goroutines w !! i = Some (Selecting ch) → ch ∈ w_closed w →
      worker_step w (set_goroutine i Exited w).

(** ** The evictor *)

Record EvictorState := mkEvictorState {
  e_running : bool;
  e_closed : bool;
  e_goroutines : nat }.

(** The stop channel is made once, here. *)
Definition NewSlotEvictor : EvictorState := mkEvictorState false false 0.

Definition Evictor_Start (e : EvictorState) : EvictorState :=
  if e_running e then e else mkEvictorState true (e_closed e) (S (e_goroutines e)).

Definition Evictor_Stop (e : EvictorState) : option EvictorState :=
  if e_running e then
    if e_closed e then None else Some (mkEvictorState false true (e_goroutines e))
  else Some e.

(** ** Leadership *)

Record AppState := mkAppState {
  a_worker : WorkerState;
  a_slotEvictor : option EvictorState }.

Definition becomeLeader (a : AppState) : AppState :=
  mkAppState (Worker_Start (a_worker a)) (Evictor_Start <$> a_slotEvictor a).

Definition loseLeadership (a : AppState) : option AppState :=
  w ← Worker_Stop (a_worker a);
  match a_slotEvictor a with
  | None => Some (mkAppState w None)
  | Some e => e' ← Evictor_Stop e; Some (mkAppState w (Some e'))
  end.

(** What one round of [monitorLeadership] sees: [IsLeader], whether
    [GetLeader] is empty, the number of configured servers (an error is
    [None]), and whether [attemptAutoBootstrap] would succeed. *)
Record observation := mkObservation {
  o_isLeader : bool;
  o_noLeader : bool;
  o_servers : option nat;
  o_bootstrap : bool }.

(** The variables of the loop, and how many bootstraps were attempted. *)
Record Monitor := mkMonitor {
  m_wasLeader : bool;
  m_noLeaderCount : nat;
  m_bootstraps : nat;
  m_app : AppState }.

(** The change of leadership. *)
Definition follow_leadership (o : observation) (m : Monitor) : option Monitor :=
  if negb (m_wasLeader m) && o_isLeader o then
    Some (mkMonitor (m_wasLeader m) 0 (m_bootstraps m) (becomeLeader (m_app m)))
  else if m_wasLeader m && negb (o_isLeader o) then
    a ← loseLeadership (m_app m);
    Some (mkMonitor (m_wasLeader m) (m_noLeaderCount m) (m_bootstraps m) a)
  else Some m.

(** The count of rounds without a leader. *)
Definition count_leaderless (o : observation) (m : Monitor) : Monitor :=
  let set c b := mkMonitor (o_isLeader o) c b (m_app m) in
  if o_noLeader o then
    let c := S (m_noLeaderCount m) in
    if decide (60 < c)%nat then
      match o_servers o with
      | Some 0%nat => set (if o_bootstrap o then 0%nat else c) (S (m_bootstraps m))
      | _ => set c (m_bootstraps m)
      end
    else set c (m_bootstraps m)
  else set 0%nat (m_bootstraps m).

Definition observe (o : observation) (m : Monitor) : option Monitor :=
  count_leaderless o <$> follow_leadership o m.

Definition monitorLeadership (l : list observation) (m : Monitor) : option Monitor :=
  ofold observe l m.

(** ** Properties *)

(** The current channel is open exactly while the worker runs. *)
Record worker_inv (w : WorkerState) : Prop := {
  wi_open : w_running w = true → w_stopCh w ∉ w_closed w;
  wi_fresh : (w_stopCh w < w_channels w)%nat;
  wi_closed : ∀ ch, ch ∈ w_closed w → (ch < w_channels w)%nat }.

Lemma new_worker_inv : worker_inv NewWorker.
Proof. split; simpl; [done|lia|set_solver]. Qed.

Lemma worker_start_inv w : worker_inv w → worker_inv (Worker_Start w).
Proof.
  intros [Ho Hf Hc]. unfold Worker_Start. destruct (w_running w) eqn:E; [by split; rewrite ?E|].
  split; simpl.
  - intros _ Hin. apply Hc in Hin. lia.
  - lia.
  - intros ch Hin. apply Hc in Hin. lia.
Qed.

Lemma worker_stop_inv w : worker_inv w → ∃ w', Worker_Stop w = Some w' ∧ worker_inv w' ∧
  w_running w' = false.
Proof.
  intros [Ho Hf Hc]. unfold Worker_Stop. destruct (w_running w) eqn:E.
  - rewrite decide_False by auto. eexists. split; [done|]. split; [|done]. split; simpl; [done|done|].
    intros ch [->%elem_of_singleton|?]%elem_of_union; auto.
  - eexists. split; [done|]. split; [by split; rewrite ?E|done].
Qed.

Lemma worker_step_inv w w' : worker_step w w' → worker_inv w → worker_inv w'.
Proof.
  intros Hs Hi. destruct Hs as [w|w w' E|w i _|w i ch _|w i ch _ _].
  - by apply worker_start_inv.
  - destruct (worker_stop_inv w Hi) as (w2 & E2 & ? & _). by simplify_eq.
  - destruct Hi. by split.
  - destruct Hi. by split.
  - destruct Hi. by split.
Qed.

Lemma worker_reach_inv w w' : rtc worker_step w w' → worker_inv w → worker_inv w'.
Proof. induction 1; eauto using worker_step_inv. Qed.

(** Stopping the worker never panics. In every state that any sequence of
    starts, stops and loop iterations of its goroutines can reach, [Stop]
    returns, the worker is then marked stopped, and the channel its current
    loop listens to is closed. *)
Theorem worker_stop_never_panics w :
  rtc worker_step NewWorker w →
  ∃ w', Worker_Stop w = Some w' ∧ w_running w' = false ∧
    (w_running w = true → w_stopCh w ∈ w_closed w').
Proof.
  intros Hr. pose proof (worker_reach_inv _ _ Hr new_worker_inv) as Hi.
  destruct (worker_stop_inv w Hi) as (w' & E & _ & Hr'). exists w'. split_and!; [done..|].
  unfold Worker_Stop in E. intros Hrun. rewrite Hrun in E. case_decide; simplify_eq/=. set_solver.
Qed.

(** A restart can leave two loops running. [run] reads [w.stopCh] anew on
    every iteration; a goroutine that is busy while [Stop] and [Start] are
    called then listens to the new channel, and both loops wait on an open
    channel. *)
Theorem restart_leaves_two_loops :
  ∃ w ch, rtc worker_step NewWorker w ∧ w_running w = true ∧
    w_goroutines w = [Selecting ch; Selecting ch] ∧ ch ∉ w_closed w.
Proof.
  exists (mkWorkerState true 2 {[1%nat]} 3 [Selecting 2; Selecting 2]), 2%nat.
  split; [|by split_and!].
  eapply rtc_l; [apply step_start|]. simpl.
  eapply rtc_l; [eapply step_stop; reflexivity|]. simpl.
  eapply rtc_l; [apply step_start|]. simpl.
  eapply rtc_l; [by apply (step_select _ 0)|]. simpl.
  eapply rtc_l; [by apply (step_select _ 1)|]. done.
Qed.

(** How often leadership is lost. *)
Fixpoint losses (wasLeader : bool) (l : list bool) : nat :=
  match l with
  | [] => 0
  | isLeader :: l => (if wasLeader && negb isLeader then 1 else 0) + losses isLeader l
  end.

(** The evictor survives one loss of leadership. *)
Definition survives (e : EvictorState) : nat := if e_closed e then 0 else 1.

Lemma monitor_cons o l m :
  monitorLeadership (o :: l) m = observe o m ≫= monitorLeadership l.
Proof. done. Qed.

Lemma monitor_app l1 l2 m :
  monitorLeadership (l1 ++ l2) m = monitorLeadership l1 m ≫= monitorLeadership l2.
Proof. apply ofold_app. Qed.

Lemma count_leaderless_app o m :
  m_wasLeader (count_leaderless o m) = o_isLeader o ∧ m_app (count_leaderless o m) = m_app m.
Proof. unfold count_leaderless. by repeat case_match. Qed.

Lemma monitor_losses l m e :
  worker_inv (a_worker (m_app m)) → a_slotEvictor (m_app m) = Some e →
  e_running e = m_wasLeader m →
  (monitorLeadership l m = None ↔ survives e < losses (m_wasLeader m) (o_isLeader <$> l))%nat.
Proof.
  revert m e. induction l as [|o l IH]; intros [was c bs [w ev]] e Hw He Hr;
    cbn [m_app a_worker a_slotEvictor m_wasLeader] in *; subst ev.
  { simpl. split; [done|lia]. }
  rewrite fmap_cons. cbn [losses].
  rewrite monitor_cons. unfold observe, follow_leadership.
  cbn [m_wasLeader m_app m_noLeaderCount m_bootstraps].
  destruct was eqn:Hwas, (o_isLeader o) eqn:Ho; cbn [negb andb fmap option_fmap option_map].
  1,4: cbn [mbind option_bind]; set (m2 := mkMonitor _ c bs _);
    destruct (count_leaderless_app o m2) as [E1 E2]; rewrite Ho in E1;
    rewrite (IH _ e); rewrite ?E1, ?E2; done.
  - unfold loseLeadership. cbn [a_worker a_slotEvictor].
    destruct (worker_stop_inv w Hw) as (w' & -> & Hw' & _). cbn [mbind option_bind].
    unfold Evictor_Stop. rewrite Hr. unfold survives.
    destruct (e_closed e) eqn:Hc; cbn [fmap option_fmap option_map mbind option_bind];
      [split; [lia|done]|].
    set (m2 := mkMonitor _ c bs _). destruct (count_leaderless_app o m2) as [E1 E2].
    rewrite Ho in E1. rewrite (IH _ (mkEvictorState false true (e_goroutines e)));
      rewrite ?E1, ?E2; try done. unfold survives. simpl. lia.
  - cbn [mbind option_bind]. set (m2 := mkMonitor _ 0 bs _).
    destruct (count_leaderless_app o m2) as [E1 E2]. rewrite Ho in E1.
    rewrite (IH _ (Evictor_Start e)); rewrite ?E1, ?E2.
    + unfold survives, Evictor_Start. rewrite Hr. simpl. by destruct (e_closed e).
    + by apply worker_start_inv.
    + done.
    + unfold Evictor_Start. by rewrite Hr.
Qed.

(** A monitor that has just been started on a follower. *)
Definition new_monitor : Monitor :=
  mkMonitor false 0 0 (mkAppState NewWorker (Some NewSlotEvictor)).

(** With the evictor enabled, a node crashes when it loses leadership for
    the second time, and only then: the evictor's stop channel is made once
    but closed by every stop. *)
Theorem second_leadership_loss_panics l :
  monitorLeadership l new_monitor = None ↔ (2 <= losses false (o_isLeader <$> l))%nat.
Proof.
  rewrite (monitor_losses l _ NewSlotEvictor) by (done || apply new_worker_inv). done.
Qed.

(** The count never exceeds the rounds without a leader that came last. *)
Lemma leaderless_suffix l m m' :
  m_noLeaderCount m = 0%nat → monitorLeadership l m = Some m' →
  ∃ l1 l2, l = l1 ++ l2 ∧ length l2 = m_noLeaderCount m' ∧ Forall (λ o, o_noLeader o = true) l2.
Proof.
  intros H0. revert m'. induction l as [|o l IH] using rev_ind; intros m' E.
  { injection E as <-. by exists [], []. }
  rewrite monitor_app in E. destruct (monitorLeadership l m) as [m1|] eqn:E1; [|done].
  destruct (IH m1 eq_refl) as (l1 & l2 & -> & Hl & Hf). unfold monitorLeadership in E.
  cbn [mbind option_bind ofold] in E. unfold observe in E.
  destruct (follow_leadership o m1) as [m2|] eqn:E2; [|done]. simpl in E. injection E as <-.
  assert (m_noLeaderCount m2 = 0 ∨ m_noLeaderCount m2 = m_noLeaderCount m1)%nat as Hc.
  { unfold follow_leadership in E2. repeat case_match; simplify_option_eq; auto. }
  assert (∃ k1 k2, l1 ++ l2 = k1 ++ k2 ∧ length k2 = m_noLeaderCount m2 ∧
    Forall (λ o, o_noLeader o = true) k2) as (k1 & k2 & -> & Hk & Hkf).
  { destruct Hc as [-> | ->]; [exists (l1 ++ l2), []; by rewrite app_nil_r|by exists l1, l2]. }
  unfold count_leaderless. destruct (o_noLeader o) eqn:Ho; [|by exists ((k1 ++ k2) ++ [o]), []; rewrite app_nil_r].
  assert (∃ j1 j2, (k1 ++ k2) ++ [o] = j1 ++ j2 ∧ length j2 = S (m_noLeaderCount m2) ∧
    Forall (λ o, o_noLeader o = true) j2) as Hj.
  { exists k1, (k2 ++ [o]). rewrite length_app, Hk. simpl. split_and!; [by rewrite app_assoc|lia|].
    apply Forall_app. by rewrite Forall_singleton. }
  destruct Hj as (j1 & j2 & -> & Hj1 & Hj2).
  repeat case_match; simpl; first [by exists j1, j2|by exists (j1 ++ j2), []; rewrite app_nil_r].
Qed.

(** A node bootstraps a new cluster on its own only when it has seen no
    leader in 61 rounds in a row, the last one included, and its own
    configuration lists no server; so a node that knows any peer never does. *)
Theorem auto_bootstrap_needs_61_leaderless_rounds l o m m1 m2 :
  m_noLeaderCount m = 0%nat → monitorLeadership l m = Some m1 → observe o m1 = Some m2 →
  m_bootstraps m2 ≠ m_bootstraps m1 →
  o_servers o = Some 0%nat ∧
  ∃ l1 l2, l ++ [o] = l1 ++ l2 ∧ (61 <= length l2)%nat ∧ Forall (λ o, o_noLeader o = true) l2.
Proof.
  intros H0 E1 E2 Hb. assert (o_servers o = Some 0%nat ∧ o_noLeader o = true ∧
    (60 <= m_noLeaderCount m1)%nat) as (Hs & Hno & Hc).
  { unfold observe in E2. destruct (follow_leadership o m1) as [m'|] eqn:Ef; [|done].
    assert (m_bootstraps m' = m_bootstraps m1 ∧ m_noLeaderCount m' <= m_noLeaderCount m1)%nat
      as [Hb1 Hc1].
    { unfold follow_leadership in Ef. repeat case_match; simplify_option_eq; auto with lia. }
    simpl in E2. injection E2 as <-. unfold count_leaderless in Hb.
    repeat case_match; simpl in *; split_and!; done || lia. }
  split; [done|]. destruct (leaderless_suffix l m m1 H0 E1) as (l1 & l2 & -> & Hl & Hf).
  exists l1, (l2 ++ [o]). rewrite app_assoc, length_app, Forall_app, Forall_singleton. simpl.
  split_and!; [done|lia|done|done].
Qed.

Definition leaderless : observation := mkObservation false true (Some 0%nat) true.

Lemma auto_bootstrap_needs_61_leaderless_rounds_witness :
  ∃ m1 m2, monitorLeadership (replicate 60 leaderless) new_monitor = Some m1 ∧
    observe leaderless m1 = Some m2 ∧ m_bootstraps m2 = 1%nat ∧
    ∃ l1 l2, replicate 60 leaderless ++ [leaderless] = l1 ++ l2 ∧ (61 <= length l2)%nat.
Proof.
  eexists _, _. split; [vm_compute; reflexivity|]. split; [vm_compute; reflexivity|].
  split; [reflexivity|].
  destruct (auto_bootstrap_needs_61_leaderless_rounds (replicate 60 leaderless) leaderless
    new_monitor (mkMonitor false 60 0 (m_app new_monitor)) (mkMonitor false 0 1 (m_app new_monitor)))
    as (_ & l1 & l2 & E & Hl & _).
  - reflexivity.
  - vm_compute. reflexivity.
  - vm_compute. reflexivity.
  - vm_compute. congruence.
  - exists l1, l2. split; [exact E|exact Hl].
Defined.

Lemma worker_stop_never_panics_witness :
  ∃ w', Worker_Stop (Worker_Start NewWorker) = Some w' ∧ w_running w' = false.
Proof.
  destruct (worker_stop_never_panics (Worker_Start NewWorker)) as (w' & E & Hr & _).
  - apply rtc_once, step_start.
  - exists w'. split; [exact E|exact Hr].
Defined.
