(* ===== verification/Metrics.v ===== *)
(** * Metrics: [metrics.go]

    The instruments the process reports through, and the methods that record
    on them. Recording is third-party code (OpenTelemetry): a call appends a
    measurement to [t_log], and what a reader then sees is class [Reader]. A
    handle is identified with the parameters it was created with; creating one
    may fail, class [Meter]. An interface that was never set is [None], and a
    call on it panics, as does a method on a [nil] receiver that does not test
    for it. *)

From S2P Require Import Prelude GoFloat.
From Stdlib Require Import QArith.
#[local] Open Scope Z_scope.

(** ** Instruments *)

Inductive Kind :=
  | Int64Counter | Int64UpDownCounter | Int64Histogram
  | Float64Histogram | Float64UpDownCounter | Float64ObservableGauge.

#[export] Instance Kind_eq_dec : EqDecision Kind.
Proof. solve_decision. Defined.

(** The members of [Metrics]. *)
Inductive Field :=
  | JobsTotal | JobsExecuted | JobsDeleted | JobsFailed | JobExecutionDuration | JobsActive
  | JobsScheduled | JobsByType | SlotsTotal | SlotsActive | SlotsProcessed
  | SlotProcessingDuration | JobsPerSlot | WorkerActive | WorkerProcessingTime | WorkerIdleTime
  | WorkerErrors | ClusterNodes | ClusterLeaderChanges | ClusterJoinEvents | ClusterLeaveEvents
  | RaftOperations | RaftErrors | RaftLeaderElections | ClusterSplitBrainEvents | HTTPRequests
  | HTTPRequestDuration | HTTPProxyRequests | HTTPErrors | DiscoveryEvents | DiscoveryErrors
  | DiscoveryOperations | NodesDiscovered | WebhookRequests | WebhookErrors | WebhookDuration
  | JobsByStatus | ExecutionFailures | RetryCount | StatusQueryLatency | SystemStartTime
  | SystemUptime | QueueMemoryUsage | QueueMemoryLimit | QueueJobCount | QueueJobLimit
  | JobRejections | QueueMemoryUtilization.

#[export] Instance Field_eq_dec : EqDecision Field.
Proof. solve_decision. Defined.

(** The type the struct declares for each member. *)
Definition declared (f : Field) : Kind :=
  match f with
  | JobExecutionDuration | SlotProcessingDuration | WorkerProcessingTime | WorkerIdleTime 
  | HTTPRequestDuration | WebhookDuration | StatusQueryLatency => Float64Histogram
  | JobsActive | JobsScheduled | JobsByType | SlotsTotal | SlotsActive | WorkerActive 
  | ClusterNodes | NodesDiscovered | JobsByStatus | QueueMemoryUsage | QueueMemoryLimit 
  | QueueJobCount | QueueJobLimit => Int64UpDownCounter
  | JobsPerSlot | RetryCount => Int64Histogram
  | SystemStartTime | SystemUptime => Float64ObservableGauge
  | QueueMemoryUtilization => Float64UpDownCounter
  | _ => Int64Counter
  end.

(** What an instrument is created with. *)
Record Spec := mkSpec {
  i_kind : Kind;
  i_name : string;
  i_description : string;
  i_unit : string;
  i_boundaries : list Q }.

Definition job_instruments : list (Field * Spec) :=
  [(JobsTotal, mkSpec Int64Counter "jobs_total"
      "Total number of jobs created" "{job}" []);
   (JobsExecuted, mkSpec Int64Counter "jobs_executed_total"
      "Total number of jobs executed successfully" "{job}" []);
   (JobsDeleted, mkSpec Int64Counter "jobs_deleted_total"
      "Total number of jobs deleted" "{job}" []);
   (JobsFailed, mkSpec Int64Counter "jobs_failed_total"
      "Total number of jobs that failed execution" "{job}" []);
   (JobExecutionDuration, mkSpec Float64Histogram "job_execution_duration_seconds"
      "Duration of job execution in seconds" "s" [0.01; 0.1; 0.5; 1.0; 5.0; 10.0; 30.0; 60.0; 300.0]%Q);
   (JobsActive, mkSpec Int64UpDownCounter "jobs_active"
      "Number of currently active jobs" "{job}" []);
   (JobsScheduled, mkSpec Int64UpDownCounter "jobs_scheduled"
      "Number of jobs currently scheduled for future execution" "{job}" []);
   (JobsByType, mkSpec Int64UpDownCounter "jobs_by_type"
      "Number of jobs by type (unico/recurrente)" "{job}" [])].

Definition slot_instruments : list (Field * Spec) :=
  [(SlotsTotal, mkSpec Int64UpDownCounter "slots_total"
      "Total number of time slots" "{slot}" []);
   (SlotsActive, mkSpec Int64UpDownCounter "slots_active"
      "Number of active slots with pending jobs" "{slot}" []);
   (SlotsProcessed, mkSpec Int64Counter "slots_processed_total"
      "Total number of slots processed" "{slot}" []);
   (SlotProcessingDuration, mkSpec Float64Histogram "slot_processing_duration_seconds"
      "Duration of slot processing in seconds" "s" [0.001; 0.01; 0.1; 0.5; 1.0; 5.0; 10.0]%Q);
   (JobsPerSlot, mkSpec Int64Histogram "jobs_per_slot"
      "Number of jobs per slot" "{job}" [1; 2; 5; 10; 20; 50; 100]%Q)].

Definition worker_instruments : list (Field * Spec) :=
  [(WorkerActive, mkSpec Int64UpDownCounter "worker_active"
      "Whether the worker is currently active (1) or stopped (0)" "{worker}" []);
   (WorkerProcessingTime, mkSpec Float64Histogram "worker_processing_time_seconds"
      "Time spent processing jobs by the worker" "s" [0.001; 0.01; 0.1; 1.0; 5.0; 10.0; 30.0]%Q);
   (WorkerIdleTime, mkSpec Float64Histogram "worker_idle_time_seconds"
      "Time spent idle by the worker" "s" [0.1; 0.5; 1.0; 5.0; 10.0; 30.0; 60.0]%Q);
   (WorkerErrors, mkSpec Int64Counter "worker_errors_total"
      "Total number of worker errors" "{error}" [])].

Definition cluster_instruments : list (Field * Spec) :=
  [(ClusterNodes, mkSpec Int64UpDownCounter "cluster_nodes"
      "Number of nodes in the cluster" "{node}" []);
   (ClusterLeaderChanges, mkSpec Int64Counter "cluster_leader_changes_total"
      "Total number of leader changes" "{change}" []);
   (ClusterJoinEvents, mkSpec Int64Counter "cluster_join_events_total"
      "Total number of node join events" "{event}" []);
   (ClusterLeaveEvents, mkSpec Int64Counter "cluster_leave_events_total"
      "Total number of node leave events" "{event}" []);
   (RaftOperations, mkSpec Int64Counter "raft_operations_total"
      "Total number of Raft operations" "{operation}" []);
   (RaftErrors, mkSpec Int64Counter "raft_errors_total"
      "Total number of Raft errors" "{error}" []);
   (RaftLeaderElections, mkSpec Int64Counter "raft_leader_elections_total"
      "Total number of Raft leader elections" "{election}" []);
   (ClusterSplitBrainEvents, mkSpec Int64Counter "cluster_split_brain_events_total"
      "Total number of split-brain prevention events" "{event}" [])].

Definition http_instruments : list (Field * Spec) :=
  [(HTTPRequests, mkSpec Int64Counter "http_requests_total"
      "Total number of HTTP requests" "{request}" []);
   (HTTPRequestDuration, mkSpec Float64Histogram "http_request_duration_seconds"
      "Duration of HTTP requests in seconds" "s" [0.001; 0.01; 0.1; 0.5; 1.0; 5.0; 10.0; 30.0]%Q);
   (HTTPProxyRequests, mkSpec Int64Counter "http_proxy_requests_total"
      "Total number of HTTP requests proxied to leader" "{request}" []);
   (HTTPErrors, mkSpec Int64Counter "http_errors_total"
      "Total number of HTTP errors" "{error}" [])].

Definition discovery_instruments : list (Field * Spec) :=
  [(DiscoveryEvents, mkSpec Int64Counter "discovery_events_total"
      "Total number of discovery events" "{event}" []);
   (DiscoveryErrors, mkSpec Int64Counter "discovery_errors_total"
      "Total number of discovery errors" "{error}" []);
   (DiscoveryOperations, mkSpec Int64Counter "discovery_operations_total"
      "Total number of discovery operations" "{operation}" []);
   (NodesDiscovered, mkSpec Int64UpDownCounter "nodes_discovered"
      "Number of nodes discovered through service discovery" "{node}" [])].

Definition webhook_instruments : list (Field * Spec) :=
  [(WebhookRequests, mkSpec Int64Counter "webhook_requests_total"
      "Total number of webhook requests sent" "{request}" []);
   (WebhookErrors, mkSpec Int64Counter "webhook_errors_total"
      "Total number of webhook errors" "{error}" []);
   (WebhookDuration, mkSpec Float64Histogram "webhook_duration_seconds"
      "Duration of webhook requests in seconds" "s" [0.1; 0.5; 1.0; 5.0; 10.0; 30.0; 60.0]%Q)].

Definition status_instruments : list (Field * Spec) :=
  [(JobsByStatus, mkSpec Int64UpDownCounter "jobs_by_status"
      "Number of jobs by status" "{job}" []);
   (ExecutionFailures, mkSpec Int64Counter "execution_failures_total"
      "Total number of job execution failures" "{failure}" []);
   (RetryCount, mkSpec Int64Histogram "retry_count"
      "Number of retries per job" "{retry}" [0; 1; 2; 3; 5; 10]%Q);
   (StatusQueryLatency, mkSpec Float64Histogram "status_query_duration_seconds"
      "Status query latency in seconds" "s" [0.001; 0.01; 0.1; 0.5; 1.0; 5.0; 10.0]%Q)].

Definition system_instruments : list (Field * Spec) :=
  [(SystemStartTime, mkSpec Float64ObservableGauge "system_start_time_seconds"
      "System start time as Unix timestamp" "s" []);
   (SystemUptime, mkSpec Float64ObservableGauge "system_uptime_seconds"
      "System uptime in seconds" "s" [])].

Definition queue_instruments : list (Field * Spec) :=
  [(QueueMemoryUsage, mkSpec Int64UpDownCounter "queue_memory_usage_bytes"
      "Current memory usage of the queue" "By" []);
   (QueueMemoryLimit, mkSpec Int64UpDownCounter "queue_memory_limit_bytes"
      "Memory limit of the queue" "By" []);
   (QueueJobCount, mkSpec Int64UpDownCounter "queue_job_count"
      "Current number of jobs in the queue" "{job}" []);
   (QueueJobLimit, mkSpec Int64UpDownCounter "queue_job_limit"
      "Job count limit of the queue" "{job}" []);
   (JobRejections, mkSpec Int64Counter "job_rejections_total"
      "Total number of job rejections due to capacity limits" "{rejection}" []);
   (QueueMemoryUtilization, mkSpec Float64UpDownCounter "queue_memory_utilization_percent"
      "Memory utilization percentage" "%" [])].

(** In the order [NewMetrics] creates them. *)
Definition instruments : list (Field * Spec) :=
  job_instruments ++ slot_instruments ++ worker_instruments ++ cluster_instruments ++
  http_instruments ++ discovery_instruments ++ webhook_instruments ++ status_instruments ++
  system_instruments ++ queue_instruments.

(** ** Measurements *)

Inductive Attr := AString (s : string) | AInt (z : Z).

#[export] Instance Attr_eq_dec : EqDecision Attr.
Proof. solve_decision. Defined.

Notation Attrs := (gmap string Attr).

Inductive Value := VInt (z : Z) | VFloat (f : float64).

Record Measurement := mkMeasurement {
  ms_instrument : Spec;
  ms_value : Value;
  ms_attrs : Attrs }.

(** [*Metrics]; a member that was not created is [None]. *)
Definition Metrics : Type := Field → option Spec.

(** The global instance of [instrumentation.go] and what was recorded. *)
Record Telemetry := mkTelemetry {
  t_global : option Metrics;
  t_log : list Measurement }.

Notation T := (M Telemetry).

Definition record (sp : Spec) (v : Value) (attrs : Attrs) : T unit :=
  modify (λ t, mkTelemetry (t_global t) (t_log t ++ [mkMeasurement sp v attrs])).

(** [m.f.Add(ctx, v, attrs)] and [m.f.Record(ctx, v, attrs)] *)
Definition measure (m : option Metrics) (f : Field) (v : Value) (attrs : Attrs) : T unit :=
  match m with
  | None => panic
  | Some m => match m f with None => panic | Some sp => record sp v attrs end
  end.

Definition Add (m : option Metrics) (f : Field) (v : Z) (attrs : Attrs) : T unit :=
  measure m f (VInt v) attrs.

(** [Record] of an [int64] and of [duration.Seconds()]. *)
Definition RecordInt (m : option Metrics) (f : Field) (v : Z) (attrs : Attrs) : T unit :=
  measure m f (VInt v) attrs.

Definition RecordSeconds (m : option Metrics) (f : Field) (d : Z) (attrs : Attrs) : T unit :=
  measure m f (VFloat (Duration_Seconds d)) attrs.

(** [if m == nil { return }] *)
Definition unless_nil (m : option Metrics) (k : T unit) : T unit :=
  match m with None => mreturn tt | Some _ => k end.

(** ** NewMetrics *)

Class Meter := { create_fails : Spec → option error }.

Fixpoint create_all `{Meter} (l : list (Field * Spec)) (m : Metrics) : Metrics + error :=
  match l with
  | [] => inl m
  | (f, sp) :: l =>
      match create_fails sp with
      | Some e => inr e
      | None => create_all l (λ g, if decide (g = f) then Some sp else m g)
      end
  end.

Definition NewMetrics `{Meter} : Metrics + error := create_all instruments (λ _, None).

(** ** The methods *)

Section methods.

Variable m : option Metrics.

Local Open Scope go_scope.

Definition job_type (jobType : string) : Attrs := {[ "job_type" := AString jobType ]}.

Definition IncrementJobsCreated (jobType : string) : T unit :=
  Add m JobsTotal 1 (job_type jobType) ;;
  Add m JobsByType 1 (job_type jobType).

Definition IncrementJobsExecuted (jobType : string) (success : bool) : T unit :=
  if success then Add m JobsExecuted 1 (job_type jobType)
  else Add m JobsFailed 1 (job_type jobType).

Definition RecordJobExecutionDuration (duration : Z) (jobType : string) : T unit :=
  RecordSeconds m JobExecutionDuration duration (job_type jobType).

Definition IncrementJobsDeleted (jobType : string) : T unit :=
  Add m JobsDeleted 1 (job_type jobType) ;;
  Add m JobsByType (-1) (job_type jobType).

Definition SetActiveJobs (count : Z) : T unit := Add m JobsActive count ∅.

Definition IncrementSlotsCreated : T unit := Add m SlotsTotal 1 ∅.

Definition IncrementSlotsDeleted : T unit := Add m SlotsTotal (-1) ∅.

Definition IncrementSlotsProcessed (jobCount : Z) : T unit :=
  Add m SlotsProcessed 1 ∅ ;;
  RecordInt m JobsPerSlot jobCount ∅.

Definition RecordSlotProcessingDuration (duration : Z) : T unit :=
  RecordSeconds m SlotProcessingDuration duration ∅.

Definition SetActiveSlots (count : Z) : T unit := Add m SlotsActive count ∅.

Definition SetWorkerActive (active : bool) : T unit :=
  Add m WorkerActive (if active then 1 else 0) ∅.

Definition RecordWorkerProcessingTime (duration : Z) : T unit :=
  RecordSeconds m WorkerProcessingTime duration ∅.

Definition RecordWorkerIdleTime (duration : Z) : T unit :=
  RecordSeconds m WorkerIdleTime duration ∅.

Definition IncrementWorkerErrors (errorType : string) : T unit :=
  Add m WorkerErrors 1 {[ "error_type" := AString errorType ]}.

Definition SetClusterNodes (count : Z) : T unit := Add m ClusterNodes count ∅.

Definition IncrementLeaderChanges (oldLeader newLeader : string) : T unit :=
  Add m ClusterLeaderChanges 1
    {[ "old_leader" := AString oldLeader; "new_leader" := AString newLeader ]}.

Definition IncrementClusterJoin (nodeID : string) : T unit :=
  Add m ClusterJoinEvents 1 {[ "node_id" := AString nodeID ]}.

Definition IncrementClusterLeave (nodeID : string) : T unit :=
  Add m ClusterLeaveEvents 1 {[ "node_id" := AString nodeID ]}.

Definition outcome_label (success : bool) : string := if success then "success" else "error".

Definition IncrementRaftOperation (operation : string) (success : bool) : T unit :=
  (if success then mreturn tt else Add m RaftErrors 1 {[ "operation" := AString operation ]}) ;;
  Add m RaftOperations 1
    {[ "operation" := AString operation; "status" := AString (outcome_label success) ]}.

Definition IncrementLeaderElections : T unit := Add m RaftLeaderElections 1 ∅.

Definition IncrementSplitBrainEvents : T unit := Add m ClusterSplitBrainEvents 1 ∅.

Definition http_attrs (method endpoint : string) (statusCode : Z) : Attrs :=
  {[ "method" := AString method; "endpoint" := AString endpoint;
     "status_code" := AInt statusCode ]}.

Definition IncrementHTTPRequests (method endpoint : string) (statusCode : Z) : T unit :=
  Add m HTTPRequests 1 (http_attrs method endpoint statusCode) ;;
  if decide (statusCode >= 400) then Add m HTTPErrors 1 (http_attrs method endpoint statusCode)
  else mreturn tt.

Definition RecordHTTPRequestDuration (duration : Z) (method endpoint : string) : T unit :=
  RecordSeconds m HTTPRequestDuration duration
    {[ "method" := AString method; "endpoint" := AString endpoint ]}.

Definition IncrementHTTPProxyRequests (method endpoint : string) : T unit :=
  Add m HTTPProxyRequests 1 {[ "method" := AString method; "endpoint" := AString endpoint ]}.

Definition IncrementDiscoveryEvent (strategy eventType : string) : T unit :=
  Add m DiscoveryEvents 1 {[ "strategy" := AString strategy; "event_type" := AString eventType ]}.

Definition IncrementDiscoveryError (strategy errorType : string) : T unit :=
  Add m DiscoveryErrors 1 {[ "strategy" := AString strategy; "error_type" := AString errorType ]}.

Definition IncrementDiscoveryOperation (strategy operation : string) (success : bool) : T unit :=
  Add m DiscoveryOperations 1
    {[ "strategy" := AString strategy; "operation" := AString operation;
       "status" := AString (outcome_label success) ]}.

Definition SetNodesDiscovered (count : Z) (strategy : string) : T unit :=
  Add m NodesDiscovered count {[ "strategy" := AString strategy ]}.

Definition IncrementWebhookRequests (success : bool) : T unit :=
  (if success then mreturn tt else Add m WebhookErrors 1 ∅) ;;
  Add m WebhookRequests 1 {[ "status" := AString (outcome_label success) ]}.

Definition RecordWebhookDuration (duration : Z) (success : bool) : T unit :=
  RecordSeconds m WebhookDuration duration {[ "status" := AString (outcome_label success) ]}.

Definition UpdateJobsByStatus (status : string) (delta : Z) : T unit :=
  unless_nil m (Add m JobsByStatus delta {[ "status" := AString status ]}).

Definition IncrementExecutionFailures (errorType : string) : T unit :=
  unless_nil m (Add m ExecutionFailures 1 {[ "error_type" := AString errorType ]}).

Definition RecordRetryCount (retryCount : Z) : T unit :=
  unless_nil m (RecordInt m RetryCount retryCount ∅).

Definition RecordStatusQueryLatency (duration : Z) (endpoint : string) : T unit :=
  unless_nil m (RecordSeconds m StatusQueryLatency duration {[ "endpoint" := AString endpoint ]}).

Definition SetSystemStartTime (startTime : Z) : T unit := mreturn tt.

Definition UpdateSystemUptime (startTime : Z) : T unit := mreturn tt.

Definition UpdateQueueMemoryUsage (delta : Z) : T unit :=
  unless_nil m (Add m QueueMemoryUsage delta ∅).

Definition SetQueueMemoryLimit (limit : Z) : T unit :=
  unless_nil m (Add m QueueMemoryLimit limit ∅).

Definition UpdateQueueJobCount (delta : Z) : T unit :=
  unless_nil m (Add m QueueJobCount delta ∅).

Definition SetQueueJobLimit (limit : Z) : T unit :=
  unless_nil m (Add m QueueJobLimit limit ∅).

Definition IncrementJobRejections (reason : string) : T unit :=
  unless_nil m (Add m JobRejections 1 {[ "reason" := AString reason ]}).

Definition SetQueueMemoryUtilization (utilization : float64) : T unit := mreturn tt.

(** Everything a client can call. *)
Inductive method : T unit → Prop :=
  | m_IncrementJobsCreated jt : method (IncrementJobsCreated jt)
  | m_IncrementJobsExecuted jt ok : method (IncrementJobsExecuted jt ok)
  | m_RecordJobExecutionDuration d jt : method (RecordJobExecutionDuration d jt)
  | m_IncrementJobsDeleted jt : method (IncrementJobsDeleted jt)
  | m_SetActiveJobs c : method (SetActiveJobs c)
  | m_IncrementSlotsCreated : method IncrementSlotsCreated
  | m_IncrementSlotsDeleted : method IncrementSlotsDeleted
  | m_IncrementSlotsProcessed c : method (IncrementSlotsProcessed c)
  | m_RecordSlotProcessingDuration d : method (RecordSlotProcessingDuration d)
  | m_SetActiveSlots c : method (SetActiveSlots c)
  | m_SetWorkerActive b : method (SetWorkerActive b)
  | m_RecordWorkerProcessingTime d : method (RecordWorkerProcessingTime d)
  | m_RecordWorkerIdleTime d : method (RecordWorkerIdleTime d)
  | m_IncrementWorkerErrors e : method (IncrementWorkerErrors e)
  | m_SetClusterNodes c : method (SetClusterNodes c)
  | m_IncrementLeaderChanges o n : method (IncrementLeaderChanges o n)
  | m_IncrementClusterJoin n : method (IncrementClusterJoin n)
  | m_IncrementClusterLeave n : method (IncrementClusterLeave n)
  | m_IncrementRaftOperation o ok : method (IncrementRaftOperation o ok)
  | m_IncrementLeaderElections : method IncrementLeaderElections
  | m_IncrementSplitBrainEvents : method IncrementSplitBrainEvents
  | m_IncrementHTTPRequests me ep st : method (IncrementHTTPRequests me ep st)
  | m_RecordHTTPRequestDuration d me ep : method (RecordHTTPRequestDuration d me ep)
  | m_IncrementHTTPProxyRequests me ep : method (IncrementHTTPProxyRequests me ep)
  | m_IncrementDiscoveryEvent s e : method (IncrementDiscoveryEvent s e)
  | m_IncrementDiscoveryError s e : method (IncrementDiscoveryError s e)
  | m_IncrementDiscoveryOperation s o ok : method (IncrementDiscoveryOperation s o ok)
  | m_SetNodesDiscovered c s : method (SetNodesDiscovered c s)
  | m_IncrementWebhookRequests ok : method (IncrementWebhookRequests ok)
  | m_RecordWebhookDuration d ok : method (RecordWebhookDuration d ok)
  | m_UpdateJobsByStatus s d : method (UpdateJobsByStatus s d)
  | m_IncrementExecutionFailures e : method (IncrementExecutionFailures e)
  | m_RecordRetryCount c : method (RecordRetryCount c)
  | m_RecordStatusQueryLatency d e : method (RecordStatusQueryLatency d e)
  | m_SetSystemStartTime t : method (SetSystemStartTime t)
  | m_UpdateSystemUptime t : method (UpdateSystemUptime t)
  | m_UpdateQueueMemoryUsage d : method (UpdateQueueMemoryUsage d)
  | m_SetQueueMemoryLimit l : method (SetQueueMemoryLimit l)
  | m_UpdateQueueJobCount d : method (UpdateQueueJobCount d)
  | m_SetQueueJobLimit l : method (SetQueueJobLimit l)
  | m_IncrementJobRejections r : method (IncrementJobRejections r)
  | m_SetQueueMemoryUtilization u : method (SetQueueMemoryUtilization u).

End methods.

(** ** Creation *)

(** The instrument of a member. *)
Definition spec_of (f : Field) : option Spec :=
  match list_find (λ p : Field * Spec, p.1 = f) instruments with
  | Some (_, p) => Some p.2
  | None => None
  end.

(** A receiver on which every member is the instrument of its name. *)
Definition complete (m : Metrics) : Prop := ∀ f, m f = spec_of f.

Section creation.

(** Every member has one instrument, of the type the struct declares. *)
Lemma spec_of_declared f : ∃ sp, spec_of f = Some sp ∧ i_kind sp = declared f.
Proof. destruct f; vm_compute; eauto. Qed.

(** No two instruments share a name. *)
Lemma names_distinct : NoDup ((i_name ∘ snd) <$> instruments).
Proof. by apply (bool_decide_unpack _); vm_compute. Qed.

Context `{Meter}.

(** The members set by [create_all], the others unchanged. *)
Lemma create_all_ok l m0 :
  (∀ p, p ∈ l → create_fails p.2 = None) → NoDup l.*1 →
  ∃ m, create_all l m0 = inl m ∧
    ∀ f, m f = match list_find (λ p : Field * Spec, p.1 = f) l with
               | Some (_, p) => Some p.2 | None => m0 f end.
Proof.
  revert m0. induction l as [|[f0 sp] l IH]; intros m0 Hok Hnd; [by exists m0|].
  apply NoDup_cons in Hnd as [Hf0 Hnd]. cbn [create_all list_find].
  rewrite (Hok (f0, sp) ltac:(set_solver) : create_fails sp = None).
  destruct (IH (λ g, if decide (g = f0) then Some sp else m0 g)) as (m & E & Hm); [set_solver|done|].
  exists m. split; [done|]. intros f. rewrite Hm.
  repeat case_decide; simplify_eq/=; destruct (list_find _ l) as [[i p]|] eqn:El; try done.
  apply list_find_Some in El as (Hl & Hp & _). destruct Hf0. simpl. rewrite <-Hp.
  by eapply (list_elem_of_fmap_2 fst), list_elem_of_lookup_2.
Qed.

Lemma create_all_error l m0 l1 p l2 e :
  l = l1 ++ p :: l2 → (∀ q, q ∈ l1 → create_fails q.2 = None) → create_fails p.2 = Some e →
  create_all l m0 = inr e.
Proof.
  intros -> H1 Hp. revert m0. induction l1 as [|[f0 sp0] l1 IH]; intros m0; simpl.
  - destruct p as [f sp]. simpl in Hp. by rewrite Hp.
  - rewrite (H1 (f0, sp0) ltac:(set_solver) : create_fails sp0 = None). apply IH. set_solver.
Qed.

(** [NewMetrics] is all or nothing: when the meter creates every instrument,
    each member of the result is the one instrument of its name, of the type
    the struct declares; otherwise it is the error of the first instrument
    that failed, and no [Metrics] at all. *)
Theorem new_metrics_all_or_nothing :
  (∃ m, NewMetrics = inl m ∧ complete m ∧
     ∀ f, ∃ sp, m f = Some sp ∧ (f, sp) ∈ instruments ∧ i_kind sp = declared f) ∨
  (∃ l1 p l2 e, instruments = l1 ++ p :: l2 ∧ (∀ q, q ∈ l1 → create_fails q.2 = None) ∧
     create_fails p.2 = Some e ∧ NewMetrics = inr e).
Proof.
  unfold NewMetrics.
  destruct (list_find (λ p : Field * Spec, is_Some (create_fails p.2)) instruments)
    as [[i p]|] eqn:E; [right|left].
  - apply list_find_Some in E as (Hi & [e He] & Hbefore).
    exists (take i instruments), p, (drop (S i) instruments), e.
    assert (instruments = take i instruments ++ p :: drop (S i) instruments) as Hsplit
      by (by rewrite take_drop_middle).
    assert (∀ q, q ∈ take i instruments → create_fails q.2 = None) as Hq.
    { intros q (j & Hj)%list_elem_of_lookup. apply lookup_take_Some in Hj as [Hj Hlt].
      apply eq_None_not_Some. intros Hs. exact (Hbefore j q Hj Hlt Hs). }
    split_and!; try done. by eapply create_all_error.
  - apply list_find_None in E. rewrite Forall_forall in E.
    destruct (create_all_ok instruments (λ _, None)) as (m & Em & Hm).
    + intros p Hp. apply eq_None_not_Some, E, Hp.
    + by apply (bool_decide_unpack _); vm_compute.
    + exists m. assert (complete m) as Hc.
      { intros f. rewrite Hm. unfold spec_of. by destruct (list_find _ _) as [[]|]. }
      split_and!; [done|done|]. intros f. destruct (spec_of_declared f) as (sp & Hs & Hk).
      exists sp. rewrite Hc. split_and!; [done| |done]. revert Hs. unfold spec_of.
      destruct (list_find _ _) as [[j [f' sp']]|] eqn:Ef; [|done]. intros [= <-].
      apply list_find_Some in Ef as (Hj & <- & _). by eapply list_elem_of_lookup_2.
Qed.

End creation.

(** ** Every measurement is well typed *)

Inductive AttrType := TString | TInt.

Definition attr_type (a : Attr) : AttrType :=
  match a with AString _ => TString | AInt _ => TInt end.

Definition strs (l : list string) : list (string * AttrType) := (λ k, (k, TString)) <$> l.

(** The attributes of each instrument, the same on every measurement. *)
Definition schema (f : Field) : list (string * AttrType) :=
  match f with
  | JobsTotal | JobsExecuted | JobsDeleted | JobsFailed | JobExecutionDuration | JobsByType =>
      strs ["job_type"]
  | WorkerErrors | ExecutionFailures => strs ["error_type"]
  | ClusterLeaderChanges => strs ["old_leader"; "new_leader"]
  | ClusterJoinEvents | ClusterLeaveEvents => strs ["node_id"]
  | RaftErrors => strs ["operation"]
  | RaftOperations => strs ["operation"; "status"]
  | HTTPRequests | HTTPErrors => strs ["method"; "endpoint"] ++ [("status_code", TInt)]
  | HTTPRequestDuration | HTTPProxyRequests => strs ["method"; "endpoint"]
  | DiscoveryEvents => strs ["strategy"; "event_type"]
  | DiscoveryErrors => strs ["strategy"; "error_type"]
  | DiscoveryOperations => strs ["strategy"; "operation"; "status"]
  | NodesDiscovered => strs ["strategy"]
  | WebhookRequests | WebhookDuration | JobsByStatus => strs ["status"]
  | StatusQueryLatency => strs ["endpoint"]
  | JobRejections => strs ["reason"]
  | _ => []
  end.

(** A counter takes [int64] increments that are not negative, an up-down
    counter any; a histogram takes what its type says; a gauge with a callback
    is never recorded on. *)
Definition value_ok (k : Kind) (v : Value) : Prop :=
  match k, v with
  | Int64Counter, VInt z => 0 <= z
  | Int64UpDownCounter, VInt _ | Int64Histogram, VInt _ => True
  | Float64Histogram, VFloat _ | Float64UpDownCounter, VFloat _ => True
  | _, _ => False
  end.

Definition well_typed (ms : Measurement) : Prop :=
  ∃ f, spec_of f = Some (ms_instrument ms) ∧ value_ok (declared f) (ms_value ms) ∧
    attr_type <$> ms_attrs ms = list_to_map (schema f).

Section typing.

Variable m : Metrics.
Hypothesis m_complete : complete m.

(** [c] returns and only appends well-typed measurements. *)
Definition types (c : T unit) : Prop :=
  ∀ t, returns c t (λ _ t', t_global t' = t_global t ∧
    ∃ l, t_log t' = t_log t ++ l ∧ Forall well_typed l).

Lemma types_ret : types (mreturn tt).
Proof. intros t. apply returns_ret. split; [done|]. exists []. by rewrite app_nil_r. Qed.

Lemma types_bind (c1 c2 : T unit) : types c1 → types c2 → types (mthen c1 (λ _, c2)).
Proof.
  intros H1 H2 t. apply returns_bind. eapply returns_mono; [apply H1|].
  intros [] t1 (G1 & l1 & L1 & F1). eapply returns_mono; [apply H2|].
  intros [] t2 (G2 & l2 & L2 & F2). split; [congruence|]. exists (l1 ++ l2).
  rewrite L2, L1, <-app_assoc. split; [done|]. by apply Forall_app.
Qed.

Lemma types_measure f v attrs :
  value_ok (declared f) v → attr_type <$> attrs = list_to_map (schema f) →
  types (measure (Some m) f v attrs).
Proof.
  intros Hv Ha t. unfold measure. rewrite m_complete.
  destruct (spec_of_declared f) as (sp & Hsp & _). rewrite Hsp. apply returns_modify. simpl.
  split; [done|]. eexists. split; [done|]. apply Forall_singleton. by exists f.
Qed.

End typing.

(** Opens a method into its measurements and checks each. *)
Ltac typed :=
  repeat first [ apply types_bind | apply types_ret | case_match | case_decide
    | apply types_measure; [done|cbn; lia || done|by rewrite ?fmap_insert, ?fmap_empty] ].

Lemma method_types m c : complete m → method (Some m) c → types c.
Proof.
  intros Hm Hc. destruct Hc;
    unfold IncrementJobsCreated, IncrementJobsExecuted, IncrementJobsDeleted,
      IncrementRaftOperation, IncrementHTTPRequests, IncrementWebhookRequests,
      IncrementSlotsProcessed, SetWorkerActive, SetSystemStartTime, UpdateSystemUptime,
      SetQueueMemoryUtilization; typed.
Qed.

(** C32: The type discipline of the metrics. On the instance [NewMetrics]
    builds, every sequence of method calls returns, and every measurement it
    makes is well typed: it goes to the instrument of a member, its value fits
    that instrument (a counter never gets a negative increment, a histogram of
    floats gets a float) and it carries exactly the attributes of that
    instrument's schema, each of its type. *)
Theorem metrics_are_well_typed m cs t :
  complete m → Forall (method (Some m)) cs → Forall well_typed (t_log t) →
  returns (for_each id cs) t (λ _ t', Forall well_typed (t_log t') ∧ t_global t' = t_global t).
Proof.
  intros Hm Hcs Ht. assert (types (for_each id cs)) as Hall.
  { induction Hcs as [|c cs Hc _ IH]; [apply types_ret|].
    apply (types_bind c); [by apply (method_types m)|done]. }
  eapply returns_mono; [apply Hall|]. intros _ t' (Hg & l & -> & Hl). split; [|done].
  by apply Forall_app.
Qed.

(** ** What a reader sees *)

(** An increment an instrument of sums accepts. *)
Definition sums (ms : Measurement) : Prop := 
  match i_kind (ms_instrument ms), ms_value ms with
  | Int64UpDownCounter, VInt _ => True
  | Int64Counter, VInt z => 0 <= z
  | _, _ => False
  end.

Definition recorded (name : string) (attrs : Attrs) (ms : Measurement) : Z :=
  if decide (i_name (ms_instrument ms) = name ∧ ms_attrs ms = attrs) then
    match ms_value ms with VInt z => z | VFloat _ => 0 end
  else 0.

Fixpoint total (name : string) (attrs : Attrs) (l : list Measurement) : Z :=
  match l with
  | [] => 0
  | ms :: l => recorded name attrs ms + total name attrs l
  end.

(** The exporters: a counter and an up-down counter read the sum of their
    increments per set of attributes, in an [int64]. *)
Class Reader := {
  collect : list Measurement → string → Attrs → Z;
  collect_sum l name attrs :
    (∀ ms, ms ∈ l → i_name (ms_instrument ms) = name → sums ms) →
    collect l name attrs = i64 (total name attrs l) }.

(** The sum itself is such a reader. *)
Definition sum_reader : Reader :=
  {| collect := λ l name attrs, i64 (total name attrs l); collect_sum := λ _ _ _ _, eq_refl |}.

Definition is_sum (k : Kind) : Prop := k = Int64Counter ∨ k = Int64UpDownCounter.

Section readings.

Context `{Reader}.

Definition name_of (f : Field) : string := default "" (i_name <$> spec_of f).

Definition reading (f : Field) (attrs : Attrs) (t : Telemetry) : Z :=
  collect (t_log t) (name_of f) attrs.

Lemma total_app name attrs l1 l2 :
  total name attrs (l1 ++ l2) = total name attrs l1 + total name attrs l2.
Proof. induction l1 as [|ms l1 IH]; simpl; [done|]. rewrite IH. lia. Qed.

(** A name belongs to one member. *)
Lemma name_of_inj f f' : name_of f = name_of f' → f = f'.
Proof. by destruct f, f'; vm_compute. Qed.

Lemma spec_name f sp : spec_of f = Some sp → i_name sp = name_of f.
Proof. unfold name_of. by intros ->. Qed.

Lemma well_typed_sums f l :
  is_sum (declared f) → Forall well_typed l →
  ∀ ms, ms ∈ l → i_name (ms_instrument ms) = name_of f → sums ms.
Proof.
  intros Hf Hl ms Hms Hname. rewrite Forall_forall in Hl.
  destruct (Hl ms Hms) as (f' & Hs & Hv & _). rewrite (spec_name f') in Hname by done.
  apply name_of_inj in Hname as ->. destruct (spec_of_declared f) as (sp & Hs' & Hk).
  rewrite Hs in Hs'. injection Hs' as Hs'. unfold sums. rewrite Hs', Hk.
  destruct Hf as [Hf|Hf]; rewrite Hf in Hv |- *; by destruct (ms_value ms).
Qed.

Lemma reading_total f attrs t :
  is_sum (declared f) → Forall well_typed (t_log t) →
  reading f attrs t = i64 (total (name_of f) attrs (t_log t)).
Proof. intros Hf Ht. by apply collect_sum, well_typed_sums. Qed.

(** A computation that adds [d] to what member [f] has recorded. *)
Definition adds (f : Field) (attrs : Attrs) (d : Z) (c : T unit) : Prop :=
  types c ∧ ∀ t, returns c t (λ _ t',
    total (name_of f) attrs (t_log t') = total (name_of f) attrs (t_log t) + d).

Lemma adds_ret f attrs : adds f attrs 0 (mreturn tt).
Proof. split; [apply types_ret|]. intros t. apply returns_ret. lia. Qed.

Lemma adds_bind f attrs d1 d2 c1 c2 :
  adds f attrs d1 c1 → adds f attrs d2 c2 → adds f attrs (d1 + d2) (mthen c1 (λ _, c2)).
Proof.
  intros [T1 A1] [T2 A2]. split; [by apply types_bind|]. intros t. apply returns_bind.
  eapply returns_mono; [apply A1|]. intros [] t1 E1.
  eapply returns_mono; [apply A2|]. intros [] t2 E2. lia.
Qed.

Lemma adds_eq f attrs d d' c : adds f attrs d c → d = d' → adds f attrs d' c.
Proof. by intros ? <-. Qed.

Lemma adds_measure m f attrs g v attrs' :
  complete m → types (measure (Some m) g v attrs') →
  adds f attrs (if decide (g = f ∧ attrs' = attrs)
                then match v with VInt z => z | VFloat _ => 0 end else 0)
    (measure (Some m) g v attrs').
Proof.
  intros Hm Ht. split; [done|]. intros t. unfold measure. rewrite Hm.
  destruct (spec_of_declared g) as (sp & Hsp & _). rewrite Hsp. apply returns_modify. simpl.
  rewrite total_app. simpl. unfold recorded. simpl. rewrite (spec_name g sp Hsp).
  destruct (decide (g = f ∧ attrs' = attrs)) as [[-> ->]|Hne].
  - rewrite decide_True by done. lia.
  - rewrite decide_False; [lia|]. intros [E1%name_of_inj E2]. by apply Hne.
Qed.

(** A call that adds [d] moves the reading by [d]. *)
Lemma adds_reading f attrs d c t :
  is_sum (declared f) → adds f attrs d c → Forall well_typed (t_log t) →
  returns c t (λ _ t', Forall well_typed (t_log t') ∧
    reading f attrs t' = i64 (reading f attrs t + d)).
Proof.
  intros Hf [Ht Ha] Hw. destruct (Ht t) as ([] & t' & E & _ & l & Hl & Hl').
  destruct (Ha t) as ([] & t'' & E' & Htot). rewrite E in E'. injection E' as <-.
  exists tt, t'. assert (Forall well_typed (t_log t')) as Hw' by (rewrite Hl; by apply Forall_app).
  split_and!; [done|done|]. rewrite !reading_total by done. rewrite Htot, i64_plus_l. done.
Qed.

Lemma adds_for_each {A} f attrs (g : A → Z) (c : A → T unit) l :
  (∀ x, x ∈ l → adds f attrs (g x) (c x)) → adds f attrs (foldr (λ x s, g x + s) 0 l) (for_each c l).
Proof.
  induction l as [|x l IH]; intros Hc; simpl; [apply adds_ret|].
  apply adds_bind; [apply Hc; set_solver|]. apply IH. set_solver.
Qed.

End readings.

(** Follows a method, one measurement at a time. *)
Ltac counted :=
  eapply adds_eq;
  [ repeat first [ apply adds_bind | apply adds_ret
      | apply adds_measure; [done|apply types_measure; [done|cbn; lia || done|
                                    by rewrite ?fmap_insert, ?fmap_empty]] ]
  | ].

(** ** A concrete instance *)

Definition ex_telemetry : Telemetry := mkTelemetry (Some spec_of) [].

Lemma ex_complete : complete spec_of.
Proof. done. Qed.

Lemma metrics_are_well_typed_witness :
  let m := Some spec_of in
  returns (for_each id [IncrementJobsCreated m "unico"; IncrementHTTPRequests m "GET" "/jobs" 404;
                        RecordWebhookDuration m 1500000000 false]) ex_telemetry
    (λ _ t', Forall well_typed (t_log t') ∧ t_global t' = Some spec_of).
Proof.
  apply (metrics_are_well_typed spec_of); [exact ex_complete| |constructor].
  repeat constructor.
Defined.
