(* ===== verification/Instrumentation.v ===== *)
(** * Instrumentation helpers: [instrumentation.go]

    The global instance, and the helpers that turn events of the program into
    measurements. Every helper keeps a pointer to the metrics, [None] when it
    is [nil]; those with state return the struct they updated. *)

From S2P Require Import Prelude GoFloat Json Types Metrics.

Local Open Scope go_scope.

(** ** The global instance *)

Definition SetGlobalMetrics (m : option Metrics) : T unit :=
  modify (λ t, mkTelemetry m (t_log t)).

Definition GetGlobalMetrics : T (option Metrics) := gets t_global.

(** [if m := metrics.GetGlobalMetrics(); m != nil { ... }] *)
Definition with_global (k : option Metrics → T unit) : T unit :=
  m <- GetGlobalMetrics ;;
  match m with None => mreturn tt | Some _ => k m end.

(** ** Jobs *)

Record JobInstrumentation := NewJobInstrumentation { ji_metrics : option Metrics }.

Definition RecordJobCreated (ji : JobInstrumentation) (job : Job) : T unit :=
  unless_nil (ji_metrics ji) (IncrementJobsCreated (ji_metrics ji) (job_Type job)).

Definition RecordJobDeleted (ji : JobInstrumentation) (job : Job) : T unit :=
  unless_nil (ji_metrics ji) (IncrementJobsDeleted (ji_metrics ji) (job_Type job)).

Definition RecordJobExecution (ji : JobInstrumentation) (job : Job) (duration : Z) (success : bool)
    : T unit :=
  unless_nil (ji_metrics ji) (
    IncrementJobsExecuted (ji_metrics ji) (job_Type job) success ;;
    RecordJobExecutionDuration (ji_metrics ji) duration (job_Type job)).

(** The loop of [UpdateJobCounts]: all, one-off and recurring jobs. *)
Definition count_job (job : Job) (acc : Z * Z * Z) : Z * Z * Z :=
  let '(totalActive, uniqueCount, recurrentCount) := acc in
  let totalActive := i64 (totalActive + 1) in
  if decide (job_Type job = JobUnico) then (totalActive, i64 (uniqueCount + 1), recurrentCount)
  else if decide (job_Type job = JobRecurrente)
       then (totalActive, uniqueCount, i64 (recurrentCount + 1))
  else (totalActive, uniqueCount, recurrentCount).

(** A [nil] map is [None]. *)
Definition UpdateJobCounts `{GoRange} (ji : JobInstrumentation) (jobs : option (gmap string Job))
    : T unit :=
  unless_nil (ji_metrics ji) (
    match jobs with
    | None => mreturn tt
    | Some jobs =>
        let '(totalActive, uniqueCount, recurrentCount) :=
          foldl (λ acc p, count_job p.2 acc) (0, 0, 0) (range_map jobs) in
        SetActiveJobs (ji_metrics ji) totalActive ;;
        Add (ji_metrics ji) JobsByType uniqueCount (job_type "unico") ;;
        Add (ji_metrics ji) JobsByType recurrentCount (job_type "recurrente")
    end).

(** ** Slots *)

Record SlotInstrumentation := NewSlotInstrumentation { si_metrics : option Metrics }.

Definition RecordSlotCreated (si : SlotInstrumentation) : T unit :=
  unless_nil (si_metrics si) (IncrementSlotsCreated (si_metrics si)).

Definition RecordSlotDeleted (si : SlotInstrumentation) : T unit :=
  unless_nil (si_metrics si) (IncrementSlotsDeleted (si_metrics si)).

Definition RecordSlotProcessed (si : SlotInstrumentation) (jobCount duration : Z) : T unit :=
  unless_nil (si_metrics si) (
    IncrementSlotsProcessed (si_metrics si) jobCount ;;
    RecordSlotProcessingDuration (si_metrics si) duration).

Definition UpdateSlotCounts (si : SlotInstrumentation) (activeSlots : Z) : T unit :=
  unless_nil (si_metrics si) (SetActiveSlots (si_metrics si) activeSlots).

(** ** The worker *)

Record WorkerInstrumentation := mkWorkerInstrumentation {
  wi_metrics : option Metrics;
  wi_startTime : option Z;
  wi_isActive : bool }.

(** The zero [time.Time] is [None]. *)
Definition NewWorkerInstrumentation (m : option Metrics) : WorkerInstrumentation :=
  mkWorkerInstrumentation m None false.

Definition RecordWorkerStarted (now : Z) (wi : WorkerInstrumentation) : T WorkerInstrumentation :=
  match wi_metrics wi with
  | None => mreturn wi
  | Some _ =>
      SetWorkerActive (wi_metrics wi) true ;;
      mreturn (mkWorkerInstrumentation (wi_metrics wi) (Some now) true)
  end.

Definition RecordWorkerStopped (wi : WorkerInstrumentation) : T WorkerInstrumentation :=
  match wi_metrics wi with
  | None => mreturn wi
  | Some _ =>
      if wi_isActive wi then
        SetWorkerActive (wi_metrics wi) false ;;
        mreturn (mkWorkerInstrumentation (wi_metrics wi) (wi_startTime wi) false)
      else mreturn wi
  end.

Definition RecordProcessingCycle (wi : WorkerInstrumentation) (processing idle : Z) : T unit :=
  unless_nil (wi_metrics wi) (
    RecordWorkerProcessingTime (wi_metrics wi) processing ;;
    RecordWorkerIdleTime (wi_metrics wi) idle).

Definition RecordWorkerError (wi : WorkerInstrumentation) (errorType : string) : T unit :=
  unless_nil (wi_metrics wi) (IncrementWorkerErrors (wi_metrics wi) errorType).

(** ** The cluster *)

Record ClusterInstrumentation := mkClusterInstrumentation {
  ci_metrics : option Metrics;
  ci_currentLeader : string;
  ci_currentNodes : Z;
  ci_nodeID : string }.

Definition NewClusterInstrumentation (m : option Metrics) (nodeID : string)
    : ClusterInstrumentation := mkClusterInstrumentation m "" 0 nodeID.

Definition set_leader (l : string) (ci : ClusterInstrumentation) : ClusterInstrumentation :=
  mkClusterInstrumentation (ci_metrics ci) l (ci_currentNodes ci) (ci_nodeID ci).

Definition set_nodes (k : Z) (ci : ClusterInstrumentation) : ClusterInstrumentation :=
  mkClusterInstrumentation (ci_metrics ci) (ci_currentLeader ci) k (ci_nodeID ci).

Definition RecordLeaderChange (oldLeader newLeader : string) (ci : ClusterInstrumentation)
    : T ClusterInstrumentation :=
  match ci_metrics ci with
  | None => mreturn ci
  | Some _ =>
      IncrementLeaderChanges (ci_metrics ci) oldLeader newLeader ;;
      IncrementLeaderElections (ci_metrics ci) ;;
      mreturn (set_leader newLeader ci)
  end.

Definition RecordNodeJoin (nodeID : string) (ci : ClusterInstrumentation)
    : T ClusterInstrumentation :=
  match ci_metrics ci with
  | None => mreturn ci
  | Some _ =>
      IncrementClusterJoin (ci_metrics ci) nodeID ;;
      let ci := set_nodes (i64 (ci_currentNodes ci + 1)) ci in
      SetClusterNodes (ci_metrics ci) (ci_currentNodes ci) ;;
      mreturn ci
  end.

Definition RecordNodeLeave (nodeID : string) (ci : ClusterInstrumentation)
    : T ClusterInstrumentation :=
  match ci_metrics ci with
  | None => mreturn ci
  | Some _ =>
      IncrementClusterLeave (ci_metrics ci) nodeID ;;
      let ci := if decide (ci_currentNodes ci > 0)
                then set_nodes (i64 (ci_currentNodes ci - 1)) ci else ci in
      SetClusterNodes (ci_metrics ci) (ci_currentNodes ci) ;;
      mreturn ci
  end.

Definition RecordRaftOperation (ci : ClusterInstrumentation) (operation : string) (success : bool)
    : T unit :=
  unless_nil (ci_metrics ci) (IncrementRaftOperation (ci_metrics ci) operation success).

Definition RecordSplitBrainEvent (ci : ClusterInstrumentation) : T unit :=
  unless_nil (ci_metrics ci) (IncrementSplitBrainEvents (ci_metrics ci)).

Definition UpdateClusterState (nodeCount : Z) (leader : string) (ci : ClusterInstrumentation)
    : T ClusterInstrumentation :=
  match ci_metrics ci with
  | None => mreturn ci
  | Some _ =>
      ci <- (if bool_decide (ci_currentLeader ci ≠ leader) && bool_decide (leader ≠ "")
             then RecordLeaderChange (ci_currentLeader ci) leader ci else mreturn ci) ;;
      let ci := set_nodes nodeCount ci in
      SetClusterNodes (ci_metrics ci) nodeCount ;;
      mreturn ci
  end.

(** ** Discovery, webhooks, system *)

Record DiscoveryInstrumentation := NewDiscoveryInstrumentation {
  di_metrics : option Metrics;
  di_strategy : string }.

Definition RecordDiscoveryEvent (di : DiscoveryInstrumentation) (eventType : string) : T unit :=
  unless_nil (di_metrics di) (IncrementDiscoveryEvent (di_metrics di) (di_strategy di) eventType).

Definition RecordDiscoveryError (di : DiscoveryInstrumentation) (errorType : string) : T unit :=
  unless_nil (di_metrics di) (IncrementDiscoveryError (di_metrics di) (di_strategy di) errorType).

Definition RecordDiscoveryOperation (di : DiscoveryInstrumentation) (operation : string)
    (success : bool) : T unit :=
  unless_nil (di_metrics di)
    (IncrementDiscoveryOperation (di_metrics di) (di_strategy di) operation success).

Definition UpdateNodesDiscovered (di : DiscoveryInstrumentation) (count : Z) : T unit :=
  unless_nil (di_metrics di) (SetNodesDiscovered (di_metrics di) count (di_strategy di)).

Record WebhookInstrumentation := NewWebhookInstrumentation { whi_metrics : option Metrics }.

Definition RecordWebhookRequest (wi : WebhookInstrumentation) (duration : Z) (success : bool)
    : T unit :=
  unless_nil (whi_metrics wi) (
    IncrementWebhookRequests (whi_metrics wi) success ;;
    RecordWebhookDuration (whi_metrics wi) duration success).

Record SystemInstrumentation := mkSystemInstrumentation {
  sys_metrics : option Metrics;
  sys_startTime : Z }.

Definition NewSystemInstrumentation (now : Z) (m : option Metrics) : T SystemInstrumentation :=
  (match m with None => mreturn tt | Some _ => SetSystemStartTime now end) ;;
  mreturn (mkSystemInstrumentation m now).

Definition UpdateUptime (si : SystemInstrumentation) : T unit :=
  unless_nil (sys_metrics si) (UpdateSystemUptime (sys_startTime si)).

Definition GetStartTime (si : SystemInstrumentation) : Z := sys_startTime si.

(** ** What the gauges read *)

(** The methods whose name says they set a gauge, with the gauge. *)
Inductive setter (m : option Metrics) : (Z → T unit) → Field → Prop :=
  | s_ActiveJobs : setter m (SetActiveJobs m) JobsActive
  | s_ActiveSlots : setter m (SetActiveSlots m) SlotsActive
  | s_ClusterNodes : setter m (SetClusterNodes m) ClusterNodes
  | s_QueueMemoryLimit : setter m (SetQueueMemoryLimit m) QueueMemoryLimit
  | s_QueueJobLimit : setter m (SetQueueJobLimit m) QueueJobLimit.

Section gauges.

Context `{Reader}.

Variable m : Metrics.
Hypothesis m_complete : complete m.

Implicit Types t : Telemetry.

Definition sum (l : list Z) : Z := foldr Z.add 0 l.

Lemma setter_adds s f v : setter (Some m) s f → adds f ∅ v (s v) ∧ is_sum (declared f).
Proof.
  intros Hs. split; [|destruct Hs; by right].
  destruct Hs; counted; by rewrite decide_True.
Qed.

(** The "set" methods do not set. After any sequence of calls of such a
    method the gauge has moved by the sum of all the values, so it shows the
    value last set only when everything before it adds up to zero. *)
Theorem set_gauges_accumulate s f vs t :
  setter (Some m) s f → Forall well_typed (t_log t) →
  returns (for_each s vs) t (λ _ t', reading f ∅ t' = i64 (reading f ∅ t + sum vs)).
Proof.
  intros Hs Hw. eapply returns_mono.
  - apply (adds_reading f ∅ (sum vs)); [apply (setter_adds s f 0 Hs)| |done].
    apply (adds_for_each f ∅ id s). intros v _. by apply setter_adds.
  - by intros _ t' [_ E].
Qed.

(** *** Nodes *)

Definition joined (c k : Z) : Z := c * k + k * (k + 1) / 2.

Lemma joined_S c k : joined c (k + 1) = (c + 1) + joined (c + 1) k.
Proof.
  unfold joined. replace ((k + 1) * (k + 1 + 1)) with (k * (k + 1) + (k + 1) * 2) by ring.
  rewrite Z.div_add by lia. ring.
Qed.

Lemma adds_join ci id (f := ClusterNodes) :
  ci_metrics ci = Some m → 0 <= ci_currentNodes ci < two63 - 1 →
  ∃ c, (∀ t, RecordNodeJoin id ci t = mthen c (λ _, mreturn (set_nodes (ci_currentNodes ci + 1) ci)) t) ∧
    adds f ∅ (ci_currentNodes ci + 1) c.
Proof.
  intros Hm Hc.
  exists (IncrementClusterJoin (Some m) id ;; SetClusterNodes (Some m) (ci_currentNodes ci + 1)). split.
  - intros t. unfold RecordNodeJoin, set_nodes. rewrite mthen_assoc, Hm. cbn.
    by rewrite i64_id by (unfold in64, two63 in *; lia).
  - unfold IncrementClusterJoin, SetClusterNodes, Add. counted.
    rewrite decide_False by naive_solver. rewrite decide_True by done. lia.
Qed.

(** The gauge of cluster nodes counts every join again. After [k] nodes
    have joined a fresh helper it knows [k] nodes, and the gauge it keeps has
    been raised by [k(k+1)/2]. *)
Theorem join_gauge_is_triangular nodeID ids t :
  Forall well_typed (t_log t) → Z.of_nat (length ids) < two63 →
  let k := Z.of_nat (length ids) in
  returns (for_acc RecordNodeJoin ids (NewClusterInstrumentation (Some m) nodeID)) t
    (λ ci t', ci_currentNodes ci = k ∧
       reading ClusterNodes ∅ t' = i64 (reading ClusterNodes ∅ t + k * (k + 1) / 2)).
Proof.
  intros Hw Hlen k.
  assert (∀ ids ci t, ci_metrics ci = Some m → 0 <= ci_currentNodes ci →
    ci_currentNodes ci + Z.of_nat (length ids) < two63 → Forall well_typed (t_log t) →
    returns (for_acc RecordNodeJoin ids ci) t (λ ci' t',
      ci_currentNodes ci' = ci_currentNodes ci + Z.of_nat (length ids) ∧
      reading ClusterNodes ∅ t' =
        i64 (reading ClusterNodes ∅ t + joined (ci_currentNodes ci) (Z.of_nat (length ids))))) as Hgen.
  { clear nodeID ids t Hw Hlen k. induction ids as [|id ids IH]; intros ci t Hm Hc Hk Hw.
    - apply returns_ret. split; [simpl; lia|]. simpl. unfold joined.
      rewrite reading_total by (done || by right). rewrite Z.mul_0_r, !Z.add_0_r.
      by rewrite i64_idemp.
    - simpl. rewrite length_cons in Hk. apply returns_bind.
      destruct (adds_join ci id Hm) as (c & Ec & Hadd); [lia|].
      destruct (adds_reading ClusterNodes ∅ _ c t ltac:(by right) Hadd Hw)
        as ([] & t1 & E1 & Hw1 & R1).
      exists (set_nodes (ci_currentNodes ci + 1) ci), t1. split.
      { rewrite Ec. by rewrite (mthen_some _ _ _ _ _ E1). }
      eapply returns_mono; [apply IH; simpl; [done|lia|lia|done]|].
      intros ci' t' [En R]. simpl in En, R. rewrite En, R, R1, i64_plus_l. split; [lia|].
      rewrite Nat2Z.inj_succ, <-Z.add_1_r, joined_S. f_equal. lia. }
  eapply returns_mono; [apply Hgen; simpl; [done|lia|lia|done]|].
  simpl. intros ci t' [-> ->]. split; [done|]. unfold joined. do 2 f_equal.
Qed.

(** *** The worker *)

(** One leadership: the worker starts at [now] and stops. *)
Definition worker_cycle (now : Z) (wi : WorkerInstrumentation) : T WorkerInstrumentation :=
  wi <- RecordWorkerStarted now wi ;; RecordWorkerStopped wi.

Lemma adds_worker (b : bool) : adds WorkerActive ∅ (if b then 1 else 0) (SetWorkerActive (Some m) b).
Proof. unfold SetWorkerActive, Add. counted. by rewrite decide_True. Qed.

(** The gauge described as "1 active, 0 stopped" never goes down: after [k]
    starts, each followed by a stop, the worker is stopped and the gauge has
    risen by [k]. *)
Theorem stopped_worker_still_counted wi times t :
  wi_metrics wi = Some m → wi_isActive wi = false → Forall well_typed (t_log t) →
  returns (for_acc worker_cycle times wi) t (λ wi' t', wi_isActive wi' = false ∧
    reading WorkerActive ∅ t' = i64 (reading WorkerActive ∅ t + Z.of_nat (length times))).
Proof.
  revert wi t. induction times as [|now times IH]; intros wi t Hm Ha Hw.
  - apply returns_ret. split; [done|]. rewrite reading_total by (done || by right).
    by rewrite Z.add_0_r, i64_idemp.
  - simpl. apply returns_bind. unfold worker_cycle, RecordWorkerStarted. apply returns_bind.
    rewrite Hm. apply returns_bind.
    eapply returns_mono; [apply (adds_reading WorkerActive ∅ 1 _ t); [by right|apply (adds_worker true)|done]|].
    intros [] t1 [Hw1 R1]. apply returns_ret. unfold RecordWorkerStopped. simpl. apply returns_bind.
    eapply returns_mono; [apply (adds_reading WorkerActive ∅ 0 _ t1); [by right|apply (adds_worker false)|done]|].
    intros [] t2 [Hw2 R2]. apply returns_ret.
    eapply returns_mono; [by apply IH|]. intros wi' t' [Hi R]. split; [done|].
    rewrite R, R2, R1, Z.add_0_r, !i64_plus_l. f_equal. lia.
Qed.

End gauges.

(** ** Concrete gauges *)

Lemma set_gauges_accumulate_witness :
  returns (for_each (SetActiveJobs (Some spec_of)) [3; 2; 2]) ex_telemetry
    (λ _ t', @reading sum_reader JobsActive ∅ t' = 7).
Proof.
  eapply returns_mono;
    [apply (@set_gauges_accumulate sum_reader spec_of ex_complete (SetActiveJobs (Some spec_of)) JobsActive [3; 2; 2]);
     constructor|].
  intros [] t' E. rewrite E. vm_compute. reflexivity.
Defined.

Lemma join_gauge_is_triangular_witness :
  returns (for_acc RecordNodeJoin ["n2"; "n3"; "n4"] (NewClusterInstrumentation (Some spec_of) "n1")) ex_telemetry
    (λ ci t', ci_currentNodes ci = 3 ∧ @reading sum_reader ClusterNodes ∅ t' = 6).
Proof.
  eapply returns_mono;
    [apply (@join_gauge_is_triangular sum_reader spec_of ex_complete "n1" ["n2"; "n3"; "n4"]);
     [constructor|vm_compute; reflexivity]|].
  intros ci t' [E1 E2]. split; [exact E1|]. rewrite E2. vm_compute. reflexivity.
Defined.
