(* ===== verification/Metered.v ===== *)
(** * The handlers with their metrics: [app.go], [limit_manager.go],
      [job_handlers.go], [handlers.go], [execution_manager.go]

    The same code as in [SlotQueue], [Limits], [Store] and [Api], over the node
    and the telemetry of its process together, with the calls that record
    metrics where the code makes them. Forgetting the telemetry gives the
    definitions the rest of the development is about ([erases]). *)

From S2P Require Import Prelude GoStrings GoFloat Json Sanitize GoTime Types Codec Request ColdStore.
From S2P Require Import FSM Store StoreProps StatusTracker Limits TimingWheel SlotQueue SlotQueueProps.
From S2P Require Import ExecutionManager Worker Gateway Api ApiProps Metrics Instrumentation.

Section Metered.

Context {CS : Type} `{ColdSlotStore CS} `{GoRange} `{Env} `{Cluster} `{Cron}.

Notation P := (M (Node CS Queue)).
Notation MM := (M (Node CS Queue * Telemetry)).

(** Code that records nothing, and code that only records. *)
Definition on_node {A} (c : P A) : MM A :=
  λ s, match c s.1 with Some (a, n) => Some (a, (n, s.2)) | None => None end.

Definition on_metrics {A} (c : T A) : MM A :=
  λ s, match c s.2 with Some (a, t) => Some (a, (s.1, t)) | None => None end.

Local Open Scope go_scope.

(** [if m := metrics.GetGlobalMetrics(); m != nil { k m }] *)
Definition metered (k : option Metrics → T unit) : MM unit := on_metrics (with_global k).

(** ** The event handler and the store *)

Definition event_handler_m (event : string) (job : option Job) : MM unit :=
  l <- on_node IsLeader ;;
  if (l : bool) then
    match job with
    | None => mreturn tt
    | Some job =>
        if decide (event = "created") then
          on_node (AddJob job) ;; metered (λ m, IncrementJobsCreated m (job_Type job))
        else if decide (event = "deleted") then
          on_node (RemoveJob (job_ID job)) ;; metered (λ m, IncrementJobsDeleted m (job_Type job))
        else mreturn tt
    end
  else mreturn tt.

Definition notify_m (event : string) (job : option Job) : MM unit :=
  l <- on_node IsLeader ;; if (l : bool) then event_handler_m event job else mreturn tt.

Definition if_leader_m (k : MM (option error)) : MM (option error) :=
  l <- on_node IsLeader ;; if (l : bool) then k else mreturn (Some ErrNotLeader).

Definition CreateJob_m (job : Job) : MM (option error) :=
  if_leader_m (
    e <- on_node (send (cmd_create_job job)) ;;
    match e with
    | Some e => mreturn (Some e)
    | None => notify_m "created" (Some job) ;; mreturn None
    end).

Definition DeleteJob_m (id : string) : MM (option error) :=
  if_leader_m (
    job <- on_node (GetJob id) ;;
    e <- on_node (send (cmd_with_id CommandDeleteJob id)) ;;
    match e with
    | Some e => mreturn (Some e)
    | None => notify_m "deleted" job ;; mreturn None
    end).

(** ** The limits *)

Definition RecordJobAdded_m (lm : LimitManager) (job : Job) : MM (option error) :=
  let size := CalculateSize (lm_sizeCalculator lm) job in
  e <- on_node (IncrementUsage size) ;;
  match e with
  | Some e => mreturn (Some e)
  | None =>
      e <- on_node Increment ;;
      match e with
      | Some e => _ <- on_node (DecrementUsage size) ;; mreturn (Some e)
      | None =>
          metered (λ m, UpdateQueueMemoryUsage m size ;; UpdateQueueJobCount m 1) ;;
          mreturn None
      end
  end.

Definition RecordJobRemoved_m (lm : LimitManager) (job : Job) : MM (option error) :=
  let size := CalculateSize (lm_sizeCalculator lm) job in
  e <- on_node (DecrementUsage size) ;;
  match e with
  | Some e => mreturn (Some e)
  | None =>
      e <- on_node Decrement ;;
      match e with
      | Some e => mreturn (Some e)
      | None =>
          metered (λ m, UpdateQueueMemoryUsage m (i64 (- size)) ;; UpdateQueueJobCount m (-1)) ;;
          mreturn None
      end
  end.

(** ** The handlers *)

Definition writeError_m (status : Z) (message : string) : MM Response :=
  (if decide (status >= 400) then metered (λ m, IncrementHTTPRequests m "ERROR" "error" status)
   else mreturn tt) ;;
  mreturn (writeError status message).

Definition proxyToLeader_m (getenv : Getenv) (h : Handlers) (r : Request) : MM Response :=
  leader <- on_node GetLeader ;;
  if decide (leader = "") then writeError_m 503 "No leader available"
  else
    match getHTTPAddressForRaft getenv h leader with
    | inr _ => writeError_m 503 "Leader unavailable"
    | inl httpAddr =>
        let url := httpAddr +:+ rq_URI r in
        match http_newRequest (rq_Method r) url with
        | Some _ => writeError_m 500 "Internal error"
        | None =>
            let headers := foldl apply_op ∅ (copy_headers (rq_Header r)) in
            resp <- on_node (ask (λ i, roundTrip i (mkProxyRequest (rq_Method r) url headers (rq_Body r)))) ;;
            match resp with
            | inr _ => writeError_m 502 "Unable to reach leader"
            | inl (status, hs, body) => mreturn (mkResponse status (copy_headers hs) body)
            end
        end
    end.

Definition on_leader_m (getenv : Getenv) (h : Handlers) (r : Request) (k : MM Response) : MM Response :=
  l <- on_node IsLeader ;; if (l : bool) then k else proxyToLeader_m getenv h r.

Definition admit_job_m (h : Handlers) (job : Job) : MM Response :=
  full <- on_node (match h_limitManager h with Some lm => CheckCapacity lm job | None => mreturn None end) ;;
  match full with
  | Some e =>
      metered (λ m, IncrementJobRejections m (ce_Type e)) ;; mreturn (capacity_response e)
  | None =>
      e <- CreateJob_m job ;;
      match e with
      | Some _ => writeError_m StatusInternalServerError "Failed to create job"
      | None =>
          _ <- (match h_limitManager h with Some lm => RecordJobAdded_m lm job | None => mreturn None end) ;;
          metered (λ m, IncrementJobsCreated m (job_Type job)) ;;
          mreturn (ok_json (enc_Job job))
      end
  end.

Definition API_CreateJob_m (getenv : Getenv) (h : Handlers) (uuid : string) (r : Request) : MM Response :=
  on_leader_m getenv h r (
    match rq_Body r ≫= dec_CreateJobRequest with
    | None => writeError_m StatusBadRequest "Invalid request body"
    | Some req =>
        now <- on_node Now ;;
        match ToJob now uuid req with
        | inr e => writeError_m StatusBadRequest (safeErrorMessage "Invalid job data" (Some e) true)
        | inl job =>
            now <- on_node Now ;;
            match Job_Validate now job with
            | Some e =>
                writeError_m StatusBadRequest (safeErrorMessage "Job validation failed" (Some e) true)
            | None => admit_job_m h job
            end
        end
    end).

Definition API_GetJob_m (r : Request) : MM Response :=
  if decide (rq_id r = "") then writeError_m StatusBadRequest "Job ID is required"
  else
    job <- on_node (GetJob (rq_id r)) ;;
    match job with
    | Some job => mreturn (ok_json (enc_Job job))
    | None => writeError_m StatusNotFound "Job not found"
    end.

Definition API_DeleteJob_m (getenv : Getenv) (h : Handlers) (r : Request) : MM Response :=
  on_leader_m getenv h r (
    if decide (rq_id r = "") then writeError_m StatusBadRequest "Job ID is required"
    else
      job <- on_node (GetJob (rq_id r)) ;;
      match job with
      | None => writeError_m StatusNotFound "Job not found"
      | Some job =>
          e <- DeleteJob_m (rq_id r) ;;
          match e with
          | Some _ => writeError_m StatusInternalServerError "Failed to delete job"
          | None =>
              _ <- (match h_limitManager h with
                    | Some lm => RecordJobRemoved_m lm job
                    | None => mreturn None
                    end) ;;
              metered (λ m, IncrementJobsDeleted m (job_Type job)) ;;
              mreturn (mkResponse StatusNoContent [] BEmpty)
          end
      end).

(** [defer func() { RecordStatusQueryLatency(...) }()]; how long the handler
    took is an argument. *)
Definition timed (duration : Z) (endpoint : string) (k : MM Response) : MM Response :=
  resp <- k ;;
  metered (λ m, RecordStatusQueryLatency m duration endpoint) ;;
  mreturn resp.

Definition API_GetJobStatus_m (duration : Z) (r : Request) : MM Response :=
  timed duration "get_job_status" (
    if decide (rq_id r = "") then writeError_m StatusBadRequest "Job ID is required"
    else
      job <- on_node (GetJob (rq_id r)) ;;
      match job with
      | None => writeError_m StatusNotFound "Job not found"
      | Some _ =>
          state <- on_node (GetStatus (rq_id r)) ;;
          match state with
          | inl state => mreturn (ok_json (enc_State state))
          | inr _ =>
              now <- on_node Now ;;
              mreturn (ok_json (enc_State (pending_state (rq_id r) now)))
          end
      end).

Definition API_GetJobExecutions_m (duration : Z) (r : Request) : MM Response :=
  timed duration "get_job_executions" (
    if decide (rq_id r = "") then writeError_m StatusBadRequest "Job ID is required"
    else
      job <- on_node (GetJob (rq_id r)) ;;
      match job with
      | None => writeError_m StatusNotFound "Job not found"
      | Some _ =>
          attempts <- on_node (GetExecutionHistory (rq_id r)) ;;
          let attempts := match attempts with inl l => l | inr _ => [] end in
          mreturn (ok_json (JObj [("attempts", JArr (enc_Attempt <$> attempts));
                                  ("job_id", JStr (rq_id r))]))
      end).

Definition API_ListJobsByStatus_m (duration : Z) (r : Request) : MM Response :=
  timed duration "list_jobs_by_status" (
    if decide (rq_statusParam r = "") then
      writeError_m StatusBadRequest "status query parameter is required"
    else if decide (rq_statusParam r ∈ validStatuses) then
      states <- on_node (ListByStatus (rq_statusParam r)) ;;
      mreturn (ok_json (JObj [("jobs", JArr (enc_State <$> states));
                              ("total", JNum (pretty (Z.of_nat (length states))))]))
    else writeError_m StatusBadRequest "invalid status parameter").

Definition API_CancelJob_m (getenv : Getenv) (h : Handlers) (r : Request) : MM Response :=
  on_leader_m getenv h r (
    if decide (rq_id r = "") then writeError_m StatusBadRequest "Job ID is required"
    else
      job <- on_node (GetJob (rq_id r)) ;;
      match job with
      | None => writeError_m StatusNotFound "Job not found"
      | Some _ =>
          let reason := cancel_reason (rq_Body r) in
          state <- on_node (GetStatus (rq_id r)) ;;
          let wasInProgress :=
            match state with inl s => bool_decide (es_Status s = StatusInProgress) | inr _ => false end in
          on_node (if wasInProgress && h_executionManager h
                   then (_ <- CancelJob (rq_id r) ;; mreturn tt) else mreturn tt) ;;
          e <- on_node (api_MarkCancelled (rq_id r) reason) ;;
          match e with
          | Some _ => writeError_m StatusInternalServerError "Failed to cancel job"
          | None =>
              state <- on_node (GetStatus (rq_id r)) ;;
              match state with
              | inr _ => writeError_m StatusInternalServerError "Failed to get job status"
              | inl s =>
                  mreturn (ok_json (JObj (
                    [("cancelled_at", JNum (pretty (es_CancelledAt s))); ("job_id", JStr (rq_id r))] ++
                    (if wasInProgress
                     then [("message", JStr "Job was in progress, cancellation attempted")] else []) ++
                    [("status", JStr (es_Status s))])))
              end
          end
      end).

Definition JoinCluster_m (r : Request) : MM Response :=
  l <- on_node IsLeader ;;
  if (l : bool) then
    match rq_Body r ≫= dec_JoinRequest with
    | None => writeError_m StatusBadRequest "Invalid request body"
    | Some (id, addr) =>
        if decide (id = "" ∨ addr = "") then
          writeError_m StatusBadRequest "node_id and address are required"
        else
          e <- on_node (AddPeer id addr) ;;
          match e with
          | Some _ => writeError_m StatusInternalServerError "Failed to join cluster"
          | None =>
              mreturn (ok_json (JObj [("success", JBool true);
                ("message", JStr ("Node " +:+ id +:+ " successfully joined cluster"))]))
          end
    end
  else writeError_m StatusForbidden "not leader, cannot accept join requests".

End Metered.

(** ** The status callback *)

(** The callback [NewExecutionManager] installs, and all the calls of a
    trace. *)
Definition on_status_change (oldStatus newStatus : string) : T unit :=
  with_global (λ m, (UpdateJobsByStatus m oldStatus (-1) ;; UpdateJobsByStatus m newStatus 1)%go).

Definition on_event (e : event) : T unit :=
  match e with
  | EStatusChange old new => on_status_change old new
  | _ => mreturn tt
  end.

(** ** Metrics do not change what the code does *)

(** The global instance, if there is one, came from [NewMetrics], and all
    that was recorded is well typed. *)
Definition metrics_ok (t : Telemetry) : Prop :=
  (∀ m, t_global t = Some m → complete m) ∧ Forall well_typed (t_log t).

Section erasure.

Context {CS : Type} `{ColdSlotStore CS} `{GoRange} `{Env} `{Cluster} `{Cron}.

Notation P := (M (Node CS Queue)).
Notation MM := (M (Node CS Queue * Telemetry)).

Implicit Types (n : Node CS Queue) (t : Telemetry).

(** [cm] is [c] with metrics: same result, same node, same panics. *)
Definition erases {A} (cm : MM A) (c : P A) : Prop :=
  ∀ n t, metrics_ok t →
    match c n with
    | None => cm (n, t) = None
    | Some (a, n') => ∃ t', cm (n, t) = Some (a, (n', t')) ∧ metrics_ok t' ∧ t_global t' = t_global t
    end.

Lemma erases_ret {A} (a : A) : erases (mreturn a) (mreturn a).
Proof. intros n t Ht. by exists t. Qed.

Lemma erases_node {A} (c : P A) : erases (on_node c) c.
Proof.
  intros n t Ht. unfold on_node. simpl. destruct (c n) as [[a n']|]; [|done]. by exists t.
Qed.

Lemma erases_bind {A B} (cm : MM A) (c : P A) (km : A → MM B) (k : A → P B) :
  erases cm c → (∀ a, erases (km a) (k a)) → erases (mthen cm km) (mthen c k).
Proof.
  intros Hc Hk n t Ht. specialize (Hc n t Ht). unfold mthen.
  destruct (c n) as [[a n1]|]; [|by rewrite Hc]. destruct Hc as (t1 & -> & Ht1 & Hg1).
  specialize (Hk a n1 t1 Ht1). destruct (k a n1) as [[b n2]|]; [|done].
  destruct Hk as (t2 & E & Ht2 & Hg2). exists t2. split_and!; [done|done|congruence].
Qed.

(** Recording leaves no trace in the erased program. *)
Lemma erases_metered {B} (k : option Metrics → T unit) (km : MM B) (c : P B) :
  (∀ m, complete m → types (k (Some m))) → erases km c →
  erases (mthen (metered k) (λ _, km)) c.
Proof.
  intros Hk Hc n t Ht.
  assert (∃ t1, @metered CS k (n, t) = Some (tt, (n, t1)) ∧ metrics_ok t1 ∧ t_global t1 = t_global t)
    as (t1 & E1 & Ht1 & Hg1).
  { unfold metered, on_metrics, with_global, GetGlobalMetrics, gets, mthen. simpl.
    destruct (t_global t) as [m|] eqn:Hg; [|by exists t].
    destruct (Hk m (proj1 Ht m Hg) t) as ([] & t1 & E & Hg1 & l & Hl & Hw). rewrite E.
    exists t1. split; [done|]. split; [|congruence]. split.
    - intros m'. rewrite Hg1. apply Ht.
    - rewrite Hl. apply Forall_app. split; [apply Ht|done]. }
  unfold mthen. rewrite E1. specialize (Hc n t1 Ht1). destruct (c n) as [[b n2]|]; [|done].
  destruct Hc as (t2 & E & Ht2 & Hg2). exists t2. split_and!; [done|done|congruence].
Qed.

Lemma erases_metered_ret (k : option Metrics → T unit) :
  (∀ m, complete m → types (k (Some m))) → erases (metered k) (mreturn tt).
Proof.
  intros Hk n t Ht. destruct (erases_metered k (mreturn tt) (mreturn tt) Hk (erases_ret tt) n t Ht)
    as (t' & E & Ht'). exists t'. split; [|done]. revert E. unfold mthen, mreturn.
  destruct (metered k (n, t)) as [[[] s]|]; [|done]. by intros [= ->].
Qed.

(** A recording after the last call. *)
Lemma erases_then (cm : MM unit) (c : P unit) (k : option Metrics → T unit) :
  (∀ m, complete m → types (k (Some m))) → erases cm c → erases (mthen cm (λ _, metered k)) c.
Proof.
  intros Hk Hc n t Ht. specialize (Hc n t Ht). unfold mthen.
  destruct (c n) as [[[] n1]|]; [|by rewrite Hc]. destruct Hc as (t1 & -> & Ht1 & Hg1).
  destruct (erases_metered_ret k Hk n1 t1 Ht1) as (t2 & E & Ht2 & Hg2). exists t2.
  split_and!; [done|done|congruence].
Qed.

Lemma erases_eta {A} (cm : MM A) (c : P A) : erases cm (mthen c mreturn) → erases cm c.
Proof.
  intros Hc n t Ht. specialize (Hc n t Ht). unfold mthen, mreturn in Hc.
  by destruct (c n) as [[a n']|].
Qed.

End erasure.

Create HintDb metrics.

#[export] Hint Constructors method : metrics.
#[export] Hint Resolve method_types : metrics.

(** Follows both programs; the leaves are the same calls. *)
Ltac recorded_types :=
  intros; cbv beta; first [by eauto with metrics|apply types_bind; by eauto with metrics].

Create HintDb erasure.

#[export] Hint Resolve erases_ret erases_node : erasure.

Ltac erase_step :=
  lazymatch goal with
  | |- erases (mthen (metered _) _) _ => apply erases_metered; [recorded_types|]
  | |- erases (mthen _ (λ _, metered _)) _ => apply erases_then; [recorded_types|]
  | |- erases (metered _) _ => apply erases_metered_ret; [recorded_types]
  | |- erases (mthen _ _) (mthen _ _) => apply erases_bind; [|intros ?]
  | |- _ => first [case_match | case_decide]; simplify_eq
  end.

Ltac erase := repeat first [solve [eauto with erasure nocore] | erase_step].

Section transparency.

Context {CS : Type} `{ColdSlotStore CS} `{GoRange} `{Env} `{Cluster} `{Cron}.

Notation erases := (@erases CS _).

Lemma erases_notify event job : erases (notify_m event job) (notify handler event job).
Proof. unfold notify_m, notify, handler, event_handler_m, event_handler. erase. Qed.

Hint Resolve erases_notify : erasure.

Lemma erases_CreateJob job : erases (CreateJob_m job) (CreateJob handler job).
Proof. unfold CreateJob_m, CreateJob, if_leader_m, if_leader. erase. Qed.

Lemma erases_DeleteJob id : erases (DeleteJob_m id) (DeleteJob handler id).
Proof. unfold DeleteJob_m, DeleteJob, if_leader_m, if_leader. erase. Qed.

Lemma erases_RecordJobAdded lm job : erases (RecordJobAdded_m lm job) (RecordJobAdded lm job).
Proof. unfold RecordJobAdded_m, RecordJobAdded. erase. Qed.

Lemma erases_RecordJobRemoved lm job : erases (RecordJobRemoved_m lm job) (RecordJobRemoved lm job).
Proof.
  unfold RecordJobRemoved_m, RecordJobRemoved. apply erases_bind; [erase|]. intros [e|]; [erase|].
  apply erases_eta. apply erases_bind; [erase|]. intros [e|]; erase.
Qed.

Lemma erases_writeError status message :
  erases (writeError_m status message) (mreturn (writeError status message)).
Proof.
  unfold writeError_m. case_decide; [erase|].
  exact (erases_ret (writeError status message)).
Qed.

Hint Resolve erases_CreateJob erases_DeleteJob erases_RecordJobAdded erases_RecordJobRemoved
  erases_writeError : erasure.

Lemma erases_proxy getenv h r : erases (proxyToLeader_m getenv h r) (proxyToLeader getenv h r).
Proof. unfold proxyToLeader_m, proxyToLeader. erase. Qed.

Hint Resolve erases_proxy : erasure.

Lemma erases_on_leader getenv h r km k :
  erases km k → erases (on_leader_m getenv h r km) (on_leader getenv h r k).
Proof. intros Hk. unfold on_leader_m, on_leader. erase. Qed.

Lemma erases_admit h job : erases (admit_job_m h job) (admit_job h job).
Proof. unfold admit_job_m, admit_job. erase. Qed.

Hint Resolve erases_admit : erasure.

Lemma erases_create getenv h uuid r : erases (API_CreateJob_m getenv h uuid r) (API_CreateJob getenv h uuid r).
Proof. unfold API_CreateJob_m, API_CreateJob. apply erases_on_leader. erase. Qed.

Lemma erases_delete getenv h r : erases (API_DeleteJob_m getenv h r) (API_DeleteJob getenv h r).
Proof. unfold API_DeleteJob_m, API_DeleteJob. apply erases_on_leader. erase. Qed.

Lemma erases_get r : erases (API_GetJob_m r) (API_GetJob r).
Proof. unfold API_GetJob_m, API_GetJob. erase. Qed.

Lemma erases_timed d ep km k : erases km k → erases (timed d ep km) k.
Proof.
  intros Hk. apply erases_eta. unfold timed. apply erases_bind; [done|]. intros resp.
  apply erases_metered; [recorded_types|apply erases_ret].
Qed.

Lemma erases_queries d r :
  erases (API_GetJobStatus_m d r) (API_GetJobStatus r) ∧
  erases (API_GetJobExecutions_m d r) (API_GetJobExecutions r) ∧
  erases (API_ListJobsByStatus_m d r) (API_ListJobsByStatus r).
Proof.
  unfold API_GetJobStatus_m, API_GetJobStatus, API_GetJobExecutions_m, API_GetJobExecutions,
    API_ListJobsByStatus_m, API_ListJobsByStatus.
  split_and!; apply erases_timed; erase.
Qed.

Lemma erases_cancel getenv h r : erases (API_CancelJob_m getenv h r) (API_CancelJob getenv h r).
Proof. unfold API_CancelJob_m, API_CancelJob. apply erases_on_leader. erase. Qed.

Lemma erases_join r : erases (JoinCluster_m r) (JoinCluster r).
Proof. unfold JoinCluster_m, JoinCluster. erase. Qed.

(** Metrics never change what the service does. Whether metrics are set
    up or not, every handler answers the same with its metrics as without,
    leaves the node in the same state and fails in the same cases; and what it
    records stays well typed. *)
Theorem metrics_are_transparent getenv h uuid d r :
  erases (API_CreateJob_m getenv h uuid r) (API_CreateJob getenv h uuid r) ∧
  erases (API_GetJob_m r) (API_GetJob r) ∧
  erases (API_DeleteJob_m getenv h r) (API_DeleteJob getenv h r) ∧
  erases (API_CancelJob_m getenv h r) (API_CancelJob getenv h r) ∧
  erases (API_GetJobStatus_m d r) (API_GetJobStatus r) ∧
  erases (API_GetJobExecutions_m d r) (API_GetJobExecutions r) ∧
  erases (API_ListJobsByStatus_m d r) (API_ListJobsByStatus r) ∧
  erases (JoinCluster_m r) (JoinCluster r).
Proof.
  destruct (erases_queries d r) as (? & ? & ?).
  auto 10 using erases_create, erases_get, erases_delete, erases_cancel, erases_join.
Qed.

End transparency.

(** ** What is counted *)

Section counting.

Context {CS : Type} `{ColdSlotStore CS} `{GoRange} `{Env} `{Cluster} `{Cron} `{Reader}.

Notation P := (M (Node CS Queue)).
Notation MM := (M (Node CS Queue * Telemetry)).

Implicit Types (n : Node CS Queue) (t : Telemetry).

(** With a global instance, a run of [cm] that ends with [a] raises [mu] by some
    [d] with [R a d]. *)
Definition moves_by (mu : Telemetry → Z) {A} (cm : MM A) (R : A → Z → Prop) : Prop :=
  ∀ n t a n' t', metrics_ok t → is_Some (t_global t) → cm (n, t) = Some (a, (n', t')) →
    metrics_ok t' ∧ t_global t' = t_global t ∧ ∃ d, R a d ∧ mu t' = mu t + d.

(** What member [f] has recorded under [attrs]. *)
Definition counts (f : Field) (attrs : Attrs) {A} : MM A → (A → Z → Prop) → Prop :=
  moves_by (λ t, total (name_of f) attrs (t_log t)).

(** Nothing is recorded there. *)
Definition none {A} (_ : A) (d : Z) : Prop := d = 0.

Section moves_by.

Variable mu : Telemetry → Z.

Lemma moves_ret {A} (a : A) (R : A → Z → Prop) : R a 0 → moves_by mu (mreturn a) R.
Proof.
  intros Hr n t a' n' t' Ht _ [= <- <- <-]. split_and!; [done|done|]. exists 0. split; [done|lia].
Qed.

Lemma moves_node {A} (c : P A) : moves_by mu (on_node c) none.
Proof.
  intros n t a n' t' Ht _. unfold on_node. simpl. destruct (c n) as [[a0 n0]|]; [|done].
  intros [= <- <- <-]. split_and!; [done|done|]. exists 0. split; [done|lia].
Qed.

Lemma moves_bind {A B} (cm : MM A) (km : A → MM B) R1 R :
  moves_by mu cm R1 → (∀ a d1, R1 a d1 → moves_by mu (km a) (λ b d, R b (d1 + d))) →
  moves_by mu (mthen cm km) R.
Proof.
  intros Hc Hk n t b n2 t2 Ht Hg. unfold mthen. destruct (cm (n, t)) as [[a [n1 t1]]|] eqn:E1; [|done].
  destruct (Hc n t a n1 t1 Ht Hg E1) as (Ht1 & G1 & d1 & Hr1 & T1). intros E2.
  destruct (Hk a d1 Hr1 n1 t1 b n2 t2 Ht1) as (Ht2 & G2 & d2 & Hr2 & T2); [by rewrite G1|done|].
  split_and!; [done|congruence|]. exists (d1 + d2). split; [done|lia].
Qed.

Lemma moves_mono {A} (cm : MM A) (R R' : A → Z → Prop) :
  moves_by mu cm R → (∀ a d, R a d → R' a d) → moves_by mu cm R'.
Proof.
  intros Hc HR n t a n' t' Ht Hg E. destruct (Hc n t a n' t' Ht Hg E) as (? & ? & d & ? & ?).
  split_and!; [done|done|]. exists d. auto.
Qed.

Lemma moves_after {A B} (cm : MM A) (km : A → MM B) R :
  moves_by mu cm none → (∀ a, moves_by mu (km a) R) → moves_by mu (mthen cm km) R.
Proof. intros Hc Hk. eapply moves_bind; [exact Hc|]. intros a d1 ->. apply Hk. Qed.

Lemma moves_metered (k : option Metrics → T unit) d :
  (∀ m, complete m → types (k (Some m)) ∧ ∀ t, returns (k (Some m)) t (λ _ t', mu t' = mu t + d)) →
  moves_by mu (metered k) (λ _ d', d' = d).
Proof.
  intros Hk n t [] n' t' Ht [m Hm]. unfold metered, on_metrics, with_global, GetGlobalMetrics, gets, mthen.
  simpl. rewrite Hm. destruct (Hk m (proj1 Ht m Hm)) as [Htyp Hadd].
  destruct (Hadd t) as ([] & t1 & E & T1). destruct (Htyp t) as ([] & t2 & E2 & G2 & l & L2 & W2).
  rewrite E in E2. injection E2 as <-. rewrite E. intros [= <- <-].
  split_and!; [|congruence|by exists d]. split; [rewrite G2; apply Ht|].
  rewrite L2. apply Forall_app. split; [apply Ht|done].
Qed.

End moves_by.

Context (f : Field) (attrs : Attrs).

Lemma counts_ret {A} (a : A) (R : A → Z → Prop) : R a 0 → counts f attrs (mreturn a) R.
Proof. apply moves_ret. Qed.

Lemma counts_bind {A B} (cm : MM A) (km : A → MM B) R1 R :
  counts f attrs cm R1 → (∀ a d1, R1 a d1 → counts f attrs (km a) (λ b d, R b (d1 + d))) →
  counts f attrs (mthen cm km) R.
Proof. apply moves_bind. Qed.

Lemma counts_mono {A} (cm : MM A) (R R' : A → Z → Prop) :
  counts f attrs cm R → (∀ a d, R a d → R' a d) → counts f attrs cm R'.
Proof. apply moves_mono. Qed.

(** After something that records nothing. *)
Lemma counts_after {A B} (cm : MM A) (km : A → MM B) R :
  counts f attrs cm none → (∀ a, counts f attrs (km a) R) → counts f attrs (mthen cm km) R.
Proof. apply moves_after. Qed.

Lemma counts_on_node {A B} (c : P A) (km : A → MM B) R :
  (∀ a, counts f attrs (km a) R) → counts f attrs (mthen (on_node c) km) R.
Proof. apply counts_after, moves_node. Qed.

Lemma counts_metered (k : option Metrics → T unit) d :
  (∀ m, complete m → adds f attrs d (k (Some m))) → counts f attrs (metered k) (λ _ d', d' = d).
Proof. apply moves_metered. Qed.

End counting.

Arguments none {A} _ _ /.

Lemma ToJob_type now uuid req job : ToJob now uuid req = inl job → job_Type job = req_Type req.
Proof.
  unfold ToJob, parse_if. intros E. repeat case_match; by simplify_eq/=.
Qed.

Section created_twice.

Context {CS : Type} `{ColdSlotStore CS} `{GoRange} `{Env} `{Cluster} `{Cron} `{Reader}.

Implicit Types (n : Node CS Queue) (t : Telemetry).

Notation counts := (@counts CS).

(** The members [IncrementJobsCreated] counts on. *)
Definition creation_field (f : Field) : Prop := f = JobsTotal ∨ f = JobsByType.

Variables (f : Field) (jt : string).
Hypothesis f_creation : creation_field f.

(** One for a job of the type [jt]. *)
Definition once (job : Job) : Z := if decide (job_Type job = jt) then 1 else 0.

Lemma adds_created m job :
  complete m → adds f (job_type jt) (once job) (IncrementJobsCreated (Some m) (job_Type job)).
Proof.
  intros Hm. unfold IncrementJobsCreated, Add, once. counted.
  assert (job_type (job_Type job) = job_type jt ↔ job_Type job = jt) as Hjt.
  { split; [|by intros ->]. unfold job_type. intros E. apply (f_equal (lookup "job_type")) in E.
    rewrite !lookup_singleton_eq in E. congruence. }
  destruct f_creation as [-> | ->]; repeat case_decide; naive_solver lia.
Qed.

Lemma count_writeError status message :
  counts f (job_type jt) (writeError_m status message) (λ resp d, resp = writeError status message ∧ d = 0).
Proof.
  unfold writeError_m. apply (counts_after _ _ (if decide _ then _ else _)).
  - case_decide; [|by apply counts_ret]. apply counts_metered. intros m Hm.
    unfold IncrementHTTPRequests, Add. rewrite decide_True by done. counted.
    destruct f_creation as [-> | ->]; by repeat (rewrite decide_False by naive_solver).
  - intros _. by apply counts_ret.
Qed.

Hypothesis always_leader : ∀ i, leader i = true.

Lemma count_leader {A} (km : bool → M (Node CS Queue * Telemetry) A) R :
  counts f (job_type jt) (km true) R → counts f (job_type jt) (mthen (on_node IsLeader) km) R.
Proof.
  intros Hk n t a n' t' Ht Hg E. unfold mthen, on_node, IsLeader, ask in E. simpl in E.
  rewrite always_leader in E. by eapply Hk.
Qed.

Lemma count_notify job :
  counts f (job_type jt) (notify_m "created" (Some job)) (λ _ d, d = once job).
Proof.
  unfold notify_m. apply count_leader. unfold event_handler_m. apply count_leader. cbn.
  apply counts_on_node. intros _. apply counts_metered. intros m Hm. by apply adds_created.
Qed.

Lemma count_CreateJob job :
  counts f (job_type jt) (CreateJob_m job) (λ e d, d = match e with None => once job | Some _ => 0 end).
Proof.
  unfold CreateJob_m, if_leader_m. apply count_leader. apply counts_on_node. intros [e|]; [by apply counts_ret|].
  eapply counts_bind; [apply count_notify|]. intros _ d ->. apply counts_ret. lia.
Qed.

Lemma adds_elsewhere m g v attrs attrs' :
  complete m → value_ok (declared g) (VInt v) → attr_type <$> attrs' = list_to_map (schema g) →
  g ≠ f → adds f attrs 0 (Add (Some m) g v attrs').
Proof.
  intros Hm Hv Ha Hg. eapply adds_eq; [by apply adds_measure, types_measure|].
  by rewrite decide_False by naive_solver.
Qed.

Lemma count_RecordJobAdded lm job : counts f (job_type jt) (RecordJobAdded_m lm job) none.
Proof.
  unfold RecordJobAdded_m. apply counts_on_node. intros [e|]; [by apply counts_ret|].
  apply counts_on_node. intros [e|]; [apply counts_on_node; intros _; by apply counts_ret|].
  apply counts_after; [|intros _; by apply counts_ret].
  apply (counts_mono _ _ _ (λ _ d, d = 0)); [|done]. apply counts_metered. intros m Hm. cbn [unless_nil].
  apply (adds_bind f _ 0 0); apply adds_elsewhere; try done;
    by destruct f_creation as [-> | ->].
Qed.

(** The answer to a creation: twice for a job that was created. *)
Definition twice (k : Z) (resp : Response) (d : Z) : Prop :=
  d = if decide (rs_status resp = 200) then 2 * k else 0.

Lemma count_error status message :
  status ≠ 200 → ∀ k, counts f (job_type jt) (writeError_m status message) (twice k).
Proof.
  intros Hs k. eapply counts_mono; [apply count_writeError|]. intros resp d [-> ->].
  unfold twice. by rewrite decide_False.
Qed.

Lemma count_admit h job : counts f (job_type jt) (admit_job_m h job) (twice (once job)).
Proof.
  unfold admit_job_m. apply counts_on_node. intros [e|].
  - apply counts_after; [|intros _; by apply counts_ret].
    apply (counts_mono _ _ _ (λ _ d, d = 0)); [|done]. apply counts_metered. intros m Hm. cbn [unless_nil].
    apply adds_elsewhere; [done|by cbn|by rewrite map_fmap_singleton|by destruct f_creation as [-> | ->]].
  - eapply counts_bind; [apply count_CreateJob|]. intros [e|] d ->.
    + eapply counts_mono; [by apply count_error|]. intros resp d. by rewrite Z.add_0_l.
    + apply counts_after.
      { destruct (h_limitManager h); [apply count_RecordJobAdded|by apply counts_ret]. }
      intros _. eapply counts_bind; [apply counts_metered; intros m Hm; by apply adds_created|].
      intros _ d ->. apply counts_ret. unfold twice. rewrite decide_True by done. lia.
Qed.

Lemma count_create getenv h uuid r req :
  rq_Body r ≫= dec_CreateJobRequest = Some req →
  counts f (job_type jt) (API_CreateJob_m getenv h uuid r)
    (twice (if decide (req_Type req = jt) then 1 else 0)).
Proof.
  intros Hreq. unfold API_CreateJob_m, on_leader_m. apply count_leader. rewrite Hreq.
  apply counts_on_node. intros t1. destruct (ToJob t1 uuid req) as [job|e] eqn:Ej; [|by apply count_error].
  apply counts_on_node. intros t2. destruct (Job_Validate t2 job); [by apply count_error|].
  rewrite <-(ToJob_type _ _ _ _ Ej). apply count_admit.
Qed.

End created_twice.

Section creation_metrics.

Context {CS : Type} `{ColdSlotStore CS} `{GoRange} `{Env} `{Cluster} `{Cron} `{Reader}.

(** Every job created over HTTP is counted twice. On a leader, a valid
    request that is answered 200 raises [jobs_total] and [jobs_by_type] for
    the type of its job by two, once in the event handler of the application
    and once in the HTTP handler; answered otherwise it raises neither, and no
    other type is touched. The answer and the node are those of the handler
    without metrics. *)
Theorem created_job_is_counted_twice getenv h uuid r req (n : Node CS Queue) t m resp n' f jt :
  (∀ i, leader i = true) → metrics_ok t → t_global t = Some m → creation_field f →
  rq_Body r ≫= dec_CreateJobRequest = Some req →
  API_CreateJob getenv h uuid r n = Some (resp, n') →
  ∃ t', API_CreateJob_m getenv h uuid r (n, t) = Some (resp, (n', t')) ∧
    reading f (job_type jt) t' = i64 (reading f (job_type jt) t +
      if decide (rs_status resp = 200 ∧ req_Type req = jt) then 2 else 0).
Proof.
  intros Hl Ht Hg Hf Hreq E. pose proof (erases_create getenv h uuid r n t Ht) as He. rewrite E in He.
  destruct He as (t' & Em & Ht' & _). exists t'. split; [done|].
  assert (is_sum (declared f)) as Hs by (destruct Hf as [-> | ->]; [by left|by right]).
  destruct (count_create f jt Hf Hl getenv h uuid r req Hreq n t resp n' t' Ht) as (_ & _ & d & Hd & Htot);
    [by rewrite Hg|done|].
  rewrite !reading_total by (done || apply Ht || apply Ht'). rewrite Htot, i64_plus_l. do 2 f_equal.
  unfold twice in Hd. repeat case_decide; naive_solver lia.
Qed.

End creation_metrics.

(** ** The queue gauges *)

Section queue_gauges.

Context {CS : Type} `{ColdSlotStoreLaws CS} `{GoRange} `{Env} `{Cluster} `{Cron} `{Reader}.

Implicit Types (n : Node CS Queue) (t : Telemetry).

Notation counts := (@counts CS).

(** A job recorded as added or as removed. *)
Inductive tracked := Added (job : Job) | Removed (job : Job).

Definition record_op (lm : LimitManager) (op : tracked) : M (Node CS Queue) (option error) :=
  match op with Added job => RecordJobAdded lm job | Removed job => RecordJobRemoved lm job end.

Definition record_op_m (lm : LimitManager) (op : tracked)
    : M (Node CS Queue * Telemetry) (option error) :=
  match op with Added job => RecordJobAdded_m lm job | Removed job => RecordJobRemoved_m lm job end.

Definition track (lm : LimitManager) (op : tracked) : M (Node CS Queue * Telemetry) unit :=
  (_ <- record_op_m lm op ;; mreturn tt)%go.

(** What it adds to memory and to the count. *)
Definition moves (lm : LimitManager) (op : tracked) : Z * Z :=
  match op with
  | Added job => (CalculateSize (lm_sizeCalculator lm) job, 1)
  | Removed job => (i64 (- CalculateSize (lm_sizeCalculator lm) job), -1)
  end.

(** No counter overflows or would fall below zero. *)
Fixpoint fits (lm : LimitManager) (u : Z * Z) (ops : list tracked) : Prop :=
  match ops with
  | [] => True
  | op :: ops =>
      let u' := (u.1 + (moves lm op).1, u.2 + (moves lm op).2) in
      0 <= u'.1 < two63 ∧ 0 <= u'.2 < two63 ∧ fits lm u' ops
  end.

Lemma adds_queue m g v : 
  complete m → declared g = Int64UpDownCounter → schema g = [] →
  ∀ f, adds f ∅ (if decide (g = f) then v else 0) (Add (Some m) g v ∅).
Proof.
  intros Hm Hg Hs f. eapply adds_eq.
  - apply adds_measure; [done|]. apply types_measure; [done|by rewrite Hg|by rewrite Hs, fmap_empty].
  - repeat case_decide; naive_solver congruence.
Qed.

(** The part of a pair a gauge follows. *)
Definition part (f : Field) (u : Z * Z) : Z := if decide (f = QueueMemoryUsage) then u.1 else u.2.

Definition queue_field (f : Field) : Prop := f = QueueMemoryUsage ∨ f = QueueJobCount.

Lemma count_both a b f :
  queue_field f →
  counts f ∅ (metered (λ m, (UpdateQueueMemoryUsage m a ;; UpdateQueueJobCount m b)%go))
    (λ _ x, x = part f (a, b)).
Proof.
  intros Hf. apply counts_metered. intros m Hm. cbn [unless_nil UpdateQueueMemoryUsage UpdateQueueJobCount].
  eapply adds_eq; [apply (adds_bind f ∅ _ _ _ _ (adds_queue m QueueMemoryUsage a Hm eq_refl eq_refl f)
    (adds_queue m QueueJobCount b Hm eq_refl eq_refl f))|].
  unfold part. destruct Hf as [-> | ->]; repeat case_decide; simpl; congruence || lia.
Qed.

(** What the two queue gauges get from an operation that succeeds. *)
Lemma count_tracked lm op f :
  queue_field f → counts f ∅ (record_op_m lm op) (λ e x, e = None → x = part f (moves lm op)).
Proof.
  intros Hf. destruct op as [job|job]; unfold record_op_m, RecordJobAdded_m, RecordJobRemoved_m;
    (apply counts_on_node; intros [e|]; [by apply counts_ret|]);
    (apply counts_on_node; intros [e|]; [try (apply counts_on_node; intros _); by apply counts_ret|]);
    (eapply counts_bind; [by apply count_both|]; intros _ x ->; apply counts_ret; intros _; cbn [moves]; lia).
Qed.

Lemma record_healthy lm op n :
  healthy_env → ∃ n', record_op lm op n = Some (None, n') ∧
    usage n' = (clamp_add (usage n).1 (moves lm op).1, clamp_add (usage n).2 (moves lm op).2).
Proof.
  intros He. destruct op as [job|job]; [by apply RecordJobAdded_healthy|by apply RecordJobRemoved_healthy].
Qed.

Lemma erases_record lm op : @erases CS _ (record_op_m lm op) (record_op lm op).
Proof. destruct op; [apply erases_RecordJobAdded|apply erases_RecordJobRemoved]. Qed.

Lemma track_step lm op n t m :
  healthy_env → metrics_ok t → t_global t = Some m →
  ∃ n' t', track lm op (n, t) = Some (tt, (n', t')) ∧ metrics_ok t' ∧ t_global t' = Some m ∧
    usage n' = (clamp_add (usage n).1 (moves lm op).1, clamp_add (usage n).2 (moves lm op).2) ∧
    ∀ f, queue_field f →
      total (name_of f) ∅ (t_log t') = total (name_of f) ∅ (t_log t) + part f (moves lm op).
Proof.
  intros He Ht Hg. destruct (record_healthy lm op n He) as (n' & E & Hu).
  pose proof (erases_record lm op n t Ht) as Herase. rewrite E in Herase.
  destruct Herase as (t' & Em & Ht' & Hg'). exists n', t'. split.
  { unfold track, mthen. by rewrite Em. }
  split_and!; [done|congruence|done|]. intros f Hf.
  destruct (count_tracked lm op f Hf n t None n' t' Ht) as (_ & _ & d & D & T); [by rewrite Hg|done|].
  by rewrite T, D.
Qed.

(** C31: The queue gauges move with the capacity counters. On a healthy leader
    with metrics set up, over any sequence of jobs recorded as added and
    removed that keeps the counters in range, the readings of
    [queue_memory_usage_bytes] and [queue_job_count] move by exactly what the
    replicated memory usage and job count move by. Nothing sets them to the
    counters: gauges that start at zero beside restored counters stay behind
    by what was restored. *)
Theorem queue_gauges_follow_counters lm ops n t m :
  healthy_env → metrics_ok t → t_global t = Some m → fits lm (usage n) ops →
  returns (for_each (track lm) ops) (n, t) (λ _ '(n', t'),
    reading QueueMemoryUsage ∅ t' =
      i64 (reading QueueMemoryUsage ∅ t + (f_memoryUsage (n_fsm n') - f_memoryUsage (n_fsm n))) ∧
    reading QueueJobCount ∅ t' =
      i64 (reading QueueJobCount ∅ t + (f_jobCount (n_fsm n') - f_jobCount (n_fsm n)))).
Proof.
  intros He Ht Hg Hfits.
  assert (returns (for_each (track lm) ops) (n, t) (λ _ '(n', t'), metrics_ok t' ∧
    ∀ f, queue_field f → total (name_of f) ∅ (t_log t') =
      total (name_of f) ∅ (t_log t) + (part f (usage n') - part f (usage n)))) as Hrun.
  { revert n t Ht Hg Hfits. induction ops as [|op ops IH]; intros n t Ht Hg Hfits.
    { apply returns_ret. split; [done|intros; lia]. }
    destruct (track_step lm op n t m He Ht Hg) as (n1 & t1 & E & Ht1 & Hg1 & Hu & T1).
    destruct Hfits as (F1 & F2 & F3). simpl in F1, F2.
    rewrite !clamp_add_exact in Hu by done.
    destruct (IH n1 t1) as ([] & [n' t'] & E' & Ht' & T1'); [done|done|by rewrite Hu|].
    exists tt, (n', t'). simpl. unfold mthen. rewrite E. split; [done|]. split; [done|].
    intros f Hf. rewrite T1', T1, Hu by done. unfold part. case_decide; simpl; lia. }
  eapply returns_mono; [exact Hrun|]. intros [] [n' t'] (Ht' & T).
  rewrite !reading_total by (by right || apply Ht || apply Ht').
  rewrite (T QueueMemoryUsage), (T QueueJobCount), !i64_plus_l by (first [by left|by right]). unfold part.
  split; repeat case_decide; congruence || done.
Qed.

End queue_gauges.

(** ** The gauge of jobs by status *)

Section status_gauge.

Context `{Reader}.

Definition entered (s : string) (tr : list event) : Z :=
  foldr (λ e k, match e with EStatusChange _ new => if decide (new = s) then k + 1 else k | _ => k end) 0 tr.

Definition left_ (s : string) (tr : list event) : Z :=
  foldr (λ e k, match e with EStatusChange old _ => if decide (old = s) then k + 1 else k | _ => k end) 0 tr.

Definition status_attrs (s : string) : Attrs := {[ "status" := AString s ]}.

Lemma adds_status m s s' v :
  complete m → adds JobsByStatus (status_attrs s) (if decide (s' = s) then v else 0)
    (UpdateJobsByStatus (Some m) s' v).
Proof.
  intros Hm. unfold UpdateJobsByStatus, Add. cbn [unless_nil]. counted.
  assert (({[ "status" := AString s' ]} : Attrs) = status_attrs s ↔ s' = s) as Hs.
  { split; [|by intros ->]. unfold status_attrs. intros E. apply (f_equal (lookup "status")) in E.
    rewrite !lookup_singleton_eq in E. congruence. }
  repeat case_decide; naive_solver.
Qed.

(** The callback only ever moves a job from one status to another, and nothing
    counts a job when it is created. So [jobs_by_status] shows, for each
    status, how many changes led into it minus how many led out of it: a
    status every job starts from only goes down, below zero. *)
Theorem status_gauge_is_a_difference m tr t s :
  complete m → t_global t = Some m → Forall well_typed (t_log t) →
  returns (for_each on_event tr) t (λ _ t',
    reading JobsByStatus (status_attrs s) t' =
      i64 (reading JobsByStatus (status_attrs s) t + (entered s tr - left_ s tr))).
Proof.
  intros Hm Hg Hw.
  assert (∀ e t, t_global t = Some m →
    returns (on_event e) t (λ _ t', t_global t' = Some m ∧
      (∃ l, t_log t' = t_log t ++ l ∧ Forall well_typed l) ∧
      total (name_of JobsByStatus) (status_attrs s) (t_log t') =
        total (name_of JobsByStatus) (status_attrs s) (t_log t) + (entered s [e] - left_ s [e]))) as Hev.
  { intros e t0 Hg0.
    assert (returns (mreturn tt) t0 (λ _ t', t_global t' = Some m ∧
      (∃ l, t_log t' = t_log t0 ++ l ∧ Forall well_typed l) ∧
      total (name_of JobsByStatus) (status_attrs s) (t_log t') =
        total (name_of JobsByStatus) (status_attrs s) (t_log t0) + 0)) as Hnone.
    { apply returns_ret. split_and!; [done|exists []; by rewrite app_nil_r|lia]. }
    destruct e as [|old new| | | |]; try exact Hnone.
    simpl. unfold on_status_change, with_global, GetGlobalMetrics. apply returns_bind, returns_gets.
    rewrite Hg0.
    destruct (adds_bind _ _ _ _ _ _ (adds_status m s old (-1) Hm) (adds_status m s new 1 Hm)) as [Ht Ha].
    destruct (Ht t0) as ([] & t1 & E & G1 & L1). destruct (Ha t0) as ([] & t2 & E2 & T2).
    rewrite E in E2. injection E2 as <-. exists tt, t1. split; [exact E|].
    split_and!; [congruence|done|]. rewrite T2. repeat case_decide; lia. }
  assert (returns (for_each on_event tr) t (λ _ t', Forall well_typed (t_log t') ∧
    total (name_of JobsByStatus) (status_attrs s) (t_log t') =
      total (name_of JobsByStatus) (status_attrs s) (t_log t) + (entered s tr - left_ s tr))) as Hall.
  { revert t Hg Hw. induction tr as [|e tr IH]; intros t Hg Hw.
    { apply returns_ret. split; [done|]. simpl. lia. }
    simpl. apply returns_bind. eapply returns_mono; [by apply Hev|].
    intros [] t1 (G1 & (l & L1 & W1) & T1).
    eapply returns_mono; [apply IH; [done|rewrite L1; by apply Forall_app]|].
    intros [] t2 (W2 & T2). split; [done|]. rewrite T2, T1. simpl.
    destruct e; simpl; repeat case_decide; lia. }
  eapply returns_mono; [exact Hall|]. intros [] t' [Hw' T].
  rewrite !reading_total by (by right || done). by rewrite T, i64_plus_l.
Qed.

End status_gauge.

(** ** Concrete runs *)

Lemma ex_telemetry_ok : metrics_ok ex_telemetry.
Proof. split; [by intros m [= <-]|constructor]. Qed.

Lemma created_job_is_counted_twice_witness :
  ∃ resp n' t', @API_CreateJob_m MemBolt _ sorted_range (clock_env 100) ex_cluster every_minute ex_getenv
      ex_handlers "u" ex_create (ex_qnode ex_running, ex_telemetry) = Some (resp, (n', t')) ∧
    rs_status resp = 200 ∧ @reading sum_reader JobsTotal (job_type "unico") t' = 2.
Proof.
  destruct (@API_CreateJob MemBolt _ sorted_range (clock_env 100) ex_cluster every_minute ex_getenv
    ex_handlers "u" ex_create (ex_qnode ex_running)) as [[resp n']|] eqn:E; [|vm_compute in E; discriminate].
  destruct (@created_job_is_counted_twice MemBolt _ sorted_range (clock_env 100) ex_cluster every_minute
    sum_reader ex_getenv ex_handlers "u" ex_create
    (default (mkCreateJobRequest EmptyString EmptyString EmptyString EmptyString EmptyString EmptyString None) (rq_Body ex_create ≫= dec_CreateJobRequest))
    (ex_qnode ex_running) ex_telemetry spec_of resp n' JobsTotal "unico")
    as (t' & Em & R).
  - done.
  - exact ex_telemetry_ok.
  - reflexivity.
  - by left.
  - reflexivity.
  - exact E.
  - exists resp, n', t'. split; [exact Em|]. vm_compute in E. injection E as <- <-. split; [reflexivity|].
    rewrite R. vm_compute. reflexivity.
Defined.

Lemma queue_gauges_follow_counters_witness :
  returns (for_each (@track MemBolt _ (clock_env 100) ex_limits) [Added ex_job; Added ex_job; Removed ex_job])
    (ex_qnode ex_running, ex_telemetry) (λ _ '(n', t'),
      @reading sum_reader QueueJobCount ∅ t' = 1).
Proof.
  destruct (@queue_gauges_follow_counters MemBolt _ (clock_env 100) sum_reader ex_limits
    [Added ex_job; Added ex_job; Removed ex_job] (ex_qnode ex_running) ex_telemetry spec_of)
    as ([] & [n' t'] & E & _ & R).
  - by split.
  - exact ex_telemetry_ok.
  - reflexivity.
  - vm_compute. intuition discriminate.
  - exists tt, (n', t'). split; [exact E|]. rewrite R. vm_compute in E. injection E as <- _.
    vm_compute. reflexivity.
Defined.
