(* ===== verification/Logger.v ===== *)
(** * The logger: [internal/logger/logger.go]

    Levels, lines, and the aggregated job metrics. A message is the text the
    format directives produced. The two counters are updated atomically by any
    goroutine, and the report is made under the mutex: [JobExecuted],
    [JobFailed] and [logMetricsIfNeeded] are code of atomic steps, which
    [alone] runs and [lstep] interleaves. *)

From S2P Require Import Prelude GoFloat.

(** ** Levels *)

(** [iota] *)
Definition DEBUG : Z := 0.
Definition INFO : Z := 1.
Definition WARN : Z := 2.
Definition ERROR : Z := 3.

Record JobMetrics := mkJobMetrics { executed : Z; failed : Z }.

(** The logger and what it has printed. *)
Record Logger := mkLogger {
  lg_level : Z;
  lg_jobMetrics : JobMetrics;
  lg_lastMetrics : Z;
  lg_lines : list string }.

(** [init]: an unknown [LOG_LEVEL] is ignored. *)
Definition init_level (env : string) : Z :=
  if decide (env = "DEBUG") then DEBUG
  else if decide (env = "INFO") then INFO
  else if decide (env = "WARN") then WARN
  else if decide (env = "ERROR") then ERROR
  else INFO.

Definition init_logger (env : string) (now : Z) : Logger :=
  mkLogger (init_level env) (mkJobMetrics 0 0) now [].

Definition shouldLog (l : Logger) (level : Z) : bool := bool_decide (level >= lg_level l).

(** [log.Printf] *)
Definition log_Printf (line : string) (l : Logger) : Logger :=
  mkLogger (lg_level l) (lg_jobMetrics l) (lg_lastMetrics l) (lg_lines l ++ [line]).

Definition log_at (level : Z) (tag msg : string) (l : Logger) : Logger :=
  if shouldLog l level then log_Printf (tag +:+ msg) l else l.

Definition log_Error (msg : string) : Logger → Logger := log_at ERROR "[ERROR] " msg.
Definition log_Warn (msg : string) : Logger → Logger := log_at WARN "[WARN] " msg.
Definition log_Info (msg : string) : Logger → Logger := log_at INFO "[INFO] " msg.
Definition log_Debug (msg : string) : Logger → Logger := log_at DEBUG "[DEBUG] " msg.

Definition RaftError (msg : string) : Logger → Logger := log_Error ("raft: " +:+ msg).
Definition RaftWarn (msg : string) : Logger → Logger := log_Warn ("raft: " +:+ msg).
Definition RaftInfo (msg : string) : Logger → Logger := log_Info ("raft: " +:+ msg).
Definition ClusterError (msg : string) : Logger → Logger := log_Error ("cluster: " +:+ msg).
Definition ClusterWarn (msg : string) : Logger → Logger := log_Warn ("cluster: " +:+ msg).
Definition ClusterInfo (msg : string) : Logger → Logger := log_Info ("cluster: " +:+ msg).
Definition JobError (jobID msg : string) : Logger → Logger := log_Error ("job " +:+ jobID +:+ ": " +:+ msg).
Definition JobWarn (jobID msg : string) : Logger → Logger := log_Warn ("job " +:+ jobID +:+ ": " +:+ msg).

(** ** Job metrics *)

Definition set_jobMetrics (m : JobMetrics) (l : Logger) : Logger :=
  mkLogger (lg_level l) m (lg_lastMetrics l) (lg_lines l).

Definition set_lastMetrics (now : Z) (l : Logger) : Logger :=
  mkLogger (lg_level l) (lg_jobMetrics l) now (lg_lines l).

(** [atomic.AddInt64(&executed, 1)] and its twin. *)
Definition add_executed (l : Logger) : Logger :=
  set_jobMetrics (mkJobMetrics (i64 (executed (lg_jobMetrics l) + 1)) (failed (lg_jobMetrics l))) l.

Definition add_failed (l : Logger) : Logger :=
  set_jobMetrics (mkJobMetrics (executed (lg_jobMetrics l)) (i64 (failed (lg_jobMetrics l) + 1))) l.

(** [atomic.SwapInt64(&executed, 0)] and its twin. *)
Definition swap_executed (l : Logger) : Z * Logger :=
  (executed (lg_jobMetrics l), set_jobMetrics (mkJobMetrics 0 (failed (lg_jobMetrics l))) l).

Definition swap_failed (l : Logger) : Z * Logger :=
  (failed (lg_jobMetrics l), set_jobMetrics (mkJobMetrics (executed (lg_jobMetrics l)) 0) l).

(** [time.Since(l.lastMetrics) > 5*time.Minute] *)
Definition report_due (now : Z) (l : Logger) : bool :=
  bool_decide (i64 (now - lg_lastMetrics l) > 5 * 60 * Second).

Definition report_line (ex fa : Z) : string :=
  "job_metrics executed=" +:+ pretty ex +:+ " failed=" +:+ pretty fa.

(** ** The code of a call

    What a goroutine does, as atomic steps on the shared logger: a step is
    given the time and yields the rest of the code, and the mutex is taken and
    given back in between. *)

Inductive code :=
  | Return
  | Do (step : Z → Logger → Logger * code)
  | Lock (k : code)
  | Unlock (k : code).

Definition logMetricsIfNeeded : code :=
  Lock (Do (λ now l,
    if report_due now l then
      (l, Do (λ _ l, let (ex, l) := swap_executed l in
      (l, Do (λ _ l, let (fa, l) := swap_failed l in
      (l, Do (λ _ l,
        (if decide (ex > 0 ∨ fa > 0) then log_Info (report_line ex fa) l else l,
      Do (λ now l,
        (set_lastMetrics now l, Unlock Return)))))))))
    else (l, Unlock Return))).

Definition JobExecuted : code := Do (λ _ l, (add_executed l, logMetricsIfNeeded)).

Definition JobFailed : code := Do (λ _ l, (add_failed l, logMetricsIfNeeded)).

(** A call that nobody interrupts; the clock is read at every step. *)
Fixpoint alone (clock : list Z) (c : code) (l : Logger) : Logger :=
  match c, clock with
  | Do f, now :: clock => let (l, k) := f now l in alone clock k l
  | Lock k, _ | Unlock k, _ => alone clock k l
  | _, _ => l
  end.

(** ** Goroutines *)

(** The logger, its mutex, the calls made and what each has left to do, and
    how many were calls of [JobExecuted] and of [JobFailed]. *)
Record LState := mkLState {
  ls_logger : Logger;
  ls_locked : bool;
  ls_calls : list code;
  ls_executed : Z;
  ls_failed : Z }.

(** The lines that reports are printed on. *)
Definition is_report (line : string) : bool := String.prefix "[INFO] job_metrics " line.

(** A call begins, or one goes on, or another line is logged. *)
Inductive lstep : LState → LState → Prop :=
  | l_executed l b cs x f : lstep (mkLState l b cs x f) (mkLState l b (cs ++ [JobExecuted]) (x + 1) f)
  | l_failed l b cs x f : lstep (mkLState l b cs x f) (mkLState l b (cs ++ [JobFailed]) x (f + 1))
  | l_do now i step l b cs x f l' k :
      cs !! i = Some (Do step) → step now l = (l', k) →
      lstep (mkLState l b cs x f) (mkLState l' b (<[i := k]> cs) x f)
  | l_lock i k l cs x f :
      cs !! i = Some (Lock k) → lstep (mkLState l false cs x f) (mkLState l true (<[i := k]> cs) x f)
  | l_unlock i k l b cs x f :
      cs !! i = Some (Unlock k) → lstep (mkLState l b cs x f) (mkLState l false (<[i := k]> cs) x f)
  | l_other level tag msg l b cs x f :
      is_report (tag +:+ msg) = false →
      lstep (mkLState l b cs x f) (mkLState (log_at level tag msg l) b cs x f).

Inductive lreach (env : string) (now : Z) : LState → Prop :=
  | lreach_init : lreach env now (mkLState (init_logger env now) false [] 0 0)
  | lreach_step s s' : lreach env now s → lstep s s' → lreach env now s'.

(** ** Properties *)

(** Where a call is. *)
Inductive place :=
  | Adding (failing : bool) | Locking | Checking | SwappingOne | SwappingTwo (ex : Z)
  | Printing (ex fa : Z) | Stamping | Unlocking | Returned.

Definition code_at (p : place) : code :=
  match p with
  | Adding false => JobExecuted
  | Adding true => JobFailed
  | Locking => logMetricsIfNeeded
  | Checking => match logMetricsIfNeeded with Lock k => k | c => c end
  | SwappingOne => Do (λ _ l, let (ex, l) := swap_executed l in
      (l, Do (λ _ l, let (fa, l) := swap_failed l in
      (l, Do (λ _ l, (if decide (ex > 0 ∨ fa > 0) then log_Info (report_line ex fa) l else l,
          Do (λ now l, (set_lastMetrics now l, Unlock Return))))))))
  | SwappingTwo ex => Do (λ _ l, let (fa, l) := swap_failed l in
      (l, Do (λ _ l, (if decide (ex > 0 ∨ fa > 0) then log_Info (report_line ex fa) l else l,
          Do (λ now l, (set_lastMetrics now l, Unlock Return))))))
  | Printing ex fa => Do (λ _ l, (if decide (ex > 0 ∨ fa > 0) then log_Info (report_line ex fa) l else l,
      Do (λ now l, (set_lastMetrics now l, Unlock Return))))
  | Stamping => Do (λ now l, (set_lastMetrics now l, Unlock Return))
  | Unlocking => Unlock Return
  | Returned => Return
  end.

(** The jobs a call still has in its hands. *)
Definition held_executed (p : place) : Z :=
  match p with Adding false => 1 | SwappingTwo ex | Printing ex _ => ex | _ => 0 end.

Definition held_failed (p : place) : Z :=
  match p with Adding true => 1 | Printing _ fa => fa | _ => 0 end.

Definition sum_of {A} (g : A → Z) (l : list A) : Z := foldr (λ p s, g p + s) 0 l.

Lemma sum_of_snoc {A} (g : A → Z) l p : sum_of g (l ++ [p]) = sum_of g l + g p.
Proof. unfold sum_of. induction l as [|q l IH]; simpl; [lia|]. rewrite IH. lia. Qed.

Lemma sum_of_insert {A} (g : A → Z) l i p q :
  l !! i = Some p → sum_of g (<[i := q]> l) = sum_of g l - g p + g q.
Proof.
  unfold sum_of. revert i. induction l as [|x l IH]; intros [|i] E; simplify_eq/=; [lia|].
  rewrite (IH i E). lia.
Qed.

Lemma sum_of_pos {A} (g : A → Z) l : (∀ p, p ∈ l → 0 <= g p) → 0 <= sum_of g l.
Proof.
  unfold sum_of. induction l as [|x l IH]; intros Hg; simpl; [lia|].
  pose proof (Hg x ltac:(set_solver)). pose proof (IH ltac:(set_solver)). lia.
Qed.

Lemma sum_of_ge {A} (g : A → Z) l i p : (∀ p, p ∈ l → 0 <= g p) → l !! i = Some p → g p <= sum_of g l.
Proof.
  unfold sum_of. revert i. induction l as [|x l IH]; intros [|i] Hg E; simplify_eq/=.
  - pose proof (sum_of_pos g l ltac:(set_solver)). unfold sum_of in *. lia.
  - pose proof (IH i ltac:(set_solver) E). pose proof (Hg x ltac:(set_solver)). lia.
Qed.

Definition report_text (r : Z * Z) : string := "[INFO] " +:+ report_line r.1 r.2.

(** What holds in every state, [ps] being where the calls are and [rs] the
    reports that were printed. *)
Record conserved (s : LState) (ps : list place) (rs : list (Z * Z)) : Prop := {
  cv_calls : ls_calls s = code_at <$> ps;
  cv_level : lg_level (ls_logger s) <= INFO;
  cv_lines : filter is_report (lg_lines (ls_logger s)) = report_text <$> rs;
  cv_executed : ls_executed s =
    executed (lg_jobMetrics (ls_logger s)) + sum_of held_executed ps + sum_of fst rs;
  cv_failed : ls_failed s =
    failed (lg_jobMetrics (ls_logger s)) + sum_of held_failed ps + sum_of snd rs;
  cv_counters : 0 <= executed (lg_jobMetrics (ls_logger s)) ∧ 0 <= failed (lg_jobMetrics (ls_logger s));
  cv_places p : p ∈ ps → 0 <= held_executed p ∧ 0 <= held_failed p;
  cv_reports r : r ∈ rs → 0 <= r.1 ∧ 0 <= r.2;
  cv_number : ls_executed s + ls_failed s = Z.of_nat (length ps) }.

Lemma log_at_fields level tag msg l :
  lg_jobMetrics (log_at level tag msg l) = lg_jobMetrics l ∧ lg_level (log_at level tag msg l) = lg_level l.
Proof. unfold log_at. by case_match. Qed.

Lemma log_at_reports level tag msg l :
  is_report (tag +:+ msg) = false →
  filter is_report (lg_lines (log_at level tag msg l)) = filter is_report (lg_lines l).
Proof.
  intros Hm. unfold log_at. case_match; [|done]. simpl. rewrite filter_app, (filter_cons_False _ (tag +:+ msg)).
  - apply app_nil_r.
  - intros E. by rewrite Hm in E.
Qed.

(** A report is printed, at this level. *)
Lemma report_printed ex fa l :
  lg_level l <= INFO →
  filter is_report (lg_lines (log_Info (report_line ex fa) l)) =
    filter is_report (lg_lines l) ++ [report_text (ex, fa)].
Proof.
  intros Hl. unfold log_Info, log_at, shouldLog. rewrite bool_decide_eq_true_2 by lia. simpl.
  by rewrite filter_app, (filter_cons_True _ ("[INFO] " +:+ report_line ex fa)).
Qed.

(** A call goes from [p] to [q]. *)
Lemma conserved_move s ps rs i p q l b rs' :
  conserved s ps rs → ps !! i = Some p →
  lg_level l = lg_level (ls_logger s) → filter is_report (lg_lines l) = report_text <$> rs' →
  executed (lg_jobMetrics l) + held_executed q + sum_of fst rs' =
    executed (lg_jobMetrics (ls_logger s)) + held_executed p + sum_of fst rs →
  failed (lg_jobMetrics l) + held_failed q + sum_of snd rs' =
    failed (lg_jobMetrics (ls_logger s)) + held_failed p + sum_of snd rs →
  0 <= executed (lg_jobMetrics l) ∧ 0 <= failed (lg_jobMetrics l) → 0 <= held_executed q ∧ 0 <= held_failed q →
  (∀ r, r ∈ rs' → 0 <= r.1 ∧ 0 <= r.2) →
  conserved (mkLState l b (<[i := code_at q]> (ls_calls s)) (ls_executed s) (ls_failed s)) (<[i := q]> ps) rs'.
Proof.
  intros [Hc Hv Hl He Hf Hn Hp Hr Hk] Hi Hlev Hlines Hex Hfa Hpos Hq Hr'. split; simpl; try done.
  - by rewrite Hc, list_fmap_insert.
  - by rewrite Hlev.
  - rewrite (sum_of_insert _ _ _ _ _ Hi). lia.
  - rewrite (sum_of_insert _ _ _ _ _ Hi). lia.
  - intros p' Hp'. apply list_elem_of_lookup in Hp' as [j Hj]. destruct (decide (j = i)) as [->|Hne].
    + rewrite list_lookup_insert_eq in Hj by (by eapply lookup_lt_Some). by injection Hj as <-.
    + rewrite list_lookup_insert_ne in Hj by done. by eapply Hp, list_elem_of_lookup_2.
  - by rewrite length_insert.
Qed.

(** The counters do not overflow below [2^63] calls. *)
Lemma conserved_bound s ps rs i p :
  conserved s ps rs → Z.of_nat (length ps) < two63 → ps !! i = Some p →
  executed (lg_jobMetrics (ls_logger s)) + held_executed p < two63 ∧
  failed (lg_jobMetrics (ls_logger s)) + held_failed p < two63.
Proof.
  intros [Hc Hv Hl He Hf Hn Hp Hr Hk] Hlt Hi.
  pose proof (sum_of_ge held_executed ps i p (λ p Hin, proj1 (Hp p Hin)) Hi).
  pose proof (sum_of_ge held_failed ps i p (λ p Hin, proj2 (Hp p Hin)) Hi).
  pose proof (sum_of_pos held_executed ps (λ p Hin, proj1 (Hp p Hin))).
  pose proof (sum_of_pos held_failed ps (λ p Hin, proj2 (Hp p Hin))).
  pose proof (sum_of_pos fst rs (λ r Hin, proj1 (Hr r Hin))).
  pose proof (sum_of_pos snd rs (λ r Hin, proj2 (Hr r Hin))). lia.
Qed.

(** A step of a call. *)
Lemma conserved_do s ps rs i step now l' k :
  conserved s ps rs → Z.of_nat (length ps) < two63 → ls_calls s !! i = Some (Do step) →
  step now (ls_logger s) = (l', k) →
  ∃ ps' rs', conserved (mkLState l' (ls_locked s) (<[i := k]> (ls_calls s)) (ls_executed s) (ls_failed s)) ps' rs'.
Proof.
  intros Hc Hlt Hi E. pose proof Hc as [Hcalls Hv Hl _ _ [Hn1 Hn2] Hp Hr _].
  rewrite Hcalls, list_lookup_fmap in Hi. apply fmap_Some in Hi as (p & Hi & Hdo).
  destruct (conserved_bound _ _ _ _ _ Hc Hlt Hi) as [B1 B2].
  destruct (Hp p) as [P1 P2]; [by eapply list_elem_of_lookup_2|].
  pose proof (λ q l rs', conserved_move s ps rs i p q l (ls_locked s) rs' Hc Hi) as Hmove.
  destruct p as [[|]| | | |ex|ex fa| | |]; try discriminate Hdo; injection Hdo as ->; cbn in E, B1, B2, P1, P2.
  - injection E as <- <-. eexists _, rs. apply (Hmove Locking); simpl; try done; rewrite ?i64_id; unfold in64, two63 in *; lia.
  - injection E as <- <-. eexists _, rs. apply (Hmove Locking); simpl; try done; rewrite ?i64_id; unfold in64, two63 in *; lia.
  - destruct (report_due now (ls_logger s)); injection E as <- <-; eexists _, rs.
    + by apply (Hmove SwappingOne).
    + by apply (Hmove Unlocking).
  - injection E as <- <-. eexists _, rs.
    apply (Hmove (SwappingTwo (executed (lg_jobMetrics (ls_logger s))))); simpl; done || lia.
  - injection E as <- <-. eexists _, rs.
    apply (Hmove (Printing ex (failed (lg_jobMetrics (ls_logger s))))); simpl; done || lia.
  - destruct (decide (ex > 0 ∨ fa > 0)) as [Hsome|Hsome]; injection E as <- <-.
    + exists (<[i := Stamping]> ps), (rs ++ [(ex, fa)]).
      destruct (log_at_fields INFO "[INFO] " (report_line ex fa) (ls_logger s)) as [Hm Hlev].
      apply (Hmove Stamping); unfold log_Info; rewrite ?Hm, ?Hlev; simpl; try done.
      * change (log_at INFO "[INFO] " ?m) with (log_Info m). by rewrite report_printed, Hl, fmap_app.
      * rewrite sum_of_snoc. simpl. lia.
      * rewrite sum_of_snoc. simpl. lia.
      * intros r [Hin| ->%list_elem_of_singleton]%elem_of_app; [by apply Hr|done].
    + eexists _, rs. apply (Hmove Stamping); simpl; done || lia.
  - injection E as <- <-. eexists _, rs. by apply (Hmove Unlocking).
Qed.

Lemma conserved_call s ps rs p :
  conserved s ps rs → p = Adding false ∨ p = Adding true →
  conserved (mkLState (ls_logger s) (ls_locked s) (ls_calls s ++ [code_at p])
    (ls_executed s + held_executed p) (ls_failed s + held_failed p)) (ps ++ [p]) rs.
Proof.
  intros [Hc Hv Hl He Hf Hn Hp Hr Hk] Hcase. split; simpl; try done.
  - by rewrite Hc, fmap_app.
  - rewrite sum_of_snoc. lia.
  - rewrite sum_of_snoc. lia.
  - intros p' [Hin| ->%list_elem_of_singleton]%elem_of_app; [by apply Hp|]. by destruct Hcase as [-> | ->].
  - rewrite length_app. simpl. destruct Hcase as [-> | ->]; simpl; lia.
Qed.

(** The mutex changes hands. *)
Lemma conserved_mutex s ps rs i c k b :
  conserved s ps rs → ls_calls s !! i = Some c → c = Lock k ∨ c = Unlock k →
  ∃ ps', conserved (mkLState (ls_logger s) b (<[i := k]> (ls_calls s)) (ls_executed s) (ls_failed s)) ps' rs.
Proof.
  intros Hc Hi Hk. pose proof Hc as [Hcalls Hv Hl _ _ Hn Hp Hr _].
  rewrite Hcalls, list_lookup_fmap in Hi. apply fmap_Some in Hi as (p & Hi & ->).
  destruct Hk as [E|E]; destruct p as [[|]| | | |ex|ex fa| | |]; try discriminate E; injection E as <-; eexists.
  - by apply (conserved_move s ps rs i Locking Checking _ b rs Hc Hi).
  - by apply (conserved_move s ps rs i Unlocking Returned _ b rs Hc Hi).
Qed.

Lemma lstep_grows s s' : lstep s s' → (length (ls_calls s) <= length (ls_calls s'))%nat.
Proof. destruct 1; simpl; rewrite ?length_app, ?length_insert; lia. Qed.

Lemma reach_conserved env now s :
  init_level env <= INFO → lreach env now s → Z.of_nat (length (ls_calls s)) < two63 → ∃ ps rs, conserved s ps rs.
Proof.
  intros Henv Hs. induction Hs as [|s s' _ IH Hstep]; intros Hlt.
  { exists [], []. by split; [..|intros ? ?%elem_of_nil|intros ? ?%elem_of_nil|]. }
  pose proof (lstep_grows _ _ Hstep). destruct IH as (ps & rs & Hc); [lia|].
  pose proof (cv_calls _ _ _ Hc) as Hcalls.
  assert (length ps = length (ls_calls s)) as Hlen by (by rewrite Hcalls, length_fmap).
  destruct Hstep as [| |now' i step l b cs x f l' k Hi E|i k l cs x f Hi|i k l b cs x f Hi|level tag msg l b cs x f Hm];
    simpl in *.
  - exists (ps ++ [Adding false]), rs. pose proof (conserved_call _ _ _ (Adding false) Hc (or_introl eq_refl)) as K.
    simpl in K. by rewrite Z.add_0_r in K.
  - exists (ps ++ [Adding true]), rs. pose proof (conserved_call _ _ _ (Adding true) Hc (or_intror eq_refl)) as K.
    simpl in K. by rewrite Z.add_0_r in K.
  - eapply (conserved_do _ _ _ i step now' l' k) in Hc; [exact Hc|lia|done|done].
  - destruct (conserved_mutex _ _ _ i _ k true Hc Hi) as [ps' K]; [by left|]. by exists ps', rs.
  - destruct (conserved_mutex _ _ _ i _ k false Hc Hi) as [ps' K]; [by right|]. by exists ps', rs.
  - exists ps, rs. destruct Hc as [Hc' Hv Hl He Hf Hn Hp Hr Hk].
    destruct (log_at_fields level tag msg l) as [Em El]. simpl in *.
    split; simpl; rewrite ?Em, ?El; try done. by rewrite log_at_reports.
Qed.

(** C33: No job is lost from the job metrics, and none is reported twice. At a
    level at which reports are printed, however calls of [JobExecuted] and
    [JobFailed] interleave with each other and with other lines, also between
    the two swaps of a report, and whatever the clock reads, for fewer than
    [2^63] calls: the lines with reports that the logger has printed and the
    counts still in its counters never add up to more than the calls, and when
    all calls have returned to exactly the calls. *)
Theorem job_metrics_conserved env now s :
  init_level env <= INFO → lreach env now s → Z.of_nat (length (ls_calls s)) < two63 →
  ∃ reports : list (Z * Z),
    filter is_report (lg_lines (ls_logger s)) =
      (λ r, "[INFO] job_metrics executed=" +:+ pretty r.1 +:+ " failed=" +:+ pretty r.2) <$> reports ∧
    let ex := executed (lg_jobMetrics (ls_logger s)) + foldr (λ r n, r.1 + n) 0 reports in
    let fa := failed (lg_jobMetrics (ls_logger s)) + foldr (λ r n, r.2 + n) 0 reports in
    0 <= ex <= ls_executed s ∧ 0 <= fa <= ls_failed s ∧
    ((∀ c, c ∈ ls_calls s → c = Return) → ex = ls_executed s ∧ fa = ls_failed s).
Proof.
  intros Henv Hs Hlt. destruct (reach_conserved env now s Henv Hs Hlt) as (ps & rs & [Hc Hv Hl He Hf Hn Hp Hr Hk]).
  exists rs. split; [exact Hl|].
  pose proof (sum_of_pos held_executed ps (λ p Hin, proj1 (Hp p Hin))).
  pose proof (sum_of_pos held_failed ps (λ p Hin, proj2 (Hp p Hin))).
  pose proof (sum_of_pos fst rs (λ r Hin, proj1 (Hr r Hin))).
  pose proof (sum_of_pos snd rs (λ r Hin, proj2 (Hr r Hin))).
  change (foldr (λ r n, r.1 + n) 0 rs) with (sum_of fst rs). change (foldr (λ r n, r.2 + n) 0 rs) with (sum_of snd rs).
  cbv zeta. split_and!; try lia; intros Hret;
    (assert (∀ p, p ∈ ps → p = Returned) as Hall
      by (intros p Hin; assert (code_at p = Return) as E
            by (apply Hret; rewrite Hc; apply list_elem_of_fmap; by exists p);
          by destruct p as [[|]| | | | | | | |]);
     assert (sum_of held_executed ps = 0 ∧ sum_of held_failed ps = 0) as [? ?];
     [clear -Hall; unfold sum_of; induction ps as [|p ps IH]; [done|]; simpl;
      rewrite (Hall p) by set_solver; simpl; apply IH; set_solver|lia]).
Qed.

(** A run by given steps: calls begin, and the [i]-th goes on at a time. *)
Inductive label := CallExecuted | CallFailed | Next (now : Z) (i : nat).

Definition exec (a : label) (s : LState) : option LState :=
  let '(mkLState l b cs x f) := s in
  match a with
  | CallExecuted => Some (mkLState l b (cs ++ [JobExecuted]) (x + 1) f)
  | CallFailed => Some (mkLState l b (cs ++ [JobFailed]) x (f + 1))
  | Next now i =>
      match cs !! i with
      | Some (Do step) => Some (mkLState (step now l).1 b (<[i := (step now l).2]> cs) x f)
      | Some (Lock k) => if b then None else Some (mkLState l true (<[i := k]> cs) x f)
      | Some (Unlock k) => Some (mkLState l false (<[i := k]> cs) x f)
      | _ => None
      end
  end.

Lemma exec_step a s s' : exec a s = Some s' → lstep s s'.
Proof.
  destruct s as [l b cs x f], a as [| |now i]; simpl; intros E; simplify_eq; [constructor..|].
  destruct (cs !! i) as [[|step|k|k]|] eqn:Ei; simplify_eq.
  - eapply l_do; [exact Ei|apply surjective_pairing].
  - destruct b; simplify_eq. by apply l_lock.
  - by apply l_unlock.
Qed.

Lemma exec_reach env now labels s s' : lreach env now s → ofold exec labels s = Some s' → lreach env now s'.
Proof.
  revert s. induction labels as [|a labels IH]; intros s Hs E; simplify_eq/=; [done|].
  destruct (exec a s) as [s1|] eqn:E1; [|done]. apply (IH s1); [|done].
  eapply lreach_step; [done|by eapply exec_step].
Qed.

(** Two calls, the second one made while the first reports: it is on time for
    the second of the two swaps. *)
Definition ex_labels : list label :=
  let t := 301 * Second in
  [CallExecuted; CallFailed; Next t 0; Next t 0; Next t 0; Next t 0; Next t 1; Next t 0; Next t 0; Next t 0;
   Next t 0; Next t 1; Next t 1; Next t 1].

Definition ex_start : LState := mkLState (init_logger "" 0) false [] 0 0.

Definition ex_reported : LState := default ex_start (ofold exec ex_labels ex_start).

Lemma job_metrics_conserved_witness :
  lreach "" 0 ex_reported ∧ lg_lines (ls_logger ex_reported) = ["[INFO] job_metrics executed=1 failed=1"] ∧
  ∃ reports : list (Z * Z), filter is_report (lg_lines (ls_logger ex_reported)) =
      (λ r, "[INFO] job_metrics executed=" +:+ pretty r.1 +:+ " failed=" +:+ pretty r.2) <$> reports ∧
    executed (lg_jobMetrics (ls_logger ex_reported)) + foldr (λ r n, r.1 + n) 0 reports = 1.
Proof.
  assert (ofold exec ex_labels ex_start = Some ex_reported) as E by (vm_compute; reflexivity).
  pose proof (exec_reach "" 0 ex_labels ex_start ex_reported (lreach_init "" 0) E) as H.
  split; [exact H|]. split; [vm_compute; reflexivity|].
  destruct (job_metrics_conserved "" 0 ex_reported ltac:(vm_compute; congruence) H ltac:(vm_compute; reflexivity))
    as (reports & Hlines & _ & _ & Hret).
  exists reports. split; [exact Hlines|].
  assert (ls_calls ex_reported = [Return; Return]) as Hc by (vm_compute; reflexivity).
  apply Hret. intros c Hin. rewrite Hc in Hin.
  repeat (apply elem_of_cons in Hin as [->|Hin]; [reflexivity|]). by apply elem_of_nil in Hin.
Defined.

(** What the report prints is below the level of a logger set to [WARN] or
    [ERROR]: the counters are reset all the same and the counts are gone. *)
Theorem quiet_logger_drops_counts now t1 t2 t3 later l :
  report_due now l = true → lg_level l > INFO →
  let l' := alone [now; t1; t2; t3; later] logMetricsIfNeeded l in
  lg_lines l' = lg_lines l ∧ lg_jobMetrics l' = mkJobMetrics 0 0 ∧ lg_lastMetrics l' = later.
Proof.
  intros Hd Hl. simpl. rewrite Hd. simpl. unfold log_Info, log_at, shouldLog.
  rewrite bool_decide_eq_false_2 by (simpl; lia). by case_decide.
Qed.

(** A line is printed exactly when its level is not below the logger's. *)
Theorem log_level_exact env now level tag msg :
  lg_lines (log_at level tag msg (init_logger env now)) =
    if decide (init_level env <= level) then [tag +:+ msg] else [].
Proof.
  unfold log_at, shouldLog. simpl. case_bool_decide; case_decide; done || lia.
Qed.
