(* ===== verification/HttpMetrics.v ===== *)
(** * The HTTP middleware of the metrics package: [metrics/middleware.go]

    Endpoints are cleaned of what looks like an identifier before they become
    the label of a measurement, and the response writer is wrapped so that the
    status can be read afterwards. [statusRecorder] of [api/router.go], the
    other such wrapper, is here too. *)

From S2P Require Import Prelude GoStrings GoFloat Json Sanitize Types Codec ColdStore FSM Store.
From S2P Require Import StoreProps StatusTracker Limits Gateway Metrics Instrumentation.
From Stdlib Require Import Ascii.

(** ** Endpoints *)

Definition is_alnum_id (c : ascii) : bool :=
  between 97 122 (byte_of c) || between 65 90 (byte_of c) || between 48 57 (byte_of c) ||
  bool_decide (c = "-"%char) || bool_decide (c = "_"%char).

(** [strings.Count(s, sub)] for one byte. *)
Definition count_char (a : ascii) (l : list ascii) : nat := length (filter (λ c, c = a) l).

Definition isID (part : list ascii) : bool :=
  if decide (part = []) then false
  else if decide (is_Some (ParseInt (unchars part))) then true
  else if decide (length part = 36%nat ∧ count_char "-" part = 4%nat) then true
  else if decide (10 < length part)%nat then forallb is_alnum_id part
  else false.

(** [endpoint[:strings.Index(endpoint, "?")]], all of it without one. *)
Fixpoint before (a : ascii) (l : list ascii) : list ascii :=
  match l with
  | [] => []
  | c :: l => if decide (c = a) then [] else c :: before a l
  end.

(** [strings.Join(parts, sep)] *)
Fixpoint join (sep : ascii) (parts : list (list ascii)) : list ascii :=
  match parts with
  | [] => []
  | [p] => p
  | p :: parts => p ++ sep :: join sep parts
  end.

Definition placeholder : list ascii := chars "{id}".

Definition clean_part (part : list ascii) : list ascii := if isID part then placeholder else part.

Definition clean_chars (l : list ascii) : list ascii :=
  join "/" (clean_part <$> split_on "/" (before "?" l)).

Definition cleanEndpoint (endpoint : string) : string := unchars (clean_chars (chars endpoint)).

(** ** Recording the status *)

(** What a handler does to the writer. *)
Inductive write_op := WriteHeader (code : Z) | Write.

(** [statusRecorder] keeps the last status, 200 before any. *)
Definition recorder_step (status : Z) (op : write_op) : Z :=
  match op with WriteHeader code => code | Write => status end.

Definition statusRecorder (ops : list write_op) : Z := foldl recorder_step 200 ops.

(** [responseWriter] keeps the first, and a [Write] counts as 200. *)
Record responseWriter := mkResponseWriter { rw_statusCode : Z; rw_written : bool }.

Definition rw_WriteHeader (code : Z) (rw : responseWriter) : responseWriter :=
  if rw_written rw then rw else mkResponseWriter code true.

Definition rw_step (rw : responseWriter) (op : write_op) : responseWriter :=
  match op with
  | WriteHeader code => rw_WriteHeader code rw
  | Write => if rw_written rw then rw else rw_WriteHeader 200 rw
  end.

Definition rw_status (ops : list write_op) : Z :=
  rw_statusCode (foldl rw_step (mkResponseWriter 200 false) ops).

(** What [net/http] sends: the first [WriteHeader], or 200 when a [Write] or
    the end comes first; later calls are superfluous. *)
Fixpoint sent_status (ops : list write_op) : Z :=
  match ops with
  | [] => 200
  | WriteHeader code :: _ => code
  | Write :: _ => 200
  end.

(** ** HTTPMiddleware *)

Local Open Scope go_scope.

(** The label of a request: the template of its route, its path without one. *)
Definition endpoint_of (template : option string) (path : string) : string :=
  let endpoint := default "" template in
  cleanEndpoint (if decide (endpoint = "") then path else endpoint).

(** What the middleware records of a request that was served with [ops]. *)
Definition HTTPMiddleware (m : option Metrics) (duration : Z) (method : string)
    (template : option string) (path : string) (ops : list write_op) : T unit :=
  let endpoint := endpoint_of template path in
  IncrementHTTPRequests m method endpoint (rw_status ops) ;;
  RecordHTTPRequestDuration m duration method endpoint.

(** ** Properties *)

Section split_join.

Variable sep : ascii.

Lemma split_on_ne l : split_on sep l ≠ [].
Proof. destruct l as [|c l]; simpl; [done|]. case_decide; [done|]. by destruct (split_on sep l). Qed.

(** No part holds the separator. *)
Lemma split_on_parts l : Forall (λ p, sep ∉ p) (split_on sep l).
Proof.
  induction l as [|c l IH]; simpl; [constructor; [set_solver|constructor]|].
  case_decide as E; [constructor; [set_solver|done]|].
  destruct (split_on sep l) as [|x ps]; [by apply Forall_singleton, not_elem_of_cons; split; [|apply not_elem_of_nil]|].
  apply Forall_cons in IH as [Hx Hps]. constructor; [|done]. by apply not_elem_of_cons.
Qed.

Lemma split_on_app p l : sep ∉ p → split_on sep (p ++ sep :: l) = p :: split_on sep l.
Proof.
  induction p as [|c p IH]; simpl; [by rewrite decide_True|].
  intros [Hc Hp]%not_elem_of_cons. rewrite decide_False by done. by rewrite IH.
Qed.

Lemma split_on_none p : sep ∉ p → split_on sep p = [p].
Proof.
  induction p as [|c p IH]; simpl; [done|].
  intros [Hc Hp]%not_elem_of_cons. rewrite decide_False by done. by rewrite IH.
Qed.

(** Splitting what was joined gives the parts back. *)
Lemma split_join ps : ps ≠ [] → Forall (λ p, sep ∉ p) ps → split_on sep (join sep ps) = ps.
Proof.
  induction ps as [|p ps IH]; [done|]. intros _ [Hp Hps]%Forall_cons.
  destruct ps as [|q ps]; [by apply split_on_none|].
  change (join sep (p :: q :: ps)) with (p ++ sep :: join sep (q :: ps)).
  by rewrite split_on_app, IH.
Qed.

Lemma join_split l : join sep (split_on sep l) = l.
Proof.
  induction l as [|c l IH]; simpl; [done|]. case_decide as E.
  - subst c. pose proof (split_on_ne l). destruct (split_on sep l) as [|x ps]; [done|].
    change (join sep ([] :: x :: ps)) with (sep :: join sep (x :: ps)). by rewrite IH.
  - pose proof (split_on_ne l). destruct (split_on sep l) as [|x ps]; [done|].
    destruct ps; simpl in *; by rewrite <-IH.
Qed.

Lemma elem_of_join a ps : a ∈ join sep ps → a = sep ∨ ∃ p, p ∈ ps ∧ a ∈ p.
Proof.
  induction ps as [|p ps IH]; simpl; [set_solver|]. destruct ps as [|q ps].
  - intros Ha. right. exists p. set_solver.
  - intros [Ha|[->|Ha]%elem_of_cons]%elem_of_app; [right; exists p; set_solver|by left|].
    destruct (IH Ha) as [->|(p' & ? & ?)]; [by left|right; exists p'; set_solver].
Qed.

End split_join.

Section endpoints.

Lemma before_none a l : a ∉ l → before a l = l.
Proof.
  induction l as [|c l IH]; simpl; [done|].
  intros [Hc Hl]%not_elem_of_cons. rewrite decide_False by done. by rewrite IH.
Qed.

Lemma before_notin a l : a ∉ before a l.
Proof. induction l as [|c l IH]; simpl; [set_solver|]. case_decide; set_solver. Qed.

Lemma before_sub a l c : c ∈ before a l → c ∈ l.
Proof. induction l as [|x l IH]; simpl; [set_solver|]. case_decide; set_solver. Qed.

Lemma elem_of_split sep l p c : p ∈ split_on sep l → c ∈ p → c ∈ l.
Proof.
  revert p. induction l as [|x l IH]; intros p; simpl.
  - intros ->%list_elem_of_singleton Hc. by apply elem_of_nil in Hc.
  - case_decide as E.
    + intros [->|Hp]%elem_of_cons Hc; [by apply elem_of_nil in Hc|].
      apply elem_of_cons. right. by apply (IH p).
    + destruct (split_on sep l) as [|y ps].
      { intros ->%list_elem_of_singleton ->%list_elem_of_singleton. by left. }
      intros [->|Hp]%elem_of_cons Hc; [apply elem_of_cons in Hc as [->|Hc]; [by left|]|]; right.
      * apply (IH y); [by left|done].
      * apply (IH p); [by right|done].
Qed.

Lemma clean_part_idemp p : clean_part (clean_part p) = clean_part p.
Proof.
  unfold clean_part. destruct (isID p) eqn:E; [|by rewrite E].
  assert (isID placeholder = false) as -> by (vm_compute; done). done.
Qed.

Lemma clean_part_notin a p : a ∉ placeholder → a ∉ p → a ∉ clean_part p.
Proof. unfold clean_part. by destruct (isID p). Qed.

Lemma clean_parts_notin a l : a ∉ placeholder → a ∉ l → a ≠ "/"%char → a ∉ join "/" (clean_part <$> split_on "/" l).
Proof.
  intros Hp Hl Ha Hin. apply elem_of_join in Hin as [->|(p & Hps & Hin)]; [done|].
  apply list_elem_of_fmap in Hps as (q & -> & Hq). revert Hin. apply clean_part_notin; [done|].
  intros Hin. by apply Hl, (elem_of_split "/" l q).
Qed.

(** Cleaning keeps the shape of a path: as many parts as before the query, each
    as it was or replaced by the placeholder because it looks like an
    identifier; and a clean endpoint stays as it is. *)
Theorem clean_endpoint_spec endpoint :
  split_on "/" (clean_chars (chars endpoint)) = clean_part <$> split_on "/" (before "?" (chars endpoint)) ∧
  cleanEndpoint (cleanEndpoint endpoint) = cleanEndpoint endpoint.
Proof.
  set (l := before "?" (chars endpoint)).
  assert (split_on "/" (join "/" (clean_part <$> split_on "/" l)) = clean_part <$> split_on "/" l) as Hsplit.
  { apply split_join.
    - intros E%fmap_nil_inv. by apply (split_on_ne "/" l).
    - apply Forall_fmap. eapply Forall_impl; [apply split_on_parts|]. intros p Hp.
      by apply clean_part_notin; [vm_compute; set_solver|]. }
  split; [done|]. unfold cleanEndpoint. rewrite chars_unchars. f_equal. unfold clean_chars at 1. rewrite before_none.
  - fold l. unfold clean_chars. fold l. rewrite Hsplit, <-list_fmap_compose. f_equal.
    apply list_fmap_ext. intros _ p _. apply clean_part_idemp.
  - apply clean_parts_notin; [vm_compute; set_solver|apply before_notin|done].
Qed.

(** The wrapper of this package reports what was sent, whatever the handler
    does; the recorder of the router does so when a handler sets the status at
    most once and before it writes. *)
Theorem recorded_status_is_sent ops :
  rw_status ops = sent_status ops ∧
  (∀ code, ops = [] ∨ ops = [Write] ∨ ops = [WriteHeader code; Write] ∨ ops = [WriteHeader code] →
     statusRecorder ops = sent_status ops).
Proof.
  split.
  - unfold rw_status. destruct ops as [|op ops]; [done|].
    assert (∀ rw, rw_written rw = true → foldl rw_step rw ops = rw) as Hkeep.
    { induction ops as [|o ops IH]; intros rw Hrw; [done|]. simpl.
      rewrite <-(IH rw Hrw) at 2. f_equal. destruct o; simpl; unfold rw_WriteHeader; by rewrite ?Hrw. }
    destruct op; simpl; by rewrite Hkeep.
  - intros code [->|[->|[->| ->]]]; done.
Qed.

(** A second status is recorded by the router though it was never sent. *)
Theorem recorder_keeps_the_last_status :
  statusRecorder [WriteHeader 200; WriteHeader 500] = 500 ∧
  sent_status [WriteHeader 200; WriteHeader 500] = 200.
Proof. done. Qed.

End endpoints.
