(* ===== verification/Router.v ===== *)
(** * The router: [api/router.go]

    The table of routes, the middleware around every handler, and the way of a
    request through them, over the node, its telemetry and its log. Matching a
    request against the table is the work of a library (gorilla/mux): class
    [Mux] gives its answer, which the documentation of the library determines
    for clean paths ([documented]). *)

From S2P Require Import Prelude GoStrings GoFloat Json Sanitize GoTime Types Codec Request ColdStore.
From S2P Require Import FSM Store StoreProps StatusTracker Limits TimingWheel SlotQueue.
From S2P Require Import ExecutionManager Worker Gateway Api ApiProps Metrics Instrumentation Metered.
From S2P Require Import HttpMetrics Logger.
From Stdlib Require Import Ascii.

(** A request as the server hands it over. [in_value] is how many bytes of the
    body it takes to read its first JSON value, [None] without a body. *)
Record Incoming := mkIncoming {
  in_request : Request;
  in_Path : string;
  in_value : option Z }.

Inductive MatchResult := Matched (i : nat) (id : string) | MethodNotAllowed | NotFound.

#[export] Instance MatchResult_eq_dec : EqDecision MatchResult.
Proof. solve_decision. Defined.

(** *** What the library documents *)

(** The route variable of a path that matches a template part by part: a part
    matches itself, and [{id}] any part that is not empty. *)
Fixpoint match_parts (tpl path : list string) (id : string) : option string :=
  match tpl, path with
  | [], [] => Some id
  | t :: tpl, p :: path =>
      if decide (t = "{id}") then (if decide (p = "") then None else match_parts tpl path p)
      else if decide (t = p) then match_parts tpl path id
      else None
  | _, _ => None
  end.

Definition match_path (tpl path : string) : option string :=
  match_parts (strings_Split tpl "/") (strings_Split path "/") "".

(** The first route whose template and method match; otherwise whether some
    template did. *)
Fixpoint first_match (i : nat) (table : list (string * string)) (method path : string)
    (seen : bool) : MatchResult :=
  match table with
  | [] => if seen then MethodNotAllowed else NotFound
  | (m, tpl) :: table =>
      match match_path tpl path with
      | Some id =>
          if decide (m = method) then Matched i id else first_match (S i) table method path true
      | None => first_match (S i) table method path seen
      end
  end.

Definition documented (table : list (string * string)) (method path : string) : MatchResult :=
  first_match 0 table method path false.

(** No empty, dot or double-dot part: other paths are redirected. *)
Definition clean_path (path : string) : Prop :=
  ∃ parts, strings_Split path "/" = "" :: parts ∧ parts ≠ [] ∧
    Forall (λ p, p ≠ "" ∧ p ≠ "." ∧ p ≠ "..") parts.

(** The two answers are the library's; middleware does not run for them. *)
Class Mux := {
  mux_match : list (string * string) → string → string → MatchResult;
  mux_NotFound : Response;
  mux_MethodNotAllowed : Response;
  mux_documented table method path :
    clean_path path → mux_match table method path = documented table method path;
  mux_NotFound_ok : rs_status mux_NotFound = 404;
  mux_MethodNotAllowed_ok : rs_status mux_MethodNotAllowed = 405 ∧ rs_headers mux_MethodNotAllowed = [] }.

Section Router.

Context {CS : Type} `{ColdSlotStore CS} `{GoRange} `{Env} `{Cluster} `{Cron} `{Mux}.

Local Open Scope go_scope.

Notation MM := (M (Node CS Queue * Telemetry)).
Notation S := (M ((Node CS Queue * Telemetry) * Logger)).

Definition with_logger {A} (c : MM A) : S A :=
  λ s, match c s.1 with Some (a, x) => Some (a, (x, s.2)) | None => None end.

Definition print (f : Logger → Logger) : S unit := modify (λ s, (s.1, f s.2)).

(** *** Middleware *)

Definition Handler : Type := Incoming → S Response.

(** The first value is out of reach when it does not end within the limit, so
    that decoding the body fails. *)
Definition limit_body (maxBytes : Z) (i : Incoming) : Incoming :=
  match in_value i with
  | Some k =>
      if decide (k <= maxBytes) then i
      else
        let r := in_request i in
        mkIncoming (mkRequest (rq_Method r) (rq_URI r) (rq_Header r) (rq_id r) (rq_statusParam r) None)
          (in_Path i) (Some k)
  | None => i
  end.

Definition maxBodySizeMiddleware (maxBytes : Z) (next : Handler) : Handler :=
  λ i, next (limit_body maxBytes i).

(** The status a recorder saw is the one of the response. [duration] is how
    long [next] took. *)
Definition metricsMiddleware (duration : Z) (next : Handler) : Handler := λ i,
  resp <- next i ;;
  with_logger (metered (λ m,
    IncrementHTTPRequests m (rq_Method (in_request i)) (in_Path i) (rs_status resp) ;;
    RecordHTTPRequestDuration m duration (rq_Method (in_request i)) (in_Path i))) ;;
  mreturn resp.

(** [time.Duration.String] *)
Definition request_line (i : Incoming) (status : Z) (took : string) : string :=
  rq_Method (in_request i) +:+ " " +:+ rq_URI (in_request i) +:+ " " +:+ pretty status +:+ " " +:+ took.

Definition loggingMiddleware (took : string) (next : Handler) : Handler := λ i,
  resp <- next i ;;
  print (log_Info (request_line i (rs_status resp) took)) ;;
  mreturn resp.

Definition cors (next : Handler) : Handler := λ i, corsMiddleware (λ _, next i) (in_request i).

(** How long the parts of a request took: for its measurement and its line. *)
Record Elapsed := mkElapsed { el_metrics : Z; el_line : string; el_query : Z }.

(** [router.Use] in the order of [NewRouter]: the first is outermost. *)
Definition middleware (maxBodySize : Z) (el : Elapsed) (next : Handler) : Handler :=
  cors (metricsMiddleware (el_metrics el) (loggingMiddleware (el_line el)
    (if decide (maxBodySize > 0) then maxBodySizeMiddleware maxBodySize next else next))).

(** *** The table *)

Record Route := mkRoute {
  rt_method : string;
  rt_template : string;
  rt_handler : Request → MM Response }.

(** The arguments [NewApp] and the process give the handlers. *)
Record Service := mkService {
  sv_getenv : Getenv;
  sv_handlers : Handlers;
  sv_nodeID : string;
  sv_authToken : string;
  sv_maxBodySize : Z }.

(** [uuid] is what a creation without an identifier would get. *)
Definition routes (sv : Service) (uuid : string) (el : Elapsed) : list Route :=
  let h := sv_handlers sv in
  [mkRoute "POST" "/jobs" (API_CreateJob_m (sv_getenv sv) h uuid);
   mkRoute "GET" "/jobs" (API_ListJobsByStatus_m (el_query el));
   mkRoute "GET" "/jobs/{id}" API_GetJob_m;
   mkRoute "DELETE" "/jobs/{id}" (API_DeleteJob_m (sv_getenv sv) h);
   mkRoute "GET" "/jobs/{id}/status" (API_GetJobStatus_m (el_query el));
   mkRoute "GET" "/jobs/{id}/executions" (API_GetJobExecutions_m (el_query el));
   mkRoute "POST" "/jobs/{id}/cancel" (API_CancelJob_m (sv_getenv sv) h);
   mkRoute "GET" "/health" (λ _, on_node (Health (sv_nodeID sv) h));
   mkRoute "POST" "/join" (authMiddleware (sv_authToken sv) JoinCluster_m);
   mkRoute "GET" "/debug/cluster" (λ _, on_node (ClusterDebug (sv_nodeID sv)))].

Definition table (l : list Route) : list (string * string) :=
  (λ r, (rt_method r, rt_template r)) <$> l.

(** [mux.Vars(r)["id"]] *)
Definition set_id (id : string) (i : Incoming) : Incoming :=
  let r := in_request i in
  mkIncoming (mkRequest (rq_Method r) (rq_URI r) (rq_Header r) id (rq_statusParam r) (rq_Body r))
    (in_Path i) (in_value i).

(** A request through the router [NewRouter] builds. *)
Definition ServeHTTP (sv : Service) (uuid : string) (el : Elapsed) (i : Incoming) : S Response :=
  let rts := routes sv uuid el in
  match mux_match (table rts) (rq_Method (in_request i)) (in_Path i) with
  | NotFound => mreturn mux_NotFound
  | MethodNotAllowed => mreturn mux_MethodNotAllowed
  | Matched k id =>
      match rts !! k with
      | None => panic
      | Some rt =>
          middleware (sv_maxBodySize sv) el (λ i, with_logger (rt_handler rt (in_request i))) (set_id id i)
      end
  end.

End Router.

(** ** The table is what it says *)

(** What each path offers, by its parts: the methods with the number of their
    route, and the identifier in the path. *)
Definition resource (parts : list string) : list (string * nat) * string :=
  match parts with
  | [a] =>
      if decide (a = "jobs") then ([("POST", 0%nat); ("GET", 1%nat)], "")
      else if decide (a = "health") then ([("GET", 7%nat)], "")
      else if decide (a = "join") then ([("POST", 8%nat)], "")
      else ([], "")
  | [a; b] =>
      if decide (a = "jobs") then ([("GET", 2%nat); ("DELETE", 3%nat)], b)
      else if decide (a = "debug") then
        if decide (b = "cluster") then ([("GET", 9%nat)], "") else ([], "")
      else ([], "")
  | [a; b; c] =>
      if decide (a = "jobs") then
        if decide (c = "status") then ([("GET", 4%nat)], b)
        else if decide (c = "executions") then ([("GET", 5%nat)], b)
        else if decide (c = "cancel") then ([("POST", 6%nat)], b)
        else ([], "")
      else ([], "")
  | _ => ([], "")
  end.

Definition answer (parts : list string) (method : string) : MatchResult :=
  let (offers, id) := resource parts in
  match list_find (λ o : string * nat, o.1 = method) offers with
  | Some (_, (_, k)) => Matched k id
  | None => if decide (offers = []) then NotFound else MethodNotAllowed
  end.

Section routing.

Context {CS : Type} `{ColdSlotStore CS} `{GoRange} `{Env} `{Cluster} `{Cron} `{Mux}.

Lemma table_routes sv uuid el :
  table (routes (CS := CS) sv uuid el) =
    [("POST", "/jobs"); ("GET", "/jobs"); ("GET", "/jobs/{id}"); ("DELETE", "/jobs/{id}");
     ("GET", "/jobs/{id}/status"); ("GET", "/jobs/{id}/executions"); ("POST", "/jobs/{id}/cancel");
     ("GET", "/health"); ("POST", "/join"); ("GET", "/debug/cluster")].
Proof. done. Qed.

Lemma match_path_parts tpl tparts path parts :
  strings_Split tpl "/" = tparts → strings_Split path "/" = parts →
  match_path tpl path = match_parts tparts parts "".
Proof. unfold match_path. by intros -> ->. Qed.

(** The search, once every template is matched. *)
Fixpoint search (i : nat) (l : list (string * option string)) (method : string) (seen : bool)
    : MatchResult :=
  match l with
  | [] => if seen then MethodNotAllowed else NotFound
  | (m, Some id) :: l => if decide (m = method) then Matched i id else search (S i) l method true
  | (_, None) :: l => search (S i) l method seen
  end.

Lemma first_match_search i l method path seen :
  first_match i l method path seen =
    search i ((λ r : string * string, (r.1, match_path r.2 path)) <$> l) method seen.
Proof.
  revert i seen. induction l as [|[m tpl] l IH]; intros i seen; [done|]. simpl.
  destruct (match_path tpl path); [case_decide; [done|]|]; apply IH.
Qed.

(** What each template makes of a path of at most three parts. *)
Definition matches (parts : list string) : list (string * option string) :=
  (λ r : string * list string, (r.1, match_parts r.2 ("" :: parts) "")) <$>
    [("POST", [""; "jobs"]); ("GET", [""; "jobs"]); ("GET", [""; "jobs"; "{id}"]);
     ("DELETE", [""; "jobs"; "{id}"]); ("GET", [""; "jobs"; "{id}"; "status"]);
     ("GET", [""; "jobs"; "{id}"; "executions"]); ("POST", [""; "jobs"; "{id}"; "cancel"]);
     ("GET", [""; "health"]); ("POST", [""; "join"]); ("GET", [""; "debug"; "cluster"])].

(** Settles the comparisons of literals. *)
Ltac literals :=
  repeat (match goal with
    | |- context [@decide (?a = ?b) ?d] =>
        let v := eval vm_compute in (bool_decide (a = b)) in
        lazymatch v with
        | true => rewrite (@decide_True _ (a = b) d) by done
        | false => rewrite (@decide_False _ (a = b) d) by done
        end
    end; cbn -[decide search list_find]).

(** Then compares a part of the path with a literal. *)
Ltac compare_part a :=
  match goal with
  | |- context [@decide (?l = a) _] => destruct (decide (l = a)) as [<-|]
  | |- context [@decide (a = ?l) _] => destruct (decide (a = l)) as [->|]
  end; literals.

(** Compares the method with those of the routes. *)
Ltac compare_method :=
  cbn -[decide]; repeat (match goal with
    | |- context [@decide (?l = ?m) _] => is_var m; destruct (decide (l = m))
    end; literals; cbn -[decide]); done || congruence.

Lemma search_answer parts method :
  Forall (λ p, p ≠ "") parts → search 0 (matches parts) method false = answer parts method.
Proof.
  intros Hp. unfold matches, answer.
  destruct parts as [|a [|b [|c [|d parts]]]]; repeat (apply Forall_cons in Hp as [? Hp]);
    cbn -[decide search list_find]; literals; [done| | | |];
    repeat compare_part a; try congruence;
    try (repeat compare_part b; try congruence);
    try (repeat compare_part c; try congruence); compare_method.
Qed.

Lemma documented_answer path parts method sv uuid el :
  strings_Split path "/" = "" :: parts → Forall (λ p, p ≠ "") parts →
  documented (table (routes (CS := CS) sv uuid el)) method path = answer parts method.
Proof.
  intros Hp Hparts. rewrite <-search_answer by done. rewrite table_routes. unfold documented.
  rewrite first_match_search. unfold matches. cbn [fmap list_fmap fst snd]. f_equal.
  repeat (apply f_equal2; [f_equal; by apply match_path_parts|]). done.
Qed.

Lemma mux_answer path parts method sv uuid el :
  strings_Split path "/" = "" :: parts → parts ≠ [] →
  Forall (λ p, p ≠ "" ∧ p ≠ "." ∧ p ≠ "..") parts →
  mux_match (table (routes (CS := CS) sv uuid el)) method path = answer parts method.
Proof.
  intros Hp Hne Hparts. rewrite mux_documented by (by exists parts). apply documented_answer; [done|].
  eapply Forall_impl; [exact Hparts|]. by intros p (? & _ & _).
Qed.

(** Every route of an answer is in the table, under that method. *)
Lemma answer_route sv uuid el parts method k id :
  answer parts method = Matched k id →
  ∃ rt, routes (CS := CS) sv uuid el !! k = Some rt ∧ rt_method rt = method.
Proof.
  unfold answer. destruct (resource parts) as [offers i] eqn:Er.
  destruct (list_find _ offers) as [[j [m k']]|] eqn:Ef; [|by case_decide].
  intros [= -> ->]. apply list_find_Some in Ef as (Hj & Hm & _). simpl in Hm. subst m.
  assert (Forall (λ o : string * nat, ∃ rt, routes (CS := CS) sv uuid el !! o.2 = Some rt ∧ rt_method rt = o.1) offers)
    as Hall.
  { unfold resource in Er. destruct parts as [|a [|b [|c [|d parts]]]]; simplify_eq/=; repeat case_decide;
      simplify_eq; repeat constructor; simpl; eauto. }
  rewrite Forall_lookup in Hall. exact (Hall _ _ Hj).
Qed.

(** *** What the API promises *)

Notation MM := (M (Node CS Queue * Telemetry)).

(** Only the bearer of the token may join, when there is one. *)
Definition join_by_token (token : string) (r : Request) : MM Response := λ s,
  if decide (token = "" ∨ Header_Get (rq_Header r) "Authorization" = "Bearer " +:+ token)
  then JoinCluster_m r s else Some (unauthorized, s).

(** The methods of the resource under a path, given by its parts, with what
    they do; and the identifier in the path. *)
Definition api (sv : Service) (uuid : string) (el : Elapsed) (parts : list string)
    : list (string * (Request → MM Response)) * string :=
  let h := sv_handlers sv in
  match parts with
  | [a] =>
      if decide (a = "jobs") then
        ([("POST", API_CreateJob_m (sv_getenv sv) h uuid); ("GET", API_ListJobsByStatus_m (el_query el))], "")
      else if decide (a = "health") then ([("GET", λ _, on_node (Health (sv_nodeID sv) h))], "")
      else if decide (a = "join") then ([("POST", join_by_token (sv_authToken sv))], "")
      else ([], "")
  | [a; b] =>
      if decide (a = "jobs") then
        ([("GET", API_GetJob_m); ("DELETE", API_DeleteJob_m (sv_getenv sv) h)], b)
      else if decide (a = "debug" ∧ b = "cluster") then
        ([("GET", λ _, on_node (ClusterDebug (sv_nodeID sv)))], "")
      else ([], "")
  | [a; b; c] =>
      if decide (a = "jobs") then
        if decide (c = "status") then ([("GET", API_GetJobStatus_m (el_query el))], b)
        else if decide (c = "executions") then ([("GET", API_GetJobExecutions_m (el_query el))], b)
        else if decide (c = "cancel") then ([("POST", API_CancelJob_m (sv_getenv sv) h)], b)
        else ([], "")
      else ([], "")
  | _ => ([], "")
  end.

Lemma auth_join token r s : authMiddleware token JoinCluster_m r s = join_by_token token r s.
Proof.
  unfold authMiddleware, join_by_token. case_decide as Ht; [by rewrite decide_True by tauto|].
  destruct (HasPrefix _ "Bearer ") eqn:Hp; [case_decide as Htok|].
  - rewrite decide_True; [done|]. right. by apply trim_prefix_iff.
  - rewrite decide_False; [done|]. intros [|E]; [done|]. apply trim_prefix_iff in E. tauto.
  - rewrite decide_False; [done|]. intros [|E]; [done|].
    apply trim_prefix_iff in E as [E _]. by rewrite E in Hp.
Qed.

(** An entry of the table does what the API promises. *)
Definition offers_same sv uuid el (o : string * (Request → MM Response)) (k : string * nat) : Prop :=
  o.1 = k.1 ∧ ∃ rt, routes (CS := CS) sv uuid el !! k.2 = Some rt ∧ ∀ r s, rt_handler rt r s = o.2 r s.

Lemma api_resource sv uuid el parts :
  Forall2 (offers_same sv uuid el) (api sv uuid el parts).1 (resource parts).1 ∧
  (api sv uuid el parts).2 = (resource parts).2.
Proof.
  unfold api, resource. destruct parts as [|a [|b [|c [|d parts]]]]; repeat case_decide; try tauto;
    simpl; (split; [|done]); repeat constructor; simpl; try (eexists; split; [reflexivity|done]).
  eexists. split; [reflexivity|]. apply auth_join.
Qed.

(** What the API promises is what the search answers. *)
Lemma api_answer sv uuid el parts method :
  match list_find (λ o, o.1 = method) (api sv uuid el parts).1 with
  | Some (_, (_, handler)) => ∃ k rt, answer parts method = Matched k (api sv uuid el parts).2 ∧
      routes (CS := CS) sv uuid el !! k = Some rt ∧ ∀ r s, rt_handler rt r s = handler r s
  | None => answer parts method =
      match (api sv uuid el parts).1 with [] => NotFound | _ => MethodNotAllowed end
  end.
Proof.
  destruct (api_resource sv uuid el parts) as [Hall Hid]. unfold answer.
  destruct (api sv uuid el parts) as [os id]. destruct (resource parts) as [ks id']. simpl in *. subst id'.
  destruct (list_find _ os) as [[j [m handler]]|] eqn:Ef.
  - apply list_find_Some in Ef as (Hj & Hm & Hbefore). simpl in Hm. subst m.
    destruct (Forall2_lookup_l _ _ _ _ _ Hall Hj) as ([m k] & Hk & Em & rt & Hrt & Hh). simpl in *. subst m.
    assert (list_find (λ o : string * nat, o.1 = method) ks = Some (j, (method, k))) as ->.
    { apply list_find_Some. split_and!; [done|done|]. intros j' [m' k'] Hj' Hlt.
      destruct (Forall2_lookup_r _ _ _ _ _ Hall Hj') as ([m'' h''] & Ho & Em & _). simpl in *. subst m''.
      exact (Hbefore j' _ Ho Hlt). }
    exists k, rt. by split_and!.
  - apply list_find_None in Ef. assert (list_find (λ o : string * nat, o.1 = method) ks = None) as ->.
    { apply list_find_None. clear -Hall Ef. induction Hall as [|[m h] [m' k] os ks [Em _] _ IH]; [constructor|].
      apply Forall_cons in Ef as [Hne Ef]. simpl in *. subst. constructor; auto. }
    destruct Hall; [by rewrite decide_True|by rewrite decide_False].
Qed.

(** Handlers that agree are served alike. *)
Lemma middleware_ext maxBodySize el (f g : Handler) i s :
  (∀ i s, f i s = g i s) → middleware (CS := CS) maxBodySize el f i s = middleware maxBodySize el g i s.
Proof.
  intros Hfg.
  assert (∀ i s, (if decide (maxBodySize > 0) then maxBodySizeMiddleware maxBodySize f else f) i s =
    (if decide (maxBodySize > 0) then maxBodySizeMiddleware maxBodySize g else g) i s) as Hin
    by (intros; case_decide; [apply Hfg|apply Hfg]).
  unfold middleware, cors, corsMiddleware. destruct (decide (rq_Method _ = _)); [done|].
  unfold metricsMiddleware, loggingMiddleware. unfold mthen. by rewrite Hin.
Qed.

(** C13: The router sends each request where the API says. For a clean path
    the router answers 404 when no resource has the path and 405 when the
    resource does not offer the method, both without touching anything;
    otherwise exactly the handler that the API names for that resource and
    method runs, inside the middleware, with the identifier of the path;
    joining needs the bearer token when one is configured. *)
Theorem routing_exact sv uuid el i s parts :
  strings_Split (in_Path i) "/" = "" :: parts → parts ≠ [] →
  Forall (λ p, p ≠ "" ∧ p ≠ "." ∧ p ≠ "..") parts →
  let (offers, id) := api sv uuid el parts in
  ServeHTTP (CS := CS) sv uuid el i s =
    match list_find (λ o, o.1 = rq_Method (in_request i)) offers, offers with
    | Some (_, (_, handler)), _ =>
        middleware (sv_maxBodySize sv) el (λ i, with_logger (handler (in_request i))) (set_id id i) s
    | None, [] => Some (mux_NotFound, s)
    | None, _ => Some (mux_MethodNotAllowed, s)
    end.
Proof.
  intros Hp Hne Hparts. pose proof (api_answer sv uuid el parts (rq_Method (in_request i))) as Ha.
  unfold ServeHTTP. rewrite (mux_answer (in_Path i) parts) by done.
  destruct (api sv uuid el parts) as [os id]. simpl in Ha.
  destruct (list_find _ os) as [[j [m handler]]|].
  - destruct Ha as (k & rt & -> & -> & Hh). apply middleware_ext. intros i' s'. unfold with_logger. by rewrite Hh.
  - rewrite Ha. by destruct os.
Qed.

(** No preflight is ever answered: [corsMiddleware] has a branch for
    [OPTIONS], but no route offers that method, and middleware only runs for a
    route. Such a request gets the library's 404 or 405, without CORS headers. *)
Theorem options_never_reach_cors sv uuid el i s parts :
  strings_Split (in_Path i) "/" = "" :: parts → parts ≠ [] →
  Forall (λ p, p ≠ "" ∧ p ≠ "." ∧ p ≠ "..") parts → rq_Method (in_request i) = "OPTIONS" →
  ServeHTTP (CS := CS) sv uuid el i s = Some (mux_NotFound, s) ∨
  ServeHTTP (CS := CS) sv uuid el i s = Some (mux_MethodNotAllowed, s).
Proof.
  intros Hp Hne Hparts Ho.
  unfold ServeHTTP. rewrite (mux_answer (in_Path i) parts), Ho by done. destruct (answer _ _) as [k id| |] eqn:Ea; [|by right|by left].
  destruct (answer_route sv uuid el _ _ _ _ Ea) as (rt & Hrt & Hmeth). exfalso.
  assert (Forall (λ rt, rt_method rt ≠ "OPTIONS") (routes (CS := CS) sv uuid el)) as Hall
    by (repeat constructor; discriminate).
  rewrite Forall_lookup in Hall. exact (Hall _ _ Hrt Hmeth).
Qed.

End routing.
