(* ===== verification/RouterProps.v ===== *)
(** * A request from end to end

    What a client, the log and the metrics see of one request, through the
    table, the middleware and the handler. *)

From S2P Require Import Prelude GoStrings GoFloat Json Sanitize GoTime Types Codec Request ColdStore.
From S2P Require Import FSM Store StoreProps StatusTracker Limits TimingWheel SlotQueue SlotQueueProps.
From S2P Require Import ExecutionManager Worker Gateway Api ApiProps Metrics Instrumentation Metered.
From S2P Require Import HttpMetrics Logger Router.
From Stdlib Require Import Ascii.


Section requests.

Context {CS : Type} `{ColdSlotStore CS} `{GoRange} `{Env} `{Cluster} `{Cron} `{Mux} `{Reader}.

Implicit Types (n : Node CS Queue) (t : Telemetry) (lg : Logger).

(** The measurements of the middleware. *)
Definition request_metrics (duration : Z) (method path : string) (status : Z) (m : option Metrics) : T unit :=
  (IncrementHTTPRequests m method path status ;; RecordHTTPRequestDuration m duration method path)%go.

Lemma request_metrics_types duration method path status m :
  complete m → types (request_metrics duration method path status (Some m)).
Proof. intros Hm. apply types_bind; eauto with metrics. Qed.

(** Something recorded on the telemetry alone. *)
Lemma metered_at (k : option Metrics → T unit) n t m :
  metrics_ok t → t_global t = Some m → types (k (Some m)) →
  ∃ t', @metered CS k (n, t) = Some (tt, (n, t')) ∧ k (Some m) t = Some (tt, t') ∧
    metrics_ok t' ∧ t_global t' = Some m.
Proof.
  intros [Hc Hw] Hg Hk. destruct (Hk t) as ([] & t' & E & G & l & Hl & Hwl). exists t'.
  unfold metered, on_metrics, with_global, GetGlobalMetrics, gets, mthen. simpl. rewrite Hg, E.
  split_and!; [done|done| |congruence]. split; [rewrite G; by rewrite Hg in Hc |- *|].
  rewrite Hl. by apply Forall_app.
Qed.

(** The answer of the handler with the CORS headers. *)
Definition with_cors (resp : Response) : Response :=
  mkResponse (rs_status resp) (cors_headers ++ rs_headers resp) (rs_body resp).

(** The body a handler sees. *)
Definition limited (maxBodySize : Z) (i : Incoming) : Incoming :=
  if decide (maxBodySize > 0) then limit_body maxBodySize i else i.

(** The middleware around a handler that returns: one line, one count, and
    the answer with the CORS headers. *)
Lemma middleware_at maxBodySize el (c : Request → M (Node CS Queue * Telemetry) Response) i n t lg resp n1 t1 m :
  rq_Method (in_request i) ≠ "OPTIONS" →
  c (in_request (limited maxBodySize i)) (n, t) = Some (resp, (n1, t1)) →
  metrics_ok t1 → t_global t1 = Some m →
  ∃ t2, middleware maxBodySize el (λ i, with_logger (c (in_request i))) i ((n, t), lg) =
      Some (with_cors resp, ((n1, t2), log_Info (request_line i (rs_status resp) (el_line el)) lg)) ∧
    request_metrics (el_metrics el) (rq_Method (in_request i)) (in_Path i) (rs_status resp) (Some m) t1 = Some (tt, t2) ∧
    metrics_ok t2 ∧ t_global t2 = Some m.
Proof.
  intros Hmeth Hc Hok Hg.
  destruct (metered_at (request_metrics (el_metrics el) (rq_Method (in_request i)) (in_Path i) (rs_status resp))
    n1 t1 m Hok Hg) as (t2 & Em & Ek & Hok2 & Hg2); [by apply request_metrics_types, Hok|].
  exists t2. split; [|done].
  set (lg' := log_Info _ lg). set (h := λ i, with_logger (c (in_request i))).
  set (next := if decide (maxBodySize > 0) then maxBodySizeMiddleware maxBodySize h else h).
  assert (next i ((n, t), lg) = Some (resp, ((n1, t1), lg))) as E0.
  { unfold next, maxBodySizeMiddleware, h, with_logger. unfold limited in Hc.
    case_decide; cbn [fst snd]; by rewrite Hc. }
  assert (loggingMiddleware (el_line el) next i ((n, t), lg) = Some (resp, ((n1, t1), lg'))) as E1.
  { unfold loggingMiddleware. by rewrite (mthen_some _ _ _ _ _ E0). }
  assert (metricsMiddleware (el_metrics el) (loggingMiddleware (el_line el) next) i ((n, t), lg) =
    Some (resp, ((n1, t2), lg'))) as E2.
  { unfold metricsMiddleware. rewrite (mthen_some _ _ _ _ _ E1).
    rewrite (mthen_some _ _ _ tt ((n1, t2), lg')); [done|]. unfold with_logger. cbn [fst snd].
    unfold request_metrics in Em. by rewrite Em. }
  unfold middleware, cors, corsMiddleware. rewrite decide_False by done.
  by rewrite (mthen_some _ _ _ _ _ E2).
Qed.

(** *** What is counted *)

(** Reading the total of a counter after a run of its methods. *)
Lemma reading_after f attrs d t c t' :
  is_sum (declared f) → adds f attrs d c → Forall well_typed (t_log t) → c t = Some (tt, t') →
  reading f attrs t' = i64 (reading f attrs t + d).
Proof.
  intros Hf Ha Hw E. destruct (adds_reading f attrs d c t Hf Ha Hw) as ([] & t1 & E1 & _ & R).
  rewrite E in E1. by injection E1 as <-.
Qed.

Lemma http_attrs_inj me ep st me' ep' st' :
  http_attrs me ep st = http_attrs me' ep' st' ↔ me = me' ∧ ep = ep' ∧ st = st'.
Proof.
  split; [|by intros (-> & -> & ->)]. unfold http_attrs. intros E.
  pose proof (f_equal (lookup "method") E) as E1. pose proof (f_equal (lookup "endpoint") E) as E2.
  pose proof (f_equal (lookup "status_code") E) as E3. cbn in E1, E2, E3. simplify_map_eq. naive_solver.
Qed.

(** The members that count requests: all, and those that failed. *)
Definition request_field (f : Field) : Prop := f = HTTPRequests ∨ f = HTTPErrors.

(** One for a request counted under these attributes. *)
Definition hit (f : Field) (counted asked : string * string * Z) : Z :=
  if decide (counted = asked ∧ (f = HTTPErrors → counted.2 >= 400)) then 1 else 0.

Lemma adds_request f me ep st me' ep' st' m :
  complete m → request_field f →
  adds f (http_attrs me' ep' st') (hit f (me, ep, st) (me', ep', st')) (IncrementHTTPRequests (Some m) me ep st).
Proof.
  intros Hm Hf. unfold IncrementHTTPRequests, Add, hit.
  pose proof (http_attrs_inj me ep st me' ep' st') as Hinj. set (A := http_attrs me ep st) in *.
  assert (attr_type <$> A = list_to_map (schema HTTPRequests)) as HA
    by (unfold A, http_attrs; by rewrite !fmap_insert).
  destruct (decide (st >= 400)) as [Hst|Hst]; (eapply adds_eq; [apply adds_bind; [apply adds_measure; [done|by apply types_measure]|]|]).
  - apply adds_measure; [done|by apply types_measure].
  - cbn. destruct Hf as [-> | ->]; repeat case_decide; naive_solver lia.
  - apply adds_ret.
  - cbn. destruct Hf as [-> | ->]; repeat case_decide; naive_solver lia.
Qed.

Lemma limited_id maxBodySize i : rq_id (in_request (limited maxBodySize i)) = rq_id (in_request i).
Proof.
  unfold limited, limit_body. case_decide; [|done]. destruct (in_value i); [|done]. by case_decide.
Qed.

Lemma adds_duration f me ep st d me' ep' m :
  complete m → request_field f → adds f (http_attrs me ep st) 0 (RecordHTTPRequestDuration (Some m) d me' ep').
Proof.
  intros Hm Hf. eapply adds_eq.
  - apply adds_measure; [done|]. exact (method_types m _ Hm (m_RecordHTTPRequestDuration (Some m) d me' ep')).
  - rewrite decide_False; [done|]. intros [E _]. by destruct Hf as [-> | ->].
Qed.

(** What the middleware adds to the two counters. *)
Lemma adds_request_metrics f d me ep st me' ep' st' m :
  complete m → request_field f →
  adds f (http_attrs me' ep' st') (hit f (me, ep, st) (me', ep', st')) (request_metrics d me ep st (Some m)).
Proof.
  intros Hm Hf. eapply adds_eq; [apply adds_bind; [by apply adds_request|by apply adds_duration]|]. lia.
Qed.

(** An error answer is counted where it is written. *)
Lemma writeError_m_at status message n t m :
  status >= 400 → metrics_ok t → t_global t = Some m →
  ∃ t', writeError_m (CS := CS) status message (n, t) = Some (writeError status message, (n, t')) ∧
    metrics_ok t' ∧ t_global t' = Some m ∧
    IncrementHTTPRequests (Some m) "ERROR" "error" status t = Some (tt, t').
Proof.
  intros Hs Hok Hg.
  destruct (metered_at (λ m, IncrementHTTPRequests m "ERROR" "error" status) n t m Hok Hg)
    as (t' & Em & Ek & Hok' & Hg'); [apply (method_types m); [by apply Hok|constructor]|].
  exists t'. split; [|done]. unfold writeError_m. rewrite decide_True by done.
  by rewrite (mthen_some _ _ _ _ _ Em).
Qed.

(** C14: Reading a job, from the wire to the wire. [GET /jobs/{id}] on any node
    with metrics set up leaves the node as it is, answers 200 with the stored
    job or 404 for an unknown one, with the CORS headers, and logs one line
    with that status. For a stored job one request is counted, under its
    method, path and status. For an unknown one two are counted, and two
    failures: one by the middleware under method, path and status, and one by
    the handler under the method [ERROR] and the endpoint [error]. No other
    count of requests or failures moves. *)
Theorem get_job_end_to_end sv uuid el i n t lg m id :
  strings_Split (in_Path i) "/" = [""; "jobs"; id] → id ∉ [""; "."; ".."] →
  rq_Method (in_request i) = "GET" → metrics_ok t → t_global t = Some m →
  let job := FSM_GetJob id (n_fsm n) in
  let resp := match job with Some job => ok_json (enc_Job job) | None => job_not_found end in
  ∃ t', ServeHTTP sv uuid el i ((n, t), lg) =
      Some (with_cors resp, ((n, t'), log_Info (request_line i (rs_status resp) (el_line el)) lg)) ∧
    ∀ f me ep st, request_field f →
      reading f (http_attrs me ep st) t' = i64 (reading f (http_attrs me ep st) t +
        (match job with None => hit f ("ERROR", "error", 404) (me, ep, st) | Some _ => 0 end +
         hit f ("GET", in_Path i, rs_status resp) (me, ep, st))).
Proof.
  intros Hp Hid Hget Hok Hg job resp.
  assert (∃ t1, API_GetJob_m (in_request (limited (sv_maxBodySize sv) (set_id id i))) (n, t) =
      Some (resp, (n, t1)) ∧ metrics_ok t1 ∧ t_global t1 = Some m ∧
    ∀ f me ep st, request_field f → reading f (http_attrs me ep st) t1 =
      i64 (reading f (http_attrs me ep st) t +
        match job with None => hit f ("ERROR", "error", 404) (me, ep, st) | Some _ => 0 end))
    as (t1 & E1 & Hok1 & Hg1 & R1).
  { unfold API_GetJob_m. rewrite limited_id. cbn [rq_id in_request set_id].
    rewrite decide_False by set_solver. rewrite (mthen_some _ _ _ job (n, t)) by done.
    destruct job as [j|].
    - exists t. split_and!; [done..|]. intros f me ep st Hf. rewrite Z.add_0_r.
      assert (is_sum (declared f)) as Hs by (destruct Hf as [-> | ->]; by left).
      rewrite reading_total by (done || apply Hok). by rewrite i64_idemp.
    - destruct (writeError_m_at 404 "Job not found" n t m) as (t1 & E & Hok1 & Hg1 & Einc); [lia|done..|].
      exists t1. split_and!; [done..|]. intros f me ep st Hf.
      eapply reading_after; [destruct Hf as [-> | ->]; by left| |apply Hok|exact Einc].
      apply adds_request; [by apply Hok|done]. }
  destruct (middleware_at (sv_maxBodySize sv) el API_GetJob_m (set_id id i) n t lg resp n t1 m)
    as (t2 & E2 & Em & _ & _); [by cbn; rewrite Hget|done..|].
  exists t2. split.
  - unfold ServeHTTP. rewrite (mux_answer (in_Path i) ["jobs"; id]); [|done|done|].
    2:{ repeat constructor; set_solver. }
    rewrite Hget. cbn. exact E2.
  - intros f me ep st Hf. assert (is_sum (declared f)) as Hs by (destruct Hf as [-> | ->]; by left).
    rewrite (reading_after _ _ _ _ _ _ Hs (adds_request_metrics f _ _ _ _ me ep st m (proj1 Hok1 m Hg1) Hf)
      (proj2 Hok1) Em).
    cbn [in_request set_id rq_Method in_Path]. rewrite Hget, R1, i64_plus_l by done. f_equal. lia.
Qed.

(** A body whose value does not end within the limit is as good as none: the
    leader answers a creation with 400, and neither the state machine nor the
    queue changes. *)
Theorem oversized_body_is_refused sv uuid el i n t lg m k :
  strings_Split (in_Path i) "/" = [""; "jobs"] → rq_Method (in_request i) = "POST" →
  in_value i = Some k → 0 < sv_maxBodySize sv < k → leader (n_step n) = true →
  metrics_ok t → t_global t = Some m →
  ∃ n' t' lg', ServeHTTP sv uuid el i ((n, t), lg) =
      Some (with_cors (writeError 400 "Invalid request body"), ((n', t'), lg')) ∧
    n_fsm n' = n_fsm n ∧ n_queue n' = n_queue n ∧ n_trace n' = n_trace n.
Proof.
  intros Hp Hpost Hv Hmax Hl Hok Hg.
  set (n1 := mkNode (n_fsm n) (n_queue n) (n_cancelFuncs n) (S (n_step n)) (n_trace n)).
  destruct (writeError_m_at 400 "Invalid request body" n1 t m) as (t1 & E & Hok1 & Hg1 & _); [lia|done..|].
  destruct (middleware_at (sv_maxBodySize sv) el (API_CreateJob_m (sv_getenv sv) (sv_handlers sv) uuid)
    (set_id "" i) n t lg (writeError 400 "Invalid request body") n1 t1 m) as (t2 & E2 & _ & _ & _);
    [by cbn; rewrite Hpost| |done|done|].
  { unfold limited. rewrite decide_True by lia. unfold limit_body. cbn [in_value set_id]. rewrite Hv.
    rewrite decide_False by lia. unfold API_CreateJob_m, on_leader_m. cbn [in_request rq_Body].
    rewrite (mthen_some _ _ _ true (n1, t)); [exact E|].
    unfold on_node, IsLeader, ask. cbn [fst snd]. by rewrite Hl. }
  eexists n1, t2, _. split; [|done]. unfold ServeHTTP.
  rewrite (mux_answer (in_Path i) ["jobs"]); [|done|done|].
  2:{ repeat constructor; set_solver. }
  rewrite Hpost. cbn. exact E2.
Qed.

End requests.

(** ** A concrete router *)

(** The documented behaviour is one. *)
Definition doc_mux : Mux :=
  {| mux_match := documented;
     mux_NotFound := mkResponse 404 [HSet "Content-Type" "text/plain; charset=utf-8"] (BText "404 page not found");
     mux_MethodNotAllowed := mkResponse 405 [] BEmpty;
     mux_documented := λ _ _ _ _, eq_refl;
     mux_NotFound_ok := eq_refl;
     mux_MethodNotAllowed_ok := conj eq_refl eq_refl |}.

Definition ex_service : Service := mkService ex_getenv ex_handlers "n1" "secret" 1024.

Definition ex_elapsed : Elapsed := mkElapsed 1000 "1ms" 1000.

(** A request for the job [id]. *)
Definition ex_get (id : string) : Incoming :=
  mkIncoming (mkRequest "GET" ("/jobs/" +:+ id) ∅ "" "" None) ("/jobs/" +:+ id) None.

Definition ex_state : (Node MemBolt Queue * Telemetry) * Logger :=
  ((ex_qnode ex_running, ex_telemetry), init_logger "" 0).

Lemma get_job_end_to_end_witness :
  ∃ t', @ServeHTTP MemBolt _ sorted_range (clock_env 100) ex_cluster every_minute doc_mux ex_service "u"
      ex_elapsed (ex_get "zz") ex_state =
    Some (with_cors job_not_found, ((ex_qnode ex_running, t'),
      log_Info "GET /jobs/zz 404 1ms" (init_logger "" 0))) ∧
    @reading sum_reader HTTPErrors (http_attrs "GET" "/jobs/zz" 404) t' = 1 ∧
    @reading sum_reader HTTPErrors (http_attrs "ERROR" "error" 404) t' = 1.
Proof.
  destruct (@get_job_end_to_end MemBolt _ sorted_range (clock_env 100) ex_cluster every_minute doc_mux
    sum_reader ex_service "u" ex_elapsed (ex_get "zz") (ex_qnode ex_running) ex_telemetry (init_logger "" 0)
    spec_of "zz") as (t' & E & R).
  - reflexivity.
  - apply (bool_decide_unpack _). reflexivity.
  - reflexivity.
  - exact ex_telemetry_ok.
  - reflexivity.
  - exists t'. split; [exact E|]. split; rewrite R by (by right); vm_compute; reflexivity.
Defined.

Lemma routing_exact_witness :
  @ServeHTTP MemBolt _ sorted_range (clock_env 100) ex_cluster every_minute doc_mux ex_service "u" ex_elapsed
    (mkIncoming (mkRequest "PUT" "/jobs" ∅ "" "" None) "/jobs" None) ex_state =
  Some (mkResponse 405 [] BEmpty, ex_state).
Proof.
  refine (@routing_exact MemBolt _ sorted_range (clock_env 100) ex_cluster every_minute doc_mux ex_service
    "u" ex_elapsed (mkIncoming (mkRequest "PUT" "/jobs" ∅ "" "" None) "/jobs" None) ex_state ["jobs"] _ _ _).
  - reflexivity.
  - discriminate.
  - repeat constructor; discriminate.
Defined.
