(* ===== verification/Setup.v ===== *)
(** * Setting up the metrics: [metrics/setup.go]

    What is created, in which order, and what is shut down again. Creating a
    resource, an exporter or an instrument is third-party code that may fail,
    class [OTel]; shutting one down may report an error, which is printed and
    ignored. The process keeps the provider and the instance it made global. *)

From S2P Require Import Prelude GoFloat Metrics.
From Stdlib Require Import QArith.
#[local] Open Scope Z_scope.

(** [metrics.Config] *)
Record MetricsConfig := mkMetricsConfig {
  mc_ServiceName : string;
  mc_ServiceVersion : string;
  mc_NodeID : string;
  mc_Environment : string;
  mc_MetricsPort : Z;
  mc_MetricsPath : string }.

Definition DefaultMetricsConfig : MetricsConfig :=
  mkMetricsConfig "scheduled-db" "1.0.0" "" "production" 9090 "/metrics".

Inductive Reader_ := PrometheusReader | OTLPReader (endpoint : string) (interval : Z).

(** Calls into the libraries that have an effect. *)
Inductive otel_call :=
  | CSetMeterProvider
  | CShutdownOTLP
  | CShutdownPrometheus
  | CShutdownProvider.

Class OTel := {
  resource_New : list (string * string) → option error;
  prometheus_New : option error;
  otlp_New : string → option error }.

(** What the process has: calls made, and the global [Metrics]. *)
Record Process := mkProcess { pr_calls : list otel_call; pr_global : option Metrics }.

Notation PM := (M Process).

Definition call (c : otel_call) : PM unit := modify (λ p, mkProcess (pr_calls p ++ [c]) (pr_global p)).

Section Setup.

Context `{OTel} `{Meter}.

Local Open Scope go_scope.

Definition resource_attributes (config : MetricsConfig) : list (string * string) :=
  [("service.name", mc_ServiceName config); ("service.version", mc_ServiceVersion config);
   ("service.instance.id", mc_NodeID config); ("deployment.environment", mc_Environment config)].

(** [metric.WithView(...)]: the boundaries of five histograms. *)
Definition views : list (string * list Q) :=
  [("job_execution_duration_seconds", [0.01; 0.1; 0.5; 1.0; 5.0; 10.0; 30.0; 60.0; 300.0]%Q);
   ("http_request_duration_seconds", [0.001; 0.01; 0.1; 0.5; 1.0; 5.0; 10.0; 30.0]%Q);
   ("slot_processing_duration_seconds", [0.001; 0.01; 0.1; 0.5; 1.0; 5.0; 10.0]%Q);
   ("status_query_duration_seconds", [0.001; 0.01; 0.1; 0.5; 1.0; 5.0; 10.0]%Q);
   ("retry_count", [0; 1; 2; 3; 5; 10]%Q)].

Definition otlp_endpoint (env : string) : string :=
  if decide (env = "") then "otel-collector:4317" else env.

(** What the cleanup function shuts down: it closes over whether there is an
    OTLP exporter. *)
Definition cleanup (otlp : bool) : PM unit :=
  (if otlp then call CShutdownOTLP else mreturn tt) ;;
  call CShutdownPrometheus ;;
  call CShutdownProvider.

(** The readers of the provider and the cleanup, or an error. [env] is
    [OTEL_EXPORTER_OTLP_ENDPOINT]. *)
Definition Setup (env : string) (config : MetricsConfig) : PM ((list Reader_ * bool) + error) :=
  match resource_New (resource_attributes config) with
  | Some e => mreturn (inr (wrapf "failed to create resource: " e))
  | None =>
      match prometheus_New with
      | Some e => mreturn (inr (wrapf "failed to create Prometheus exporter: " e))
      | None =>
          if decide (env = "disabled") then
            call CSetMeterProvider ;; mreturn (inl ([PrometheusReader], false))
          else
            let endpoint := otlp_endpoint env in
            match otlp_New endpoint with
            | Some e => mreturn (inr (wrapf "failed to create OTLP exporter: " e))
            | None =>
                call CSetMeterProvider ;;
                mreturn (inl ([PrometheusReader; OTLPReader endpoint (15 * Second)], true))
            end
      end
  end.

(** The instance, and whether its cleanup shuts an OTLP exporter down. *)
Definition InitializeWithOTLP (env : string) (config : MetricsConfig) : PM ((Metrics * bool) + error) :=
  r <- Setup env config ;;
  match r with
  | inr e => mreturn (inr (wrapf "failed to setup OpenTelemetry: " e))
  | inl (_, otlp) =>
      match NewMetrics with
      | inr e => cleanup otlp ;; mreturn (inr (wrapf "failed to create metrics: " e))
      | inl m =>
          modify (λ p, mkProcess (pr_calls p) (Some m)) ;;
          mreturn (inl (m, otlp))
      end
  end.

(** [GetHealthCheck]; the uptime is text of the library. *)
Definition GetHealthCheck (uptime : string) : list (string * string) :=
  [("status", "ok"); ("service", "metrics")] ++
  (if decide (uptime = "") then [] else [("uptime", uptime)]).

(** ** Properties *)

(** The boundaries of a view are those its instrument was created with. *)
Lemma views_agree :
  Forall (λ v, v ∈ (λ p : Field * Spec, (i_name p.2, i_boundaries p.2)) <$> instruments) views.
Proof.
  unfold views. apply Forall_cons; split; [by apply (list_elem_of_lookup_2 _ 4)|].
  apply Forall_cons; split; [by apply (list_elem_of_lookup_2 _ 26)|].
  apply Forall_cons; split; [by apply (list_elem_of_lookup_2 _ 11)|].
  apply Forall_cons; split; [by apply (list_elem_of_lookup_2 _ 39)|].
  apply Forall_cons; split; [by apply (list_elem_of_lookup_2 _ 38)|]. constructor.
Qed.

(** What [InitializeWithOTLP] leaves behind. On success there is one global
    instance, complete; on failure none, and a provider that was set is shut
    down again, exporters before provider. *)
Theorem initialize_all_or_nothing env config :
  ∃ r p, InitializeWithOTLP env config (mkProcess [] None) = Some (r, p) ∧
    match r with
    | inl (m, otlp) => complete m ∧ pr_global p = Some m ∧ pr_calls p = [CSetMeterProvider] ∧
        otlp = bool_decide (env ≠ "disabled")
    | inr _ => pr_global p = None ∧
        (pr_calls p = [] ∨
         pr_calls p = CSetMeterProvider :: (if decide (env = "disabled") then [] else [CShutdownOTLP]) ++
           [CShutdownPrometheus; CShutdownProvider])
    end.
Proof.
  assert (∀ m, NewMetrics = inl m → complete m) as Hnew.
  { intros m E. destruct new_metrics_all_or_nothing as [(m' & E' & Hm & _)|(? & ? & ? & ? & _ & _ & _ & E')];
      rewrite E in E'; [by injection E' as ->|done]. }
  unfold InitializeWithOTLP, Setup, mthen.
  destruct (resource_New _); [eexists _, _; split; [done|]; split; [done|by left]|].
  destruct prometheus_New; [eexists _, _; split; [done|]; split; [done|by left]|].
  destruct (decide (env = "disabled")) as [->|Henv].
  - destruct NewMetrics as [m|e] eqn:Em; (eexists _, _; split; [done|]; split_and!; auto).
  - destruct (otlp_New _); [eexists _, _; split; [done|]; split; [done|by left]|].
    destruct NewMetrics as [m|e] eqn:Em; (eexists _, _; split; [done|]; split_and!; auto).
    by rewrite bool_decide_eq_true_2.
Qed.

End Setup.
