(* ===== verification/Shutdown.v ===== *)
(** * Shutting down: [main.go] and [app.go]

    Both [main] and [NewApp] ask for SIGTERM and SIGINT, so that a signal
    starts two goroutines: the loop of [main], which calls [App.Stop] and then
    ends the process, and [handleGracefulShutdown], which first gives up
    leadership. Each label of [sh_step] is one step of one of them, of the
    goroutine inside [Stop], of the monitor of leadership, or of the world
    that sends signals; a run is any sequence of labels. A sleep is a step of
    its own and takes as long as it takes. A call into a library may never
    return: its step [LAct] or [LGraceful] then simply does not happen, while
    the steps of [prompt] are left to the Go runtime alone. *)

From S2P Require Import Prelude Lifecycle.

(** What is done to the parts of the application, in the order it happens. *)
Inductive act :=
  | ADiscoveryStop | APruningStop | AWorkerStop | AHTTPClose | AMetricsClose | AStoreClose
  | ARemoveSelf | ATransfer.

#[export] Instance act_eq_dec : EqDecision act.
Proof. solve_decision. Defined.

(** A call of [Stop]: what its goroutine has left to do, while [Stop] waits
    for it and after [Stop] has returned. *)
Inductive stopping :=
  | NotStopping
  | Stopping (rest : list act)
  | StopReturned (rest : list act).

(** Where [handleGracefulShutdown] is. *)
Inductive graceful :=
  | GWaiting | GStopWorker | GRemovePeer | GSleepBefore | GTransfer | GSleepAfter
  | GFinal (st : stopping).

Record Shutdown := mkShutdown {
  s_useDiscovery : bool;
  s_leader : bool;
  s_app : AppState;
  s_acts : list act;
  s_signals : nat;
  s_sigCh : bool;
  s_shutdownCount : nat;
  s_stopper : stopping;
  s_shutdownDone : bool;
  s_shutdownSignal : bool;
  s_graceful : graceful;
  s_timeouts : nat;
  s_losses : nat;
  s_exit : option Z }.

(** The goroutine of [Stop]. [AStoreClose] is the end of the wait for the
    store: it is closed, or given up on after ten seconds. *)
Definition stop_acts (useDiscovery : bool) : list act :=
  (if useDiscovery then [ADiscoveryStop] else []) ++
  [APruningStop; AWorkerStop; AHTTPClose; AMetricsClose; AStoreClose].

(** [os.Exit(code)], and a panic that nobody recovers from. *)
Definition exit (code : Z) (s : Shutdown) : Shutdown :=
  mkShutdown (s_useDiscovery s) (s_leader s) (s_app s) (s_acts s) (s_signals s) (s_sigCh s)
    (s_shutdownCount s) (s_stopper s) (s_shutdownDone s) (s_shutdownSignal s) (s_graceful s)
    (s_timeouts s) (s_losses s) (Some code).

Definition crash (s : Shutdown) : Shutdown := exit 2 s.

Definition set_app (a : AppState) (s : Shutdown) : Shutdown :=
  mkShutdown (s_useDiscovery s) (s_leader s) a (s_acts s) (s_signals s) (s_sigCh s)
    (s_shutdownCount s) (s_stopper s) (s_shutdownDone s) (s_shutdownSignal s) (s_graceful s)
    (s_timeouts s) (s_losses s) (s_exit s).

Definition set_worker (w : WorkerState) (s : Shutdown) : Shutdown :=
  set_app (mkAppState w (a_slotEvictor (s_app s))) s.

Definition add_loss (s : Shutdown) : Shutdown :=
  mkShutdown (s_useDiscovery s) (s_leader s) (s_app s) (s_acts s) (s_signals s) (s_sigCh s)
    (s_shutdownCount s) (s_stopper s) (s_shutdownDone s) (s_shutdownSignal s) (s_graceful s)
    (s_timeouts s) (S (s_losses s)) (s_exit s).

Definition set_leading (b : bool) (s : Shutdown) : Shutdown :=
  mkShutdown (s_useDiscovery s) b (s_app s) (s_acts s) (s_signals s) (s_sigCh s)
    (s_shutdownCount s) (s_stopper s) (s_shutdownDone s) (s_shutdownSignal s) (s_graceful s)
    (s_timeouts s) (s_losses s) (s_exit s).

Definition add_act (a : act) (s : Shutdown) : Shutdown :=
  mkShutdown (s_useDiscovery s) (s_leader s) (s_app s) (s_acts s ++ [a]) (s_signals s) (s_sigCh s)
    (s_shutdownCount s) (s_stopper s) (s_shutdownDone s) (s_shutdownSignal s) (s_graceful s)
    (s_timeouts s) (s_losses s) (s_exit s).

Definition set_graceful (g : graceful) (s : Shutdown) : Shutdown :=
  mkShutdown (s_useDiscovery s) (s_leader s) (s_app s) (s_acts s) (s_signals s) (s_sigCh s)
    (s_shutdownCount s) (s_stopper s) (s_shutdownDone s) (s_shutdownSignal s) g
    (s_timeouts s) (s_losses s) (s_exit s).

Definition set_stopper (st : stopping) (s : Shutdown) : Shutdown :=
  mkShutdown (s_useDiscovery s) (s_leader s) (s_app s) (s_acts s) (s_signals s) (s_sigCh s)
    (s_shutdownCount s) st (s_shutdownDone s) (s_shutdownSignal s) (s_graceful s)
    (s_timeouts s) (s_losses s) (s_exit s).

Definition add_timeout (s : Shutdown) : Shutdown :=
  mkShutdown (s_useDiscovery s) (s_leader s) (s_app s) (s_acts s) (s_signals s) (s_sigCh s)
    (s_shutdownCount s) (s_stopper s) (s_shutdownDone s) (s_shutdownSignal s) (s_graceful s)
    (S (s_timeouts s)) (s_losses s) (s_exit s).

Definition set_done (s : Shutdown) : Shutdown :=
  mkShutdown (s_useDiscovery s) (s_leader s) (s_app s) (s_acts s) (s_signals s) (s_sigCh s)
    (s_shutdownCount s) (s_stopper s) true (s_shutdownSignal s) (s_graceful s)
    (s_timeouts s) (s_losses s) (s_exit s).

(** The signal is taken from the channel. *)
Definition take_signal (s : Shutdown) : Shutdown :=
  mkShutdown (s_useDiscovery s) (s_leader s) (s_app s) (s_acts s) (s_signals s) (s_sigCh s)
    (s_shutdownCount s) (s_stopper s) (s_shutdownDone s) false (s_graceful s)
    (s_timeouts s) (s_losses s) (s_exit s).

(** One action; stopping the worker may panic. *)
Definition perform (a : act) (s : Shutdown) : Shutdown :=
  if decide (a = AWorkerStop) then
    match Worker_Stop (a_worker (s_app s)) with
    | None => crash s
    | Some w => add_act a (set_worker w s)
    end
  else add_act a s.

(** Who calls [Stop]: the goroutine [main] starts, or the graceful shutdown. *)
Inductive caller := Main | Graceful.

Definition get_stop (c : caller) (s : Shutdown) : stopping :=
  match c with
  | Main => s_stopper s
  | Graceful => match s_graceful s with GFinal st => st | _ => NotStopping end
  end.

Definition set_stop (c : caller) (st : stopping) (s : Shutdown) : Shutdown :=
  match c with Main => set_stopper st s | Graceful => set_graceful (GFinal st) s end.

(** What happens after [Stop] has returned: [shutdownDone <- true], or
    [os.Exit(0)]; [Stop] never returns an error. *)
Definition after_stop (c : caller) (s : Shutdown) : Shutdown :=
  match c with Main => set_done s | Graceful => exit 0 s end.

Inductive label :=
  | LSignal
  | LLeadership (leader : bool)
  | LMonitor (start : bool)
  | LMainRecv
  | LMainExit
  | LAct (c : caller)
  | LReturn (c : caller)
  | LTimeout (c : caller)
  | LGracefulRecv
  | LGraceful.

(** One step, [None] when it is not enabled. *)
Definition sh_step (l : label) (s : Shutdown) : option Shutdown :=
  match s_exit s with
  | Some _ => None
  | None =>
      match l with
      | LSignal =>
          (* both channels have room for one signal; more are dropped *)
          Some (mkShutdown (s_useDiscovery s) (s_leader s) (s_app s) (s_acts s) (S (s_signals s)) true
                  (s_shutdownCount s) (s_stopper s) (s_shutdownDone s) true (s_graceful s)
                  (s_timeouts s) (s_losses s) None)
      | LLeadership b => Some (set_leading b s)
      | LMonitor true => Some (set_app (becomeLeader (s_app s)) s)
      | LMonitor false =>
          let s := add_loss s in
          Some (match loseLeadership (s_app s) with Some a => set_app a s | None => crash s end)
      | LMainRecv =>
          if s_sigCh s then
            let count := S (s_shutdownCount s) in
            let s' := mkShutdown (s_useDiscovery s) (s_leader s) (s_app s) (s_acts s) (s_signals s) false
                        count (s_stopper s) (s_shutdownDone s) (s_shutdownSignal s) (s_graceful s)
                        (s_timeouts s) (s_losses s) None in
            Some (if decide (count = 1%nat) then set_stopper (Stopping (stop_acts (s_useDiscovery s))) s'
                  else exit 130 s')
          else None
      | LMainExit => if s_shutdownDone s then Some (exit 0 s) else None
      | LAct c =>
          match get_stop c s with
          | Stopping (a :: rest) => Some (perform a (set_stop c (Stopping rest) s))
          | StopReturned (a :: rest) => Some (perform a (set_stop c (StopReturned rest) s))
          | _ => None
          end
      | LReturn c =>
          match get_stop c s with
          | Stopping [] => Some (after_stop c (set_stop c (StopReturned []) s))
          | _ => None
          end
      | LTimeout c =>
          match get_stop c s with
          | Stopping (a :: rest) => Some (after_stop c (set_stop c (StopReturned (a :: rest)) (add_timeout s)))
          | _ => None
          end
      | LGracefulRecv =>
          match s_graceful s, s_shutdownSignal s with
          | GWaiting, true =>
              Some (set_graceful (if s_leader s then GStopWorker
                                  else GFinal (Stopping (stop_acts (s_useDiscovery s)))) (take_signal s))
          | _, _ => None
          end
      | LGraceful =>
          match s_graceful s with
          | GStopWorker => Some (perform AWorkerStop (set_graceful GRemovePeer s))
          | GRemovePeer => Some (perform ARemoveSelf (set_graceful GSleepBefore s))
          | GSleepBefore => Some (set_graceful GTransfer s)
          | GTransfer => Some (perform ATransfer (set_graceful GSleepAfter s))
          | GSleepAfter => Some (set_graceful (GFinal (Stopping (stop_acts (s_useDiscovery s)))) s)
          | _ => None
          end
      end
  end.

(** The running application, before any signal. *)
Definition sh_init (useDiscovery leader : bool) (a : AppState) : Shutdown :=
  mkShutdown useDiscovery leader a [] 0 false 0 NotStopping false false GWaiting 0 0 None.

Definition sh_run (l : list label) (s : Shutdown) : option Shutdown := ofold sh_step l s.

(** ** What holds in every state *)

(** [st] has done the first part of what [Stop] does, in that order; it has
    returned only when done, or after the timeout. *)
Definition stop_ok (u : bool) (acts : list act) (timeouts : nat) (st : stopping) : Prop :=
  match st with
  | NotStopping => True
  | Stopping rest => ∃ finished, finished ++ rest = stop_acts u ∧ finished `sublist_of` acts
  | StopReturned rest => ∃ finished, finished ++ rest = stop_acts u ∧ finished `sublist_of` acts ∧
      (rest = [] ∨ (0 < timeouts)%nat)
  end.

Definition returned (st : stopping) : Prop := ∃ rest, st = StopReturned rest.

Record sh_inv (s : Shutdown) : Prop := mkShInv {
  si_worker : worker_inv (a_worker (s_app s));
  si_evictor e : a_slotEvictor (s_app s) = Some e → e_closed e = true → (1 <= s_losses s)%nat;
  si_stop c : stop_ok (s_useDiscovery s) (s_acts s) (s_timeouts s) (get_stop c s);
  si_count : (s_shutdownCount s + (if s_sigCh s then 1 else 0) <= s_signals s)%nat;
  si_lost : s_shutdownCount s = 0%nat → s_signals s ≠ 0%nat → s_sigCh s = true;
  si_main : s_shutdownCount s = 0%nat ↔ s_stopper s = NotStopping;
  si_done : s_shutdownDone s = true ↔ returned (s_stopper s);
  si_exit code : s_exit s = Some code →
    (code = 0 ∧ ∃ c, returned (get_stop c s)) ∨ (code = 130 ∧ (2 <= s_signals s)%nat) ∨
    (code = 2 ∧ is_Some (a_slotEvictor (s_app s)) ∧ (2 <= s_losses s)%nat) }.

(** The parts as [NewApp] leaves them, or after some time as leader: the worker
    is in order and the stop channel of the evictor open. *)
Definition app_inv (a : AppState) : Prop :=
  worker_inv (a_worker a) ∧ ∀ e, a_slotEvictor a = Some e → e_closed e = false.

Section invariant.

Implicit Types (s : Shutdown) (c : caller) (a : act).

Lemma sh_init_inv u b p : app_inv p → sh_inv (sh_init u b p).
Proof.
  intros [Hw He]. split; simpl; try done.
  - intros e E. by rewrite (He e E).
  - by intros [].
  - split; [done|]. by intros [? [=]].
Qed.

Lemma stop_ok_more u acts k st a : stop_ok u acts k st → stop_ok u (acts ++ [a]) k st.
Proof.
  assert (∀ l, l `sublist_of` acts → l `sublist_of` acts ++ [a]) as Hsub
    by (intros l Hl; etrans; [exact Hl|apply sublist_inserts_r; done]).
  destruct st; simpl; naive_solver.
Qed.

Lemma stop_ok_timeout u acts k st : stop_ok u acts k st → stop_ok u acts (S k) st.
Proof. destruct st; simpl; naive_solver lia. Qed.

(** A step of the goroutine of [Stop]. *)
Lemma stop_ok_act u acts k a rest :
  (stop_ok u acts k (Stopping (a :: rest)) → stop_ok u (acts ++ [a]) k (Stopping rest)) ∧
  (stop_ok u acts k (StopReturned (a :: rest)) → stop_ok u (acts ++ [a]) k (StopReturned rest)).
Proof.
  assert (∀ fin, fin ++ a :: rest = stop_acts u → fin `sublist_of` acts →
    (fin ++ [a]) ++ rest = stop_acts u ∧ fin ++ [a] `sublist_of` acts ++ [a]) as Hstep.
  { intros fin <- Hfin. split; [by rewrite <-app_assoc|]. by apply sublist_app. }
  split; simpl.
  - intros (fin & E & Hfin). destruct (Hstep fin E Hfin). by exists (fin ++ [a]).
  - intros (fin & E & Hfin & Hk). destruct (Hstep fin E Hfin). exists (fin ++ [a]). naive_solver.
Qed.

(** With the invariant of the worker an action never panics. *)
Lemma perform_ok a s :
  worker_inv (a_worker (s_app s)) → ∃ w, worker_inv w ∧ perform a s = add_act a (set_worker w s).
Proof.
  intros Hw. unfold perform. case_decide.
  - destruct (worker_stop_inv _ Hw) as (w & -> & Hw' & _). by exists w.
  - exists (a_worker (s_app s)). split; [done|]. by destruct s as [? ? [] ].
Qed.

(** Changes that leave alone what the invariant is about. *)
Lemma inv_app p s :
  worker_inv (a_worker p) → (is_Some (a_slotEvictor (s_app s)) → is_Some (a_slotEvictor p)) →
  (∀ e, a_slotEvictor p = Some e → e_closed e = true → (1 <= s_losses s)%nat) →
  sh_inv s → sh_inv (set_app p s).
Proof. intros Hw Hsome He []. split; try done. simpl. naive_solver. Qed.

Lemma inv_worker w s : worker_inv w → sh_inv s → sh_inv (set_worker w s).
Proof. intros Hw Hi. apply inv_app; [done|done|apply Hi|done]. Qed.

Lemma inv_add_loss s : sh_inv s → sh_inv (add_loss s).
Proof.
  intros []. split; try done; simpl; [lia|]. intros code Hc.
  destruct (si_exit0 code Hc) as [?|[?|(? & ? & ?)]]; [by left|by right; left|].
  right; right. split_and!; [done..|lia].
Qed.

(** The monitor starts worker and evictor, and stops them. *)
Lemma inv_become s : sh_inv s → sh_inv (set_app (becomeLeader (s_app s)) s).
Proof.
  intros Hi. apply inv_app; simpl; [apply worker_start_inv, Hi|by rewrite fmap_is_Some| |done].
  intros e E Hc. destruct (a_slotEvictor (s_app s)) as [e0|] eqn:E0; simplify_eq/=.
  apply (si_evictor _ Hi e0); [done|]. unfold Evictor_Start in Hc. by destruct (e_running e0).
Qed.

Lemma inv_lose s s' :
  s_exit s = None → sh_inv s →
  s' = (match loseLeadership (s_app (add_loss s)) with
        | Some a => set_app a (add_loss s) | None => crash (add_loss s) end) →
  sh_inv s'.
Proof.
  intros Hx Hi ->. unfold loseLeadership. simpl.
  destruct (worker_stop_inv _ (si_worker _ Hi)) as (w & -> & Hw & _). cbn [mbind option_bind].
  destruct (a_slotEvictor (s_app s)) as [e|] eqn:Ee.
  2:{ apply inv_app; simpl; [done|by rewrite Ee|done|by apply inv_add_loss]. }
  unfold Evictor_Stop. destruct (e_running e) eqn:Er; [destruct (e_closed e) eqn:Ec|]; cbn [mbind option_bind].
  - pose proof (si_evictor _ Hi e Ee Ec) as Hl. destruct (inv_add_loss s Hi). split; try done.
    simpl. intros code [= <-]. right; right. rewrite Ee. split_and!; [done|by eexists|lia].
  - apply inv_app; simpl; [done|done|intros; lia|by apply inv_add_loss].
  - apply inv_app; simpl; [done|done|intros; lia|by apply inv_add_loss].
Qed.

Lemma inv_leading b s : sh_inv s → sh_inv (set_leading b s).
Proof. intros []. by split. Qed.

Lemma inv_add_act a s : sh_inv s → sh_inv (add_act a s).
Proof. intros []. split; try done. intros c. apply (stop_ok_more _ (s_acts s)), (si_stop0 c). Qed.

Lemma inv_add_timeout s : sh_inv s → sh_inv (add_timeout s).
Proof. intros []. split; try done. intros c. apply (stop_ok_timeout _ _ (s_timeouts s)), (si_stop0 c). Qed.

(** The graceful shutdown moves on without calling [Stop]. *)
Lemma inv_graceful g s :
  (∀ st, g ≠ GFinal st) → s_exit s = None → sh_inv s → sh_inv (set_graceful g s).
Proof.
  intros Hg Hx []. split; try done.
  - intros [|]; [apply (si_stop0 Main)|]. simpl. by destruct g; [..|destruct (Hg st)].
  - simpl. congruence.
Qed.

Lemma stop_begins u acts k : stop_ok u acts k (Stopping (stop_acts u)).
Proof. exists []. split; [done|]. apply sublist_nil_l. Qed.

Lemma inv_graceful_stop st s :
  stop_ok (s_useDiscovery s) (s_acts s) (s_timeouts s) st → s_exit s = None →
  sh_inv s → sh_inv (set_graceful (GFinal st) s).
Proof.
  intros Hst Hx []. split; try done.
  - intros [|]; [apply (si_stop0 Main)|done].
  - simpl. congruence.
Qed.

(** A [Stop] that is running takes a step and stays running, or returned. *)
Lemma inv_set_stop c st s :
  stop_ok (s_useDiscovery s) (s_acts s) (s_timeouts s) st → s_exit s = None →
  get_stop c s ≠ NotStopping → st ≠ NotStopping → (returned st ↔ returned (get_stop c s)) →
  sh_inv s → sh_inv (set_stop c st s).
Proof.
  intros Hst Hx Hold Hnew Hret Hi. destruct c; [|by apply inv_graceful_stop].
  destruct Hi. simpl in *. split; try done; simpl.
  - intros [|]; [done|apply (si_stop0 Graceful)].
  - tauto.
  - tauto.
  - congruence.
Qed.

(** [Stop] returns to its caller. *)
Lemma inv_return c rest s :
  stop_ok (s_useDiscovery s) (s_acts s) (s_timeouts s) (StopReturned rest) → s_exit s = None →
  get_stop c s ≠ NotStopping → sh_inv s → sh_inv (after_stop c (set_stop c (StopReturned rest) s)).
Proof.
  intros Hst Hx Hold []. destruct c; simpl in *; (split; try done; simpl).
  - intros [|]; [done|apply (si_stop0 Graceful)].
  - rewrite si_main0. split; [done|by intros [=]].
  - split; [by exists rest|done].
  - intros code Hcode. left. congruence.
  - intros [|]; [apply (si_stop0 Main)|done].
  - intros code [= <-]. left. split; [done|]. exists Graceful. by exists rest.
Qed.

(** The goroutine of [Stop] takes its next action. *)
Lemma inv_act c a st st' s :
  get_stop c s = st → s_exit s = None →
  (∃ rest, (st = Stopping (a :: rest) ∧ st' = Stopping rest) ∨
           (st = StopReturned (a :: rest) ∧ st' = StopReturned rest)) →
  sh_inv s → sh_inv (perform a (set_stop c st' s)).
Proof.
  intros Ec Hx (rest & Hst) Hi.
  destruct (perform_ok a (set_stop c st' s)) as (w & Hw & ->); [destruct c; apply Hi|].
  replace (add_act a (set_worker w (set_stop c st' s)))
    with (set_stop c st' (add_act a (set_worker w s))) by (by destruct c).
  pose proof (si_stop _ Hi c) as Hs. rewrite Ec in Hs.
  assert (get_stop c (add_act a (set_worker w s)) = st) as Ec' by (rewrite <-Ec; by destruct c).
  destruct (stop_ok_act (s_useDiscovery s) (s_acts s) (s_timeouts s) a rest) as [H1 H2].
  destruct Hst as [[-> ->]|[-> ->]];
    (apply inv_set_stop; [auto|done|by rewrite Ec'|done| |by apply inv_add_act, inv_worker]);
    rewrite Ec'; unfold returned; [split; by intros [? [=]]|split; eauto].
Qed.

Lemma inv_take_signal s : sh_inv s → sh_inv (take_signal s).
Proof. intros []. by split. Qed.

Lemma sh_step_inv l s s' : sh_step l s = Some s' → sh_inv s → sh_inv s'.
Proof.
  intros E Hi. unfold sh_step in E. destruct (s_exit s) eqn:Hx; [done|].
  pose proof (si_worker _ Hi) as Hw.
  destruct l as [|b|[|]| | |c|c|c| |]; simplify_eq.
  - destruct Hi. split; try done; simpl. destruct (s_sigCh s); lia.
  - by apply inv_leading.
  - by apply inv_become.
  - by eapply inv_lose.
  - destruct Hi as [_ He Hs Hc _ Hm Hd _]. destruct (s_sigCh s) eqn:Hsig; [|done].
    destruct (decide _) as [H1|H1]; simplify_eq; (split; try done; simpl).
    + intros [|]; [apply stop_begins|apply (Hs Graceful)].
    + lia.
    + rewrite Hd. assert (s_stopper s = NotStopping) as -> by (apply Hm; lia).
      unfold returned. naive_solver.
    + lia.
    + rewrite <-Hm. lia.
    + intros code [= <-]. right; left. split; [done|lia].
  - destruct (s_shutdownDone s) eqn:Hd; simplify_eq. destruct Hi. split; try done. simpl.
    intros code [= <-]. left. split; [done|]. exists Main. by apply si_done0.
  - destruct (get_stop c s) as [|[|a rest]|[|a rest]] eqn:Ec; simplify_eq; eapply inv_act; eauto.
  - destruct (get_stop c s) as [|[|a rest]|] eqn:Ec; simplify_eq.
    apply inv_return; [|done|by rewrite Ec|done]. pose proof (si_stop _ Hi c) as Hs.
    rewrite Ec in Hs. simpl in *. naive_solver.
  - destruct (get_stop c s) as [|[|a rest]|] eqn:Ec; simplify_eq.
    apply inv_return; [|done|by destruct c; simpl in *; rewrite ?Ec|by apply inv_add_timeout].
    pose proof (si_stop _ Hi c) as Hs. rewrite Ec in Hs. simpl in *. naive_solver lia.
  - destruct (s_graceful s) eqn:Eg; try done. destruct (s_shutdownSignal s); simplify_eq.
    destruct (s_leader s); [by apply inv_graceful, inv_take_signal|].
    apply inv_graceful_stop; [apply stop_begins|done|by apply inv_take_signal].
  - destruct (s_graceful s) eqn:Eg; simplify_eq;
      try (match goal with |- sh_inv (perform ?a ?s0) =>
        destruct (perform_ok a s0) as (w & Hw' & ->); [done|];
        apply inv_add_act, inv_worker; [done|] end); try by apply inv_graceful.
    apply inv_graceful_stop; [apply stop_begins|done|done].
Qed.

Lemma sh_run_inv l s s' : sh_run l s = Some s' → sh_inv s → sh_inv s'.
Proof.
  unfold sh_run. revert s. induction l as [|x l IH]; intros s E Hi; [by simplify_eq/=|].
  simpl in E. destruct (sh_step x s) as [s1|] eqn:E1; [|done]. by eapply IH, sh_step_inv.
Qed.

End invariant.

(** ** How a process ends *)

(** The steps of the program itself. *)
Definition internal (l : label) : Prop :=
  match l with LSignal | LLeadership _ | LMonitor _ => False | _ => True end.

(** Those that wait for nothing but a clock or a channel that is ready: no
    library takes part in them. *)
Definition prompt (l : label) : Prop :=
  match l with LMainRecv | LMainExit | LReturn _ | LTimeout _ => True | _ => False end.

Definition stop_weight (st : stopping) : nat :=
  match st with
  | NotStopping => 0
  | Stopping rest => 2 + length rest
  | StopReturned rest => length rest
  end.

Definition graceful_weight (g : graceful) : nat :=
  match g with
  | GWaiting => 14 | GStopWorker => 13 | GRemovePeer => 12 | GSleepBefore => 11
  | GTransfer => 10 | GSleepAfter => 9
  | GFinal st => stop_weight st
  end.

(** Steps left, before the next signal. *)
Definition steps_left (s : Shutdown) : nat :=
  match s_exit s with
  | Some _ => 0
  | None => 1 + (if s_sigCh s then 9 else 0) + stop_weight (s_stopper s) + graceful_weight (s_graceful s)
  end.

Section ending.

Implicit Types (s : Shutdown) (c : caller) (a : act).

Lemma stop_acts_length u : (length (stop_acts u) <= 6)%nat.
Proof. destruct u; simpl; lia. Qed.

Lemma perform_weight a s : (steps_left (perform a s) <= steps_left s)%nat.
Proof.
  unfold perform. case_decide; [destruct (Worker_Stop _)|]; unfold steps_left; simpl; destruct (s_exit s); lia.
Qed.

Lemma internal_decreases l s s' : internal l → sh_step l s = Some s' → (steps_left s' < steps_left s)%nat.
Proof.
  intros Hl E. unfold sh_step in E. destruct (s_exit s) eqn:Hx; [done|].
  pose proof (stop_acts_length (s_useDiscovery s)) as Hlen.
  destruct l as [|b|[|]| | |c|c|c| |]; try done.
  - destruct (s_sigCh s) eqn:Hs; simplify_eq. unfold steps_left. rewrite Hx, Hs.
    destruct (decide _); simpl; [|lia]. lia.
  - destruct (s_shutdownDone s); simplify_eq. unfold steps_left. simpl. rewrite Hx. lia.
  - destruct (get_stop c s) as [|[|a rest]|[|a rest]] eqn:Ec; simplify_eq;
      (eapply Nat.le_lt_trans; [apply perform_weight|]); unfold steps_left;
      destruct c; simpl in Ec |- *; rewrite Hx; try destruct (s_graceful s); simplify_eq/=; rewrite ?Ec; simpl; lia.
  - destruct (get_stop c s) as [|[|a rest]|] eqn:Ec; simplify_eq. unfold steps_left.
    destruct c; simpl in Ec |- *; rewrite Hx; try destruct (s_graceful s); simplify_eq/=; rewrite ?Ec; simpl; lia.
  - destruct (get_stop c s) as [|[|a rest]|] eqn:Ec; simplify_eq. unfold steps_left.
    destruct c; simpl in Ec |- *; rewrite Hx; try destruct (s_graceful s); simplify_eq/=; rewrite ?Ec; simpl; lia.
  - destruct (s_graceful s) eqn:Eg; try done. destruct (s_shutdownSignal s); simplify_eq. unfold steps_left.
    simpl. rewrite Hx, Eg. destruct (s_leader s); simpl; lia.
  - destruct (s_graceful s) eqn:Eg; simplify_eq;
      try (eapply Nat.le_lt_trans; [apply perform_weight|]);
      unfold steps_left; simpl; rewrite Hx, Eg; simpl; lia.
Qed.

(** *** Ending without any library *)

Definition ends_in (k : nat) s : Prop :=
  ∃ l s', Forall prompt l ∧ (length l <= k)%nat ∧ sh_run l s = Some s' ∧ is_Some (s_exit s').

Lemma ends_step x s s1 k : prompt x → sh_step x s = Some s1 → ends_in k s1 → ends_in (S k) s.
Proof.
  intros Hx E (l & s' & Hl & Hk & Hr & He). exists (x :: l), s'.
  split_and!; [by constructor|simpl; lia| |done]. unfold sh_run. simpl. by rewrite E.
Qed.

Lemma ends_done s : s_exit s = None → s_shutdownDone s = true → ends_in 1 s.
Proof.
  intros Hx Hd. eapply (ends_step LMainExit); [done|unfold sh_step; by rewrite Hx, Hd|].
  exists [], (exit 0 s). by split_and!; [constructor| | |eexists].
Qed.

Lemma ends_stopping rest s : s_exit s = None → s_stopper s = Stopping rest → ends_in 2 s.
Proof.
  intros Hx Hs. destruct rest as [|a rest].
  - eapply (ends_step (LReturn Main)); [done|unfold sh_step; simpl; by rewrite Hx, Hs|by apply ends_done].
  - eapply (ends_step (LTimeout Main)); [done|unfold sh_step; simpl; by rewrite Hx, Hs|by apply ends_done].
Qed.

Lemma ends_soon s : sh_inv s → s_signals s ≠ 0%nat → s_exit s = None → ends_in 3 s.
Proof.
  assert (∀ j k s, (j <= k)%nat → ends_in j s → ends_in k s) as Hmono.
  { intros j k s0 Hjk (l & s' & ? & ? & ? & ?). exists l, s'. split_and!; done || lia. }
  intros Hi Hsig Hx. destruct (decide (s_shutdownCount s = 0%nat)) as [H0|H0].
  - eapply (ends_step LMainRecv); [done|unfold sh_step; by rewrite Hx, (si_lost _ Hi H0 Hsig)|].
    rewrite H0. by eapply ends_stopping.
  - destruct (s_stopper s) as [|rest|rest] eqn:Es.
    + by apply (si_main _ Hi) in Es.
    + eapply Hmono; [|by eapply ends_stopping]. lia.
    + eapply Hmono; [|apply ends_done; [done|]]; [lia|]. apply (si_done _ Hi). by exists rest.
Qed.

Lemma step_signals l s s' : sh_step l s = Some s' → (s_signals s <= s_signals s')%nat.
Proof.
  assert (∀ a s0, s_signals (perform a s0) = s_signals s0) as Hp.
  { intros a s0. unfold perform. case_decide; [by destruct (Worker_Stop _)|done]. }
  intros E. unfold sh_step in E. destruct (s_exit s); [done|].
  destruct l as [|b|[|]| | |c|c|c| |]; repeat case_match; simplify_eq; rewrite ?Hp; try destruct c; simpl; lia.
Qed.

Lemma run_signals l s s' : sh_run l s = Some s' → (s_signals s <= s_signals s')%nat.
Proof.
  unfold sh_run. revert s. induction l as [|x l IH]; intros s E; simplify_eq/=; [done|].
  destruct (sh_step x s) as [s1|] eqn:E1; [|done]. apply step_signals in E1. apply IH in E. lia.
Qed.

Lemma run_decreases l s s' :
  Forall internal l → sh_run l s = Some s' → (length l + steps_left s' <= steps_left s)%nat.
Proof.
  unfold sh_run. intros Hl. revert s. induction Hl as [|x l Hx _ IH]; intros s E; simplify_eq/=; [done|].
  destruct (sh_step x s) as [s1|] eqn:E1; [|done]. apply (internal_decreases x) in E1; [|done].
  apply IH in E. lia.
Qed.

(** What is left of a [Stop] is no more than what it began with. *)
Lemma stop_weight_le u acts k st : stop_ok u acts k st → (stop_weight st <= 8)%nat.
Proof.
  pose proof (stop_acts_length u) as Hlen.
  destruct st as [|rest|rest]; simpl; [lia|intros (fin & E & _)|intros (fin & E & _)];
    rewrite <-E, length_app in Hlen; lia.
Qed.

Lemma steps_left_le s : sh_inv s → (steps_left s <= 32)%nat.
Proof.
  intros Hi. unfold steps_left. destruct (s_exit s); [lia|].
  pose proof (stop_weight_le _ _ _ _ (si_stop _ Hi Main)) as H1.
  pose proof (stop_weight_le _ _ _ _ (si_stop _ Hi Graceful)) as H2. simpl in H1, H2.
  destruct (s_sigCh s), (s_graceful s); simpl in *; lia.
Qed.

(** C34: A signal ends the process. From any state the application can reach,
    by any interleaving of its goroutines, of signals and of leadership
    changes, and with a signal that has arrived: the program itself can take
    at most thirty-two further steps, so it does not run forever; and it does
    not get stuck, not even when every call into a library hangs: three steps
    that depend on channels and on the timeout of [Stop] alone end it. *)
Theorem shutdown_terminates u b p l s :
  app_inv p → sh_run l (sh_init u b p) = Some s → s_signals s ≠ 0%nat →
  (∀ l' s', Forall internal l' → sh_run l' s = Some s' → (length l' <= 32)%nat) ∧
  (s_exit s = None →
     ∃ l' s', Forall prompt l' ∧ (length l' <= 3)%nat ∧ sh_run l' s = Some s' ∧ is_Some (s_exit s')).
Proof.
  intros Hp Hrun Hsig. pose proof (sh_run_inv _ _ _ Hrun (sh_init_inv u b p Hp)) as Hi. split.
  - intros l' s' Hl' Hrun'. pose proof (steps_left_le s Hi). pose proof (run_decreases _ _ _ Hl' Hrun'). lia.
  - by apply ends_soon.
Qed.


(** The panic is real: an application with an evictor that becomes leader and
    loses leadership twice ends with code 2. *)
Theorem second_loss_ends_process u :
  ∃ s, sh_run [LMonitor true; LMonitor false; LMonitor true; LMonitor false]
         (sh_init u false (mkAppState NewWorker (Some NewSlotEvictor))) = Some s ∧ s_exit s = Some 2.
Proof. destruct u; eexists; (split; [vm_compute; reflexivity|reflexivity]). Qed.

Lemma run_cons x l s s1 s' : sh_step x s = Some s1 → sh_run l s1 = Some s' → sh_run (x :: l) s = Some s'.
Proof. intros E. unfold sh_run. simpl. by rewrite E. Qed.

(** Runs a given sequence of labels, the worker being stopped by [E]. *)
Ltac run_steps E1 E2 :=
  repeat first
    [ eapply run_cons;
      [lazy -[Worker_Stop]; rewrite ?E1, ?E2; lazy -[Worker_Stop]; reflexivity|]
    | reflexivity ].

(** The graceful resignation can be cut short. One signal reaches both
    goroutines of a leader: here the graceful shutdown has removed the node
    from the cluster and sleeps before it hands over leadership, when the
    other goroutine has finished [Stop] and [main] ends the process with code
    0. Leadership was never transferred. *)
Theorem resignation_can_be_cut_short u w e :
  worker_inv w →
  ∃ l s, sh_run l (sh_init u true (mkAppState w e)) = Some s ∧ s_signals s = 1%nat ∧ s_timeouts s = 0%nat ∧
    s_exit s = Some 0 ∧ ARemoveSelf ∈ s_acts s ∧ ATransfer ∉ s_acts s.
Proof.
  intros Hw. destruct (worker_stop_inv w Hw) as (w1 & E1 & Hw1 & Hr1).
  assert (Worker_Stop w1 = Some w1) as E2 by (unfold Worker_Stop; by rewrite Hr1).
  exists ([LSignal; LGracefulRecv; LGraceful; LGraceful; LMainRecv] ++
    replicate (length (stop_acts u)) (LAct Main) ++ [LReturn Main; LMainExit]).
  destruct u; (eexists; split; [simpl replicate; simpl app; run_steps E1 E2|]);
    split_and!; try done; apply (bool_decide_unpack _); reflexivity.
Qed.

End ending.

(** The application as [NewApp] makes it, with an evictor. *)
Definition ex_parts : AppState := mkAppState NewWorker (Some NewSlotEvictor).

Lemma ex_parts_inv : app_inv ex_parts.
Proof. split; [exact new_worker_inv|]. by intros e [= <-]. Qed.

(** The state a given run from it ends in. *)
Definition ex_end (b : bool) (l : list label) : Shutdown :=
  default (sh_init true b ex_parts) (sh_run l (sh_init true b ex_parts)).

Definition ex_stop : list label :=
  [LSignal; LMainRecv] ++ replicate 6 (LAct Main) ++ [LReturn Main; LMainExit].

Lemma shutdown_terminates_witness :
  sh_run [LSignal; LMainRecv] (sh_init true true ex_parts) = Some (ex_end true [LSignal; LMainRecv]) ∧
  ∃ l' s', Forall prompt l' ∧ sh_run l' (ex_end true [LSignal; LMainRecv]) = Some s' ∧ is_Some (s_exit s').
Proof.
  assert (sh_run [LSignal; LMainRecv] (sh_init true true ex_parts) = Some (ex_end true [LSignal; LMainRecv])) as E
    by (vm_compute; reflexivity).
  split; [exact E|].
  destruct (shutdown_terminates true true ex_parts [LSignal; LMainRecv]
    (ex_end true [LSignal; LMainRecv]) ex_parts_inv E) as [_ Hend]; [vm_compute; discriminate|].
  destruct Hend as (l' & s' & Hl & _ & Hr & Hx); [vm_compute; reflexivity|].
  exists l', s'. split; [exact Hl|]. split; [exact Hr|exact Hx].
Defined.


Lemma resignation_can_be_cut_short_witness :
  ∃ l s, sh_run l (sh_init true true (mkAppState (Worker_Start NewWorker) None)) = Some s ∧ s_exit s = Some 0 ∧
    ATransfer ∉ s_acts s.
Proof.
  destruct (resignation_can_be_cut_short true (Worker_Start NewWorker) None) as (l & s & E & _ & _ & Hx & _ & Ht).
  - exact (worker_start_inv _ new_worker_inv).
  - exists l, s. split; [exact E|]. split; [exact Hx|exact Ht].
Defined.
