(* ===== verification/Startup.v ===== *)
(** * Starting up: [NewStoreWithColdSpilling], [NewApp], [App.Start] and [main]

    What a process opens while it starts, in which order, and what is left
    open when a step fails. The file system, name resolution, BoltDB and Raft
    are third-party or part of the machine: class [Machine] gives what each
    call answers. A path is kept as its directory and file name. *)

From S2P Require Import Prelude GoStrings GoFloat GoDuration Json Sanitize TimingWheel Types Codec ColdStore FSM.
From S2P Require Import Store StatusTracker Limits SlotQueue ExecutionManager Evictor Gateway Config Bootstrap.
From S2P Require Import StoreProps SlotQueueProps Lifecycle Metrics Router Setup.

(** ** The machine *)

Definition path : Type := string * string.

(** What the process holds open. *)
Inductive resource :=
  | RColdDB (p : path)
  | RTransport (bind advertise : string)
  | RLogDB (p : path)
  | RStableDB (p : path)
  | RRaft (localID : string).

#[export] Instance resource_eq_dec : EqDecision resource.
Proof. solve_decision. Defined.

Record Host := mkHost {
  h_dirs : gset string;
  h_open : list resource }.

Class Machine := {
  bolt_Open : Host → path → option error;
  CreateBucketIfNotExists : path → option error;
  MkdirAll : string → option error;
  ResolveTCPAddr : string → string + error;
  NewTCPTransportWithConfig : string → string → option error;
  NewFileSnapshotStore : string → option error;
  NewBoltStore : Host → path → option error;
  NewRaft : string → option error }.

(** Opening a database creates its file, but not the directory of it. *)
Class MachineLaws `{Machine} := {
  open_needs_dir h p : p.1 ∉ h_dirs h → is_Some (bolt_Open h p) }.

Definition hold (r : resource) : M Host unit := modify (λ h, mkHost (h_dirs h) (h_open h ++ [r])).

(** A resource is closed again. *)
Definition release (r : resource) : M Host unit :=
  modify (λ h, mkHost (h_dirs h) (filter (λ r', r' ≠ r) (h_open h))).

(** ** store.go *)

(** [raft.Config], the fields that are set. *)
Record RaftConfig := mkRaftConfig {
  rc_LocalID : string;
  rc_HeartbeatTimeout : Z;
  rc_ElectionTimeout : Z;
  rc_CommitTimeout : Z;
  rc_LeaderLeaseTimeout : Z }.

Record StoreHandle := mkStoreHandle {
  st_raft : RaftConfig;
  st_provider : dnsAddressProvider;
  st_transport : string;
  st_transportTimeout : Z;
  st_nodeID : string;
  st_raftBind : string;
  st_raftAdvertise : string;
  st_httpBind : string;
  st_coldStore : option path }.

(** [cachedApplyTimeout] *)
Definition getApplyTimeout (getenv : Getenv) : Z := getEnvParsed ParseDuration getenv "RAFT_APPLY_TIMEOUT" (5 * Second).

Definition transport_timeout (getenv : Getenv) : Z :=
  getEnvParsed ParseDuration getenv "RAFT_TRANSPORT_TIMEOUT" (10 * Second).

Definition raft_config (nodeID : string) : RaftConfig :=
  mkRaftConfig nodeID (5000 * 1000000) (5000 * 1000000) (200 * 1000000) (4000 * 1000000).

(** The name of a pod of the stateful set. *)
Definition pod_dns (nodeID : string) : string := nodeID +:+ ".scheduled-db.default.svc.cluster.local:7000".

Definition getDNSAddress (s : StoreHandle) : string :=
  if HasPrefix (st_nodeID s) "scheduled-db-" then pod_dns (st_nodeID s) else st_transport s.

Definition GetHTTPBind (s : StoreHandle) : string := st_httpBind s.

Definition SetHTTPBind (b : string) (s : StoreHandle) : StoreHandle :=
  mkStoreHandle (st_raft s) (st_provider s) (st_transport s) (st_transportTimeout s) (st_nodeID s)
    (st_raftBind s) (st_raftAdvertise s) b (st_coldStore s).

Section NewStore.

Context `{Machine}.

Local Open Scope go_scope.

(** [if err != nil { return nil, fmt.Errorf(...) }] *)
Definition or_fail {A} (prefix : string) (err : option error) (k : M Host (A + error)) : M Host (A + error) :=
  match err with Some e => mreturn (inr (flatf prefix e)) | None => k end.

Definition NewBoltColdSlotStore (dataDir : string) : M Host (path + error) :=
  let dbPath := (dataDir, "cold_slots.db") in
  h <- gets id ;;
  or_fail "failed to open cold slots database: " (bolt_Open h dbPath)
    (hold (RColdDB dbPath) ;;
     match CreateBucketIfNotExists dbPath with
     | Some e =>
         release (RColdDB dbPath) ;;
         mreturn (inr (flatf "failed to create cold slots bucket: " e))
     | None => mreturn (inl dbPath)
     end).

(** The address the transport advertises. *)
Definition finalAdvertiseAddr (nodeID advertiseAddr : string) : string :=
  if HasPrefix nodeID "scheduled-db-" then
    match ResolveTCPAddr (pod_dns nodeID) with inl a => a | inr _ => advertiseAddr end
  else advertiseAddr.

(** From the data directory on. *)
Definition open_raft (getenv : Getenv) (dataDir raftBind raftAdvertise nodeID : string)
    (coldStore : option path) (addrProvider : dnsAddressProvider) : M Host (StoreHandle + error) :=
  or_fail "failed to create data directory: " (MkdirAll dataDir)
    (modify (λ h, mkHost ({[dataDir]} ∪ h_dirs h) (h_open h)) ;;
     match ResolveTCPAddr raftAdvertise with
     | inr e => mreturn (inr (flatf "failed to resolve raft advertise address: " e))
     | inl advertiseAddr =>
         let final := finalAdvertiseAddr nodeID advertiseAddr in
         or_fail "failed to create transport: " (NewTCPTransportWithConfig raftBind final)
           (hold (RTransport raftBind final) ;;
            or_fail "failed to create snapshot store: " (NewFileSnapshotStore dataDir)
              (h <- gets id ;;
               or_fail "failed to create log store: " (NewBoltStore h (dataDir, "logs.db"))
                 (hold (RLogDB (dataDir, "logs.db")) ;;
                  h <- gets id ;;
                  or_fail "failed to create stable store: " (NewBoltStore h (dataDir, "stable.db"))
                    (hold (RStableDB (dataDir, "stable.db")) ;;
                     or_fail "failed to create raft: " (NewRaft nodeID)
                       (hold (RRaft nodeID) ;;
                        mreturn (inl (mkStoreHandle (raft_config nodeID) addrProvider final
                          (transport_timeout getenv) nodeID raftBind raftAdvertise EmptyString coldStore)))))))
     end).

(** The list of peers is not used. *)
Definition NewStoreWithColdSpilling (getenv : Getenv) (dataDir raftBind raftAdvertise nodeID : string)
    (peers : list string) (enableColdSpilling : bool) (addrProvider : dnsAddressProvider)
    : M Host (StoreHandle + error) :=
  let raftAdvertise := pod_advertise getenv raftAdvertise in
  if enableColdSpilling then
    c <- NewBoltColdSlotStore dataDir ;;
    match c with
    | inr e => mreturn (inr (flatf "failed to create cold slot store: " e))
    | inl p => open_raft getenv dataDir raftBind raftAdvertise nodeID (Some p) addrProvider
    end
  else open_raft getenv dataDir raftBind raftAdvertise nodeID None addrProvider.

(** [Close] of the store: the cold store, whose error is only logged, then
    Raft; [shutdown] is what [raft.Shutdown().Error()] answers. *)
Definition Store_Close (shutdown : option error) (s : StoreHandle) : M Host (option error) :=
  match st_coldStore s with Some p => release (RColdDB p) | None => mreturn tt end ;;
  release (RRaft (st_nodeID s)) ;;
  mreturn shutdown.

End NewStore.

(** ** app.go *)

Record AppConfig := mkAppConfig {
  ac_DataDir : string;
  ac_RaftBind : string;
  ac_RaftAdvertise : string;
  ac_HTTPBind : string;
  ac_NodeID : string;
  ac_Peers : list string;
  ac_SlotGap : Z;
  ac_Topologies : list Topology;
  ac_ExecutionTimeout : Z;
  ac_InProgressTimeout : Z;
  ac_MaxExecutionAttempts : Z;
  ac_HistoryRetention : Z;
  ac_HealthFailureThreshold : float64;
  ac_QueueMemoryLimit : Z;
  ac_QueueJobLimit : Z;
  ac_EnableColdSpilling : bool;
  ac_ColdSpillingHotWindow : Z;
  ac_ColdSpillingCheckInterval : Z;
  ac_TimingWheelConfigs : list WheelLevelConfig;
  ac_BootstrapExpect : Z;
  ac_HTTPReadTimeout : Z;
  ac_HTTPReadHeaderTimeout : Z;
  ac_HTTPWriteTimeout : Z;
  ac_HTTPIdleTimeout : Z;
  ac_MaxRequestBodySize : Z;
  ac_AuthToken : string }.

(** [http.Server]; the handler of the API is [app_service] below. *)
Record HTTPServer := mkHTTPServer {
  hs_Addr : string;
  hs_ReadTimeout : Z;
  hs_ReadHeaderTimeout : Z;
  hs_WriteTimeout : Z;
  hs_IdleTimeout : Z }.

Record App := mkApp {
  app_store : StoreHandle;
  app_executionManager : ExecutionManager;
  app_inProgressTimeout : Z;
  app_slotQueue : Queue;
  app_state : AppState;
  app_evictorConfig : option SlotEvictionConfig;
  app_service : Service;
  app_httpServer : HTTPServer;
  app_metricsServer : HTTPServer;
  app_topologies : list Topology;
  app_nodeID : string;
  app_raftAdvertise : string;
  app_useDiscovery : bool;
  app_bootstrapExpect : Z;
  app_peerTracker : option peerTracker;
  app_pruning : Z }.

(** What the process has while it starts. *)
Record Boot := mkBoot { b_host : Host; b_proc : Process }.

Definition metrics_config (nodeID : string) : MetricsConfig :=
  mkMetricsConfig "scheduled-db" "1.0.0" nodeID "production" 9090 "/metrics".

Section NewApp.

Context `{Machine} `{OTel} `{Meter} `{PkgCluster}.

(** [pkgcluster.IntConfigFromMap] *)
Variable IntConfigFromMap : gmap string json → string → Z → Z.

Local Open Scope go_scope.

Definition on_host {A} (c : M Host A) : M Boot A :=
  λ b, match c (b_host b) with Some (a, h) => Some (a, mkBoot h (b_proc b)) | None => None end.

Definition on_proc {A} (c : M Process A) : M Boot A :=
  λ b, match c (b_proc b) with Some (a, p) => Some (a, mkBoot (b_host b) p) | None => None end.

(** The port of a topology is written back into its map. *)
Definition with_port (t : Topology) : Topology :=
  mkTopology (topo_Name t) (topo_Strategy t)
    (<["port" := JNum (pretty (IntConfigFromMap (topo_Config t) "port" 7000))]> (topo_Config t)).

Definition slot_queue (c : AppConfig) : option Queue :=
  match ac_TimingWheelConfigs c with
  | [] => NewPersistentSlotQueue (ac_SlotGap c)
  | configs => NewPersistentSlotQueueWithConfig (ac_SlotGap c) configs
  end.

(** The fields of the application, once the store and the queue are there. *)
Definition assemble (getenv : Getenv) (c : AppConfig) (s : StoreHandle) (q : Queue) : App :=
  let evictor := if ac_EnableColdSpilling c then
      Some (fill_defaults (mkSlotEvictionConfig true (ac_ColdSpillingHotWindow c) (ac_ColdSpillingCheckInterval c)))
    else None in
  let lm := mkLimitManager (ac_QueueMemoryLimit c) (ac_QueueJobLimit c) NewSizeCalculator in
  let topologies := with_port <$> ac_Topologies c in
  mkApp (SetHTTPBind (ac_HTTPBind c) s)
    (mkExecutionManager (ac_NodeID c) (ac_ExecutionTimeout c) (ac_MaxExecutionAttempts c))
    (ac_InProgressTimeout c) q
    (mkAppState NewWorker (match evictor with Some _ => Some NewSlotEvictor | None => None end)) evictor
    (mkService getenv (NewHandlers getenv true (Some lm) (ac_HealthFailureThreshold c)) (ac_NodeID c)
       (ac_AuthToken c) (ac_MaxRequestBodySize c))
    (mkHTTPServer (ac_HTTPBind c) (ac_HTTPReadTimeout c) (ac_HTTPReadHeaderTimeout c) (ac_HTTPWriteTimeout c)
       (ac_HTTPIdleTimeout c))
    (mkHTTPServer (":" +:+ pretty 9090) 0 0 0 0)
    topologies (ac_NodeID c) (ac_RaftAdvertise c) (negb (bool_decide (topologies = []))) (ac_BootstrapExpect c)
    (if decide (0 < ac_BootstrapExpect c) then Some (newPeerTracker (ac_BootstrapExpect c)) else None)
    (ac_HistoryRetention c).

(** [env] is [OTEL_EXPORTER_OTLP_ENDPOINT]. The function that shuts the
    metrics down is called when the store fails, and dropped otherwise. *)
Definition NewApp (getenv : Getenv) (c : AppConfig) : M Boot (App + error) :=
  m <- on_proc (InitializeWithOTLP (getenv "OTEL_EXPORTER_OTLP_ENDPOINT") (metrics_config (ac_NodeID c))) ;;
  match m with
  | inr e => mreturn (inr (flatf "failed to initialize metrics: " e))
  | inl (_, otlp) =>
      r <- on_host (NewStoreWithColdSpilling getenv (ac_DataDir c) (ac_RaftBind c) (ac_RaftAdvertise c)
             (ac_NodeID c) (ac_Peers c) (ac_EnableColdSpilling c) (address_provider (ac_Topologies c))) ;;
      match r with
      | inr e => on_proc (cleanup otlp) ;; mreturn (inr (flatf "failed to create store: " e))
      | inl s =>
          q <- lift_opt (slot_queue c) ;;
          mreturn (inl (assemble getenv c s q))
      end
  end.

End NewApp.

(** ** [App.Start] *)

Inductive start_event := StartDiscovery | StartHTTP (addr : string) | StartMetrics (addr : string).

(** A node while it starts: its store and queue, worker and evictor, and what
    was started, in order. *)
Record Starting (CS : Type) := mkStarting {
  sg_node : Node CS Queue;
  sg_app : AppState;
  sg_started : list start_event }.

Arguments mkStarting {CS}.
Arguments sg_node {CS}.
Arguments sg_app {CS}.
Arguments sg_started {CS}.

Section Start.

Context {CS : Type} `{ColdSlotStore CS} `{GoRange} `{Env} `{Cluster}.

Local Open Scope go_scope.

Notation SM := (M (Starting CS)).

Definition node_op {A} (c : M (Node CS Queue) A) : SM A :=
  λ s, match c (sg_node s) with
       | Some (a, n) => Some (a, mkStarting n (sg_app s) (sg_started s))
       | None => None
       end.

Definition started (e : start_event) : SM unit :=
  modify (λ s, mkStarting (sg_node s) (sg_app s) (sg_started s ++ [e])).

(** [tracker] is what discovery has put into the tracker of peers when the
    wait is over, [ctxDone] whether the five minutes are. *)
Definition App_Start (leaderCh : nat → bool) (localAddr : string) (tracker : option peerTracker)
    (ctxDone : bool) (a : App) : SM (option error) :=
  (if app_useDiscovery a then started StartDiscovery else mreturn tt) ;;
  e <- (if decide (0 < app_bootstrapExpect a)
        then node_op (waitForBootstrap leaderCh (app_nodeID a) localAddr tracker ctxDone)
        else mreturn None) ;;
  match e with
  | Some e => mreturn (Some (flatf "bootstrap-expect: " e))
  | None =>
      l <- node_op IsLeader ;;
      (if (l : bool) then modify (λ s, mkStarting (sg_node s) (becomeLeader (sg_app s)) (sg_started s))
       else mreturn tt) ;;
      started (StartHTTP (hs_Addr (app_httpServer a))) ;;
      started (StartMetrics (hs_Addr (app_metricsServer a))) ;;
      mreturn None
  end.

End Start.

(** ** main.go *)

(** The flags, by name. *)
Record Flags := mkFlags {
  bootstrap_expect : Z;
  data_dir : string;
  raft_port : string;
  http_port : string;
  node_id : string;
  peers_flag : string;
  slot_gap : Z;
  discovery_strategy_flag : string;
  kubernetes_namespace : string;
  kubernetes_service_name : string;
  raft_host : string;
  raft_advertise_host : string;
  http_host : string;
  execution_timeout : Z;
  inprogress_timeout : Z;
  max_attempts : Z;
  history_retention : Z;
  health_failure_threshold : float64;
  queue_memory_limit : string;
  queue_memory_percent : float64;
  queue_job_limit : Z;
  enable_cold_spilling : bool;
  cold_spilling_hot_window : Z;
  cold_spilling_check_interval : Z;
  htw_level0_granularity : Z;
  htw_level0_buckets : Z;
  htw_level1_granularity : Z;
  htw_level1_buckets : Z;
  htw_level2_granularity : Z;
  htw_level2_buckets : Z;
  http_read_timeout : Z;
  http_read_header_timeout : Z;
  http_write_timeout : Z;
  http_idle_timeout : Z;
  max_request_body_size : Z;
  auth_token : string }.

Definition getEnvDurationOrDefault : Getenv → string → Z → Z := getEnvParsed ParseDuration.

Definition Minute : Z := 60 * Second.
Definition Hour : Z := 60 * Minute.

(** What the flags are when the command line says nothing. The two floats
    are arguments; [CommandLine] reads them. *)
Definition default_flags (getenv : Getenv) (threshold percent : float64) : Flags :=
  let str := getEnvOrDefault getenv in
  let int := getEnvIntOrDefault getenv in
  let dur := getEnvDurationOrDefault getenv in
  {| bootstrap_expect := int "BOOTSTRAP_EXPECT" 0;
     data_dir := str "DATA_DIR" "./data";
     raft_port := str "RAFT_PORT" "7000";
     http_port := str "HTTP_PORT" "8080";
     node_id := str "NODE_ID" "node-1";
     peers_flag := str "PEERS" EmptyString;
     slot_gap := dur "SLOT_GAP" (10 * Second);
     discovery_strategy_flag := str "DISCOVERY_STRATEGY" EmptyString;
     kubernetes_namespace := str "KUBERNETES_NAMESPACE" EmptyString;
     kubernetes_service_name := str "KUBERNETES_SERVICE_NAME" EmptyString;
     raft_host := str "RAFT_HOST" "localhost";
     raft_advertise_host := str "RAFT_ADVERTISE_HOST" EmptyString;
     http_host := str "HTTP_HOST" EmptyString;
     execution_timeout := dur "JOB_EXECUTION_TIMEOUT" (5 * Minute);
     inprogress_timeout := dur "JOB_INPROGRESS_TIMEOUT" (5 * Minute);
     max_attempts := int "MAX_EXECUTION_ATTEMPTS" 3;
     history_retention := dur "EXECUTION_HISTORY_RETENTION" (30 * 24 * Hour);
     health_failure_threshold := threshold;
     queue_memory_limit := str "QUEUE_MEMORY_LIMIT" EmptyString;
     queue_memory_percent := percent;
     queue_job_limit := getEnvInt64OrDefault getenv "QUEUE_JOB_LIMIT" 100000;
     enable_cold_spilling := getEnvBoolOrDefault getenv "ENABLE_COLD_SPILLING" false;
     cold_spilling_hot_window := dur "COLD_SPILLING_HOT_WINDOW" (48 * Hour);
     cold_spilling_check_interval := dur "COLD_SPILLING_CHECK_INTERVAL" (5 * Minute);
     htw_level0_granularity := dur "HTW_LEVEL0_GRANULARITY" 0;
     htw_level0_buckets := int "HTW_LEVEL0_BUCKETS" 360;
     htw_level1_granularity := dur "HTW_LEVEL1_GRANULARITY" 0;
     htw_level1_buckets := int "HTW_LEVEL1_BUCKETS" 24;
     htw_level2_granularity := dur "HTW_LEVEL2_GRANULARITY" 0;
     htw_level2_buckets := int "HTW_LEVEL2_BUCKETS" 365;
     http_read_timeout := dur "HTTP_READ_TIMEOUT" (30 * Second);
     http_read_header_timeout := dur "HTTP_READ_HEADER_TIMEOUT" (10 * Second);
     http_write_timeout := dur "HTTP_WRITE_TIMEOUT" (30 * Second);
     http_idle_timeout := dur "HTTP_IDLE_TIMEOUT" (60 * Second);
     max_request_body_size := getEnvInt64OrDefault getenv "MAX_REQUEST_BODY_SIZE" (10 * 1024 * 1024);
     auth_token := str "AUTH_TOKEN" EmptyString |}.

(** The topologies, or the error [main] exits with. *)
Definition main_topologies (getenv : Getenv) (fl : Flags) : list Topology + error :=
  let strategy := discovery_strategy getenv (discovery_strategy_flag fl) in
  if decide (strategy = "none") then inl []
  else
    match buildTopology getenv strategy (node_id fl) (peer_list (peers_flag fl)) (kubernetes_namespace fl)
            (kubernetes_service_name fl) with
    | inl t => inl [t]
    | inr e => inr e
    end.

(** The configuration [main] builds; [Sys] is the memory the runtime reports. *)
Definition main_config (Sys : Z) (getenv : Getenv) (fl : Flags) : AppConfig + error :=
  match main_topologies getenv fl with
  | inr e => inr e
  | inl topologies =>
      inl {| ac_DataDir := data_dir fl;
             ac_RaftBind := raft_host fl +:+ ":" +:+ raft_port fl;
             ac_RaftAdvertise := raft_advertise (raft_host fl) (raft_advertise_host fl) (raft_port fl);
             ac_HTTPBind := http_host fl +:+ ":" +:+ http_port fl;
             ac_NodeID := node_id fl;
             ac_Peers := peer_list (peers_flag fl);
             ac_SlotGap := slot_gap fl;
             ac_Topologies := topologies;
             ac_ExecutionTimeout := execution_timeout fl;
             ac_InProgressTimeout := inprogress_timeout fl;
             ac_MaxExecutionAttempts := max_attempts fl;
             ac_HistoryRetention := history_retention fl;
             ac_HealthFailureThreshold := health_failure_threshold fl;
             ac_QueueMemoryLimit := DetectMemoryLimit Sys (queue_memory_limit fl) (queue_memory_percent fl);
             ac_QueueJobLimit := valid_job_limit (queue_job_limit fl);
             ac_EnableColdSpilling := enable_cold_spilling fl;
             ac_ColdSpillingHotWindow := cold_spilling_hot_window fl;
             ac_ColdSpillingCheckInterval := cold_spilling_check_interval fl;
             ac_TimingWheelConfigs := main_wheel_configs (slot_gap fl)
               (htw_level0_granularity fl) (htw_level0_buckets fl) (htw_level1_granularity fl)
               (htw_level1_buckets fl) (htw_level2_granularity fl) (htw_level2_buckets fl);
             ac_BootstrapExpect := bootstrap_expect fl;
             ac_HTTPReadTimeout := http_read_timeout fl;
             ac_HTTPReadHeaderTimeout := http_read_header_timeout fl;
             ac_HTTPWriteTimeout := http_write_timeout fl;
             ac_HTTPIdleTimeout := http_idle_timeout fl;
             ac_MaxRequestBodySize := max_request_body_size fl;
             ac_AuthToken := auth_token fl |}
  end.

(** Until [NewApp] has returned; an exit code is on the right. *)
Definition main_create `{Machine} `{OTel} `{Meter} `{PkgCluster}
    (IntConfigFromMap : gmap string json → string → Z → Z) (Sys : Z) (getenv : Getenv) (fl : Flags)
    : M Boot (App + Z) :=
  match main_config Sys getenv fl with
  | inr _ => mreturn (inr 1)
  | inl c =>
      (r <- NewApp IntConfigFromMap getenv c ;;
       mreturn (match r with inl a => inl a | inr _ => inr 1 end))%go
  end.

(** ** Properties *)

Section opening.

Context `{Machine}.

(** What a started store holds open, in the order it was opened. *)
Definition store_resources (dataDir raftBind final nodeID : string) (cold : bool) : list resource :=
  (if cold then [RColdDB (dataDir, "cold_slots.db")] else []) ++
  [RTransport raftBind final; RLogDB (dataDir, "logs.db"); RStableDB (dataDir, "stable.db"); RRaft nodeID].

(** Opening is ordered: [k] of the resources are open, all of them exactly on
    success. *)
Definition opened (h : Host) (rs : list resource) (r : StoreHandle + error) (h' : Host) : Prop :=
  match r with
  | inl _ => h_open h' = h_open h ++ rs
  | inr _ => ∃ k, (k < length rs)%nat ∧ h_open h' = h_open h ++ take k rs
  end.

(** The address the transport of a node advertises. *)
Definition advertised (nodeID raftAdvertise : string) : string :=
  match ResolveTCPAddr raftAdvertise with inl a => finalAdvertiseAddr nodeID a | inr _ => "" end.

(** A call that fails with [k] resources open. *)
Ltac fails_at k :=
  eexists _, _; split; [reflexivity|];
  split; [exists k; simpl; rewrite <-?app_assoc, ?app_nil_r; split; [lia|reflexivity]|];
  split; [simpl; set_solver|done].

Lemma open_raft_opens getenv dataDir bind adv nodeID cold prov h :
  ∃ r h', open_raft getenv dataDir bind adv nodeID cold prov h = Some (r, h') ∧
    opened h (store_resources dataDir bind (advertised nodeID adv) nodeID false) r h' ∧
    (MkdirAll dataDir = None → dataDir ∈ h_dirs h') ∧
    match r with
    | inl s => MkdirAll dataDir = None ∧ s = mkStoreHandle (raft_config nodeID) prov (advertised nodeID adv) (transport_timeout getenv)
                     nodeID bind adv "" cold
    | inr _ => True
    end.
Proof.
  unfold open_raft, or_fail, advertised. destruct (MkdirAll dataDir) as [e|]; [fails_at 0%nat|].
  unfold mthen, hold, modify, gets, id. destruct (ResolveTCPAddr adv) as [a|e]; [|fails_at 0%nat].
  destruct (NewTCPTransportWithConfig _ _) as [e|]; [fails_at 0%nat|].
  destruct (NewFileSnapshotStore _) as [e|]; [fails_at 1%nat|]. cbn.
  destruct (NewBoltStore _ (_, "logs.db")) as [e|]; [fails_at 1%nat|]. cbn.
  destruct (NewBoltStore _ (_, "stable.db")) as [e|]; [fails_at 2%nat|]. cbn.
  destruct (NewRaft _) as [e|]; [fails_at 3%nat|]. cbn.
  eexists _, _. split; [reflexivity|]. split; [simpl; by rewrite <-!app_assoc|].
  split; [simpl; set_solver|done].
Qed.

Lemma cold_store_opens dataDir h :
  RColdDB (dataDir, "cold_slots.db") ∉ h_open h →
  ∃ r h', NewBoltColdSlotStore dataDir h = Some (r, h') ∧ h_dirs h' = h_dirs h ∧
    match r with
    | inl p => p = (dataDir, "cold_slots.db") ∧ h_open h' = h_open h ++ [RColdDB p]
    | inr _ => h_open h' = h_open h
    end.
Proof.
  intros Hn. unfold NewBoltColdSlotStore, or_fail, mthen, hold, release, gets, modify, id.
  destruct (bolt_Open _ _) as [e|]; [by eexists _, _|]. cbn.
  destruct (CreateBucketIfNotExists _) as [e|]; [|by eexists _, _].
  eexists _, _. split; [reflexivity|]. split; [done|]. simpl. rewrite filter_app.
  rewrite filter_cons_False by auto. rewrite filter_nil, app_nil_r.
  induction (h_open h) as [|r l IH]; [done|]. apply not_elem_of_cons in Hn as [Hr Hn].
  rewrite filter_cons_True by auto. by rewrite IH.
Qed.

Lemma new_store_opens getenv dataDir bind adv nodeID peers cold prov h :
  h_open h = [] →
  ∃ r h', NewStoreWithColdSpilling getenv dataDir bind adv nodeID peers cold prov h = Some (r, h') ∧
    let rs := store_resources dataDir bind (advertised nodeID (pod_advertise getenv adv)) nodeID cold in
    match r with
    | inl s => h_open h' = rs ∧ dataDir ∈ h_dirs h' ∧ (is_Some (st_coldStore s) ↔ cold = true) ∧
        st_nodeID s = nodeID ∧ st_transport s = advertised nodeID (pod_advertise getenv adv)
    | inr _ => ∃ k, (k < length rs)%nat ∧ h_open h' = take k rs
    end.
Proof.
  intros Hh. unfold NewStoreWithColdSpilling. destruct cold.
  - destruct (cold_store_opens dataDir h) as (r & h1 & E & Hd & Hr); [by rewrite Hh; apply not_elem_of_nil|].
    unfold mthen. rewrite E. destruct r as [p|e].
    + destruct Hr as [-> Hr]. rewrite Hh in Hr. simpl in Hr.
      destruct (open_raft_opens getenv dataDir bind (pod_advertise getenv adv) nodeID
        (Some (dataDir, "cold_slots.db")) prov h1) as (r & h' & E2 & Ho & Hm & Hs).
      exists r, h'. split; [exact E2|]. unfold opened in Ho. rewrite Hr in Ho. destruct r as [s|e].
      * destruct Hs as [Hk ->]. split_and!; [done|by apply Hm|by split; eexists|done|done].
      * destruct Ho as (k & Hk & ->). exists (S k). split; [simpl in *; lia|done].
    + eexists _, _. split; [done|]. exists 0%nat. split; [simpl; lia|by rewrite Hr].
  - destruct (open_raft_opens getenv dataDir bind (pod_advertise getenv adv) nodeID None prov h)
      as (r & h' & E2 & Ho & Hm & Hs).
    exists r, h'. split; [exact E2|]. unfold opened in Ho. rewrite Hh in Ho. destruct r as [s|e]; [|done].
    destruct Hs as [Hk ->]. split_and!; [done|by apply Hm|by split; [intros [? ?]|]|done|done].
Qed.

(** What a store that is being opened holds. [NewStoreWithColdSpilling]
    always returns. On success it holds the cold store, if it was asked for,
    the transport, the two databases and Raft, opened in this order. When a
    step fails, what was opened before it is still open, exactly a proper
    prefix of that list: only a cold store without its bucket is closed again. *)
Theorem new_store_opens_in_order getenv dataDir bind adv nodeID peers cold prov h :
  h_open h = [] →
  ∃ r h', NewStoreWithColdSpilling getenv dataDir bind adv nodeID peers cold prov h = Some (r, h') ∧
    let rs := store_resources dataDir bind (advertised nodeID (pod_advertise getenv adv)) nodeID cold in
    match r with
    | inl s => h_open h' = rs ∧ dataDir ∈ h_dirs h' ∧ (is_Some (st_coldStore s) ↔ cold = true) ∧
        st_nodeID s = nodeID ∧ st_transport s = advertised nodeID (pod_advertise getenv adv)
    | inr _ => ∃ k, (k < length rs)%nat ∧ h_open h' = take k rs
    end.
Proof. apply new_store_opens. Qed.

(** Cold spilling cannot be switched on for a first start. The database
    of cold slots is opened before the data directory is made, so a start in
    a directory that does not exist fails, opens nothing and leaves the
    directory missing for the next attempt; without cold spilling the same
    start makes it. *)
Theorem first_start_needs_directory `{!MachineLaws} getenv dataDir bind adv nodeID peers prov h :
  dataDir ∉ h_dirs h →
  (∃ e, NewStoreWithColdSpilling getenv dataDir bind adv nodeID peers true prov h = Some (inr e, h)) ∧
  (MkdirAll dataDir = None →
   ∃ r h', NewStoreWithColdSpilling getenv dataDir bind adv nodeID peers false prov h = Some (r, h') ∧
     dataDir ∈ h_dirs h').
Proof.
  intros Hd. split.
  - unfold NewStoreWithColdSpilling, NewBoltColdSlotStore, or_fail, mthen, gets, id.
    destruct (open_needs_dir h (dataDir, "cold_slots.db") Hd) as [e ->]. by eexists.
  - intros Hm. destruct (open_raft_opens getenv dataDir bind (pod_advertise getenv adv) nodeID None prov h)
      as (r & h' & E & _ & Hin & _). exists r, h'. split; [exact E|by apply Hin].
Qed.

End opening.

Section creating.

Context `{Machine} `{OTel} `{Meter} `{PkgCluster}.

Variable IntConfigFromMap : gmap string json → string → Z → Z.

Local Open Scope go_scope.

(** A process before anything was opened. *)
Definition fresh (dirs : gset string) : Boot := mkBoot (mkHost dirs []) (mkProcess [] None).

Definition app_resources (getenv : Getenv) (c : AppConfig) : list resource :=
  store_resources (ac_DataDir c) (ac_RaftBind c)
    (advertised (ac_NodeID c) (pod_advertise getenv (ac_RaftAdvertise c))) (ac_NodeID c) (ac_EnableColdSpilling c).

(** What an application that was created is made of. *)
Lemma new_app_parts getenv c dirs a b :
  NewApp IntConfigFromMap getenv c (fresh dirs) = Some (inl a, b) →
  ∃ s q, slot_queue c = Some q ∧ a = assemble IntConfigFromMap getenv c s q ∧
    (is_Some (st_coldStore s) ↔ ac_EnableColdSpilling c = true) ∧ st_nodeID s = ac_NodeID c.
Proof.
  unfold NewApp, mthen, on_proc, on_host. cbn [b_proc b_host fresh].
  destruct (initialize_all_or_nothing (getenv "OTEL_EXPORTER_OTLP_ENDPOINT") (metrics_config (ac_NodeID c)))
    as (r & p & -> & _).
  destruct r as [[m otlp]|e]; [|done]. cbn [b_proc b_host].
  destruct (new_store_opens getenv (ac_DataDir c) (ac_RaftBind c) (ac_RaftAdvertise c) (ac_NodeID c)
    (ac_Peers c) (ac_EnableColdSpilling c) (address_provider (ac_Topologies c)) (mkHost dirs []))
    as (r & h & -> & Hr); [done|].
  destruct r as [s|e]; [|by destruct otlp].
  destruct Hr as (_ & _ & Hcold & Hid & _). unfold lift_opt. destruct (slot_queue c) as [q|]; [|done].
  intros E. injection E as <- _. by exists s, q.
Qed.

(** How [NewApp] ends. It returns an application made from the
    configuration and a store that holds everything, or an error. If the
    metrics cannot be set up nothing was opened. If the store fails, the
    metrics are shut down again, exporters before provider, but what the store
    had opened is not closed. When all went well the metrics are never shut
    down: nothing keeps the function that would do it. *)
Theorem new_app_outcome getenv c q dirs :
  slot_queue c = Some q →
  ∃ r b, NewApp IntConfigFromMap getenv c (fresh dirs) = Some (r, b) ∧
    match r with
    | inl a => (∃ s, a = assemble IntConfigFromMap getenv c s q ∧
                  (is_Some (st_coldStore s) ↔ ac_EnableColdSpilling c = true) ∧ st_nodeID s = ac_NodeID c) ∧
        h_open (b_host b) = app_resources getenv c ∧
        (∃ m, complete m ∧ pr_global (b_proc b) = Some m) ∧ pr_calls (b_proc b) = [CSetMeterProvider]
    | inr _ =>
        (b_host b = b_host (fresh dirs) ∧ pr_global (b_proc b) = None) ∨
        (∃ k sh, (k < length (app_resources getenv c))%nat ∧
           h_open (b_host b) = take k (app_resources getenv c) ∧
           pr_calls (b_proc b) = CSetMeterProvider :: sh ++ [CShutdownPrometheus; CShutdownProvider])
    end.
Proof.
  intros Hq. unfold NewApp, mthen, on_proc, on_host. cbn [b_proc b_host fresh].
  destruct (initialize_all_or_nothing (getenv "OTEL_EXPORTER_OTLP_ENDPOINT") (metrics_config (ac_NodeID c)))
    as (r & p & -> & Hr).
  destruct r as [[m otlp]|e]; [|by eexists _, _; split; [done|left]; destruct Hr].
  destruct Hr as (Hm & Hg & Hc & _). cbn [b_proc b_host].
  destruct (new_store_opens getenv (ac_DataDir c) (ac_RaftBind c) (ac_RaftAdvertise c) (ac_NodeID c)
    (ac_Peers c) (ac_EnableColdSpilling c) (address_provider (ac_Topologies c)) (mkHost dirs []))
    as (r & h & -> & Hr); [done|].
  destruct r as [s|e].
  - destruct Hr as (Ho & _ & Hcold & Hid & _). cbn [b_proc b_host]. unfold lift_opt. rewrite Hq.
    eexists _, _. split; [done|]. split_and!; [by exists s|done|by exists m|done].
  - destruct Hr as (k & Hk & Ho). cbn [b_proc b_host].
    destruct otlp; cbn; (eexists _, _; split; [done|]; right; exists k); simpl; rewrite Hc.
    + by exists [CShutdownOTLP].
    + by exists [].
Qed.

(** The parts of a node fit together. Whatever [main] creates, queue,
    store, limits and API are built for the same node: the wheel has the
    granularities of the flags, the limit on jobs is positive, there is an
    evictor exactly when the store has a cold store, and a tracker of peers
    exactly when the node waits for peers. *)
Theorem components_agree Sys getenv fl dirs a b :
  main_create IntConfigFromMap Sys getenv fl (fresh dirs) = Some (inl a, b) →
  st_nodeID (app_store a) = node_id fl ∧ em_nodeID (app_executionManager a) = node_id fl ∧
  sv_nodeID (app_service a) = node_id fl ∧
  GetHTTPBind (app_store a) = hs_Addr (app_httpServer a) ∧
  NewPersistentSlotQueueWithConfig (slot_gap fl) (main_wheel_configs (slot_gap fl)
    (htw_level0_granularity fl) (htw_level0_buckets fl) (htw_level1_granularity fl)
    (htw_level1_buckets fl) (htw_level2_granularity fl) (htw_level2_buckets fl)) = Some (app_slotQueue a) ∧
  (∃ lm, h_limitManager (sv_handlers (app_service a)) = Some lm ∧ 0 < lm_jobLimit lm) ∧
  (is_Some (a_slotEvictor (app_state a)) ↔ is_Some (st_coldStore (app_store a))) ∧
  (is_Some (app_peerTracker a) ↔ 0 < bootstrap_expect fl) ∧
  app_useDiscovery a = bool_decide (discovery_strategy getenv (discovery_strategy_flag fl) ≠ "none").
Proof.
  unfold main_create. destruct (main_config Sys getenv fl) as [c|e] eqn:Ec; [|done].
  unfold main_config in Ec. destruct (main_topologies getenv fl) as [ts|e] eqn:Et; [|done].
  injection Ec as Ec. intros E.
  destruct (NewApp IntConfigFromMap getenv c (fresh dirs)) as [[[a'|e] b']|] eqn:Ea;
    cbn in E; unfold mthen in E; rewrite Ea in E; try done.
  injection E as <- _. destruct (new_app_parts _ _ _ _ _ Ea) as (s & q & Hq & -> & Hcold & Hid).
  subst c. cbn in Hq, Hcold, Hid. split_and!; cbn; try done.
  - eexists. split; [reflexivity|]. cbn [lm_jobLimit]. unfold valid_job_limit.
    destruct (decide (queue_job_limit fl <= 0)); lia.
  - rewrite Hcold. destruct (enable_cold_spilling fl); split; intros Hx; try done; by destruct Hx.
  - destruct (decide (0 < bootstrap_expect fl)); (split; [by intros [? ?]|intros ?; first [done|by eexists]]).
  - unfold main_topologies in Et. destruct (decide (discovery_strategy _ _ = "none")) as [Hs|Hs].
    + injection Et as <-. rewrite (bool_decide_false (_ ≠ _)) by auto. reflexivity.
    + destruct (buildTopology _ _ _ _ _ _); [|done]. injection Et as <-.
      rewrite (bool_decide_true (_ ≠ _)) by done. reflexivity.
Qed.

End creating.

Section starting.

Context {CS : Type} `{ColdSlotStore CS} `{GoRange} `{Env} `{Cluster}.

(** What [Start] starts, and when. Once the wait for peers is over, if
    there is one, [Start] returns without an error: discovery was started
    first, if it is used, and the two servers last, after the node became
    leader if it leads. So for as long as a node waits for its peers it
    answers no request, not even whether it is healthy. *)
Theorem servers_start_last ch localAddr tracker ctxDone a (s : Starting CS) :
  (0 < app_bootstrapExpect a → ∃ pt, tracker = Some pt ∧ (pt_closed pt = true ∨ ctxDone = true)) →
  ∃ s', App_Start ch localAddr tracker ctxDone a s = Some (None, s') ∧
    sg_started s' = sg_started s ++ (if app_useDiscovery a then [StartDiscovery] else []) ++
      [StartHTTP (hs_Addr (app_httpServer a)); StartMetrics (hs_Addr (app_metricsServer a))] ∧
    ((∀ i, leader i = true) → sg_app s' = becomeLeader (sg_app s)) ∧
    ((∀ i, leader i = false) → sg_app s' = sg_app s).
Proof.
  intros Hw. unfold App_Start, mthen.
  assert (∃ s1, (if app_useDiscovery a then started StartDiscovery else mreturn tt) s = Some (tt, s1) ∧
    sg_started s1 = sg_started s ++ (if app_useDiscovery a then [StartDiscovery] else []) ∧
    sg_app s1 = sg_app s) as (s1 & -> & Hs1 & Ha1).
  { destruct (app_useDiscovery a); eexists; (split; [done|]); split; try done. by rewrite app_nil_r. }
  assert (∃ s2, (if decide (0 < app_bootstrapExpect a)
      then node_op (waitForBootstrap ch (app_nodeID a) localAddr tracker ctxDone) else mreturn None) s1 = Some (None, s2) ∧
    sg_started s2 = sg_started s1 ∧ sg_app s2 = sg_app s1) as (s2 & -> & Hs2 & Ha2).
  { case_decide as Hb; [|by exists s1]. destruct (Hw Hb) as (pt & -> & Hd).
    destruct (waitForBootstrap_calls ch (app_nodeID a) localAddr pt ctxDone (sg_node s1) Hd) as (n' & tr & E & _).
    unfold node_op. rewrite E. by eexists. }
  unfold node_op, IsLeader, ask. cbn [fst snd].
  destruct (leader (n_step (sg_node s2))) eqn:El; cbn; (eexists; split; [done|]); cbn;
    rewrite Hs2, Hs1, <-!app_assoc, Ha2, Ha1; (split; [done|]); split; intros Hl; try done; by rewrite Hl in El.
Qed.

End starting.

(** ** A concrete start *)

(** A machine on which nothing fails but a database without its directory. *)
Definition ex_machine : Machine := {|
  bolt_Open h p := if decide (p.1 ∈ h_dirs h) then None else Some (errors_New "no such file or directory");
  CreateBucketIfNotExists _ := None;
  MkdirAll _ := None;
  ResolveTCPAddr a := inl a;
  NewTCPTransportWithConfig _ _ := None;
  NewFileSnapshotStore _ := None;
  NewBoltStore _ _ := None;
  NewRaft _ := None |}.

Lemma ex_machine_laws : @MachineLaws ex_machine.
Proof. constructor. intros h p Hp. cbn. rewrite decide_False by done. by eexists. Qed.

Definition ex_otel : OTel := {| resource_New _ := None; prometheus_New := None; otlp_New _ := None |}.

Definition ex_meter : Meter := {| create_fails _ := None |}.

Definition ex_flags : Flags := default_flags (λ _, "") (f_div (f_of_Z 1) (f_of_Z 10)) (f_of_Z 50).

Definition ex_port (_ : gmap string json) (_ : string) (d : Z) : Z := d.

Definition ex_created : option ((App + Z) * Boot) :=
  @main_create ex_machine ex_otel ex_meter ex_pkg ex_port (2 ^ 33) (λ _, "") ex_flags (fresh ∅).

Lemma new_store_opens_in_order_witness :
  h_open (mkHost ∅ []) = [] ∧
  ∃ r h', @NewStoreWithColdSpilling ex_machine (λ _, "") "./data" "localhost:7000" "localhost:7000" "node-1" []
    false (NewRaftAddressProvider "" "" "" 7000) (mkHost ∅ []) = Some (r, h').
Proof.
  split; [reflexivity|].
  destruct (@new_store_opens_in_order ex_machine (λ _, "") "./data" "localhost:7000" "localhost:7000" "node-1" []
    false (NewRaftAddressProvider "" "" "" 7000) (mkHost ∅ []) eq_refl) as (r & h' & E & _).
  exists r, h'. exact E.
Defined.

Lemma first_start_needs_directory_witness :
  ∃ e, @NewStoreWithColdSpilling ex_machine (λ _, "") "./data" "localhost:7000" "localhost:7000" "node-1" []
    true (NewRaftAddressProvider "" "" "" 7000) (mkHost ∅ []) = Some (inr e, mkHost ∅ []).
Proof.
  refine (proj1 (@first_start_needs_directory ex_machine ex_machine_laws (λ _, "") "./data" "localhost:7000"
    "localhost:7000" "node-1" [] (NewRaftAddressProvider "" "" "" 7000) (mkHost ∅ []) _)).
  exact (not_elem_of_empty (C := gset string) "./data").
Defined.

Definition ex_config : option AppConfig :=
  match main_config (2 ^ 33) (λ _, "") ex_flags with inl c => Some c | inr _ => None end.

Definition created : bool := match ex_created with Some (inl _, _) => true | _ => false end.

Definition configured : bool :=
  match ex_config with Some c => match slot_queue c with Some _ => true | None => false end | None => false end.

(** What the defaults lead to. *)
Lemma components_agree_witness :
  ∃ a b, ex_created = Some (inl a, b) ∧ app_useDiscovery a = false ∧ app_peerTracker a = None.
Proof.
  assert (created = true) as Hc by (vm_compute; reflexivity). unfold created in Hc.
  destruct ex_created as [[[a|z] b]|] eqn:E; [|discriminate Hc..].
  exists a, b. split; [reflexivity|].
  destruct (@components_agree ex_machine ex_otel ex_meter ex_pkg ex_port (2 ^ 33) (λ _, "") ex_flags ∅ a b E)
    as (_ & _ & _ & _ & _ & _ & _ & Hp & Hd).
  split; [rewrite Hd; reflexivity|].
  destruct (app_peerTracker a) as [pt|]; [|reflexivity].
  exfalso. assert (0 < bootstrap_expect ex_flags) as Hx by (apply Hp; eexists; reflexivity).
  vm_compute in Hx. discriminate Hx.
Defined.

Lemma new_app_outcome_witness :
  ∃ c q r b, ex_config = Some c ∧ slot_queue c = Some q ∧
    @NewApp ex_machine ex_otel ex_meter ex_pkg ex_port (λ _, "") c (fresh ∅) = Some (r, b).
Proof.
  assert (configured = true) as Hc by (vm_compute; reflexivity). unfold configured in Hc.
  destruct ex_config as [c|] eqn:Ec; [|discriminate Hc].
  destruct (slot_queue c) as [q|] eqn:Eq; [|discriminate Hc].
  destruct (@new_app_outcome ex_machine ex_otel ex_meter ex_pkg ex_port (λ _, "") c q ∅ Eq) as (r & b & E & _).
  exists c, q, r, b. repeat split; assumption.
Defined.

(** A follower that waits for two peers. *)
Lemma servers_start_last_witness :
  ∃ a s', app_bootstrapExpect a = 2 ∧
    @App_Start MemBolt sorted_range (ex_env 200) ex_cluster (λ _, true) "db-0.svc:7000" (Some ex_tracker) false a
      (mkStarting (mkNode NewFSM ex_queue ∅ 0 []) (mkAppState NewWorker None) []) = Some (None, s').
Proof.
  pose (a := mkApp (mkStoreHandle (raft_config "db-0") (NewRaftAddressProvider "" "" "" 7000) "" 0 "db-0" "" "" "" None)
    (mkExecutionManager "db-0" 0 3) 0 ex_queue (mkAppState NewWorker None) None
    (mkService (λ _, "") (NewHandlers (λ _, "") true None (f_of_Z 0)) "db-0" "" 0)
    (mkHTTPServer ":8080" 0 0 0 0) (mkHTTPServer ":9090" 0 0 0 0) [] "db-0" "" false 2 (Some ex_tracker) 0).
  destruct (@servers_start_last MemBolt sorted_range (ex_env 200) ex_cluster (λ _, true) "db-0.svc:7000"
    (Some ex_tracker) false a (mkStarting (mkNode NewFSM ex_queue ∅ 0 []) (mkAppState NewWorker None) []))
    as (s' & E & _).
  - intros _. exists ex_tracker. split; [reflexivity|left; reflexivity].
  - exists a, s'. split; [reflexivity|exact E].
Defined.
