(* ===== verification/CommandLine.v ===== *)
(** * The command line: the flags of [cmd/scheduled-db/main.go]

    [main] declares each flag with the environment variable that gives its
    default, and [flag.Parse] reads the arguments over it. A flag set is the
    map of the flag package from names to values; its parser is translated
    here, with its ways to write a flag, and what ends the process: code 2 for
    an argument it refuses, 0 for a request for help. [documented] is the table
    of settings as README.md and the usage texts give it, against which the
    declarations and the reading of the flags are proved. *)

From S2P Require Import Prelude GoStrings GoFloat GoDuration GoNumber Json TimingWheel Types ColdStore FSM Gateway.
From S2P Require Import Store StoreProps Limits Config Bootstrap Metrics Setup Startup.
From Stdlib Require Import Ascii.

(** ** Values of flags *)

(** [stringValue], [intValue], [int64Value], [boolValue], [durationValue] and
    [float64Value]; an [int] has 64 bits. *)
Inductive flag_value :=
  | VString (s : string)
  | VInt (z : Z)
  | VBool (b : bool)
  | VDuration (d : Z)
  | VFloat (f : float64).

Definition getEnvFloatOrDefault : Getenv → string → float64 → float64 := getEnvParsed ParseFloat.

(** [Set] of a value of the type of [v]. *)
Definition set_value (v : flag_value) (s : string) : option flag_value :=
  match v with
  | VString _ => Some (VString s)
  | VInt _ => VInt <$> ParseInt_base0 s
  | VBool _ => VBool <$> ParseBool s
  | VDuration _ => VDuration <$> ParseDuration s
  | VFloat _ => VFloat <$> ParseFloat s
  end.

Definition IsBoolFlag (v : flag_value) : bool := match v with VBool _ => true | _ => false end.

Definition same_type (v v' : flag_value) : bool :=
  match v, v' with
  | VString _, VString _ | VInt _, VInt _ | VBool _, VBool _ | VDuration _, VDuration _
  | VFloat _, VFloat _ => true
  | _, _ => false
  end.

(** ** The parser of the flag package *)

Inductive argument :=
  | NotAFlag
  | Terminator
  | BadSyntax
  | AFlag (name : string) (value : option string).

(** The first equals sign that is not the first character. *)
Fixpoint split_equals (s : string) : string * option string :=
  match s with
  | EmptyString => (EmptyString, None)
  | String "=" v => (EmptyString, Some v)
  | String c s => let (n, v) := split_equals s in (String c n, v)
  end.

Definition flag_name (s : string) : argument :=
  match s with
  | EmptyString | String "-" _ | String "=" _ => BadSyntax
  | String c s => let (n, v) := split_equals s in AFlag (String c n) v
  end.

Definition read_argument (s : string) : argument :=
  match s with
  | String "-" (String "-" EmptyString) => Terminator
  | String "-" (String "-" s) => flag_name s
  | String "-" (String c s) => flag_name (String c s)
  | _ => NotAFlag
  end.

(** What [flag.Parse] leaves: the flags with the arguments it did not read, or
    the end of the process. *)
Inductive parsed :=
  | Parsed (formal : gmap string flag_value) (rest : list string)
  | Exits (code : Z).

Fixpoint flag_Parse (args : list string) (formal : gmap string flag_value) : parsed :=
  match args with
  | [] => Parsed formal []
  | s :: args' =>
      match read_argument s with
      | NotAFlag => Parsed formal args
      | Terminator => Parsed formal args'
      | BadSyntax => Exits 2
      | AFlag name value =>
          match formal !! name with
          | None => if decide (name ∈ ["help"; "h"]) then Exits 0 else Exits 2
          | Some v =>
              if IsBoolFlag v then
                match set_value v (default "true" value) with
                | Some v' => flag_Parse args' (<[name := v']> formal)
                | None => Exits 2
                end
              else
                match value, args' with
                | Some x, _ =>
                    match set_value v x with
                    | Some v' => flag_Parse args' (<[name := v']> formal)
                    | None => Exits 2
                    end
                | None, x :: args'' =>
                    match set_value v x with
                    | Some v' => flag_Parse args'' (<[name := v']> formal)
                    | None => Exits 2
                    end
                | None, [] => Exits 2
                end
          end
      end
  end.

(** ** The flags of [main] *)

(** Name and default; the default is what the environment variable says. *)
Definition flag_table (getenv : Getenv) : list (string * flag_value) :=
  let str k d := VString (getEnvOrDefault getenv k d) in
  let int k d := VInt (getEnvIntOrDefault getenv k d) in
  let int64 k d := VInt (getEnvInt64OrDefault getenv k d) in
  let dur k d := VDuration (getEnvDurationOrDefault getenv k d) in
  let flt k d := VFloat (getEnvFloatOrDefault getenv k d) in
  [("bootstrap-expect", int "BOOTSTRAP_EXPECT" 0);
   ("data-dir", str "DATA_DIR" "./data");
   ("raft-port", str "RAFT_PORT" "7000");
   ("http-port", str "HTTP_PORT" "8080");
   ("node-id", str "NODE_ID" "node-1");
   ("peers", str "PEERS" EmptyString);
   ("slot-gap", dur "SLOT_GAP" (10 * Second));
   ("discovery-strategy", str "DISCOVERY_STRATEGY" EmptyString);
   ("kubernetes-namespace", str "KUBERNETES_NAMESPACE" EmptyString);
   ("kubernetes-service-name", str "KUBERNETES_SERVICE_NAME" EmptyString);
   ("raft-host", str "RAFT_HOST" "localhost");
   ("raft-advertise-host", str "RAFT_ADVERTISE_HOST" EmptyString);
   ("http-host", str "HTTP_HOST" EmptyString);
   ("execution-timeout", dur "JOB_EXECUTION_TIMEOUT" (5 * Minute));
   ("inprogress-timeout", dur "JOB_INPROGRESS_TIMEOUT" (5 * Minute));
   ("max-attempts", int "MAX_EXECUTION_ATTEMPTS" 3);
   ("history-retention", dur "EXECUTION_HISTORY_RETENTION" (30 * 24 * Hour));
   ("health-failure-threshold", flt "HEALTH_FAILURE_THRESHOLD" (f_decimal 1 (-1)));
   ("queue-memory-limit", str "QUEUE_MEMORY_LIMIT" EmptyString);
   ("queue-memory-percent", flt "QUEUE_MEMORY_PERCENT" (f_of_Z 50));
   ("queue-job-limit", int64 "QUEUE_JOB_LIMIT" 100000);
   ("enable-cold-spilling", VBool (getEnvBoolOrDefault getenv "ENABLE_COLD_SPILLING" false));
   ("cold-spilling-hot-window", dur "COLD_SPILLING_HOT_WINDOW" (48 * Hour));
   ("cold-spilling-check-interval", dur "COLD_SPILLING_CHECK_INTERVAL" (5 * Minute));
   ("htw-level0-granularity", dur "HTW_LEVEL0_GRANULARITY" 0);
   ("htw-level0-buckets", int "HTW_LEVEL0_BUCKETS" 360);
   ("htw-level1-granularity", dur "HTW_LEVEL1_GRANULARITY" 0);
   ("htw-level1-buckets", int "HTW_LEVEL1_BUCKETS" 24);
   ("htw-level2-granularity", dur "HTW_LEVEL2_GRANULARITY" 0);
   ("htw-level2-buckets", int "HTW_LEVEL2_BUCKETS" 365);
   ("http-read-timeout", dur "HTTP_READ_TIMEOUT" (30 * Second));
   ("http-read-header-timeout", dur "HTTP_READ_HEADER_TIMEOUT" (10 * Second));
   ("http-write-timeout", dur "HTTP_WRITE_TIMEOUT" (30 * Second));
   ("http-idle-timeout", dur "HTTP_IDLE_TIMEOUT" (60 * Second));
   ("max-request-body-size", int64 "MAX_REQUEST_BODY_SIZE" (10 * 1024 * 1024));
   ("auth-token", str "AUTH_TOKEN" EmptyString)].

(** Declaring them: a name that is declared twice panics. *)
Definition declare (getenv : Getenv) : option (gmap string flag_value) :=
  let table := flag_table getenv in
  if decide (NoDup table.*1) then Some (list_to_map table) else None.

(** Reading the variables [flag.String] and the others have returned. *)
Definition as_string (v : option flag_value) : string := match v with Some (VString s) => s | _ => EmptyString end.
Definition as_int (v : option flag_value) : Z :=
  match v with Some (VInt z) => z | Some (VDuration z) => z | _ => 0 end.
Definition as_bool (v : option flag_value) : bool := match v with Some (VBool b) => b | _ => false end.
Definition as_float (v : option flag_value) : float64 := match v with Some (VFloat f) => f | _ => f_of_Z 0 end.

Definition flags_of (formal : gmap string flag_value) : Flags :=
  let str k := as_string (formal !! k) in
  let int k := as_int (formal !! k) in
  let flt k := as_float (formal !! k) in
  {| bootstrap_expect := int "bootstrap-expect";
     data_dir := str "data-dir";
     raft_port := str "raft-port";
     http_port := str "http-port";
     node_id := str "node-id";
     peers_flag := str "peers";
     slot_gap := int "slot-gap";
     discovery_strategy_flag := str "discovery-strategy";
     kubernetes_namespace := str "kubernetes-namespace";
     kubernetes_service_name := str "kubernetes-service-name";
     raft_host := str "raft-host";
     raft_advertise_host := str "raft-advertise-host";
     http_host := str "http-host";
     execution_timeout := int "execution-timeout";
     inprogress_timeout := int "inprogress-timeout";
     max_attempts := int "max-attempts";
     history_retention := int "history-retention";
     health_failure_threshold := flt "health-failure-threshold";
     queue_memory_limit := str "queue-memory-limit";
     queue_memory_percent := flt "queue-memory-percent";
     queue_job_limit := int "queue-job-limit";
     enable_cold_spilling := as_bool (formal !! "enable-cold-spilling");
     cold_spilling_hot_window := int "cold-spilling-hot-window";
     cold_spilling_check_interval := int "cold-spilling-check-interval";
     htw_level0_granularity := int "htw-level0-granularity";
     htw_level0_buckets := int "htw-level0-buckets";
     htw_level1_granularity := int "htw-level1-granularity";
     htw_level1_buckets := int "htw-level1-buckets";
     htw_level2_granularity := int "htw-level2-granularity";
     htw_level2_buckets := int "htw-level2-buckets";
     http_read_timeout := int "http-read-timeout";
     http_read_header_timeout := int "http-read-header-timeout";
     http_write_timeout := int "http-write-timeout";
     http_idle_timeout := int "http-idle-timeout";
     max_request_body_size := int "max-request-body-size";
     auth_token := str "auth-token" |}.

(** The start of [main], up to the flags; [None] is a panic. *)
Definition main_flags (getenv : Getenv) (args : list string) : option (Flags + Z) :=
  formal ← declare getenv;
  Some (match flag_Parse args formal with
        | Parsed formal _ => inl (flags_of formal)
        | Exits code => inr code
        end).

(** [main] until [NewApp] has returned. *)
Definition main_start `{Machine} `{OTel} `{Meter} `{PkgCluster}
    (IntConfigFromMap : gmap string json → string → Z → Z) (Sys : Z) (getenv : Getenv) (args : list string)
    : M Boot (App + Z) :=
  (r <- lift_opt (main_flags getenv args) ;;
   match r with
   | inl fl => main_create IntConfigFromMap Sys getenv fl
   | inr code => mreturn (inr code)
   end)%go.

(** ** Writing settings *)

(** [-name=text], [-name text], and both with two dashes. *)
Record setting := mkSetting { st_name : string; st_text : string; st_glued : bool; st_twice : bool }.

Definition dashes (twice : bool) : string := if twice then "--" else "-".

Definition write_setting (s : setting) : list string :=
  if st_glued s then [dashes (st_twice s) +:+ st_name s +:+ "=" +:+ st_text s]
  else [dashes (st_twice s) +:+ st_name s; st_text s].

Fixpoint no_equals (s : string) : bool :=
  match s with EmptyString => true | String c s => negb (bool_decide (c = "="%char)) && no_equals s end.

Definition good_name (s : string) : bool :=
  match s with
  | EmptyString => false
  | String c _ => negb (bool_decide (c = "-"%char)) && no_equals s
  end.

(** What a list of settings makes of a flag set, one after the other. *)
Definition apply_setting (s : setting) (formal : gmap string flag_value) : option (gmap string flag_value) :=
  v ← formal !! st_name s; v' ← set_value v (st_text s); Some (<[st_name s := v']> formal).

(** The text of the last setting of a flag. *)
Fixpoint last_text (name : string) (ss : list setting) : option string :=
  match ss with
  | [] => None
  | s :: ss =>
      match last_text name ss with
      | Some t => Some t
      | None => if decide (st_name s = name) then Some (st_text s) else None
      end
  end.

Definition set_last (name : string) (ss : list setting) (v : flag_value) : option flag_value :=
  match last_text name ss with Some t => set_value v t | None => Some v end.

(** A flag that is declared, written as its type allows: a boolean takes a
    value only behind an equals sign. *)
Definition setting_ok (formal : gmap string flag_value) (s : setting) : Prop :=
  good_name (st_name s) = true ∧
  ∃ v, formal !! st_name s = Some v ∧ (st_glued s = false → IsBoolFlag v = false).

(** Arguments the parser does not look at: none, or a first one that is no
    flag. *)
Definition stops (tail : list string) : Prop :=
  match tail with [] => True | s :: _ => read_argument s = NotAFlag ∨ read_argument s = Terminator end.

(** ** The flags as they are documented

    A row for every setting, as README.md and the usage texts of [main] list
    them: the flag, the environment variable, the default in the notation of
    the flag, its kind, and the field the program reads it from. The table
    shares nothing with the declarations of [main]. *)
Inductive kind := KString | KInt | KBool | KDuration | KFloat.

Record row := mkRow {
  r_flag : string;
  r_variable : string;
  r_default : string;
  r_kind : kind;
  r_field : Flags → flag_value }.

Definition documented : list row :=
  [mkRow "bootstrap-expect" "BOOTSTRAP_EXPECT" "0" KInt (VInt ∘ bootstrap_expect);
   mkRow "data-dir" "DATA_DIR" "./data" KString (VString ∘ data_dir);
   mkRow "raft-port" "RAFT_PORT" "7000" KString (VString ∘ raft_port);
   mkRow "http-port" "HTTP_PORT" "8080" KString (VString ∘ http_port);
   mkRow "node-id" "NODE_ID" "node-1" KString (VString ∘ node_id);
   mkRow "peers" "PEERS" EmptyString KString (VString ∘ peers_flag);
   mkRow "slot-gap" "SLOT_GAP" "10s" KDuration (VDuration ∘ slot_gap);
   mkRow "discovery-strategy" "DISCOVERY_STRATEGY" EmptyString KString (VString ∘ discovery_strategy_flag);
   mkRow "kubernetes-namespace" "KUBERNETES_NAMESPACE" EmptyString KString (VString ∘ kubernetes_namespace);
   mkRow "kubernetes-service-name" "KUBERNETES_SERVICE_NAME" EmptyString KString (VString ∘ kubernetes_service_name);
   mkRow "raft-host" "RAFT_HOST" "localhost" KString (VString ∘ raft_host);
   mkRow "raft-advertise-host" "RAFT_ADVERTISE_HOST" EmptyString KString (VString ∘ raft_advertise_host);
   mkRow "http-host" "HTTP_HOST" EmptyString KString (VString ∘ http_host);
   mkRow "execution-timeout" "JOB_EXECUTION_TIMEOUT" "5m" KDuration (VDuration ∘ execution_timeout);
   mkRow "inprogress-timeout" "JOB_INPROGRESS_TIMEOUT" "5m" KDuration (VDuration ∘ inprogress_timeout);
   mkRow "max-attempts" "MAX_EXECUTION_ATTEMPTS" "3" KInt (VInt ∘ max_attempts);
   mkRow "history-retention" "EXECUTION_HISTORY_RETENTION" "720h" KDuration (VDuration ∘ history_retention);
   mkRow "health-failure-threshold" "HEALTH_FAILURE_THRESHOLD" "0.1" KFloat (VFloat ∘ health_failure_threshold);
   mkRow "queue-memory-limit" "QUEUE_MEMORY_LIMIT" EmptyString KString (VString ∘ queue_memory_limit);
   mkRow "queue-memory-percent" "QUEUE_MEMORY_PERCENT" "50.0" KFloat (VFloat ∘ queue_memory_percent);
   mkRow "queue-job-limit" "QUEUE_JOB_LIMIT" "100000" KInt (VInt ∘ queue_job_limit);
   mkRow "enable-cold-spilling" "ENABLE_COLD_SPILLING" "false" KBool (VBool ∘ enable_cold_spilling);
   mkRow "cold-spilling-hot-window" "COLD_SPILLING_HOT_WINDOW" "48h" KDuration (VDuration ∘ cold_spilling_hot_window);
   mkRow "cold-spilling-check-interval" "COLD_SPILLING_CHECK_INTERVAL" "5m" KDuration
     (VDuration ∘ cold_spilling_check_interval);
   mkRow "htw-level0-granularity" "HTW_LEVEL0_GRANULARITY" "0" KDuration (VDuration ∘ htw_level0_granularity);
   mkRow "htw-level0-buckets" "HTW_LEVEL0_BUCKETS" "360" KInt (VInt ∘ htw_level0_buckets);
   mkRow "htw-level1-granularity" "HTW_LEVEL1_GRANULARITY" "0" KDuration (VDuration ∘ htw_level1_granularity);
   mkRow "htw-level1-buckets" "HTW_LEVEL1_BUCKETS" "24" KInt (VInt ∘ htw_level1_buckets);
   mkRow "htw-level2-granularity" "HTW_LEVEL2_GRANULARITY" "0" KDuration (VDuration ∘ htw_level2_granularity);
   mkRow "htw-level2-buckets" "HTW_LEVEL2_BUCKETS" "365" KInt (VInt ∘ htw_level2_buckets);
   mkRow "http-read-timeout" "HTTP_READ_TIMEOUT" "30s" KDuration (VDuration ∘ http_read_timeout);
   mkRow "http-read-header-timeout" "HTTP_READ_HEADER_TIMEOUT" "10s" KDuration (VDuration ∘ http_read_header_timeout);
   mkRow "http-write-timeout" "HTTP_WRITE_TIMEOUT" "30s" KDuration (VDuration ∘ http_write_timeout);
   mkRow "http-idle-timeout" "HTTP_IDLE_TIMEOUT" "60s" KDuration (VDuration ∘ http_idle_timeout);
   mkRow "max-request-body-size" "MAX_REQUEST_BODY_SIZE" "10485760" KInt (VInt ∘ max_request_body_size);
   mkRow "auth-token" "AUTH_TOKEN" EmptyString KString (VString ∘ auth_token)].

(** What a text says on the command line, where integers may carry the prefix
    of their base, and in the environment, where they are decimal. *)
Definition on_command_line (k : kind) (s : string) : option flag_value :=
  match k with
  | KString => Some (VString s)
  | KInt => VInt <$> ParseInt_base0 s
  | KBool => VBool <$> ParseBool s
  | KDuration => VDuration <$> ParseDuration s
  | KFloat => VFloat <$> ParseFloat s
  end.

Definition in_environment (k : kind) (s : string) : option flag_value :=
  match k with KInt => VInt <$> ParseInt s | _ => on_command_line k s end.

(** The value of a setting: the last text of the command line, or else the
    variable when it is set and can be read, or else the default. *)
Definition setting_value (getenv : Getenv) (ss : list setting) (r : row) : option flag_value :=
  match last_text (r_flag r) ss with
  | Some t => on_command_line (r_kind r) t
  | None =>
      match (if decide (getenv (r_variable r) = EmptyString) then None
             else in_environment (r_kind r) (getenv (r_variable r))) with
      | Some v => Some v
      | None => on_command_line (r_kind r) (r_default r)
      end
  end.

(** A setting of a documented flag: a boolean takes a value only behind an
    equals sign. *)
Definition well_written (s : setting) : Prop :=
  ∃ r, r ∈ documented ∧ r_flag r = st_name s ∧ (st_glued s = false → r_kind r ≠ KBool).

(** A text the flag cannot read. *)
Definition unreadable (s : setting) : Prop :=
  ∃ r, r ∈ documented ∧ r_flag r = st_name s ∧ on_command_line (r_kind r) (st_text s) = None.

Section parsing.

Implicit Types formal : gmap string flag_value.

Lemma split_equals_at n t : no_equals n = true → split_equals (n +:+ "=" +:+ t) = (n, Some t).
Proof.
  induction n as [|c n IH]; intros Hn; [done|]. apply andb_prop in Hn as [Hc Hn].
  change (String c n +:+ "=" +:+ t) with (String c (n +:+ "=" +:+ t)). specialize (IH Hn).
  destruct c as [[] [] [] [] [] [] [] []]; simpl in *; try rewrite IH; done.
Qed.

Lemma split_equals_none n : no_equals n = true → split_equals n = (n, None).
Proof.
  induction n as [|c n IH]; intros Hn; [done|]. apply andb_prop in Hn as [Hc Hn]. specialize (IH Hn).
  destruct c as [[] [] [] [] [] [] [] []]; simpl in *; try rewrite IH; done.
Qed.

(** A written flag reads back. *)
Lemma read_dashes two c s : c ≠ "-"%char → read_argument (dashes two +:+ String c s) = flag_name (String c s).
Proof.
  intros Hc. destruct two; [by destruct c as [[] [] [] [] [] [] [] []]|].
  destruct c as [[] [] [] [] [] [] [] []]; try done.
Qed.

Lemma good_name_inv n :
  good_name n = true → ∃ c s, n = String c s ∧ c ≠ "-"%char ∧ c ≠ "="%char ∧ no_equals s = true.
Proof.
  destruct n as [|c s]; [done|]. intros [H1 [H2 H3]%andb_prop]%andb_prop.
  rewrite negb_true_iff, bool_decide_eq_false in H1, H2. by exists c, s.
Qed.

Lemma flag_name_good c s :
  c ≠ "-"%char → c ≠ "="%char →
  flag_name (String c s) = let (n, v) := split_equals s in AFlag (String c n) v.
Proof. intros H1 H2. destruct c as [[] [] [] [] [] [] [] []]; done. Qed.

Lemma read_glued two n t : good_name n = true → read_argument (dashes two +:+ n +:+ "=" +:+ t) = AFlag n (Some t).
Proof.
  intros (c & s & -> & H1 & H2 & H3)%good_name_inv.
  change (String c s +:+ "=" +:+ t) with (String c (s +:+ "=" +:+ t)).
  by rewrite read_dashes, flag_name_good, split_equals_at.
Qed.

Lemma read_apart two n : good_name n = true → read_argument (dashes two +:+ n) = AFlag n None.
Proof.
  intros (c & s & -> & H1 & H2 & H3)%good_name_inv.
  by rewrite read_dashes, flag_name_good, split_equals_none.
Qed.

Lemma set_value_type v t v' : set_value v t = Some v' → same_type v v' = true.
Proof. destruct v; simpl; intros E; try (apply fmap_Some in E as (? & _ & ->)); simplify_eq; done. Qed.

(** Only the type of the old value matters. *)
Lemma set_value_same v v' t : same_type v v' = true → set_value v' t = set_value v t.
Proof. by destruct v, v'. Qed.

Lemma same_type_bool v v' : same_type v v' = true → IsBoolFlag v' = IsBoolFlag v.
Proof. by destruct v, v'. Qed.

Lemma same_type_trans v1 v2 v3 : same_type v1 v2 = true → same_type v2 v3 = true → same_type v1 v3 = true.
Proof. by destruct v1, v2, v3. Qed.

Lemma same_type_refl v : same_type v v = true.
Proof. by destruct v. Qed.

(** Two flag sets with the same flags of the same types. *)
Definition same_types formal formal' : Prop :=
  map_relation (λ _ v v', same_type v v' = true) (λ _ _, False) (λ _ _, False) formal formal'.

Lemma same_types_lookup formal formal' k :
  same_types formal formal' →
  match formal !! k, formal' !! k with
  | Some v, Some v' => same_type v v' = true
  | None, None => True
  | _, _ => False
  end.
Proof. intros Hs. specialize (Hs k). by destruct (formal !! k), (formal' !! k). Qed.

Lemma same_types_refl formal : same_types formal formal.
Proof. intros k. destruct (formal !! k); simpl; [apply same_type_refl|done]. Qed.

Lemma same_types_insert formal formal' k v v' :
  formal !! k = Some v → same_type v v' = true → same_types (<[k := v']> formal) formal' →
  same_types formal formal'.
Proof.
  intros Hv Ht Hs k'. specialize (Hs k'). destruct (decide (k' = k)) as [->|Hne].
  - rewrite lookup_insert_eq in Hs. rewrite Hv. destruct (formal' !! k); simpl in *; [|done].
    by eapply same_type_trans.
  - by rewrite lookup_insert_ne in Hs by done.
Qed.

(** Whatever the arguments are, the flags stay what they are declared as, and
    the process ends with code 0 or 2. *)
Lemma flag_Parse_typed args formal :
  match flag_Parse args formal with
  | Parsed formal' rest => same_types formal formal' ∧ rest `suffix_of` args
  | Exits code => code = 0 ∨ code = 2
  end.
Proof.
  remember (length args) as k eqn:Hk. revert args formal Hk.
  induction (lt_wf k) as [k _ IH]; intros [|s args] formal ->; simpl; [split; [apply same_types_refl|done]|].
  assert (∀ args' name v v', (length args' < S (length args))%nat → args' `suffix_of` s :: args →
    formal !! name = Some v → same_type v v' = true →
    match flag_Parse args' (<[name := v']> formal) with
    | Parsed formal' rest => same_types formal formal' ∧ rest `suffix_of` s :: args
    | Exits code => code = 0 ∨ code = 2
    end) as Hgo.
  { intros args' name v v' Hlen Hsuf Hv Ht. specialize (IH _ Hlen args' (<[name := v']> formal) eq_refl).
    destruct (flag_Parse _ _) as [formal' rest|code]; [|done]. destruct IH as [Hs Hr].
    split; [by eapply same_types_insert|by etrans]. }
  destruct (read_argument s) as [| | |name value]; [..|destruct (formal !! name) as [v|] eqn:Hv].
  - split; [apply same_types_refl|done].
  - split; [apply same_types_refl|by apply suffix_cons_r].
  - by right.
  - destruct (IsBoolFlag v).
    { destruct (set_value v _) as [v'|] eqn:E; [|by right]. apply set_value_type in E.
      eapply Hgo; eauto using suffix_cons_r. }
    destruct value as [x|]; [|destruct args as [|x args]; [by right|]];
      (destruct (set_value v x) as [v'|] eqn:E; [|by right]); apply set_value_type in E.
    + eapply Hgo; eauto using suffix_cons_r.
    + eapply Hgo; [simpl; lia|by do 2 apply suffix_cons_r|done..].
  - case_decide; auto.
Qed.

(** One written setting. *)
Lemma flag_Parse_setting s rest formal :
  setting_ok formal s →
  flag_Parse (write_setting s ++ rest) formal =
    match apply_setting s formal with Some formal' => flag_Parse rest formal' | None => Exits 2 end.
Proof.
  intros (Hn & v & Hv & Hb). unfold write_setting, apply_setting. rewrite Hv. cbn [mbind option_bind].
  destruct (st_glued s); cbn [app flag_Parse]; [rewrite read_glued by done|rewrite read_apart by done]; rewrite Hv.
  - destruct (IsBoolFlag v); simpl; by destruct (set_value v (st_text s)).
  - rewrite Hb by done. by destruct (set_value v (st_text s)).
Qed.

Lemma setting_ok_apply s s' formal formal' :
  setting_ok formal s' → apply_setting s formal = Some formal' → setting_ok formal' s'.
Proof.
  intros (Hn & v & Hv & Hb) E. split; [done|]. unfold apply_setting in E.
  apply bind_Some in E as (w & Hw & E). apply bind_Some in E as (w' & Hw' & [= <-]).
  apply set_value_type in Hw'. destruct (decide (st_name s = st_name s')) as [En|Hne].
  - rewrite En in *. exists w'. rewrite lookup_insert_eq. split; [done|].
    rewrite Hv in Hw. injection Hw as <-. by rewrite (same_type_bool _ _ Hw').
  - exists v. by rewrite lookup_insert_ne.
Qed.

Lemma flag_Parse_settings ss rest formal :
  Forall (setting_ok formal) ss →
  flag_Parse ((ss ≫= write_setting) ++ rest) formal =
    match ofold apply_setting ss formal with Some formal' => flag_Parse rest formal' | None => Exits 2 end.
Proof.
  revert formal. induction ss as [|s ss IH]; intros formal Hok; [done|].
  apply Forall_cons in Hok as [Hs Hok].
  change ((s :: ss) ≫= write_setting) with (write_setting s ++ (ss ≫= write_setting)).
  rewrite <-app_assoc, flag_Parse_setting by done. simpl.
  destruct (apply_setting s formal) as [formal1|] eqn:E; [|done]. simpl. apply IH.
  eapply Forall_impl; [exact Hok|]. intros s' Hs'. by eapply setting_ok_apply.
Qed.

(** After settings every flag has the value of its last one. *)
Lemma apply_settings_lookup ss formal formal' name v :
  ofold apply_setting ss formal = Some formal' → formal !! name = Some v →
  formal' !! name = set_last name ss v ∧ is_Some (set_last name ss v).
Proof.
  unfold set_last. revert formal v. induction ss as [|s ss IH]; intros formal v E Hv.
  { injection E as <-. by split; [|eexists]. }
  simpl in E. apply bind_Some in E as (formal1 & E1 & E). unfold apply_setting in E1.
  apply bind_Some in E1 as (w & Hw & E1). apply bind_Some in E1 as (w' & Hw' & [= <-]). simpl.
  destruct (decide (st_name s = name)) as [<-|Hne].
  - rewrite Hv in Hw. injection Hw as <-. destruct (IH _ w' E) as [Hl Hs]; [by rewrite lookup_insert_eq|].
    destruct (last_text (st_name s) ss) as [t|].
    + by rewrite (set_value_same v w') in Hl, Hs by by eapply set_value_type.
    + rewrite Hw'. split; [done|by eexists].
  - destruct (IH _ v E) as [Hl Hs]; [by rewrite lookup_insert_ne|]. by destruct (last_text name ss).
Qed.

(** What stops a sequence of settings is one of them. *)
Lemma ofold_refuses ss formal :
  ofold apply_setting ss formal = None →
  ∃ l1 s l2 formal1, ss = l1 ++ s :: l2 ∧ ofold apply_setting l1 formal = Some formal1 ∧ apply_setting s formal1 = None.
Proof.
  revert formal. induction ss as [|s ss IH]; intros formal E; [done|]. simpl in E.
  destruct (apply_setting s formal) as [formal1|] eqn:E1; [|by exists [], s, ss, formal].
  destruct (IH formal1 E) as (l1 & s' & l2 & formal2 & -> & E2 & E3).
  exists (s :: l1), s', l2, formal2. split; [done|]. split; [|done]. simpl. by rewrite E1.
Qed.

Lemma apply_settings_type ss formal formal' name v :
  ofold apply_setting ss formal = Some formal' → formal !! name = Some v →
  ∃ v', formal' !! name = Some v' ∧ same_type v v' = true.
Proof.
  intros E Hv. destruct (apply_settings_lookup ss formal formal' name v E Hv) as [-> [v' Hs]].
  exists v'. split; [done|]. unfold set_last in Hs. destruct (last_text name ss).
  - by eapply set_value_type.
  - injection Hs as <-. apply same_type_refl.
Qed.

Lemma flag_Parse_stops tail formal : stops tail → ∃ rest, flag_Parse tail formal = Parsed formal rest.
Proof. destruct tail as [|s tail]; simpl; [by eexists|]. intros [-> | ->]; by eexists. Qed.

End parsing.

(** ** Theorems *)

Section theorems.

Variable getenv : Getenv.

(** What a flag is without arguments: its variable in the environment, or its
    default. *)
Definition declared_flags : gmap string flag_value := list_to_map (flag_table getenv).

Lemma declare_some : declare getenv = Some declared_flags.
Proof.
  unfold declare. rewrite decide_True; [done|].
  change (flag_table getenv).*1 with (flag_table (λ _, EmptyString)).*1.
  apply (bool_decide_unpack (NoDup (flag_table (λ _, EmptyString)).*1)). vm_compute. exact I.
Qed.

Lemma table_lookup i k v : flag_table getenv !! i = Some (k, v) → declared_flags !! k = Some v.
Proof.
  intros E%list_elem_of_lookup_2. pose proof declare_some as Hd. unfold declare in Hd. case_decide; [|done].
  by apply elem_of_list_to_map_1.
Qed.

(** A row and the declaration it documents. *)
Definition documents (e : string * flag_value) (r : row) : Prop :=
  e.1 = r_flag r ∧ good_name e.1 = true ∧
  (∀ t, set_value e.2 t = on_command_line (r_kind r) t) ∧
  (IsBoolFlag e.2 = true → r_kind r = KBool) ∧
  Some e.2 = match (if decide (getenv (r_variable r) = EmptyString) then None
                    else in_environment (r_kind r) (getenv (r_variable r))) with
             | Some v => Some v
             | None => on_command_line (r_kind r) (r_default r)
             end ∧
  ∀ formal w, formal !! r_flag r = Some w → same_type e.2 w = true → r_field r (flags_of formal) = w.

Ltac document :=
  split; [reflexivity|]; split; [reflexivity|]; split; [reflexivity|]; split; [done|]; split;
  [ cbn [snd]; unfold getEnvOrDefault, getEnvIntOrDefault, getEnvInt64OrDefault, getEnvDurationOrDefault,
      getEnvFloatOrDefault, getEnvBoolOrDefault, getEnvParsed, in_environment, on_command_line;
    cbn [r_variable r_kind r_default];
    case_decide; [vm_compute; reflexivity|];
    first [reflexivity | match goal with |- context [default _ ?p] => destruct p; vm_compute; reflexivity end]
  | intros formal w Hw Ht; cbn [r_field r_flag compose] in *; unfold flags_of, as_string, as_int, as_bool, as_float;
    cbn beta; cbn -[lookup]; rewrite Hw; destruct w; first [reflexivity | discriminate Ht] ].

Lemma documented_flags : Forall2 documents (flag_table getenv) documented.
Proof. unfold flag_table, documented. repeat (apply Forall2_cons; split; [document|]). apply Forall2_nil. done. Qed.

Lemma documented_declared r :
  r ∈ documented → ∃ v, declared_flags !! r_flag r = Some v ∧ documents (r_flag r, v) r.
Proof.
  intros [i Hi]%list_elem_of_lookup. destruct (Forall2_lookup_r _ _ _ _ _ documented_flags Hi) as ([k v] & E & Hd).
  exists v. assert (k = r_flag r) as <- by apply Hd. split; [by eapply table_lookup|exact Hd].
Qed.

Lemma well_written_ok s : well_written s → setting_ok declared_flags s.
Proof.
  intros (r & Hr & En & Hb). apply documented_declared in Hr as (v & Hv & _ & Hg & _ & Hk & _). rewrite En in *.
  split; [exact Hg|]. exists v. split; [done|]. intros Hs. specialize (Hb Hs).
  destruct (IsBoolFlag v) eqn:Eb; [|done]. destruct Hb. by apply Hk.
Qed.

(** The first [n] flags, read. *)
Ltac read_table n :=
  match n with
  | O => idtac
  | S ?m => rewrite (table_lookup m _ _ eq_refl); read_table m
  end.

(** The flags when [main] is called without arguments. *)
Lemma flags_of_declared :
  flags_of declared_flags = default_flags getenv
    (getEnvFloatOrDefault getenv "HEALTH_FAILURE_THRESHOLD" (f_decimal 1 (-1)))
    (getEnvFloatOrDefault getenv "QUEUE_MEMORY_PERCENT" (f_of_Z 50)).
Proof.
  unfold flags_of. read_table 36%nat. reflexivity.
Qed.

(** What a setting does to flags of the declared types. *)
Lemma apply_documented ss formal s formal' r :
  ofold apply_setting ss declared_flags = Some formal → r ∈ documented → r_flag r = st_name s →
  apply_setting s formal = formal' →
  formal' = (λ v, <[st_name s := v]> formal) <$> on_command_line (r_kind r) (st_text s).
Proof.
  intros E (v & Hv & Hd)%documented_declared En <-.
  destruct (apply_settings_type ss declared_flags formal (r_flag r) v) as (v' & Hv' & Hty); [done..|].
  unfold apply_setting. rewrite <-En, Hv'. cbn [mbind option_bind]. rewrite (set_value_same v v') by done.
  destruct Hd as (_ & _ & Hset & _). cbn [snd] in Hset. rewrite Hset. by destruct (on_command_line _ _).
Qed.

Lemma setting_refused ss formal s r :
  ofold apply_setting ss declared_flags = Some formal → r ∈ documented → r_flag r = st_name s →
  apply_setting s formal = None → on_command_line (r_kind r) (st_text s) = None.
Proof.
  intros E Hr En Ha. pose proof (apply_documented _ _ _ _ _ E Hr En Ha) as Hf. by destruct (on_command_line _ _).
Qed.

(** Settings that were applied could all be read. *)
Lemma settings_readable ss formal s :
  ofold apply_setting ss declared_flags = Some formal → s ∈ ss → ¬ unreadable s.
Proof.
  intros E (l1 & l2 & ->)%list_elem_of_split (r & Hr & En & Hn).
  rewrite ofold_app in E. apply bind_Some in E as (formal1 & E1 & E2). simpl in E2.
  apply bind_Some in E2 as (formal2 & E2 & _).
  pose proof (apply_documented _ _ _ _ _ E1 Hr En E2) as Hf. by rewrite Hn in Hf.
Qed.

(** The fields after settings that were applied. *)
Lemma settings_documented ss formal r :
  ofold apply_setting ss declared_flags = Some formal → r ∈ documented →
  setting_value getenv ss r = Some (r_field r (flags_of formal)).
Proof.
  intros E (v & Hv & Hd)%documented_declared.
  destruct (apply_settings_lookup ss declared_flags formal (r_flag r) v E Hv) as [Hl [w Hw]].
  destruct (apply_settings_type ss declared_flags formal (r_flag r) v E Hv) as (w' & Hw' & Hty).
  rewrite Hw, Hw' in Hl. injection Hl as ->.
  destruct Hd as (_ & _ & Hset & _ & Hdef & Hfield). cbn [fst snd] in *.
  rewrite (Hfield formal w Hw' Hty). unfold setting_value. unfold set_last in Hw.
  destruct (last_text (r_flag r) ss); [by rewrite <-Hset|]. rewrite <-Hw. symmetry. exact Hdef.
Qed.


(** Whatever the arguments are, [main] gets flags of the declared types, or
    the process ends with code 0 or 2 before anything is opened. *)
Theorem flags_well_typed args :
  match main_flags getenv args with
  | Some (inl fl) => ∃ formal, fl = flags_of formal ∧ same_types declared_flags formal
  | Some (inr code) => code = 0 ∨ code = 2
  | None => False
  end.
Proof.
  unfold main_flags. rewrite declare_some. cbn [mbind option_bind].
  pose proof (flag_Parse_typed args declared_flags) as Ht.
  destruct (flag_Parse args declared_flags) as [formal rest|code]; [|done]. exists formal. exact (conj eq_refl (proj1 Ht)).
Qed.

(** A stray word hides the flags behind it: [main] never looks at the
    arguments the parser has left. *)
Theorem stray_word_hides_flags ss w more :
  Forall well_written ss → read_argument w = NotAFlag →
  main_flags getenv ((ss ≫= write_setting) ++ w :: more) = main_flags getenv (ss ≫= write_setting).
Proof.
  intros Hss Hw. unfold main_flags. rewrite declare_some. cbn [mbind option_bind].
  rewrite <-(app_nil_r (ss ≫= write_setting)) at 2.
  rewrite !flag_Parse_settings by (eapply Forall_impl; [exact Hss|apply well_written_ok]).
  destruct (ofold apply_setting ss declared_flags); [|done]. simpl. by rewrite Hw.
Qed.

End theorems.

(** A percentage that is not a number passes the check for its range, and the
    limit that comes of it is the least integer: no job is ever admitted. *)
Theorem nan_percent_refuses_jobs {CS Q} `{ColdSlotStore CS} Sys fl (n : Node CS Q) jobLimit job :
  queue_memory_limit fl = "" → queue_memory_percent fl = SpecFloat.S754_nan →
  0 <= f_memoryUsage (n_fsm n) →
  f_memoryUsage (n_fsm n) + job_size NewSizeCalculator job < two63 →
  let limit := DetectMemoryLimit Sys (queue_memory_limit fl) (queue_memory_percent fl) in
  limit = - two63 ∧
  ∃ e, CheckCapacity (mkLimitManager limit jobLimit NewSizeCalculator) job n = Some (Some e, n) ∧ ce_Type e = "memory".
Proof.
  intros -> -> Hm Hs limit.
  assert (limit = - two63) as Hl by (subst limit; unfold DetectMemoryLimit; rewrite decide_True by done; by destruct (f_of_Z (i64 Sys))).
  split; [done|]. clearbody limit. subst limit.
  destruct (CalculateSize_sum NewSizeCalculator job) as [E Hsz]; [by vm_compute|lia|].
  unfold CheckCapacity, MemoryTracker_CheckCapacity, GetUsage, GetMemoryUsage, mthen, gets, mreturn.
  cbn [fst snd lm_memoryLimit lm_sizeCalculator mu_CurrentBytes mu_LimitBytes]. rewrite E.
  unfold FSM_GetMemoryUsage. rewrite decide_True; [by eexists|].
  rewrite i64_id; unfold in64, two63 in *; lia.
Qed.

(** ** Concrete command lines *)

Definition no_env : Getenv := λ _, EmptyString.

Definition ex_settings : list setting :=
  [mkSetting "node-id" "a" true false; mkSetting "slot-gap" "1m" false true;
   mkSetting "enable-cold-spilling" "true" true true; mkSetting "node-id" "b" false false].

Ltac written_as i := exists (nth i documented (mkRow EmptyString EmptyString EmptyString KString (VString ∘ data_dir)));
  split; [apply (list_elem_of_lookup_2 _ i); reflexivity|by split].

Lemma ex_settings_ok : Forall well_written ex_settings.
Proof. repeat constructor; [written_as 4%nat|written_as 6%nat|written_as 21%nat|written_as 4%nat]. Qed.

(** The port of the HTTP server is in the environment, the node and its
    slots are on the command line. *)
Definition ex_env : Getenv := λ k, if decide (k = "HTTP_PORT") then "9090" else EmptyString.


Definition ex_spilling : setting := mkSetting "enable-cold-spilling" "true" true false.

Lemma ex_spilling_ok : Forall well_written [ex_spilling].
Proof. repeat constructor. written_as 21%nat. Qed.

(** A boolean does not take the word after it: cold spilling is on, and the
    name is not set. *)
Lemma stray_word_hides_flags_witness :
  main_flags no_env ["-enable-cold-spilling=true"; "false"; "-node-id=x"] =
    main_flags no_env ["-enable-cold-spilling=true"] ∧
  ((λ r, match r with inl fl => (enable_cold_spilling fl, node_id fl) | inr _ => (false, EmptyString) end) <$>
    main_flags no_env ["-enable-cold-spilling"; "false"; "-node-id=x"]) = Some (true, "node-1").
Proof.
  split; [|vm_compute; reflexivity].
  exact (stray_word_hides_flags no_env [ex_spilling] "false" ["-node-id=x"] ex_spilling_ok eq_refl).
Defined.

(** The flags of a process whose environment has a percentage in words. *)
Definition ex_nan_flags : Flags :=
  match main_flags (λ k, if decide (k = "QUEUE_MEMORY_PERCENT") then "NaN" else EmptyString) [] with
  | Some (inl fl) => fl
  | _ => default_flags no_env (f_of_Z 0) (f_of_Z 0)
  end.

Lemma nan_percent_refuses_jobs_witness :
  DetectMemoryLimit (2 ^ 33) (queue_memory_limit ex_nan_flags) (queue_memory_percent ex_nan_flags) = - two63.
Proof.
  apply (nan_percent_refuses_jobs (2 ^ 33) ex_nan_flags (mkNode (NewFSM : FSM MemBolt) tt ∅ 0 []) 100 ex_job);
    vm_compute; (reflexivity || congruence).
Defined.

(** The same text is another number as a flag: the variable is read in base
    ten, the flag in the base of its prefix. *)
Lemma octal_only_as_flag :
  (λ r, match r with inl fl => max_attempts fl | inr _ => 0 end) <$> main_flags no_env ["-max-attempts=010"] = Some 8 ∧
  (λ r, match r with inl fl => max_attempts fl | inr _ => 0 end) <$>
    main_flags (λ k, if decide (k = "MAX_EXECUTION_ATTEMPTS") then "010" else EmptyString) [] = Some 10.
Proof. split; vm_compute; reflexivity. Qed.
