(* ===== verification/Interfaces.v ===== *)
(** * The interfaces of the store: [internal/store/interfaces.go]

    One class per Go interface, and the node as an instance of each; [StatusStore]
    of [StatusTracker.v] is what three of them give together. Then the contract
    behind them: an object with jobs, statuses, slots, an archive and two
    counters, and the class of the stores that answer as it does. A healthy
    node is one, so its Raft log, its JSON and the encoding of its archive
    cannot be told from plain maps by a client. *)

From S2P Require Import Prelude GoStrings Json Types Codec ColdStore FSM Replication GoFloat Store StoreProps.
From S2P Require Import StatusTracker Limits Gateway Bootstrap SlotQueue SlotQueueProps ApiProps Startup.

(** ** The interfaces *)

Class JobStore (W : Type) := {
  js_CreateJob : Job → M W (option error);
  js_DeleteJob : string → M W (option error);
  js_GetJob : string → M W (option Job);
  js_GetAllJobs : M W (gmap string Job);
  js_GetExecutionState : string → M W (option JobExecutionState);
  js_GetAllExecutionStates : M W (gmap string JobExecutionState) }.

Class SlotStore (W : Type) := {
  sl_CreateSlot : SlotData → M W (option error);
  sl_DeleteSlot : Z → M W (option error);
  sl_GetSlot : Z → M W (option SlotData);
  sl_GetAllSlots : M W (gmap Z SlotData);
  sl_ArchiveSlot : Z → M W (option error);
  sl_UnarchiveSlot : Z → M W (option error);
  sl_IsSlotCold : Z → M W bool;
  sl_IsColdSpillingEnabled : M W bool;
  sl_GetHotSlotCount : M W Z;
  sl_GetColdSlotCount : M W Z;
  sl_GetColdSlotKeys : M W (list Z);
  sl_GetColdSlotData : Z → M W (option SlotData + error) }.

(** The channel that announces a leader is asked instead of the clock. *)
Class ClusterStore (W : Type) := {
  cl_IsLeader : M W bool;
  cl_GetLeader : M W string;
  cl_GetRaftState : M W string;
  cl_WaitForLeader : (nat → bool) → M W (option error);
  cl_AddPeer : string → string → M W (option error);
  cl_RemovePeer : string → M W (option error);
  cl_GetClusterConfiguration : M W (list Server + error);
  cl_GetPeers : M W (list string);
  cl_ForceBootstrap : string → M W (option error);
  cl_ForceRecoverCluster : list string → M W (option error);
  cl_TriggerElection : M W unit }.

Class StateStore (W : Type) := {
  sm_GetMemoryUsage : M W Z;
  sm_GetJobCount : M W Z;
  sm_UpdateMemoryUsage : Z → M W (option error);
  sm_UpdateJobCount : Z → M W (option error) }.

Class ApplyStore (W : Type) := { as_Apply : json → M W (option error) }.

(** [H] is the type of event handlers. *)
Class NodeStore (W H : Type) := {
  no_GetNodeID : M W string;
  no_GetRaftBind : M W string;
  no_GetRaftAdvertise : M W string;
  no_GetHTTPBind : M W string;
  no_SetHTTPBind : string → M W unit;
  no_SetEventHandler : H → M W unit }.

(** ** The node implements them *)

Section node.

Context {CS Q : Type} `{ColdSlotStore CS} `{GoRange} `{Env} `{Cluster}.

Local Open Scope go_scope.

Notation P := (M (Node CS Q)).

(** The handler that was set, and [s.raft.String()]. *)
Variable handler : option (string → option Job → P unit).
Variable localAddr : string.

Definition GetRaftState : P string := ask raftState.

(** It logs, and triggers nothing. *)
Definition TriggerElection : P unit := _state <- GetRaftState ;; mreturn tt.

Definition Node_JobStore : JobStore (Node CS Q) := {|
  js_CreateJob := CreateJob handler;
  js_DeleteJob := DeleteJob handler;
  js_GetJob := GetJob;
  js_GetAllJobs := GetAllJobs;
  js_GetExecutionState := GetExecutionState;
  js_GetAllExecutionStates := GetAllExecutionStates |}.

#[export] Instance Node_SlotStore : SlotStore (Node CS Q) := {|
  sl_CreateSlot := CreateSlot;
  sl_DeleteSlot := DeleteSlot;
  sl_GetSlot := GetSlot;
  sl_GetAllSlots := GetAllSlots;
  sl_ArchiveSlot := ArchiveSlot;
  sl_UnarchiveSlot := UnarchiveSlot;
  sl_IsSlotCold := IsSlotCold;
  sl_IsColdSpillingEnabled := IsColdSpillingEnabled;
  sl_GetHotSlotCount := GetHotSlotCount;
  sl_GetColdSlotCount := GetColdSlotCount;
  sl_GetColdSlotKeys := GetColdSlotKeys;
  sl_GetColdSlotData := GetColdSlotData |}.

Definition Node_ClusterStore : ClusterStore (Node CS Q) := {|
  cl_IsLeader := IsLeader;
  cl_GetLeader := GetLeader;
  cl_GetRaftState := GetRaftState;
  cl_WaitForLeader := WaitForLeader;
  cl_AddPeer := AddPeer;
  cl_RemovePeer := RemovePeer;
  cl_GetClusterConfiguration := GetClusterConfiguration;
  cl_GetPeers := GetPeers localAddr;
  cl_ForceBootstrap nodeID := ForceBootstrap nodeID localAddr;
  cl_ForceRecoverCluster := ForceRecoverCluster;
  cl_TriggerElection := TriggerElection |}.

#[export] Instance Node_StateStore : StateStore (Node CS Q) := {|
  sm_GetMemoryUsage := GetMemoryUsage;
  sm_GetJobCount := GetJobCount;
  sm_UpdateMemoryUsage := UpdateMemoryUsage;
  sm_UpdateJobCount := UpdateJobCount |}.

#[export] Instance Node_ApplyStore : ApplyStore (Node CS Q) := {| as_Apply := Store_Apply |}.

End node.

(** The part of [Store] that is set once: what [NewStore] made and the handler. *)
Record Identity (H : Type) := mkIdentity { id_handle : StoreHandle; id_handler : option H }.

Arguments mkIdentity {H}.
Arguments id_handle {H}.
Arguments id_handler {H}.

#[export] Instance Identity_NodeStore {H} : NodeStore (Identity H) H := {|
  no_GetNodeID := gets (λ s, st_nodeID (id_handle s));
  no_GetRaftBind := gets (λ s, st_raftBind (id_handle s));
  no_GetRaftAdvertise := gets (λ s, st_raftAdvertise (id_handle s));
  no_GetHTTPBind := gets (λ s, GetHTTPBind (id_handle s));
  no_SetHTTPBind b := modify (λ s, mkIdentity (SetHTTPBind b (id_handle s)) (id_handler s));
  no_SetEventHandler h := modify (λ s, mkIdentity (id_handle s) (Some h)) |}.

(** Go's structural typing: whatever has the methods is a [StatusStore]. *)
Definition status_store_of {W} `{JobStore W} `{ClusterStore W} `{ApplyStore W} : StatusStore W := {|
  ss_IsLeader := cl_IsLeader;
  ss_GetExecutionState := js_GetExecutionState;
  ss_GetAllExecutionStates := js_GetAllExecutionStates;
  ss_Apply := as_Apply |}.

Lemma node_is_status_store {CS Q : Type} `{ColdSlotStore CS} `{Env} `{Cluster} handler localAddr :
  @status_store_of (Node CS Q) (Node_JobStore handler) (Node_ClusterStore localAddr) Node_ApplyStore = node_StatusStore.
Proof. reflexivity. Qed.

(** ** What they promise *)

(** The object behind the interfaces: jobs, statuses, the slots in memory, the
    marks of the archived ones, the archive (none when spilling is off), and
    two counters. *)
Record Catalogue := mkCatalogue {
  ca_jobs : gmap string Job;
  ca_states : gmap string JobExecutionState;
  ca_hot : gmap Z SlotData;
  ca_marks : gmap Z bool;
  ca_archive : option (Z → option SlotData);
  ca_memory : Z;
  ca_count : Z }.

Inductive call :=
  | KCreateJob (j : Job)
  | KDeleteJob (id : string)
  | KGetJob (id : string)
  | KGetAllJobs
  | KGetExecutionState (id : string)
  | KGetAllExecutionStates
  | KCreateSlot (s : SlotData)
  | KDeleteSlot (key : Z)
  | KGetSlot (key : Z)
  | KGetAllSlots
  | KArchiveSlot (key : Z)
  | KUnarchiveSlot (key : Z)
  | KIsSlotCold (key : Z)
  | KIsColdSpillingEnabled
  | KGetHotSlotCount
  | KGetColdSlotCount
  | KGetColdSlotKeys
  | KGetColdSlotData (key : Z)
  | KGetMemoryUsage
  | KGetJobCount
  | KUpdateMemoryUsage (delta : Z)
  | KUpdateJobCount (delta : Z).

(** A list of keys comes in any order: its length and its elements. *)
Inductive answer :=
  | AError (e : option error)
  | AJob (j : option Job)
  | AJobs (m : gmap string Job)
  | AState (s : option JobExecutionState)
  | AStates (m : gmap string JobExecutionState)
  | ASlot (s : option SlotData)
  | ASlots (m : gmap Z SlotData)
  | AFlag (b : bool)
  | AKeys (length : nat) (keys : gset Z)
  | AData (r : option SlotData + error)
  | ANumber (z : Z).

(** Arguments that survive the log: machine integers, a payload that JSON can
    carry. *)
Definition call_ok (c : call) : Prop :=
  match c with
  | KCreateJob j => job_ok j ∧ Codec.plain (enc_Job j)
  | KCreateSlot s => slot_ok s
  | KDeleteSlot k | KGetSlot k | KArchiveSlot k | KUnarchiveSlot k | KIsSlotCold k | KGetColdSlotData k => in64 k
  | KUpdateMemoryUsage d | KUpdateJobCount d => in64 d
  | _ => True
  end.

(** A slot in memory, else the archived one if the key is marked. *)
Definition ca_slot (a : Catalogue) (key : Z) : option SlotData :=
  match ca_hot a !! key with
  | Some s => Some s
  | None => if default false (ca_marks a !! key) then archive ← ca_archive a; archive key else None
  end.

Definition update (key : Z) (o : option SlotData) (archive : Z → option SlotData) : Z → option SlotData :=
  λ k, if decide (k = key) then o else archive k.

(** What the object answers, and what becomes of it. An archive that is off is
    no error to a client, and neither is a delete without an id. *)
Definition catalogue_step (c : call) (a : Catalogue) : answer * Catalogue :=
  let '(mkCatalogue jobs states hot marks archive memory count) := a in
  match c with
  | KCreateJob j => (AError None, mkCatalogue (<[job_ID j := j]> jobs)
      (<[job_ID j := pending_state (job_ID j) (job_CreatedAt j)]> states) hot marks archive memory count)
  | KDeleteJob id => (AError None,
      if decide (id = "") then a
      else mkCatalogue (delete id jobs) (delete id states) hot marks archive memory count)
  | KGetJob id => (AJob (jobs !! id), a)
  | KGetAllJobs => (AJobs jobs, a)
  | KGetExecutionState id => (AState (states !! id), a)
  | KGetAllExecutionStates => (AStates states, a)
  | KCreateSlot s => (AError None,
      mkCatalogue jobs states (<[slot_Key s := s]> hot) marks archive memory count)
  | KDeleteSlot key => (AError None,
      mkCatalogue jobs states (delete key hot) (delete key marks) (update key None <$> archive) memory count)
  | KGetSlot key => (ASlot (ca_slot a key), a)
  | KGetAllSlots => (ASlots hot, a)
  | KArchiveSlot key =>
      match ca_slot a key, archive with
      | None, _ => (AError (Some (wrapf ("slot " +:+ pretty key +:+ ": ") ErrSlotNotFound)), a)
      | Some _, None => (AError None, a)
      | Some s, Some _ => (AError None,
          mkCatalogue jobs states (delete key hot) (<[key := true]> marks) (update key (Some s) <$> archive)
            memory count)
      end
  | KUnarchiveSlot key => (AError None,
      match archive with
      | None => a
      | Some ar =>
          mkCatalogue jobs states (match ar key with Some s => <[key := s]> hot | None => hot end)
            (delete key marks) (Some (update key None ar)) memory count
      end)
  | KIsSlotCold key => (AFlag (default false (marks !! key)), a)
  | KIsColdSpillingEnabled => (AFlag (bool_decide (is_Some archive)), a)
  | KGetHotSlotCount => (ANumber (Z.of_nat (size hot)), a)
  | KGetColdSlotCount => (ANumber (Z.of_nat (size marks)), a)
  | KGetColdSlotKeys => (AKeys (size marks) (dom marks), a)
  | KGetColdSlotData key =>
      (AData (match archive with
              | None => inr (errors_New "cold store not enabled")
              | Some ar => inl (ar key)
              end), a)
  | KGetMemoryUsage => (ANumber memory, a)
  | KGetJobCount => (ANumber count, a)
  | KUpdateMemoryUsage d => (AError None,
      mkCatalogue jobs states hot marks archive (i64 (memory + d) `max` 0) count)
  | KUpdateJobCount d => (AError None,
      mkCatalogue jobs states hot marks archive memory (i64 (count + d) `max` 0))
  end.

(** Archives that no [int64] key tells apart. *)
Definition same_archive (a b : option (Z → option SlotData)) : Prop :=
  ∀ k, in64 k → (λ ar, ar k) <$> a = (λ ar, ar k) <$> b.

#[export] Instance Catalogue_equiv : Equiv Catalogue := λ a b,
  ca_jobs a = ca_jobs b ∧ ca_states a = ca_states b ∧ ca_hot a = ca_hot b ∧ ca_marks a = ca_marks b ∧
  ca_memory a = ca_memory b ∧ ca_count a = ca_count b ∧ same_archive (ca_archive a) (ca_archive b).

#[export] Instance Catalogue_equivalence : Equivalence (≡@{Catalogue}).
Proof.
  split.
  - by intros a.
  - intros a b (? & ? & ? & ? & ? & ? & Hs). split_and!; try done. intros k Hk. by rewrite Hs.
  - intros a b c (? & ? & ? & ? & ? & ? & Hs) (? & ? & ? & ? & ? & ? & Hs'). split_and!; try congruence.
    intros k Hk. by rewrite Hs, Hs'.
Qed.

Lemma same_archive_cases a b :
  same_archive a b → (a = None ∧ b = None) ∨ ∃ ar br, a = Some ar ∧ b = Some br ∧ ∀ k, in64 k → ar k = br k.
Proof.
  intros Hs. destruct a as [ar|], b as [br|]; [right|exfalso..|by left].
  - exists ar, br. split_and!; [done..|]. intros k Hk. specialize (Hs k Hk). by injection Hs.
  - assert (in64 0) as H0 by (unfold in64, two63; lia). by specialize (Hs 0 H0).
  - assert (in64 0) as H0 by (unfold in64, two63; lia). by specialize (Hs 0 H0).
Qed.

Lemma same_archive_update key o a b : same_archive a b → same_archive (update key o <$> a) (update key o <$> b).
Proof.
  intros [[-> ->]|(ar & br & -> & -> & Hs)]%same_archive_cases; [done|]. intros k Hk. simpl. unfold update.
  f_equal. case_decide; auto.
Qed.

Lemma ca_slot_proper k a b : in64 k → a ≡ b → ca_slot a k = ca_slot b k.
Proof.
  intros Hk (_ & _ & Eh & Em & _ & _ & Hs). unfold ca_slot. rewrite Eh, Em.
  destruct (ca_hot b !! k); [done|]. destruct (default false _); [|done].
  destruct (same_archive_cases _ _ Hs) as [[-> ->]|(ar & br & -> & -> & Hab)]; [done|]. by apply Hab.
Qed.

Lemma catalogue_step_proper c a b :
  call_ok c → a ≡ b →
  (catalogue_step c a).1 = (catalogue_step c b).1 ∧ (catalogue_step c a).2 ≡ (catalogue_step c b).2.
Proof.
  intros Hc Heq. pose proof (λ k Hk, ca_slot_proper k a b Hk Heq) as Hslot.
  destruct a as [j1 s1 h1 k1 f1 m1 c1], b as [j2 s2 h2 k2 f2 m2 c2].
  pose proof Heq as (E1 & E2 & E3 & E4 & E5 & E6 & Hs). simpl in E1, E2, E3, E4, E5, E6, Hs. subst.
  destruct c; simpl in Hc; cbn [catalogue_step fst snd]; try rewrite (Hslot _ Hc);
    try (split; [done|]; first [exact Heq|by split_and!|
      by split_and!; try apply same_archive_update]).
  - split; [done|]. by case_decide; [exact Heq|split_and!].
  - destruct (ca_slot _ _); [|by split]. pose proof (same_archive_cases _ _ Hs) as Hcases.
    destruct Hcases as [[-> ->]|(ar & br & -> & -> & _)]; [by split|]. split; [done|]. split_and!; try done.
    by apply (same_archive_update key (Some s) (Some ar) (Some br)).
  - split; [done|]. pose proof (same_archive_cases _ _ Hs) as Hcases.
    destruct Hcases as [[-> ->]|(ar & br & -> & -> & Hab)]; [exact Heq|]. rewrite Hab by done.
    split_and!; try done. by apply (same_archive_update key None (Some ar) (Some br)).
  - split; [|exact Heq]. by destruct (same_archive_cases _ _ Hs) as [[-> ->]|(ar & br & -> & -> & _)].
  - split; [|exact Heq]. destruct (same_archive_cases _ _ Hs) as [[-> ->]|(ar & br & -> & -> & Hab)]; [done|].
    by rewrite Hab.
Qed.

Section client.

Context {W : Type} `{JobStore W} `{SlotStore W} `{StateStore W}.

Local Open Scope go_scope.

Definition run_call (c : call) : M W answer :=
  match c with
  | KCreateJob j => e <- js_CreateJob j ;; mreturn (AError e)
  | KDeleteJob id => e <- js_DeleteJob id ;; mreturn (AError e)
  | KGetJob id => j <- js_GetJob id ;; mreturn (AJob j)
  | KGetAllJobs => m <- js_GetAllJobs ;; mreturn (AJobs m)
  | KGetExecutionState id => s <- js_GetExecutionState id ;; mreturn (AState s)
  | KGetAllExecutionStates => m <- js_GetAllExecutionStates ;; mreturn (AStates m)
  | KCreateSlot s => e <- sl_CreateSlot s ;; mreturn (AError e)
  | KDeleteSlot k => e <- sl_DeleteSlot k ;; mreturn (AError e)
  | KGetSlot k => s <- sl_GetSlot k ;; mreturn (ASlot s)
  | KGetAllSlots => m <- sl_GetAllSlots ;; mreturn (ASlots m)
  | KArchiveSlot k => e <- sl_ArchiveSlot k ;; mreturn (AError e)
  | KUnarchiveSlot k => e <- sl_UnarchiveSlot k ;; mreturn (AError e)
  | KIsSlotCold k => b <- sl_IsSlotCold k ;; mreturn (AFlag b)
  | KIsColdSpillingEnabled => b <- sl_IsColdSpillingEnabled ;; mreturn (AFlag b)
  | KGetHotSlotCount => z <- sl_GetHotSlotCount ;; mreturn (ANumber z)
  | KGetColdSlotCount => z <- sl_GetColdSlotCount ;; mreturn (ANumber z)
  | KGetColdSlotKeys => l <- sl_GetColdSlotKeys ;; mreturn (AKeys (length l) (list_to_set l))
  | KGetColdSlotData k => r <- sl_GetColdSlotData k ;; mreturn (AData r)
  | KGetMemoryUsage => z <- sm_GetMemoryUsage ;; mreturn (ANumber z)
  | KGetJobCount => z <- sm_GetJobCount ;; mreturn (ANumber z)
  | KUpdateMemoryUsage d => e <- sm_UpdateMemoryUsage d ;; mreturn (AError e)
  | KUpdateJobCount d => e <- sm_UpdateJobCount d ;; mreturn (AError e)
  end.

Definition record_answer (c : call) (answers : list answer) : M W (list answer) :=
  a <- run_call c ;; mreturn (answers ++ [a]).

Definition run_calls (calls : list call) : M W (list answer) := for_acc record_answer calls [].

(** The contract of a store. *)
Class CatalogueStore := {
  live : W → Prop;
  catalogue : W → Catalogue;
  call_law : ∀ c w, call_ok c → live w →
    ∃ w', run_call c w = Some ((catalogue_step c (catalogue w)).1, w') ∧ live w' ∧
      catalogue w' ≡ (catalogue_step c (catalogue w)).2 }.

End client.

Arguments CatalogueStore W {_ _ _}.

(** The answers of the object to a session, and what it is afterwards. *)
Fixpoint catalogue_run (calls : list call) (a : Catalogue) : list answer * Catalogue :=
  match calls with
  | [] => ([], a)
  | c :: calls =>
      let (x, a) := catalogue_step c a in
      let (xs, a) := catalogue_run calls a in (x :: xs, a)
  end.

Section contract.

Context {W : Type} `{CatalogueStore W}.

(** Proved from the interface alone. *)
Lemma run_calls_catalogue calls answers w a :
  Forall call_ok calls → live w → catalogue w ≡ a →
  ∃ w', for_acc record_answer calls answers w = Some (answers ++ (catalogue_run calls a).1, w') ∧ live w' ∧
    catalogue w' ≡ (catalogue_run calls a).2.
Proof.
  intros Hok. revert answers w a. induction Hok as [|c calls Hc _ IH]; intros answers w a Hw Ha.
  { exists w. split; [by rewrite app_nil_r|done]. }
  destruct (call_law c w Hc Hw) as (w1 & E & Hw1 & Ha1).
  destruct (catalogue_step_proper c _ _ Hc Ha) as [Hx Hstep]. rewrite Hx in E.
  cbn [for_acc catalogue_run]. unfold mthen at 1, record_answer at 1, mthen at 1. rewrite E. simpl.
  destruct (catalogue_step c a) as [x a1]. simpl in *.
  destruct (IH (answers ++ [x]) w1 a1 Hw1) as (w' & E' & Hw' & Ha'); [by etrans|].
  exists w'. rewrite E'. destruct (catalogue_run calls a1) as [xs a2]. simpl in *. by rewrite <-app_assoc.
Qed.

End contract.

(** ** The node keeps the contract *)

Section node_contract.

Context {CS Q : Type} `{ReliableColdStore CS} `{GoRange} `{Env}.

Implicit Types (n : Node CS Q) (f : FSM CS).

Hypothesis Henv : healthy_env.

Variable handler : option (string → option Job → M (Node CS Q) unit).

(** A handler that leaves the state machine alone. *)
Hypothesis observes : ∀ h ev j n, handler = Some h → ∃ n', h ev j n = Some (tt, n') ∧ n_fsm n' = n_fsm n.

(** The cold store works, and every slot is filed under its own key. *)
Record store_ok f : Prop := {
  so_hot : map_Forall (λ k d, slot_Key d = k ∧ slot_ok d) (f_slots f);
  so_works cs : f_coldStore f = Some cs → works cs;
  so_cold cs k d : f_coldStore f = Some cs → in64 k → cold_at cs k = Some d → slot_Key d = k ∧ slot_ok d }.

Definition catalogue_of f : Catalogue :=
  mkCatalogue (f_jobs f) (f_executionStates f) (f_slots f) (f_coldSlotMeta f) (cold_at <$> f_coldStore f)
    (f_memoryUsage f) (f_jobCount f).

Lemma catalogue_slot k f : store_ok f → in64 k → ca_slot (catalogue_of f) k = FSM_GetSlot k f.
Proof.
  intros [_ Hw _] Hk. unfold ca_slot, FSM_GetSlot. simpl.
  destruct (f_slots f !! k); [by rewrite SlotData_Clone_id|]. destruct (default false _); [|done].
  destruct (f_coldStore f) as [cs|]; [|done]. simpl. rewrite get_works by auto.
  destruct (cold_at cs k); simpl; [by rewrite SlotData_Clone_id|done].
Qed.

Lemma store_slots_ok k d f : store_ok f → in64 k → FSM_GetSlot k f = Some d → slot_Key d = k ∧ slot_ok d.
Proof.
  intros Ho Hk. rewrite <-catalogue_slot by done. unfold ca_slot. simpl.
  destruct (f_slots f !! k) as [d'|] eqn:Ed; [intros [= <-]; by apply (so_hot _ Ho)|].
  destruct (default false _); [|done]. intros (ar & E & Hd)%bind_Some.
  destruct (f_coldStore f) as [cs|] eqn:Ec; [|done]. injection E as <-. by apply (so_cold _ Ho cs).
Qed.

Lemma notify_observes ev j n : ∃ n', notify handler ev j n = Some (tt, n') ∧ n_fsm n' = n_fsm n.
Proof.
  unfold notify. destruct handler as [h|] eqn:E; [|by exists n].
  unfold IsLeader, ask, mthen. cbn. rewrite (he_leader Henv).
  destruct (observes h ev j (mkNode (n_fsm n) (n_queue n) (n_cancelFuncs n) (S (n_step n)) (n_trace n)) eq_refl)
    as (n' & -> & Hf). by exists n'.
Qed.

(** A write that succeeds, and its state machine. *)
Definition writes (k : M (Node CS Q) (option error)) n (f' : FSM CS) : Prop :=
  ∃ n', k n = Some (None, n') ∧ n_fsm n' = f'.

Lemma leads (k : M (Node CS Q) (option error)) n : if_leader k n = k (node_after 1 (n_fsm n) n).
Proof. unfold if_leader, IsLeader, ask, mthen. cbn. by rewrite (he_leader Henv). Qed.

(** The writes without a handler send one command. *)
Lemma sends c slot cmd n :
  write_ok c slot → write_command c slot = Some cmd → writes (if_leader (send cmd)) n (write_effect c slot (n_fsm n)).
Proof.
  intros Hok Hc. unfold writes. rewrite leads, (send_eq c slot) by done. cbv zeta.
  rewrite (he_outcome Henv), (he_others Henv). by eexists.
Qed.

Lemma archives k d n :
  FSM_GetSlot k (n_fsm n) = Some d → slot_ok d →
  writes (ArchiveSlot k) n (write_effect (WArchiveSlot k) (Some d) (n_fsm n)).
Proof.
  intros Hd Hok. unfold writes, ArchiveSlot. rewrite leads. unfold mthen, GetSlot, gets. cbn [n_fsm node_after]. rewrite Hd.
  rewrite (send_eq (WArchiveSlot k) (Some d)) by (done || intros s [= <-]; done). cbv zeta.
  rewrite (he_outcome Henv), (he_others Henv). by eexists.
Qed.

(** Sending a command and telling the handler. *)
Lemma send_writes c cmd ev j n :
  write_ok c None → write_command c None = Some cmd →
  ∃ n', mthen (send cmd) (λ e, match e with
      | Some e => mreturn (Some e)
      | None => mthen (notify handler ev j) (λ _, mreturn None) end) n = Some (None, n') ∧
    n_fsm n' = write_effect c None (n_fsm n).
Proof.
  intros Hok Hc. unfold mthen. rewrite (send_eq c None) by done. cbv zeta.
  rewrite (he_outcome Henv), (he_others Henv). simpl.
  destruct (notify_observes ev j (node_after 2 (write_effect c None (n_fsm n)) n)) as (n' & -> & Hf).
  by exists n'.
Qed.

Lemma writes_CreateJob j n :
  job_ok j → Codec.plain (enc_Job j) → writes (CreateJob handler j) n (write_effect (WCreateJob j) None (n_fsm n)).
Proof.
  intros Hj Hp. unfold writes, CreateJob. rewrite leads.
  exact (send_writes (WCreateJob j) _ "created" (Some j) (node_after 1 (n_fsm n) n) (conj (proj1 Hj) Hp) eq_refl).
Qed.

Lemma writes_DeleteJob id n : writes (DeleteJob handler id) n (write_effect (WDeleteJob id) None (n_fsm n)).
Proof.
  unfold writes, DeleteJob. rewrite leads. unfold mthen at 1, GetJob, gets.
  exact (send_writes (WDeleteJob id) _ "deleted" _ (node_after 1 (n_fsm n) n) I eq_refl).
Qed.

(** An answer that is a read. *)
Lemma lookup_clone {A} (clone : A → A) (o : option A) : (∀ x, clone x = x) → clone <$> o = o.
Proof. intros Hc. destruct o; simpl; [by rewrite Hc|done]. Qed.

(** What a write leaves. *)
Definition keeps (c : call) f f' : Prop :=
  store_ok f' ∧ catalogue_of f' ≡ (catalogue_step c (catalogue_of f)).2.

Lemma create_job_keeps j f :
  job_ok j → store_ok f → keeps (KCreateJob j) f (write_effect (WCreateJob j) None f).
Proof.
  intros Hj Ho. destruct f as [jobs slots meta cold states mem count]. split; [by destruct Ho|].
  simpl. by rewrite job_norm_ok.
Qed.

Lemma delete_job_keeps id f : store_ok f → keeps (KDeleteJob id) f (write_effect (WDeleteJob id) None f).
Proof.
  intros Ho. destruct f as [jobs slots meta cold states mem count]. unfold keeps. simpl.
  case_decide; (split; [by destruct Ho|done]).
Qed.

Lemma create_slot_keeps d f :
  slot_ok d → store_ok f → keeps (KCreateSlot d) f (write_effect (WCreateSlot d) None f).
Proof.
  intros Hd Ho. destruct f as [jobs slots meta cold states mem count]. split; [|done].
  destruct Ho as [Hh Hw Hc]. split; [|exact Hw|exact Hc]. simpl in *. by apply map_Forall_insert_2.
Qed.

(** The archive after an operation of a cold store that works. *)
Lemma archive_delete k cs :
  in64 k → works cs → ∀ k', in64 k' → cold_at (DeleteColdSlot k cs).1 k' = update k None (cold_at cs) k'.
Proof.
  intros Hk Hw k' Hk'. rewrite delete_cold_at, (proj1 (delete_works k cs Hk Hw)) by done.
  unfold update. by repeat case_decide.
Qed.

Lemma archive_put k d cs :
  in64 k → slot_ok d → works cs →
  ∀ k', in64 k' → cold_at (PutColdSlot k d cs).1 k' = update k (Some d) (cold_at cs) k'.
Proof.
  intros Hk Hd Hw k' Hk'. rewrite put_cold_at, (proj1 (put_works k d cs Hk Hd Hw)) by done.
  unfold update. by repeat case_decide.
Qed.

(** The three writes that touch the archive: [ar] is the archive afterwards. *)
Lemma archive_keeps jobs slots meta cold cold' states mem count key o :
  in64 key → store_ok (mkFSM jobs slots meta cold states mem count) →
  (∀ d, o = Some d → slot_Key d = key ∧ slot_ok d) →
  match cold, cold' with
  | None, None => True
  | Some cs, Some cs' => works cs' ∧ ∀ k, in64 k → cold_at cs' k = update key o (cold_at cs) k
  | _, _ => False
  end →
  (∀ slots' meta', map_Forall (λ k d, slot_Key d = k ∧ slot_ok d) slots' →
     store_ok (mkFSM jobs slots' meta' cold' states mem count)) ∧
  same_archive (cold_at <$> cold') (update key o <$> (cold_at <$> cold)).
Proof.
  intros Hkey [Hh Hw Hc] Ho Hcold. simpl in *. destruct cold as [cs|], cold' as [cs'|]; try done.
  - destruct Hcold as [Hw' Hat]. split; [|intros k Hk; simpl; by rewrite Hat].
    intros slots' meta' Hs. split; simpl; [done|by intros ? [= <-]|].
    intros ? k d [= <-] Hk. rewrite Hat by done. unfold update. case_decide; [subst; auto|by apply Hc].
Qed.

Lemma delete_slot_keeps k f :
  in64 k → store_ok f → keeps (KDeleteSlot k) f (write_effect (WDeleteSlot k) None f).
Proof.
  intros Hk Ho. destruct f as [jobs slots meta cold states mem count].
  destruct (archive_keeps jobs slots meta cold ((λ cs, (DeleteColdSlot k cs).1) <$> cold) states mem count k None)
    as [Hok Har]; [done..| |].
  { destruct cold as [cs|]; [|done]. pose proof (so_works _ Ho cs eq_refl) as Hw. simpl.
    split; [by apply delete_works|by apply archive_delete]. }
  split; [apply Hok, map_Forall_delete, Ho|]. by split_and!.
Qed.

Lemma unarchive_keeps k f :
  in64 k → store_ok f → keeps (KUnarchiveSlot k) f (write_effect (WUnarchiveSlot k) None f).
Proof.
  intros Hk Ho. destruct f as [jobs slots meta [cs|] states mem count]; [|done].
  pose proof (so_works _ Ho cs eq_refl) as Hw.
  destruct (archive_keeps jobs slots meta (Some cs) (Some (DeleteColdSlot k cs).1) states mem count k None)
    as [Hok Har]; [done..| |].
  { split; [by apply delete_works|by apply archive_delete]. }
  unfold keeps. simpl. rewrite get_works by done. split; [|by split_and!]. apply Hok.
  destruct (cold_at cs k) as [d|] eqn:Ed; [|apply Ho].
  apply map_Forall_insert_2; [by apply (so_cold _ Ho cs)|apply Ho].
Qed.

Lemma archive_slot_keeps k d f :
  in64 k → store_ok f → FSM_GetSlot k f = Some d → keeps (KArchiveSlot k) f (write_effect (WArchiveSlot k) (Some d) f).
Proof.
  intros Hk Ho Hd. destruct (store_slots_ok k d f Ho Hk Hd) as [Hkey Hdok].
  rewrite <-(catalogue_slot k f Ho Hk) in Hd. destruct f as [jobs slots meta [cs|] states mem count].
  2:{ unfold keeps. cbn [catalogue_of catalogue_step f_jobs f_executionStates f_slots f_coldSlotMeta
        f_coldStore f_memoryUsage f_jobCount fmap option_fmap option_map] in *. by rewrite Hd. }
  pose proof (so_works _ Ho cs eq_refl) as Hw. pose proof (put_works k d cs Hk Hdok Hw) as [Hnone Hw'].
  destruct (archive_keeps jobs slots meta (Some cs) (Some (PutColdSlot k d cs).1) states mem count k (Some d))
    as [Hok Har]; [done|done|by intros ? [= <-]|split; [done|by apply archive_put]|].
  unfold keeps. cbn [catalogue_of catalogue_step f_jobs f_executionStates f_slots f_coldSlotMeta
    f_coldStore f_memoryUsage f_jobCount fmap option_fmap option_map write_effect] in *. rewrite Hd, Hkey.
  destruct (PutColdSlot k d cs) as [cs' e]. simpl in Hnone. subst e.
  split; [apply Hok, map_Forall_delete, Ho|by split_and!].
Qed.

Lemma memory_keeps d f : store_ok f → keeps (KUpdateMemoryUsage d) f (write_effect (WUpdateMemoryUsage d) None f).
Proof. intros Ho. destruct f. by split; [destruct Ho|]. Qed.

Lemma count_keeps d f : store_ok f → keeps (KUpdateJobCount d) f (write_effect (WUpdateJobCount d) None f).
Proof. intros Ho. destruct f. by split; [destruct Ho|]. Qed.

(** A call keeps the contract: a write that returns nil, and a read. *)
Definition call_keeps (c : call) (k : M (Node CS Q) answer) n : Prop :=
  ∃ n', k n = Some ((catalogue_step c (catalogue_of (n_fsm n))).1, n') ∧ store_ok (n_fsm n') ∧
    catalogue_of (n_fsm n') ≡ (catalogue_step c (catalogue_of (n_fsm n))).2.

Lemma write_law k f' c n :
  writes k n f' → keeps c (n_fsm n) f' → (catalogue_step c (catalogue_of (n_fsm n))).1 = AError None →
  call_keeps c (mthen k (λ e, mreturn (AError e))) n.
Proof.
  intros (n' & E & Hf) [Ho Ha] Hx. exists n'. unfold mthen. rewrite E, Hx, Hf. done.
Qed.

Lemma read_law {A} (g : Node CS Q → A) (view : A → answer) c n :
  store_ok (n_fsm n) → (catalogue_step c (catalogue_of (n_fsm n))) = (view (g n), catalogue_of (n_fsm n)) →
  call_keeps c (mthen (gets g) (λ a, mreturn (view a))) n.
Proof. intros Ho E. exists n. rewrite E. done. Qed.

Lemma archive_law k n : in64 k → store_ok (n_fsm n) → call_keeps (KArchiveSlot k) (mthen (ArchiveSlot k) (λ e, mreturn (AError e))) n.
Proof.
  intros Hk Ho. destruct (FSM_GetSlot k (n_fsm n)) as [d|] eqn:Ed.
  - eapply write_law; [by apply archives, (store_slots_ok k d (n_fsm n))|by apply archive_slot_keeps|].
    rewrite <-(catalogue_slot k _ Ho Hk) in Ed. unfold catalogue_of in *. cbn [catalogue_step]. rewrite Ed.
    by destruct (f_coldStore (n_fsm n)).
  - eexists (node_after 1 (n_fsm n) n). unfold mthen at 1, ArchiveSlot. rewrite leads. unfold mthen, GetSlot, gets.
    cbn [n_fsm node_after]. rewrite Ed. rewrite <-(catalogue_slot k _ Ho Hk) in Ed.
    unfold catalogue_of in *. cbn [catalogue_step]. rewrite Ed. done.
Qed.

Definition node_catalogue : @CatalogueStore (Node CS Q) (Node_JobStore handler) Node_SlotStore Node_StateStore.
Proof.
  refine {| live n := store_ok (n_fsm n); catalogue n := catalogue_of (n_fsm n); call_law := _ |}.
  intros c n Hc Ho. change (call_keeps c (@run_call _ (Node_JobStore handler) _ _ c) n).
  destruct c; simpl in Hc; try (refine (read_law _ _ _ n Ho _); try reflexivity).
  - eapply write_law; [apply writes_CreateJob; apply Hc|apply create_job_keeps; [apply Hc|done]|done].
  - eapply write_law; [by apply writes_DeleteJob|by apply delete_job_keeps|done].
  - unfold FSM_GetJob. by rewrite (lookup_clone Job_Clone) by apply Job_Clone_id.
  - unfold FSM_GetAllJobs. by rewrite (clone_map_id Job_Clone) by apply Job_Clone_id.
  - unfold FSM_GetExecutionState. by rewrite (lookup_clone JobExecutionState_Clone) by apply JobExecutionState_Clone_id.
  - unfold FSM_GetAllExecutionStates.
    by rewrite (clone_map_id JobExecutionState_Clone) by apply JobExecutionState_Clone_id.
  - eapply write_law; [by eapply (sends (WCreateSlot s) None)|by apply create_slot_keeps|done].
  - eapply write_law; [by eapply (sends (WDeleteSlot key) None)|by apply delete_slot_keeps|done].
  - cbn [catalogue_step]. unfold catalogue_of at 1. cbn [catalogue_step]. by rewrite <-(catalogue_slot key).
  - unfold FSM_GetAllSlots. by rewrite (clone_map_id SlotData_Clone) by apply SlotData_Clone_id.
  - by apply archive_law.
  - eapply write_law; [by eapply (sends (WUnarchiveSlot key) None)|by apply unarchive_keeps|done].
  - simpl. by destruct (f_coldStore (n_fsm n)).
  - simpl. unfold FSM_GetColdSlotKeys. f_equal. f_equal.
    + rewrite length_fmap. unfold range_map. rewrite range_perm_ok. by rewrite length_map_to_list.
    + apply set_eq. intros k. rewrite elem_of_list_to_set, elem_of_dom. rewrite list_elem_of_fmap. split.
      * intros [b Hb]. exists (k, b). split; [done|]. by apply elem_of_range_map.
      * intros ([k' b] & -> & Hb). exists b. by apply elem_of_range_map.
  - simpl. destruct (f_coldStore (n_fsm n)) as [cs|] eqn:Ec; [|done]. simpl.
    by rewrite get_works by (done || by apply (so_works _ Ho)).
  - eapply write_law; [by eapply (sends (WUpdateMemoryUsage delta) None)|by apply memory_keeps|done].
  - eapply write_law; [by eapply (sends (WUpdateJobCount delta) None)|by apply count_keeps|done].
Defined.

End node_contract.

(** ** Theorems *)

Section theorems.

Context {CS Q : Type} `{ReliableColdStore CS} `{GoRange} `{Env}.


End theorems.

(** A session on a node that has a slot in its cold store. *)
Definition ex_calls : list call :=
  [KCreateJob ex_job; KIsSlotCold 10; KGetSlot 10; KGetHotSlotCount; KGetColdSlotKeys;
   KUnarchiveSlot 10; KGetHotSlotCount; KGetColdSlotCount; KArchiveSlot 10; KGetColdSlotData 10; KArchiveSlot 7;
   KCreateSlot ex_slot2; KGetSlot 10; KDeleteSlot 10; KGetSlot 10;
   KUpdateMemoryUsage 100; KUpdateMemoryUsage (-200); KGetMemoryUsage; KGetJob "a"].

Lemma ex_calls_ok : Forall call_ok ex_calls.
Proof.
  unfold ex_calls. rewrite !Forall_cons. unfold call_ok.
  split_and!; try done; try (unfold in64, two63; simpl; lia).
  split; [|done]. split_and!; [intros z [= <-]|intros z [=]|]; unfold in64, two63; simpl; lia.
Qed.

Definition ex_session : M (Node MemBolt unit) (list answer) :=
  @run_calls _ (@Node_JobStore MemBolt unit _ (ex_env 200) None)
    (@Node_SlotStore MemBolt unit _ sorted_range (ex_env 200)) (@Node_StateStore MemBolt unit _ (ex_env 200)) ex_calls.

Definition ex_answers : list answer :=
  [AError None; AFlag true; ASlot (Some ex_slot); ANumber 0; AKeys 1 {[10]};
   AError None; ANumber 1; ANumber 0; AError None; AData (inl (Some ex_slot));
   AError (Some (wrapf "slot 7: " ErrSlotNotFound));
   AError None; ASlot (Some ex_slot2); AError None; ASlot None;
   AError None; AError None; ANumber 0; AJob (Some ex_job)].

Lemma ex_cold_store_ok : store_ok ex_cold.
Proof.
  split.
  - apply map_Forall_empty.
  - intros cs [= <-]. apply map_Forall_singleton. vm_compute. by eexists.
  - intros cs k d [= <-] Hk Hd. unfold ex_cold_db in Hd.
    rewrite put_cold_at in Hd; [|unfold in64, two63; lia|done|by split_and!; vm_compute].
    change ((PutColdSlot 10 ex_slot (∅ : MemBolt)).2) with (@None error) in Hd. cbv iota in Hd.
    case_decide; [|done]. injection Hd as <-. split; [done|]. vm_compute. split_and!; congruence.
Qed.

