(* ===== verification/Wasm.v ===== *)
(** * The simulator in a browser: [cmd/wasm/main.go]

    [main] makes one simulator and exports twelve functions to JavaScript.
    [js] is a JavaScript value as [syscall/js] sees it. A call that panics
    ends the Go program, and with it every function it exports. How the engine
    writes numbers, how [encoding/json] reads text and how it writes a
    [float64] are arguments. *)

From S2P Require Import Prelude GoStrings GoFloat GoTime Json Types Codec Request ColdStore FSM.
From S2P Require Import Snapshot TimingWheel WheelProps Store StoreProps SlotQueue Worker Simulator.
From Stdlib Require Import SpecFloat.

Inductive js :=
  | JSUndefined
  | JSNull
  | JSBoolean (b : bool)
  | JSNumber (x : float64)
  | JSString (s : string)
  | JSSymbol
  | JSObject (members : list (string * js))
  | JSFunction.

(** [Value.Float] panics unless the value is a number. *)
Definition Value_Float (v : js) : option float64 :=
  match v with JSNumber x => Some x | _ => None end.

(** [successResult] and [errorResult]. *)
Definition successResult (data : string) : js := JSObject [("ok", JSBoolean true); ("data", JSString data)].

Definition errorResult (msg : string) : js := JSObject [("ok", JSBoolean false); ("error", JSString msg)].

(** The exported functions, by name. *)
Inductive export :=
  | XcreateJob | XdeleteJob | Xtick | XadvanceTime | XgetState | XgetStateJSON | XsetClockSpeed
  | XgetClockSpeed | XsetSuccessRate | XsetTime | XgetNow | Xreset.

Definition exports : list (string * export) :=
  [("createJob", XcreateJob); ("deleteJob", XdeleteJob); ("tick", Xtick); ("advanceTime", XadvanceTime);
   ("getState", XgetState); ("getStateJSON", XgetStateJSON); ("setClockSpeed", XsetClockSpeed);
   ("getClockSpeed", XgetClockSpeed); ("setSuccessRate", XsetSuccessRate); ("setTime", XsetTime);
   ("getNow", XgetNow); ("reset", Xreset)].

(** The configuration of [main]. *)
Definition wasm_config : SimConfig :=
  mkSimConfig (10 * Second) f_095 100 (cfg_WheelConfigs DefaultConfig).

(** [data, _ := json.Marshal(v)]: nothing when the value is refused. *)
Definition marshalled (j : json) : string :=
  match Marshal j with inl d => text d | inr _ => EmptyString end.

(** ** Documents *)

Definition enc_int (z : Z) : json := JNum (pretty z).

(** Structs without tags are written with the names of their fields. *)
Definition enc_ExecutionResult (r : ExecutionResult) : json := JObj
  [("JobID", JStr (er_JobID r)); ("Success", JBool (er_Success r));
   ("ResponseTime", enc_int (er_ResponseTime r)); ("Timestamp", enc_int (er_Timestamp r))].

(** The map [tick] returns, its keys sorted. *)
Definition enc_tick (r : TickResult) : json := JObj
  [("executed", enc_int (Z.of_nat (length (tr_ExecutedJobs r))));
   ("executed_jobs", JArr (enc_ExecutionResult <$> tr_ExecutedJobs r));
   ("ready_slots", enc_int (tr_ReadySlots r));
   ("rescheduled", enc_int (Z.of_nat (length (tr_Rescheduled r))));
   ("rescheduled_ids", JArr (JStr <$> tr_Rescheduled r))].

Section Wasm.

(** The text of a number in the engine; [json.Unmarshal] up to the tree; the
    literal the encoder writes for a finite [float64]. *)
Variable number_text : float64 → string.
Variable read_json : string → json + error.
Variable float_literal : float64 → string.

Definition enc_float (x : float64) : json :=
  match x with
  | S754_nan => JUnsupported "json: unsupported value: NaN"
  | S754_infinity false => JUnsupported "json: unsupported value: +Inf"
  | S754_infinity true => JUnsupported "json: unsupported value: -Inf"
  | _ => JNum (float_literal x)
  end.

Definition enc_SimState (s : SimState) : json := JObj
  [("now", enc_int (ss_Now s)); ("clock_speed", enc_float (ss_ClockSpeed s));
   ("jobs", enc_map id enc_Job (ss_Jobs s)); ("slots", enc_map pretty enc_Slot (ss_Slots s));
   ("execution_states", enc_map id enc_State (ss_ExecutionStates s)); ("wheel_size", enc_int (ss_WheelSize s));
   ("exec_log", JArr (enc_ExecutionResult <$> ss_ExecLog s)); ("tick_count", enc_int (ss_TickCount s));
   ("total_executed", enc_int (ss_TotalExecuted s)); ("total_rescheduled", enc_int (ss_TotalRescheduled s))].

(** [Value.String] never panics: it describes what is not a string. *)
Definition Value_String (v : js) : string :=
  match v with
  | JSUndefined => "<undefined>"
  | JSNull => "<null>"
  | JSBoolean b => "<boolean: " +:+ (if b then "true" else "false") +:+ ">"
  | JSNumber x => "<number: " +:+ number_text x +:+ ">"
  | JSString s => s
  | JSSymbol => "<symbol>"
  | JSObject _ => "<object>"
  | JSFunction => "<function>"
  end.

Context {CS : Type} `{ColdSlotStore CS} `{GoRange} `{Cron} `{Rand}.

Local Open Scope go_scope.

Notation P := (M (Simulator CS)).

(** *** Getters of the simulator *)

Definition GetClockSpeed : P float64 := gets (λ s, clk_speed (sim_clock s)).

Definition GetNow : P Z := gets (λ s, clk_now (sim_clock s)).

Definition GetStateJSON : P string :=
  state <- gets GetState ;;
  mreturn (match Marshal (enc_SimState state) with inl d => text d | inr _ => "{}" end).

(** ** The exported functions *)

(** [if len(args) < 1 { return errorResult(msg) }] *)
Definition with_arg (msg : string) (args : list js) (k : js → P js) : P js :=
  match args with [] => mreturn (errorResult msg) | a :: _ => k a end.

Definition js_createJob (wall : Z) (uuid : string) (args : list js) : P js :=
  with_arg "expected JSON string argument" args (λ a,
    let decoded := match read_json (Value_String a) with
                   | inr e => inr e
                   | inl doc => match dec_CreateJobRequest doc with Some r => inl r | None => inr decode_error end
                   end in
    match decoded with
    | inr e => mreturn (errorResult ("invalid JSON: " +:+ Error e))
    | inl req =>
        r <- Sim_CreateJob wall uuid req ;;
        mreturn (match r with
                 | inr e => errorResult (Error e)
                 | inl job => successResult (marshalled (enc_Job job))
                 end)
    end).

Definition js_deleteJob (args : list js) : P js :=
  with_arg "expected job ID argument" args (λ a,
    e <- Sim_DeleteJob (Value_String a) ;;
    mreturn (match e with Some e => errorResult (Error e) | None => successResult "null" end)).

Definition js_tick : P js :=
  result <- Sim_Tick ;;
  mreturn (successResult (marshalled (enc_tick result))).

Definition js_advanceTime (args : list js) : P js :=
  with_arg "expected seconds argument" args (λ a,
    seconds <- lift_opt (Value_Float a) ;;
    now <- AdvanceTime seconds ;;
    mreturn (successResult (marshalled (JObj [("now", enc_int now)])))).

Definition js_getState : P js :=
  state <- gets GetState ;;
  mreturn (successResult (marshalled (enc_SimState state))).

Definition js_getStateJSON : P js := s <- GetStateJSON ;; mreturn (JSString s).

Definition js_setClockSpeed (args : list js) : P js :=
  with_arg "expected speed argument" args (λ a,
    speed <- lift_opt (Value_Float a) ;; SetClockSpeed speed ;; mreturn (successResult "null")).

Definition js_getClockSpeed : P js := x <- GetClockSpeed ;; mreturn (JSNumber x).

Definition js_setSuccessRate (args : list js) : P js :=
  with_arg "expected rate argument" args (λ a,
    rate <- lift_opt (Value_Float a) ;; SetSuccessRate rate ;; mreturn (successResult "null")).

Definition js_setTime (args : list js) : P js :=
  with_arg "expected timestamp argument" args (λ a,
    t <- lift_opt (Value_Float a) ;; SetTime (f_trunc t) ;; mreturn (successResult "null")).

(** An [int64] becomes a number, rounded to a [float64]. *)
Definition js_getNow : P js := now <- GetNow ;; mreturn (JSNumber (f_of_Z now)).

Definition js_reset (wall : Z) : P js := Sim_Reset wall ;; mreturn (successResult "null").

Definition invoke (wall : Z) (uuid : string) (x : export) (args : list js) : P js :=
  match x with
  | XcreateJob => js_createJob wall uuid args
  | XdeleteJob => js_deleteJob args
  | Xtick => js_tick
  | XadvanceTime => js_advanceTime args
  | XgetState => js_getState
  | XgetStateJSON => js_getStateJSON
  | XsetClockSpeed => js_setClockSpeed args
  | XgetClockSpeed => js_getClockSpeed
  | XsetSuccessRate => js_setSuccessRate args
  | XsetTime => js_setTime args
  | XgetNow => js_getNow
  | Xreset => js_reset wall
  end.

End Wasm.

(** ** Sessions *)

(** The functions that read a number. *)
Definition takes_number (x : export) : bool :=
  match x with XadvanceTime | XsetClockSpeed | XsetSuccessRate | XsetTime => true | _ => false end.

(** The first argument, if there is one, is a number where one is read. *)
Definition args_ok (x : export) (args : list js) : Prop :=
  match args with
  | [] => True
  | v :: _ => takes_number x = true → is_Some (Value_Float v)
  end.

(** A call, with the reading of the clock and the identifier it may get. *)
Record js_call := mkCall {
  jc_wall : Z;
  jc_uuid : string;
  jc_export : export;
  jc_args : list js }.

(** The reply of a tick that does nothing. *)
Definition idle_reply : js := successResult (marshalled (enc_tick nothing)).

Lemma f_trunc_in64 x : in64 (f_trunc x).
Proof.
  unfold f_trunc. destruct x as [s|s| |s m e]; try (unfold in64, two63; lia). cbv zeta.
  match goal with |- in64 (if ?d then _ else _) => destruct d as [Hv|Hv] end; [done|unfold in64, two63; lia].
Qed.

Lemma returns_bind_ret {W A B} (c : M W A) (f : A → B) w Q :
  returns (mthen c (λ a, mreturn (f a))) w Q → returns c w (λ a w', Q (f a) w').
Proof.
  unfold returns, mthen, mreturn. intros (b & w' & E & HQ).
  destruct (c w) as [[a w1]|]; [|done]. simplify_eq. by exists a, w'.
Qed.

Section sessions.

Variable number_text : float64 → string.
Variable read_json : string → json + error.
Variable float_literal : float64 → string.

Context {CS : Type} `{ColdSlotStore CS} `{GoRange} `{Cron} `{Rand}.

Local Open Scope go_scope.

Implicit Types s : Simulator CS.

Notation call_js := (invoke number_text read_json float_literal).

Definition run_call (c : js_call) (out : list js) : M (Simulator CS) (list js) :=
  v <- call_js (jc_wall c) (jc_uuid c) (jc_export c) (jc_args c) ;; mreturn (out ++ [v]).

(** Reading a number that is none ends the program, in any state. *)
Lemma bad_number_panics x v args wall uuid s :
  takes_number x = true → Value_Float v = None → call_js wall uuid x (v :: args) s = None.
Proof. intros Hx Hv. destruct x; try done; unfold invoke; cbn; unfold mthen, lift_opt; by rewrite Hv. Qed.

Lemma idle_forget out s : sim_idle out s → sim_idle [] s.
Proof. intros []. by constructor. Qed.

(** Any call with proper arguments returns and leaves the wheel empty; a tick
    replies that nothing happened. *)
Lemma invoke_idle x args wall uuid s :
  sim_idle [] s → in64 wall → args_ok x args →
  returns (call_js wall uuid x args) s (λ v s', sim_idle [] s' ∧ (x = Xtick → v = idle_reply)).
Proof.
  intros Hs Hwall Hargs.
  assert (∀ c, sim_call_ok c → returns (run_sim_call c []) s sim_idle) as Hcall by (intros; by apply idle_call).
  assert (∀ A (c : M (Simulator CS) A) call (f : A → js),
    (∀ Q, returns (run_sim_call call []) s Q → returns (r <- c ;; mreturn []) s Q) → sim_call_ok call → x ≠ Xtick →
    returns (r <- c ;; mreturn (f r)) s (λ v s', sim_idle [] s' ∧ (x = Xtick → v = idle_reply))) as Hrun.
  { intros A c call f Hc Hok Hx. apply returns_bind.
    eapply returns_mono; [exact (returns_bind_ret _ (λ _, []) _ _ (Hc _ (Hcall call Hok)))|].
    intros r s' Hs'. by apply returns_ret. }
  assert (∀ v rest, args = v :: rest → takes_number x = true → ∃ n, Value_Float v = Some n) as Hnum.
  { intros v rest -> Hx. by destruct (Hargs Hx) as [n ?]; exists n. }
  destruct x; unfold invoke;
    try (unfold js_createJob, js_deleteJob, js_advanceTime, js_setClockSpeed, js_setSuccessRate, js_setTime, with_arg;
         destruct args as [|v args]; [by apply returns_ret|];
         try (destruct (Hnum v args eq_refl eq_refl) as [n Hn]; apply returns_bind; eapply returns_lift; [exact Hn|])).
  - match goal with |- returns (match ?d with inl _ => _ | inr _ => _ end) _ _ => destruct d as [req|e] end;
      [|by apply returns_ret].
    by apply (Hrun _ _ (SCreate wall uuid req)).
  - by apply (Hrun _ _ (SDelete (Value_String number_text v))).
  - unfold js_tick. apply returns_bind. eapply returns_mono; [exact (returns_bind_ret _ (λ r, [] ++ [r]) _ _ (Hcall STick I))|].
    intros r s' Hs'. apply returns_ret. split; [exact (idle_forget _ _ Hs')|]. intros _.
    destruct Hs' as [_ _ _ _ Ho]. inversion Ho; subst. done.
  - by apply (Hrun _ _ (SAdvance n)).
  - by apply returns_bind, returns_gets, returns_ret.
  - unfold js_getStateJSON, GetStateJSON.
    apply returns_bind, returns_bind, returns_gets. by do 2 apply returns_ret.
  - by apply (Hrun _ _ (SSetSpeed n) (λ _, successResult "null")).
  - by apply returns_bind, returns_gets, returns_ret.
  - by apply (Hrun _ _ (SSetRate n) (λ _, successResult "null")).
  - apply (Hrun _ _ (SSetTime (f_trunc n)) (λ _, successResult "null")); [done|apply f_trunc_in64|done].
  - by apply returns_bind, returns_gets, returns_ret.
  - by apply (Hrun _ _ (SReset wall) (λ _, successResult "null")).
Qed.

(** C36: what a page can make of the simulator. From the state [main] leaves,
    and whatever functions it calls with whatever arguments, the only call
    that ends the program is one that passes something other than a number
    where a number is read. Every other call replies, and a tick always
    replies that nothing was executed: what [createJob] files never runs. *)
Theorem browser_session wall0 calls :
  in64 wall0 → Forall (λ c, in64 (jc_wall c)) calls →
  (Forall (λ c, args_ok (jc_export c) (jc_args c)) calls →
   ∃ (s0 : Simulator CS) out s, NewSimulator wall0 wasm_config = Some s0 ∧
     for_acc run_call calls [] s0 = Some (out, s) ∧
     Forall2 (λ c v, jc_export c = Xtick → v = idle_reply) calls out) ∧
  (∀ x v args wall uuid (s : Simulator CS), ¬ args_ok x (v :: args) → call_js wall uuid x (v :: args) s = None).
Proof.
  intros Hw0 Hwalls. split.
  - intros Hargs. destruct (idle_new (CS := CS) wall0 wasm_config 10) as (s0 & E0 & Hs0); [lia|done|done|done|].
    destruct (for_acc_ind (λ l out s, sim_idle [] s ∧ Forall2 (λ c v, jc_export c = Xtick → v = idle_reply) l out)
      run_call calls [] s0) as (out & s & E & _ & Ho); [by split|..|by exists s0, out, s].
    intros l1 c l2 out s Hl [Hs Ho]. subst calls.
    apply Forall_app in Hwalls as [_ [Hwc _]%Forall_cons], Hargs as [_ [Hac _]%Forall_cons].
    destruct (invoke_idle (jc_export c) (jc_args c) (jc_wall c) (jc_uuid c) s Hs Hwc Hac) as (v & s' & E & Hs' & Hv).
    exists (out ++ [v]), s'. unfold run_call, mthen. rewrite E. split_and!; [done|done|].
    apply Forall2_app; [done|]. by constructor.
  - intros x v args wall uuid s Hn. simpl in Hn. apply bad_number_panics.
    + destruct (takes_number x); [done|]. by destruct Hn.
    + destruct (Value_Float v) eqn:E; [|done]. destruct Hn. intros _. by eexists.
Qed.

(** An infinite clock speed, which [setClockSpeed] accepts, makes the
    state unreadable. Whatever the state is, afterwards [getState] replies
    that all went well, with nothing in it, because the error of the encoder
    is dropped, and [getStateJSON] replies with an empty object. *)
Theorem infinite_speed_hides_state wall uuid wall' uuid' args s :
  ∃ s', call_js wall uuid XsetClockSpeed (JSNumber (S754_infinity false) :: args) s = Some (successResult "null", s') ∧
    call_js wall' uuid' XgetState [] s' = Some (successResult "", s') ∧
    call_js wall' uuid' XgetStateJSON [] s' = Some (JSString "{}", s').
Proof.
  eexists. split; [done|]. split; cbn; unfold js_getState, js_getStateJSON, GetStateJSON, mthen, gets; cbn; done.
Qed.

(** A job that is accepted comes back as the state machine holds it. *)
Lemma create_replies_with_job v doc req job args wall uuid s :
  read_json (Value_String number_text v) = inl doc → dec_CreateJobRequest doc = Some req →
  ToJob wall uuid req = inl job →
  returns (call_js wall uuid XcreateJob (v :: args)) s (λ r s',
    r = successResult (marshalled (enc_Job job)) ∧ f_jobs (sim_fsm s') !! job_ID job = Some job).
Proof.
  intros Ed Er Ej. unfold invoke, js_createJob, with_arg. rewrite Ed, Er. cbv zeta.
  apply returns_bind. unfold Sim_CreateJob. rewrite Ej. apply returns_bind, sim_apply_returns.
  cbn -[cmd_create_job]. apply returns_bind. eapply returns_mono; [apply updateSlotInFSM_returns|].
  intros [] s' (f & -> & Hf). apply returns_ret, returns_ret. split; [done|]. cbn [sim_fsm sim_set_fsm] in *.
  rewrite Hf. by apply lookup_insert_eq.
Qed.

End sessions.

(** ** A concrete session *)

Definition ex_session : list js_call :=
  [mkCall 100 "u" XcreateJob [JSString "{}"]; mkCall 100 "" XsetTime [JSNumber (f_of_Z 200)]; mkCall 100 "" Xtick []].

(** The document stands for a request for second 105. *)
Definition ex_read (_ : string) : json + error :=
  inl (JObj [("type", JStr JobUnico); ("timestamp", JStr "105")]).

Lemma browser_session_witness :
  ∃ (s0 : Simulator MemBolt) out s, NewSimulator 100 wasm_config = Some s0 ∧
    for_acc (@run_call (λ _, "0") ex_read (λ _, "0") _ _ sorted_range every_minute ex_rand) ex_session [] s0 = Some (out, s) ∧
    Forall2 (λ c v, jc_export c = Xtick → v = idle_reply) ex_session out.
Proof.
  apply (proj1 (@browser_session (λ _, "0") ex_read (λ _, "0") MemBolt _ sorted_range every_minute ex_rand 100 ex_session
    ltac:(unfold in64, two63; lia) ltac:(repeat constructor; unfold two63; cbn; lia))).
  repeat constructor; intros Hx; try discriminate Hx. eexists. reflexivity.
Defined.
