(* ===== verification/WorkerMetrics.v ===== *)
(** * The worker with its metrics: [worker.go] and [execution_manager.go]

    The code of [ExecutionManager] and [Worker] once more, with the calls that
    record metrics where the code makes them. The durations it measures are
    arguments: [took] for the execution of a job, [since] for the time from
    the beginning of a tick to a slot. The status callback is in [Metered]. *)

From S2P Require Import Prelude GoStrings GoFloat Json Sanitize GoTime Types Codec Request ColdStore.
From S2P Require Import FSM Store StoreProps StatusTracker Limits TimingWheel SlotQueue SlotQueueProps.
From S2P Require Import ExecutionManager Worker WorkerProps Gateway Api Metrics Instrumentation Metered.

Section WorkerMetrics.

Context {CS : Type} `{ColdSlotStore CS} `{GoRange} `{Env} `{HTTP} `{Cron}.

Notation P := (M (Node CS Queue)).
Notation MM := (M (Node CS Queue * Telemetry)).

Local Open Scope go_scope.

Variable took : Job → Z.
Variable since : Z → Z.

Definition record_retry (attemptNum : Z) : MM unit :=
  if decide (attemptNum > 1) then metered (λ m, RecordRetryCount m (i64 (attemptNum - 1))) else mreturn tt.

Definition run_attempt_m (em : ExecutionManager) (job : Job) (attemptNum : Z) : MM (option error) :=
  start <- on_node Now ;;
  r <- on_node (executeWebhook job) ;;
  let '(httpStatus, responseTime, err) := r in
  fin <- on_node Now ;;
  cancelled <- on_node (was_cancelled (job_ID job)) ;;
  match err with
  | Some e =>
      if (cancelled : bool) then mreturn None
      else
        metered (λ m, IncrementExecutionFailures m (classifyError err)) ;;
        record_retry attemptNum ;;
        _ <- on_node (MarkFailed (job_ID job)
               (Some (mkAttempt attemptNum start fin (em_nodeID em) StatusFailed httpStatus
                        responseTime (Error e) (classifyError err)))) ;;
        mreturn (Some e)
  | None =>
      if (cancelled : bool) then
        _ <- on_node (recordAttempt (job_ID job)
               (Some (mkAttempt attemptNum start fin (em_nodeID em) "" 0 responseTime "" ""))) ;;
        mreturn None
      else
        record_retry attemptNum ;;
        on_node (MarkCompleted (job_ID job)
          (Some (mkAttempt attemptNum start fin (em_nodeID em) StatusCompleted httpStatus
                   responseTime "" "")))
  end.

Definition Execute_m (em : ExecutionManager) (job : Job) : MM (option error) :=
  c <- on_node (CanExecute (job_ID job)) ;;
  match c with
  | inr e => mreturn (Some (wrapf "failed to check execution status: " e))
  | inl false => mreturn None
  | inl true =>
      state <- on_node (GetStatus (job_ID job)) ;;
      let attemptNum := match state with inl s => i64 (es_AttemptCount s + 1) | inr _ => 1 end in
      if decide (attemptNum > em_maxAttempts em) then
        mreturn (Some (errors_New "exceeded max attempts"))
      else
        e <- on_node (MarkInProgress (job_ID job) (em_nodeID em)) ;;
        match e with
        | Some e => mreturn (Some (wrapf "failed to mark job in progress: " e))
        | None =>
            on_node (set_cancel (λ c, {[job_ID job]} ∪ c)) ;;
            res <- run_attempt_m em job attemptNum ;;
            on_node (set_cancel (λ c, c ∖ {[job_ID job]})) ;;
            mreturn res
        end
  end.

(** What [executeJob] records of an execution that took [d]. *)
Definition record_execution (job : Job) (success : bool) (d : Z) : MM unit :=
  metered (λ m, IncrementJobsExecuted m (job_Type job) success ;; RecordJobExecutionDuration m d (job_Type job)) ;;
  metered (λ m,
    (if success then mreturn tt else IncrementWorkerErrors m "job_execution_failed") ;;
    RecordWorkerProcessingTime m d ;; RecordWorkerIdleTime m 0).

Definition executeJob_m (em : ExecutionManager) (job : Job) : MM unit :=
  err <- Execute_m em job ;;
  record_execution job (match err with None => true | Some _ => false end) (took job).

Definition process_job_m (em : ExecutionManager) (now : Z) (job : Job) (b : Batch) : MM Batch :=
  if shouldExecuteJob job now then
    executeJob_m em job ;;
    let rm := jobsToRemove b ++ [job_ID job] in
    if decide (job_Type job = JobUnico) then
      mreturn (mkBatch rm (jobsToReschedule b) true (hasJobsNotReady b))
    else if decide (job_Type job = JobRecurrente) then
      let nextTimestamp := calculateNextExecution job now in
      if decide (nextTimestamp > 0) then
        mreturn (mkBatch rm (jobsToReschedule b ++ [set_CreatedAt nextTimestamp job]) true
                   (hasJobsNotReady b))
      else mreturn (mkBatch rm (jobsToReschedule b) true (hasJobsNotReady b))
    else mreturn (mkBatch (jobsToRemove b) (jobsToReschedule b) true (hasJobsNotReady b))
  else mreturn (mkBatch (jobsToRemove b) (jobsToReschedule b) (anyJobExecuted b) true).

Definition when_leader_m (k : MM (option error)) : MM unit :=
  l <- on_node IsLeader ;; if (l : bool) then (_ <- k ;; mreturn tt) else mreturn tt.

Definition remove_job_m (jobID : string) : MM unit :=
  when_leader_m (DeleteJob_m jobID) ;; on_node (RemoveJob jobID).

Definition reschedule_job_m (job : Job) : MM unit := when_leader_m (CreateJob_m job).

Definition process_slot_m (em : ExecutionManager) (now : Z) : MM bool :=
  slot <- on_node GetNextSlot ;;
  match slot with
  | None => mreturn false
  | Some slot =>
      if decide (now < s_MinTime slot) then mreturn false
      else
        metered (λ m, IncrementSlotsProcessed m (Z.of_nat (length (s_Jobs slot))) ;;
                      RecordSlotProcessingDuration m (since (s_Key slot))) ;;
        b <- for_acc (process_job_m em now) (s_Jobs slot) (mkBatch [] [] false false) ;;
        for_each remove_job_m (jobsToRemove b) ;;
        for_each reschedule_job_m (jobsToReschedule b) ;;
        mreturn (anyJobExecuted b || negb (hasJobsNotReady b))
  end.

Fixpoint process_slots_m (maxSlotsToCheck : nat) (em : ExecutionManager) (now : Z) : MM unit :=
  match maxSlotsToCheck with
  | O => mreturn tt
  | S k =>
      more <- process_slot_m em now ;;
      if (more : bool) then process_slots_m k em now else mreturn tt
  end.

Definition processSlots_m (em : ExecutionManager) : MM unit :=
  now <- on_node Now ;; process_slots_m 10 em now.

End WorkerMetrics.

(** ** Metrics do not change what the worker does *)

Section transparency.

Context {CS : Type} `{ColdSlotStore CS} `{GoRange} `{Env} `{HTTP} `{Cron}.

Variable took : Job → Z.
Variable since : Z → Z.

Notation erases := (@erases CS).

#[local] Hint Resolve erases_CreateJob erases_DeleteJob : erasure.

Lemma erases_retry {B} attemptNum (km : M (Node CS Queue * Telemetry) B) (c : M (Node CS Queue) B) :
  erases km c → erases (mthen (record_retry attemptNum) (λ _, km)) c.
Proof.
  intros Hc. unfold record_retry. case_decide; [by apply erases_metered; [recorded_types|]|].
  intros n t Ht. unfold mthen, mreturn. by apply Hc.
Qed.

Lemma erases_run_attempt em job k : erases (run_attempt_m em job k) (run_attempt em job k).
Proof.
  unfold run_attempt_m, run_attempt. do 2 (apply erases_bind; [erase|intros ?]).
  case_match. case_match. do 2 (apply erases_bind; [erase|intros ?]).
  repeat case_match; repeat first [apply erases_metered; [recorded_types|]|apply erases_retry]; erase.
Qed.

#[local] Hint Resolve erases_run_attempt : erasure.

Lemma erases_Execute em job : erases (Execute_m em job) (Execute em job).
Proof. unfold Execute_m, Execute. erase. Qed.

#[local] Hint Resolve erases_Execute : erasure.

Lemma types_ok_or (b : bool) (c : T unit) : types c → types (if b then mreturn tt else c).
Proof. destruct b; [intros _; apply types_ret|done]. Qed.

Lemma types_execution m job success d :
  complete m →
  types (IncrementJobsExecuted (Some m) (job_Type job) success ;; RecordJobExecutionDuration (Some m) d (job_Type job))%go ∧
  types ((if success then mreturn tt else IncrementWorkerErrors (Some m) "job_execution_failed") ;;
    RecordWorkerProcessingTime (Some m) d ;; RecordWorkerIdleTime (Some m) 0)%go.
Proof.
  intros Hm. split; [apply types_bind; by eauto with metrics|].
  apply types_bind; [apply types_ok_or; by eauto with metrics|]. apply types_bind; by eauto with metrics.
Qed.

Lemma erases_executeJob em job : erases (executeJob_m took em job) (executeJob em job).
Proof.
  unfold executeJob_m, executeJob, record_execution. apply erases_bind; [erase|]. intros err.
  apply erases_metered; [intros m Hm; by apply types_execution|].
  apply erases_metered_ret. intros m Hm. by apply types_execution.
Qed.

#[local] Hint Resolve erases_executeJob : erasure.

Lemma erases_process_job em now job b :
  erases (process_job_m took em now job b) (process_job em now job b).
Proof. unfold process_job_m, process_job. erase. Qed.

Lemma erases_when_leader km k : erases km k → erases (when_leader_m km) (when_leader k).
Proof. intros Hk. unfold when_leader_m, when_leader. erase. Qed.

Lemma erases_remove id : erases (remove_job_m id) (remove_job id).
Proof. unfold remove_job_m, remove_job. apply erases_bind; [apply erases_when_leader|]; erase. Qed.

Lemma erases_reschedule job : erases (reschedule_job_m job) (reschedule_job job).
Proof. apply erases_when_leader. erase. Qed.

Lemma erases_for_acc {A B} (km : A → B → M (Node CS Queue * Telemetry) B) k l b :
  (∀ a b, erases (km a b) (k a b)) → erases (for_acc km l b) (for_acc k l b).
Proof.
  intros Hk. revert b. induction l as [|x l IH]; intros b; simpl; [apply erases_ret|].
  by apply erases_bind.
Qed.

Lemma erases_for_each {A} (km : A → M (Node CS Queue * Telemetry) unit) k l :
  (∀ a, erases (km a) (k a)) → erases (for_each km l) (for_each k l).
Proof. intros Hk. induction l as [|x l IH]; simpl; [apply erases_ret|by apply erases_bind]. Qed.

#[local] Hint Resolve erases_process_job erases_remove erases_reschedule erases_for_acc erases_for_each : erasure.

Lemma erases_process_slot em now : erases (process_slot_m took since em now) (process_slot em now).
Proof.
  unfold process_slot_m, process_slot. apply erases_bind; [erase|]. intros [slot|]; [|erase].
  case_decide; [erase|]. apply erases_metered; [recorded_types|]. erase.
Qed.

Lemma erases_process_slots k em now :
  erases (process_slots_m took since k em now) (process_slots k em now).
Proof.
  induction k as [|k IH]; simpl; [apply erases_ret|].
  apply erases_bind; [apply erases_process_slot|]. intros []; [done|apply erases_ret].
Qed.

(** A tick of the worker does the same with its metrics as without, and what
    it records is well typed. *)
Lemma erases_processSlots em : erases (processSlots_m took since em) (processSlots em).
Proof.
  apply erases_bind; [apply erases_node|]. intros now. apply erases_process_slots.
Qed.

End transparency.

(** ** Every execution is counted once *)

Section counting.

Context {CS : Type} `{ColdSlotStore CS} `{GoRange} `{Env} `{HTTP} `{Cron} `{Reader}.

Variable took : Job → Z.
Variable since : Z → Z.
Variable jt : string.

(** Executions of jobs of type [jt], successful or not. *)
Definition runs (t : Telemetry) : Z :=
  total (name_of JobsExecuted) (job_type jt) (t_log t) + total (name_of JobsFailed) (job_type jt) (t_log t).

Notation moves := (@moves_by CS runs).

Definition is_type (job : Job) : Z := if decide (job_Type job = jt) then 1 else 0.

Lemma runs_adds d1 d2 d (c : T unit) :
  d = d1 + d2 → adds JobsExecuted (job_type jt) d1 c → adds JobsFailed (job_type jt) d2 c →
  types c ∧ ∀ t, returns c t (λ _ t', runs t' = runs t + d).
Proof.
  intros -> [Ht A1] [_ A2]. split; [done|]. intros t.
  destruct (A1 t) as ([] & t1 & E1 & T1), (A2 t) as ([] & t2 & E2 & T2).
  rewrite E1 in E2. injection E2 as <-. exists tt, t1. split; [done|]. unfold runs. lia.
Qed.

Lemma job_type_inj a b : job_type a = job_type b ↔ a = b.
Proof.
  split; [|by intros ->]. unfold job_type. intros E. apply (f_equal (lookup "job_type")) in E.
  rewrite !lookup_singleton_eq in E. congruence.
Qed.

(** Recordings on other instruments. *)
Ltac elsewhere :=
  intros m Hm; cbn [unless_nil]; unfold Add, RecordInt, RecordSeconds;
  apply (runs_adds 0 0); [done|counted; by repeat (rewrite decide_False by naive_solver)..].

Lemma moves_execution job success d : moves (record_execution job success d) (λ _ k, k = is_type job).
Proof.
  unfold record_execution. eapply moves_bind.
  - apply (moves_metered _ _ (is_type job)). intros m Hm.
    unfold IncrementJobsExecuted, RecordJobExecutionDuration, Add, RecordSeconds, is_type.
    pose proof (job_type_inj (job_Type job) jt) as Hj.
    destruct success; [apply (runs_adds (is_type job) 0)|apply (runs_adds 0 (is_type job))];
      unfold is_type; try lia; counted; repeat case_decide; naive_solver lia.
  - intros _ k ->. eapply moves_mono; [apply (moves_metered _ _ 0)|intros _ k ->; lia].
    intros m Hm. apply (runs_adds 0 0); [done|..];
      unfold IncrementWorkerErrors, RecordWorkerProcessingTime, RecordWorkerIdleTime, Add, RecordSeconds;
      destruct success; counted; by repeat (rewrite decide_False by naive_solver).
Qed.

(** Code that runs no job. *)
Notation quiet cm := (moves cm none).

Lemma quiet_metered (k : option Metrics → T unit) :
  (∀ m, complete m → types (k (Some m)) ∧ ∀ t, returns (k (Some m)) t (λ _ t', runs t' = runs t + 0)) →
  quiet (metered k).
Proof. intros Hk. by apply (moves_mono _ _ (λ _ d, d = 0)), id; [apply moves_metered|]. Qed.

Lemma quiet_for_each {A} (k : A → M (Node CS Queue * Telemetry) unit) l :
  (∀ a, quiet (k a)) → quiet (for_each k l).
Proof. intros Hk. induction l as [|x l IH]; simpl; [by apply moves_ret|by apply moves_after]. Qed.

Ltac hush :=
  repeat first
    [ solve [auto with hush nocore]
    | by apply moves_ret
    | apply moves_node
    | apply quiet_metered; elsewhere
    | apply moves_after; [|intros ?]
    | case_match
    | case_decide ].

Create HintDb hush.

Lemma quiet_retry k : quiet (record_retry k).
Proof. unfold record_retry. hush. Qed.

#[local] Hint Resolve quiet_retry : hush.

Lemma quiet_run_attempt em job k : quiet (run_attempt_m em job k).
Proof. unfold run_attempt_m. hush. Qed.

#[local] Hint Resolve quiet_run_attempt : hush.

Lemma quiet_Execute em job : quiet (Execute_m em job).
Proof. unfold Execute_m. hush. Qed.

Lemma quiet_notify event job : quiet (notify_m event job).
Proof. unfold notify_m, event_handler_m. hush. Qed.

#[local] Hint Resolve quiet_notify : hush.

Lemma quiet_remove id : quiet (remove_job_m id).
Proof. unfold remove_job_m, when_leader_m, DeleteJob_m, if_leader_m. hush. Qed.

Lemma quiet_reschedule job : quiet (reschedule_job_m job).
Proof. unfold reschedule_job_m, when_leader_m, CreateJob_m, if_leader_m. hush. Qed.

Lemma moves_executeJob em job : moves (executeJob_m took em job) (λ _ k, k = is_type job).
Proof. apply moves_after; [apply quiet_Execute|]. intros err. apply moves_execution. Qed.

(** The jobs of type [jt] among those that are due. *)
Definition due_runs (now : Z) (jobs : list Job) : Z :=
  Z.of_nat (length (filter (λ job, shouldExecuteJob job now = true ∧ job_Type job = jt) jobs)).

Lemma moves_process_job em now job b :
  moves (process_job_m took em now job b) (λ _ k, k = due_runs now [job]).
Proof.
  unfold process_job_m, due_runs. rewrite filter_cons. destruct (shouldExecuteJob job now).
  - eapply moves_bind; [apply moves_executeJob|]. intros _ k ->. unfold is_type.
    repeat case_decide; apply moves_ret; repeat case_decide; naive_solver lia.
  - apply moves_ret. by rewrite decide_False by naive_solver.
Qed.

Lemma moves_batch em now jobs b :
  moves (for_acc (process_job_m took em now) jobs b) (λ _ k, k = due_runs now jobs).
Proof.
  revert b. induction jobs as [|job jobs IH]; intros b; simpl; [by apply moves_ret|].
  eapply moves_bind; [apply moves_process_job|]. intros b' k ->.
  eapply moves_mono; [apply IH|]. intros _ k ->. unfold due_runs.
  rewrite !filter_cons. repeat case_decide; simpl; lia.
Qed.

Lemma moves_process_slot em now n t slot n1 more n' t' :
  metrics_ok t → is_Some (t_global t) →
  GetNextSlot n = Some (Some slot, n1) → s_MinTime slot <= now →
  process_slot_m took since em now (n, t) = Some (more, (n', t')) →
  metrics_ok t' ∧ runs t' = runs t + due_runs now (s_Jobs slot).
Proof.
  intros Ht Hg E1 Hmin E. unfold process_slot_m in E. unfold mthen at 1, on_node at 1 in E. simpl in E.
  rewrite E1 in E. rewrite decide_False in E by lia.
  match type of E with
  | ?c _ = _ => assert (moves c (λ _ k, k = due_runs now (s_Jobs slot))) as Hc
  end.
  { apply moves_after; [apply quiet_metered; elsewhere|]. intros _.
    eapply moves_bind; [apply moves_batch|]. intros b k ->.
    apply moves_after; [apply quiet_for_each, quiet_remove|]. intros _.
    apply moves_after; [apply quiet_for_each, quiet_reschedule|]. intros _.
    apply moves_ret. lia. }
  destruct (Hc _ _ _ _ _ Ht Hg E) as (? & _ & k & -> & ?). done.
Qed.

(** Both counters of executions as a dashboard adds them up. *)
Definition executions_reading (t : Telemetry) : Z :=
  i64 (reading JobsExecuted (job_type jt) t + reading JobsFailed (job_type jt) t).

Lemma executions_reading_runs t : Forall well_typed (t_log t) → executions_reading t = i64 (runs t).
Proof.
  intros Hw. unfold executions_reading. rewrite !reading_total by (done || by left).
  unfold runs. by rewrite i64_plus_l, Z.add_comm, i64_plus_l, Z.add_comm.
Qed.

(** Every execution is counted once. When the worker handles a slot that is
    due, the node ends as it does without metrics, and the executed and failed
    counters of a job type together rise by the number of jobs of that type
    in the slot that are due: one for each job it hands to the execution
    manager, whether the webhook was called or not, and none for the jobs it
    removes or reschedules. *)
Theorem executions_are_counted em now n t m slot n1 more n' :
  metrics_ok t → t_global t = Some m →
  GetNextSlot n = Some (Some slot, n1) → s_MinTime slot <= now →
  process_slot em now n = Some (more, n') →
  ∃ t', process_slot_m took since em now (n, t) = Some (more, (n', t')) ∧
    executions_reading t' = i64 (executions_reading t + due_runs now (s_Jobs slot)).
Proof.
  intros Ht Hg E1 Hmin E. pose proof (erases_process_slot took since em now n t Ht) as He.
  rewrite E in He. destruct He as (t' & Em & Ht' & _). exists t'. split; [done|].
  destruct (moves_process_slot em now n t slot n1 more n' t' Ht) as [_ Hr]; [by rewrite Hg|done..|].
  rewrite !executions_reading_runs by (apply Ht || apply Ht'). by rewrite Hr, i64_plus_l.
Qed.

(** A recurrence counts as a creation. When a leader reschedules a recurring
    job it replaces the job by itself; [jobs_total] and [jobs_by_type] rise by
    one all the same, so they count occurrences rather than jobs. *)
Theorem recurrence_counts_as_creation job f n t m n0 n' :
  (∀ i, leader i = true) → metrics_ok t → t_global t = Some m → creation_field f →
  IsLeader n = Some (true, n0) → CreateJob handler job n0 = Some (None, n') →
  ∃ t', reschedule_job_m job (n, t) = Some (tt, (n', t')) ∧
    reading f (job_type (job_Type job)) t' = i64 (reading f (job_type (job_Type job)) t + 1).
Proof.
  intros Hl Ht Hg Hf E0 E. pose proof (erases_CreateJob job n0 t Ht) as He.
  rewrite E in He. destruct He as (t' & Em & Ht' & _). exists t'. split.
  { unfold reschedule_job_m, when_leader_m, mthen, on_node. cbn [fst snd]. by rewrite E0, Em. }
  destruct (count_CreateJob f (job_Type job) Hf Hl job n0 t None n' t' Ht)
    as (_ & _ & d & -> & Htot); [by rewrite Hg|done|].
  rewrite !reading_total by (apply Ht || apply Ht' || by destruct Hf as [-> | ->]; [left|right]).
  rewrite Htot, i64_plus_l. unfold once. by rewrite decide_True.
Qed.

End counting.

(** ** A concrete slot *)

#[local] Existing Instances sorted_range every_minute.
#[local] Instance failing_env : Env := tick_env 105 (λ _, true) (inl 500).

(** The slot of a one-off job that is due, and what the worker makes of it. *)
Lemma ex_due_slot :
  ∃ n slot n1 more n', created_at_95 ex_job = Some n ∧ GetNextSlot n = Some (Some slot, n1) ∧
    process_slot ex_em 105 n = Some (more, n') ∧
    (s_MinTime slot <=? 105) = true ∧ due_runs "unico" 105 (s_Jobs slot) = 1.
Proof.
  assert (match created_at_95 ex_job with
          | Some n =>
              match GetNextSlot n, process_slot ex_em 105 n with
              | Some (Some slot, _), Some _ =>
                  (s_MinTime slot <=? 105) && (due_runs "unico" 105 (s_Jobs slot) =? 1)
              | _, _ => false
              end
          | None => false
          end = true) as E by (vm_compute; reflexivity).
  destruct (created_at_95 ex_job) as [n|]; [|done].
  destruct (GetNextSlot n) as [[[slot|] n1]|] eqn:E1; [|done..].
  destruct (process_slot ex_em 105 n) as [[more n']|] eqn:E2; [|done].
  apply andb_true_iff in E as [? ?%Z.eqb_eq]. by exists n, slot, n1, more, n'.
Qed.

(** One execution of its type. *)
Lemma executions_are_counted_witness :
  ∃ n t', created_at_95 ex_job = Some n ∧
    (∃ more n', process_slot_m (λ _, 7) (λ _, 3) ex_em 105 (n, ex_telemetry) = Some (more, (n', t'))) ∧
    @executions_reading sum_reader "unico" t' = 1.
Proof.
  destruct ex_due_slot as (n & slot & n1 & more & n' & En & E1 & E & Hmin & Hdue).
  destruct (@executions_are_counted MemBolt _ sorted_range failing_env ex_http every_minute sum_reader
    (λ _, 7) (λ _, 3) "unico" ex_em 105 n ex_telemetry spec_of slot n1 more n') as (t' & Em & R).
  - exact ex_telemetry_ok.
  - reflexivity.
  - exact E1.
  - by apply Z.leb_le.
  - exact E.
  - exists n, t'. split; [exact En|]. split; [by exists more, n'|]. by rewrite R, Hdue.
Defined.

(** On a running leader. *)
Lemma recurrence_counts_as_creation_witness :
  ∃ n' t', @reschedule_job_m MemBolt _ sorted_range (clock_env 100) ex_recurring
      (ex_qnode ex_running, ex_telemetry) = Some (tt, (n', t')) ∧
    @reading sum_reader JobsTotal (job_type "recurrente") t' = 1.
Proof.
  destruct (@IsLeader MemBolt _ (clock_env 100) (ex_qnode ex_running)) as [[[] n0]|] eqn:E0;
    [|vm_compute in E0; discriminate E0..].
  destruct (@CreateJob MemBolt _ _ (clock_env 100) (@handler MemBolt _ sorted_range (clock_env 100)) ex_recurring n0) as [[[e|] n']|] eqn:E.
  1,3: exfalso; vm_compute in E0; injection E0 as <-; vm_compute in E; discriminate E.
  destruct (@recurrence_counts_as_creation MemBolt _ sorted_range (clock_env 100) sum_reader ex_recurring
    JobsTotal (ex_qnode ex_running) ex_telemetry spec_of n0 n') as (t' & Em & R).
  - done.
  - exact ex_telemetry_ok.
  - reflexivity.
  - by left.
  - exact E0.
  - exact E.
  - exists n', t'. split; [exact Em|]. change (job_type "recurrente") with (job_type (job_Type ex_recurring)). rewrite R. vm_compute. reflexivity.
Defined.
