(* ===== verification/Integration.v ===== *)
(** * Wiring metrics into components: [metrics/integration_examples.go]

    The instrumented store, worker, handlers and router of that file, its
    loops that report the state of the cluster, and its setup of a whole
    application. Nothing else in the program calls them. They use the node and
    its telemetry as [Metered] does. What the file itself leaves as a
    placeholder is one here: its worker has no slot to process and its routes
    answer "not implemented". Durations are arguments. *)

From S2P Require Import Prelude GoStrings GoFloat Json Sanitize GoTime Types Codec Request ColdStore.
From S2P Require Import FSM Store StoreProps StatusTracker Limits TimingWheel SlotQueue SlotQueueProps.
From S2P Require Import ExecutionManager Worker Gateway Api Metrics Instrumentation Metered.
From S2P Require Import HttpMetrics Logger Router Setup.

Section Integration.

Context {CS : Type} `{ColdSlotStore CS} `{GoRange} `{Env} `{Cluster} `{Cron}.

Notation MM := (M (Node CS Queue * Telemetry)).

Local Open Scope go_scope.

(** ** The store *)

Record InstrumentedStore := mkInstrumentedStore {
  is_job : JobInstrumentation;
  is_cluster : ClusterInstrumentation }.

Definition NewInstrumentedStore (nodeID : string) (m : option Metrics) : InstrumentedStore :=
  mkInstrumentedStore (NewJobInstrumentation m) (NewClusterInstrumentation m nodeID).

Definition is_CreateJob (st : InstrumentedStore) (job : Job) : MM (option error) :=
  err <- CreateJob_m job ;;
  match err with
  | None =>
      on_metrics (RecordJobCreated (is_job st) job ;;
                  RecordRaftOperation (is_cluster st) "create_job" true)
  | Some _ => on_metrics (RecordRaftOperation (is_cluster st) "create_job" false)
  end ;;
  mreturn err.

Definition is_DeleteJob (st : InstrumentedStore) (jobID : string) : MM (option error) :=
  job <- on_node (GetJob jobID) ;;
  match job with
  | None => mreturn (Some (errors_New ("job not found: " +:+ jobID)))
  | Some job =>
      err <- DeleteJob_m jobID ;;
      match err with
      | None =>
          on_metrics (RecordJobDeleted (is_job st) job ;;
                      RecordRaftOperation (is_cluster st) "delete_job" true)
      | Some _ => on_metrics (RecordRaftOperation (is_cluster st) "delete_job" false)
      end ;;
      mreturn err
  end.

Definition is_UpdateJobCounts (st : InstrumentedStore) : MM unit :=
  jobs <- on_node GetAllJobs ;; on_metrics (UpdateJobCounts (is_job st) (Some jobs)).

(** ** The worker *)

Record SlotExample := mkSlotExample { se_Key : Z; se_Jobs : list Job }.

(** [iw_closed]: whether the stop channel is closed. *)
Record InstrumentedWorker := mkInstrumentedWorker {
  iw_closed : bool;
  iw_running : bool;
  iw_worker : WorkerInstrumentation;
  iw_job : JobInstrumentation;
  iw_slot : SlotInstrumentation }.

Definition NewInstrumentedWorker (m : option Metrics) : InstrumentedWorker :=
  mkInstrumentedWorker false false (NewWorkerInstrumentation m) (NewJobInstrumentation m)
    (NewSlotInstrumentation m).

(** The loop it starts is [iw_run]. *)
Definition iw_Start (now : Z) (iw : InstrumentedWorker) : T InstrumentedWorker :=
  if iw_running iw then mreturn iw
  else
    wi <- RecordWorkerStarted now (iw_worker iw) ;;
    mreturn (mkInstrumentedWorker (iw_closed iw) true wi (iw_job iw) (iw_slot iw)).

(** Closing a closed channel panics. *)
Definition iw_Stop (iw : InstrumentedWorker) : T InstrumentedWorker :=
  if iw_running iw then
    if iw_closed iw then panic
    else
      wi <- RecordWorkerStopped (iw_worker iw) ;;
      mreturn (mkInstrumentedWorker true false wi (iw_job iw) (iw_slot iw))
  else mreturn iw.

(** How long the parts of a cycle took. *)
Record CycleTimes := mkCycleTimes {
  ct_idle : Z;
  ct_job : Job → Z;
  ct_webhook : Job → Z;
  ct_slot : Z;
  ct_processing : Z;
  ct_cycle : Z }.

Definition iw_executeWebhook (job : Job) : bool := true.

Definition iw_executeJob (ct : CycleTimes) (job : Job) : T bool :=
  if decide (job_WebhookURL job = "") then mreturn true
  else
    m <- GetGlobalMetrics ;;
    let success := iw_executeWebhook job in
    RecordWebhookRequest (NewWebhookInstrumentation m) (ct_webhook ct job) success ;;
    mreturn success.

Definition iw_process_job (ct : CycleTimes) (iw : InstrumentedWorker) (job : Job) : T unit :=
  success <- iw_executeJob ct job ;;
  RecordJobExecution (iw_job iw) job (ct_job ct job) success ;;
  (if (success : bool) then mreturn tt else RecordWorkerError (iw_worker iw) "job_execution_failed").

(** The cycle for the slot it got. *)
Definition iw_process_slot (ct : CycleTimes) (iw : InstrumentedWorker) (slot : option SlotExample) : T unit :=
  match slot with
  | None => RecordProcessingCycle (iw_worker iw) 0 (ct_idle ct)
  | Some slot =>
      for_each (iw_process_job ct iw) (se_Jobs slot) ;;
      RecordSlotProcessed (iw_slot iw) (Z.of_nat (length (se_Jobs slot))) (ct_slot ct) ;;
      RecordProcessingCycle (iw_worker iw) (ct_processing ct) (i64 (ct_cycle ct - ct_processing ct))
  end.

(** [var slot *SlotExample = nil] *)
Definition iw_processSlots (ct : CycleTimes) (iw : InstrumentedWorker) : T unit :=
  iw_process_slot ct iw None.

(** The loop, by the cases its [select] takes: a tick, or the closed stop
    channel. *)
Fixpoint iw_run (iw : InstrumentedWorker) (cases : list (option CycleTimes)) : T unit :=
  match cases with
  | [] => mreturn tt
  | None :: _ => mreturn tt
  | Some ct :: cases => iw_processSlots ct iw ;; iw_run iw cases
  end.

(** ** Handlers and router *)

Record InstrumentedHandlers := mkInstrumentedHandlers {
  ih_store : InstrumentedStore;
  ih_metrics : option Metrics }.

(** What it records; it writes nothing, so the server answers 200. *)
Definition CreateJobWithMetrics (ih : InstrumentedHandlers) (duration : Z) (method : string) : MM unit :=
  on_metrics (IncrementHTTPRequests (ih_metrics ih) method "/jobs" 201 ;;
              RecordHTTPRequestDuration (ih_metrics ih) duration method "/jobs") ;;
  l <- on_node IsLeader ;;
  if (l : bool) then mreturn tt
  else on_metrics (IncrementHTTPProxyRequests (ih_metrics ih) method "/jobs").

(** A route with what its handler does to the response. *)
Record InstrumentedRoute := mkInstrumentedRoute {
  ir_method : string;
  ir_template : string;
  ir_records : string → MM unit;
  ir_writes : list write_op }.

Definition SetupInstrumentedRouter (ih : InstrumentedHandlers) (duration : Z) : list InstrumentedRoute :=
  let not_implemented method template :=
    mkInstrumentedRoute method template (λ _, mreturn tt) [WriteHeader 501] in
  [mkInstrumentedRoute "POST" "/jobs" (CreateJobWithMetrics ih duration) [];
   not_implemented "GET" "/jobs/{id}";
   not_implemented "DELETE" "/jobs/{id}";
   mkInstrumentedRoute "GET" "/health" (λ _, mreturn tt) [WriteHeader 200; Write];
   not_implemented "GET" "/cluster/debug";
   not_implemented "POST" "/cluster/join"].

(** A request through that router; its result is the status that is sent. *)
Definition serve_instrumented `{Mux} (ih : InstrumentedHandlers) (m : option Metrics)
    (inner outer : Z) (method path : string) : MM Z :=
  let rts := SetupInstrumentedRouter ih inner in
  match mux_match ((λ r, (ir_method r, ir_template r)) <$> rts) method path with
  | NotFound => mreturn (rs_status mux_NotFound)
  | MethodNotAllowed => mreturn (rs_status mux_MethodNotAllowed)
  | Matched k _ =>
      match rts !! k with
      | None => panic
      | Some rt =>
          ir_records rt method ;;
          on_metrics (HTTPMiddleware m outer method (Some (ir_template rt)) path (ir_writes rt)) ;;
          mreturn (sent_status (ir_writes rt))
      end
  end.

(** ** Discovery and cluster *)

Definition InstrumentDiscoveryEvents (strategy : string) (m : option Metrics) : T unit :=
  let di := NewDiscoveryInstrumentation m strategy in
  RecordDiscoveryEvent di "node_discovered" ;;
  RecordDiscoveryOperation di "register" true ;;
  UpdateNodesDiscovered di 3.

(** One tick of [MonitorClusterState]. *)
Definition monitor_tick (m : option Metrics) (ci : ClusterInstrumentation) : MM ClusterInstrumentation :=
  r <- on_node GetClusterConfiguration ;;
  match r with
  | inr _ => on_metrics (RecordRaftOperation ci "get_cluster_config" false) ;; mreturn ci
  | inl servers =>
      on_metrics (RecordRaftOperation ci "get_cluster_config" true) ;;
      leader <- on_node GetLeader ;;
      ci <- on_metrics (UpdateClusterState (Z.of_nat (length servers)) leader ci) ;;
      l <- on_node IsLeader ;;
      (if (l : bool) then
         jobs <- on_node GetAllJobs ;;
         on_metrics (UpdateJobCounts (NewJobInstrumentation m) (Some jobs)) ;;
         slots <- on_node GetAllSlots ;;
         on_metrics (UpdateSlotCounts (NewSlotInstrumentation m) (Z.of_nat (size slots)))
       else mreturn tt) ;;
      mreturn ci
  end.

(** One tick of [StartPeriodicMetricsUpdates]. *)
Definition periodic_tick (m : option Metrics) (ci : ClusterInstrumentation) : MM ClusterInstrumentation :=
  jobs <- on_node GetAllJobs ;;
  on_metrics (UpdateJobCounts (NewJobInstrumentation m) (Some jobs)) ;;
  slots <- on_node GetAllSlots ;;
  on_metrics (UpdateSlotCounts (NewSlotInstrumentation m) (Z.of_nat (size slots))) ;;
  r <- on_node GetClusterConfiguration ;;
  match r with
  | inr _ => mreturn ci
  | inl servers =>
      leader <- on_node GetLeader ;;
      on_metrics (UpdateClusterState (Z.of_nat (length servers)) leader ci)
  end.

(** [for range ticker.C], after [k] ticks. *)
Fixpoint ticks (tick : ClusterInstrumentation → MM ClusterInstrumentation) (k : nat)
    (ci : ClusterInstrumentation) : MM ClusterInstrumentation :=
  match k with
  | O => mreturn ci
  | S k => ci <- tick ci ;; ticks tick k ci
  end.

Definition MonitorClusterState (m : option Metrics) (nodeID : string) (k : nat)
    : MM ClusterInstrumentation :=
  ticks (monitor_tick m) k (NewClusterInstrumentation m nodeID).

Definition StartPeriodicMetricsUpdates (m : option Metrics) (nodeID : string) (k : nat)
    : MM ClusterInstrumentation :=
  ticks (periodic_tick m) k (NewClusterInstrumentation m nodeID).

(** ** Setup *)

(** The second goroutine, which calls [cleanup], runs as soon as it is
    scheduled: it is the result. The first records nothing. *)
Definition SetupApplicationWithMetrics `{OTel} `{Meter} (env : string) (nodeID : string)
    : PM (error + PM unit) :=
  let metricsConfig := mkMetricsConfig "scheduled-db" "1.0.0" nodeID "production" 9090 "/metrics" in
  r <- InitializeWithOTLP env metricsConfig ;;
  match r with
  | inr e => mreturn (inl e)
  | inl (m, otlp) =>
      modify (λ p, mkProcess (pr_calls p) (Some m)) ;;
      mreturn (inr (cleanup otlp))
  end.

End Integration.

(** ** The store does what the store does *)

Definition usable (m : option Metrics) : Prop := ∀ m', m = Some m' → complete m'.

Section transparency.

Context {CS : Type} `{ColdSlotStore CS} `{GoRange} `{Env} `{Cluster} `{Cron}.

Notation erases := (@erases CS).

#[local] Hint Resolve erases_CreateJob erases_DeleteJob : erasure.

Lemma types_unless_nil m (k : T unit) : (∀ m', m = Some m' → types k) → types (unless_nil m k).
Proof. intros Hk. destruct m as [m|]; [by apply (Hk m)|apply types_ret]. Qed.

(** Recording on an instance that is passed around. *)
Lemma erases_recorded {B} (k : T unit) (km : M (Node CS Queue * Telemetry) B) (c : M (Node CS Queue) B) :
  types k → erases km c → erases (mthen (on_metrics k) (λ _, km)) c.
Proof.
  intros Hk Hc n t Ht. unfold mthen, on_metrics. simpl.
  destruct (Hk t) as ([] & t1 & E & Hg1 & l & Hl & Hw). rewrite E.
  assert (metrics_ok t1) as Ht1.
  { split; [intros m'; rewrite Hg1; apply Ht|]. rewrite Hl. apply Forall_app. split; [apply Ht|done]. }
  specialize (Hc n t1 Ht1). destruct (c n) as [[b n2]|]; [|done].
  destruct Hc as (t2 & E2 & Ht2 & Hg2). exists t2. split_and!; [done|done|congruence].
Qed.

Lemma types_store m nodeID :
  usable m →
  (∀ job, types (RecordJobCreated (is_job (NewInstrumentedStore nodeID m)) job)) ∧
  (∀ job, types (RecordJobDeleted (is_job (NewInstrumentedStore nodeID m)) job)) ∧
  (∀ op ok, types (RecordRaftOperation (is_cluster (NewInstrumentedStore nodeID m)) op ok)).
Proof.
  intros Hm. unfold RecordJobCreated, RecordJobDeleted, RecordRaftOperation. simpl.
  split_and!; intros; apply types_unless_nil; intros m' ->; pose proof (Hm m' eq_refl); by eauto with metrics.
Qed.

(** The instrumented store is the store. Creating through it answers and
    changes the node as the store does; deleting does too, but for a job that
    does not exist, which it refuses before the store is asked. *)
Theorem instrumented_store_is_store m nodeID job id :
  usable m →
  erases (is_CreateJob (NewInstrumentedStore nodeID m) job) (CreateJob handler job) ∧
  erases (is_DeleteJob (NewInstrumentedStore nodeID m) id)
    (job <- GetJob id ;;
     match job with
     | None => mreturn (Some (errors_New ("job not found: " +:+ id)))
     | Some _ => DeleteJob handler id
     end)%go.
Proof.
  intros Hm. destruct (types_store m nodeID Hm) as (Hc & Hd & Hr). split.
  - apply erases_eta. apply erases_bind; [erase|]. intros [e|];
      (apply erases_recorded; [|apply erases_ret]); [|apply types_bind]; auto.
  - unfold is_DeleteJob. apply erases_bind; [erase|]. intros [job'|]; [|erase].
    apply erases_eta. apply erases_bind; [erase|]. intros [e|];
      (apply erases_recorded; [|apply erases_ret]); [|apply types_bind]; auto.
Qed.

End transparency.

(** ** The worker can be stopped once *)

Section worker.

Context `{Reader}.

Lemma returns_worker_active m b t :
  complete m → ∃ t', SetWorkerActive (Some m) b t = Some (tt, t').
Proof.
  intros Hm. destruct (types_measure m Hm WorkerActive (VInt (if b then 1 else 0)) ∅) with (t := t)
    as ([] & t' & E & _); [done|by rewrite fmap_empty|]. exists t'. by destruct b.
Qed.

Lemma iw_Start_idle now iw t :
  usable (wi_metrics (iw_worker iw)) → iw_running iw = false →
  ∃ iw' t', iw_Start now iw t = Some (iw', t') ∧ iw_running iw' = true ∧ iw_closed iw' = iw_closed iw ∧
    wi_metrics (iw_worker iw') = wi_metrics (iw_worker iw).
Proof.
  intros Hm Hr. unfold iw_Start, RecordWorkerStarted. rewrite Hr.
  destruct (wi_metrics (iw_worker iw)) as [m|] eqn:E.
  - destruct (returns_worker_active m true t (Hm m eq_refl)) as (t' & Ea). unfold mthen. rewrite Ea.
    by do 2 eexists.
  - unfold mthen. by do 2 eexists.
Qed.

Lemma iw_Stop_open iw t :
  usable (wi_metrics (iw_worker iw)) → iw_running iw = true → iw_closed iw = false →
  ∃ iw' t', iw_Stop iw t = Some (iw', t') ∧ iw_running iw' = false ∧ iw_closed iw' = true ∧
    wi_metrics (iw_worker iw') = wi_metrics (iw_worker iw).
Proof.
  intros Hm Hr Hc. unfold iw_Stop, RecordWorkerStopped. rewrite Hr, Hc.
  destruct (wi_metrics (iw_worker iw)) as [m|] eqn:E.
  - destruct (returns_worker_active m false t (Hm m eq_refl)) as (t' & Ea). unfold mthen.
    destruct (wi_isActive _); [rewrite Ea|]; by do 2 eexists.
  - unfold mthen. by do 2 eexists.
Qed.

(** A worker that was stopped cannot be used again. It can be started a
    second time and then counts as running, although its stop channel is
    closed and its loop ends at once; stopping it a second time panics. *)
Theorem instrumented_worker_stops_once m now1 now2 t :
  usable m →
  ∃ iw1 t1 iw2 t2 iw3 t3,
    iw_Start now1 (NewInstrumentedWorker m) t = Some (iw1, t1) ∧
    iw_Stop iw1 t1 = Some (iw2, t2) ∧ iw_running iw2 = false ∧
    iw_Start now2 iw2 t2 = Some (iw3, t3) ∧ iw_running iw3 = true ∧ iw_closed iw3 = true ∧
    iw_Stop iw3 t3 = None.
Proof.
  intros Hm. destruct (iw_Start_idle now1 (NewInstrumentedWorker m) t) as (iw1 & t1 & E1 & R1 & C1 & M1); [done..|].
  destruct (iw_Stop_open iw1 t1) as (iw2 & t2 & E2 & R2 & C2 & M2); [by rewrite M1|done..|].
  destruct (iw_Start_idle now2 iw2 t2) as (iw3 & t3 & E3 & R3 & C3 & _); [by rewrite M2, M1|done|].
  exists iw1, t1, iw2, t2, iw3, t3. split_and!; try done; [congruence|].
  unfold iw_Stop. by rewrite R3, C3, C2.
Qed.

(** Its cycles find no slot, so whatever its loop does, it records only how
    long it was idle: no job is executed and no webhook called. *)
Theorem instrumented_worker_only_idles m f attrs cases t :
  complete m → f ≠ WorkerProcessingTime → f ≠ WorkerIdleTime →
  returns (iw_run (NewInstrumentedWorker (Some m)) cases) t (λ _ t',
    total (name_of f) attrs (t_log t') = total (name_of f) attrs (t_log t)).
Proof.
  intros Hm H1 H2. revert t. induction cases as [|[ct|] cases IH]; intros t; [by apply returns_ret| |by apply returns_ret].
  simpl. apply returns_bind.
  assert (adds f attrs 0 (iw_processSlots ct (NewInstrumentedWorker (Some m)))) as [_ Ha].
  { unfold iw_processSlots, iw_process_slot, RecordProcessingCycle, RecordWorkerProcessingTime,
      RecordWorkerIdleTime, RecordSeconds. cbn [NewInstrumentedWorker iw_worker NewWorkerInstrumentation
      wi_metrics unless_nil].
    counted. by repeat (rewrite decide_False by naive_solver). }
  eapply returns_mono; [apply Ha|]. intros [] t1 E1.
  eapply returns_mono; [apply IH|]. intros [] t2 E2. lia.
Qed.

End worker.

(** ** Two statuses for one request *)

Section examples.

Context {CS : Type} `{ColdSlotStore CS} `{GoRange} `{Env} `{Cluster} `{Cron} `{Mux} `{Reader}.

Implicit Types (n : Node CS Queue) (t : Telemetry).

Lemma returns_on_metrics {A} (c : T A) n t Q :
  returns c t Q → returns (@on_metrics CS A c) (n, t) (λ a s, s.1 = n ∧ Q a s.2).
Proof.
  intros (a & t' & E & HQ). exists a, (n, t'). unfold on_metrics. simpl. by rewrite E.
Qed.

Lemma http_status_inj method ep c1 c2 : http_attrs method ep c1 = http_attrs method ep c2 → c1 = c2.
Proof. intros E. apply (f_equal (lookup "status_code")) in E. by vm_compute in E; injection E. Qed.

Lemma adds_requests m method ep code code' :
  complete m → code < 400 → 
  adds HTTPRequests (http_attrs method ep code') (if decide (code = code') then 1 else 0)
    (IncrementHTTPRequests (Some m) method ep code).
Proof.
  intros Hm Hc. unfold IncrementHTTPRequests, Add. rewrite (decide_False (P := code >= 400)) by lia. counted.
  pose proof (http_status_inj method ep code code'). repeat case_decide; naive_solver.
Qed.

Section requests.

Variables (method ep : string).

(** [c] leaves the state machine and records [d code] requests of [code]. *)
Definition requests (d : Z → Z) (c : M (Node CS Queue * Telemetry) unit) : Prop :=
  ∀ n t, returns c (n, t) (λ _ s, n_fsm s.1 = n_fsm n ∧
    (Forall well_typed (t_log t) → Forall well_typed (t_log s.2)) ∧
    ∀ code, total (name_of HTTPRequests) (http_attrs method ep code) (t_log s.2) =
      total (name_of HTTPRequests) (http_attrs method ep code) (t_log t) + d code).

Lemma requests_recorded d c :
  (∀ code, adds HTTPRequests (http_attrs method ep code) (d code) c) → requests d (on_metrics c).
Proof.
  intros Hc n t. destruct (proj1 (Hc 0) t) as ([] & t' & E & _ & l & Hl & Hw).
  exists tt, (n, t'). unfold on_metrics. simpl. rewrite E. split_and!; [done|done| |].
  - intros. rewrite Hl. by apply Forall_app.
  - intros code. destruct (proj2 (Hc code) t) as ([] & t'' & E' & T). congruence.
Qed.

Lemma requests_ret : requests (λ _, 0) (mreturn tt).
Proof. intros n t. apply returns_ret. split_and!; [done|done|]. intros. simpl. lia. Qed.

Lemma requests_bind d1 d2 c1 c2 :
  requests d1 c1 → requests d2 c2 → requests (λ code, d1 code + d2 code) (mthen c1 (λ _, c2)).
Proof.
  intros Hd1 Hd2 n t. apply returns_bind. eapply returns_mono; [apply Hd1|].
  intros [] [n1 t1] (F1 & W1 & T1). simpl in *. eapply returns_mono; [apply Hd2|].
  intros [] [n2 t2] (F2 & W2 & T2). simpl in *. split_and!; [congruence|auto|].
  intros code. rewrite T2, T1. lia.
Qed.

Lemma requests_leader d (k : bool → M (Node CS Queue * Telemetry) unit) :
  (∀ b, requests d (k b)) → requests d (mthen (on_node IsLeader) k).
Proof. intros Hk n t. apply returns_bind. eexists _, _. split; [done|]. simpl. by apply (Hk _ (mkNode _ _ _ _ _)). Qed.

End requests.

(** Creating a job through the instrumented router is recorded twice, under
    two statuses: the handler records a 201 it never sends, and the middleware
    the 200 the client gets. *)
Theorem example_create_has_two_statuses nodeID m inner outer n t :
  complete m → Forall well_typed (t_log t) →
  let ih := mkInstrumentedHandlers (NewInstrumentedStore nodeID (Some m)) (Some m) in
  returns (serve_instrumented ih (Some m) inner outer "POST" "/jobs") (n, t) (λ status s,
    status = 200 ∧ n_fsm s.1 = n_fsm n ∧
    ∀ code, reading HTTPRequests (http_attrs "POST" "/jobs" code) s.2 =
      i64 (reading HTTPRequests (http_attrs "POST" "/jobs" code) t +
           if decide (code = 200 ∨ code = 201) then 1 else 0)).
Proof.
  intros Hm Hw ih. unfold serve_instrumented.
  assert (clean_path "/jobs") as Hclean.
  { exists ["jobs"]. split; [by vm_compute|]. split; [done|]. by apply Forall_singleton. }
  rewrite mux_documented by done. change (documented _ _ _) with (Matched 0 "").
  change (SetupInstrumentedRouter ih inner !! 0%nat) with
    (Some (mkInstrumentedRoute "POST" "/jobs" (CreateJobWithMetrics ih inner) [])). cbv beta iota zeta.
  cbn [ir_records ir_template ir_writes].
  assert (∀ code0 d, code0 < 400 → requests "POST" "/jobs" (λ code, if decide (code0 = code) then 1 else 0)
    (@on_metrics CS unit (IncrementHTTPRequests (Some m) "POST" "/jobs" code0 ;;
       RecordHTTPRequestDuration (Some m) d "POST" "/jobs")%go)) as Hrec.
  { intros code0 d Hlt. apply requests_recorded. intros code. eapply adds_eq.
    - apply adds_bind; [by apply adds_requests|]. unfold RecordHTTPRequestDuration, RecordSeconds.
      counted. by rewrite decide_False by naive_solver.
    - lia. }
  assert (requests "POST" "/jobs" (λ code, (if decide (201 = code) then 1 else 0) + 0)
    (CreateJobWithMetrics ih inner "POST")) as Hcreate.
  { apply requests_bind; [by apply Hrec|]. apply requests_leader. intros [|]; [apply requests_ret|].
    apply requests_recorded. intros code. unfold IncrementHTTPProxyRequests, Add. cbn [ih ih_metrics].
    counted. by rewrite decide_False by naive_solver. }
  apply returns_bind. eapply returns_mono; [apply Hcreate|]. intros [] [n1 t1] (F1 & W1 & T1). simpl in F1, W1, T1.
  apply returns_bind. eapply returns_mono; [by apply (Hrec 200 outer)|].
  intros [] [n2 t2] (F2 & W2 & T2). simpl in F2, W2, T2. apply returns_ret. simpl.
  split_and!; [done|congruence|]. intros code. rewrite !reading_total by (by left || auto).
  rewrite T2, T1, i64_plus_l. f_equal. repeat case_decide; naive_solver lia.
Qed.

End examples.

(** ** What the periodic updates do to the gauges *)

Section gauges.

Context {CS : Type} `{ColdSlotStore CS} `{GoRange} `{Env} `{Cluster} `{Cron} `{Reader}.

Implicit Types (n : Node CS Queue) (t : Telemetry).

Lemma count_job_total (l : list (string * Job)) acc :
  in64 acc.1.1 → (foldl (λ acc p, count_job p.2 acc) acc l).1.1 = i64 (acc.1.1 + Z.of_nat (length l)).
Proof.
  revert acc. induction l as [|p l IH]; intros acc Hacc; simpl.
  { by rewrite Z.add_0_r, i64_id. }
  assert ((count_job p.2 acc).1.1 = i64 (acc.1.1 + 1)) as E.
  { destruct acc as [[a b] c]. unfold count_job. repeat case_decide; done. }
  rewrite IH by (rewrite E; apply i64_in64). rewrite E, i64_plus_l. f_equal. lia.
Qed.

Lemma adds_job_counts m (jobs : gmap string Job) :
  complete m →
  adds JobsActive ∅ (i64 (Z.of_nat (size jobs)))
    (UpdateJobCounts (NewJobInstrumentation (Some m)) (Some jobs)).
Proof.
  intros Hm. unfold UpdateJobCounts. cbn [ji_metrics unless_nil].
  pose proof (count_job_total (range_map jobs) (0, 0, 0)) as Hc.
  destruct (foldl _ _ _) as [[a b] c]. simpl in Hc. rewrite Hc by (unfold in64, two63; lia).
  unfold SetActiveJobs, Add. counted. rewrite decide_True by done.
  repeat (rewrite decide_False by naive_solver). unfold range_map.
  rewrite range_perm_ok, length_map_to_list. simpl. by rewrite Z.add_0_r.
Qed.

Section keeps.

Variable m : Metrics.

(** What leaves the gauge of active jobs and the helper's metrics alone. *)
Definition keeps (c : T ClusterInstrumentation) : Prop :=
  ∀ t, returns c t (λ ci t', ci_metrics ci = Some m ∧
    (Forall well_typed (t_log t) → Forall well_typed (t_log t')) ∧
    total (name_of JobsActive) ∅ (t_log t') = total (name_of JobsActive) ∅ (t_log t)).

Lemma keeps_ret ci : ci_metrics ci = Some m → keeps (mreturn ci).
Proof. intros Hci t. by apply returns_ret. Qed.

Lemma keeps_after (c : T unit) k : adds JobsActive ∅ 0 c → keeps k → keeps (mthen c (λ _, k)).
Proof.
  intros [Ht Ha] Hk t. destruct (Ht t) as ([] & t1 & E & _ & l & Hl & Hw).
  destruct (Ha t) as ([] & t2 & E2 & T2). rewrite E in E2. injection E2 as <-.
  apply returns_bind. exists tt, t1. split; [done|]. eapply returns_mono; [apply Hk|].
  intros ci t' (? & W & T). split_and!; [done| |lia]. intros Hw0. apply W. rewrite Hl. by apply Forall_app.
Qed.

Lemma keeps_bind c k :
  keeps c → (∀ ci, ci_metrics ci = Some m → keeps (k ci)) → keeps (mthen c k).
Proof.
  intros Hc Hk t. apply returns_bind. eapply returns_mono; [apply Hc|]. intros ci t1 (Hci & W1 & T1).
  eapply returns_mono; [by apply Hk|]. intros ci' t2 (? & W2 & T2). split_and!; [done|auto|congruence].
Qed.

Hypothesis m_complete : complete m.

Lemma keeps_cluster_state k leader ci :
  ci_metrics ci = Some m → keeps (UpdateClusterState k leader ci).
Proof.
  intros Hci. unfold UpdateClusterState. rewrite Hci. apply keeps_bind.
  - destruct (_ && _); [|by apply keeps_ret]. unfold RecordLeaderChange. rewrite Hci.
    apply keeps_after; [|apply keeps_after; [|by apply keeps_ret]];
      unfold IncrementLeaderChanges, IncrementLeaderElections, Add; counted; by rewrite decide_False by naive_solver.
  - intros ci' Hci'. apply keeps_after; [|by apply keeps_ret].
    cbn [set_nodes ci_metrics]. rewrite Hci'. unfold SetClusterNodes, Add. counted.
    by rewrite decide_False by naive_solver.
Qed.

Lemma recorded_active d c n t :
  adds JobsActive ∅ d c →
  returns (@on_metrics CS unit c) (n, t) (λ _ s, s.1 = n ∧
    (Forall well_typed (t_log t) → Forall well_typed (t_log s.2)) ∧
    total (name_of JobsActive) ∅ (t_log s.2) = total (name_of JobsActive) ∅ (t_log t) + d).
Proof.
  intros [Ht Ha]. destruct (Ht t) as ([] & t1 & E & _ & l & Hl & Hw).
  destruct (Ha t) as ([] & t1' & E' & T1). rewrite E in E'. injection E' as <-.
  exists tt, (n, t1). unfold on_metrics. simpl. rewrite E. split_and!; [done|done| |done].
  intros. rewrite Hl. by apply Forall_app.
Qed.

(** What is left of a tick when no active jobs are counted in it. *)
Lemma periodic_tick_adds n t ci :
  ci_metrics ci = Some m →
  returns (periodic_tick (Some m) ci) (n, t) (λ ci' s, ci_metrics ci' = Some m ∧ n_fsm s.1 = n_fsm n ∧
    (Forall well_typed (t_log t) → Forall well_typed (t_log s.2)) ∧
    total (name_of JobsActive) ∅ (t_log s.2) =
      total (name_of JobsActive) ∅ (t_log t) + i64 (Z.of_nat (size (f_jobs (n_fsm n))))).
Proof.
  intros Hci. unfold periodic_tick. apply returns_bind. eexists _, _. split; [done|]. simpl.
  apply returns_bind. eapply returns_mono; [apply recorded_active, adds_job_counts, m_complete|].
  intros [] [n1 t1] (En & W1 & T1). simpl in En, W1, T1. subst n1. apply returns_bind. eexists _, _. split; [done|]. simpl.
  apply returns_bind. eapply returns_mono.
  { apply (recorded_active 0). unfold UpdateSlotCounts, SetActiveSlots, Add. cbn [si_metrics unless_nil].
    counted. by rewrite decide_False by naive_solver. }
  intros [] [n2 t2] (En & W2 & T2). simpl in En, W2, T2. subst n2.
  rewrite T1 in T2. unfold FSM_GetAllJobs in T2. rewrite map_size_fmap in T2.
  apply returns_bind. unfold GetClusterConfiguration. eexists _, _. split; [done|]. cbn [snd fst].
  destruct (configuration _) as [servers|e].
  - apply returns_bind. eexists _, _. split; [done|]. cbn [fst snd].
    match goal with |- returns (on_metrics (UpdateClusterState ?k ?leader _)) (?n', _) _ =>
      destruct (keeps_cluster_state k leader ci Hci t2) as (ci' & t3 & E & Hci' & W3 & T3);
      exists ci', (n', t3)
    end. unfold on_metrics. simpl in E |- *. rewrite E. split_and!; [done|done|done|auto|lia].
  - apply returns_ret. simpl. split_and!; [done|done|auto|lia].
Qed.

(** The gauge of active jobs counts every job once per tick. After [k]
    ticks of the periodic updates on a node that does not change,
    [jobs_active] has risen by [k] times the number of jobs. *)
Theorem periodic_updates_accumulate nodeID k n t :
  Forall well_typed (t_log t) →
  returns (StartPeriodicMetricsUpdates (Some m) nodeID k) (n, t) (λ _ s,
    n_fsm s.1 = n_fsm n ∧
    reading JobsActive ∅ s.2 =
      i64 (reading JobsActive ∅ t + Z.of_nat k * Z.of_nat (size (f_jobs (n_fsm n))))).
Proof.
  intros Hw. unfold StartPeriodicMetricsUpdates.
  set (ci := NewClusterInstrumentation (Some m) nodeID). assert (ci_metrics ci = Some m) as Hci by done.
  clearbody ci. revert ci n t Hci Hw. induction k as [|k IH]; intros ci n t Hci Hw.
  - apply returns_ret. split; [done|]. simpl. rewrite reading_total by (by right || done). by rewrite Z.add_0_r, i64_idemp.
  - simpl. apply returns_bind. eapply returns_mono; [by apply periodic_tick_adds|].
    intros ci' [n1 t1] (Hci' & F1 & W1 & T1). simpl in F1, W1, T1.
    eapply returns_mono; [apply IH; auto|]. intros _ s (F2 & R). split; [congruence|].
    rewrite R, F1, !reading_total by (by right || auto). rewrite T1, !i64_plus_l.
    set (x := total _ _ _). set (z := Z.of_nat (size _)).
    replace (x + i64 z + Z.of_nat k * z) with (i64 z + (x + Z.of_nat k * z)) by lia.
    rewrite i64_plus_l. f_equal. lia.
Qed.

End keeps.

End gauges.

(** ** Setup shuts the metrics down *)

Section setup.

Context `{OTel} `{Meter}.

(** When the setup succeeds there is one complete global instance, and the
    goroutine it leaves behind, which was to wait for a signal, shuts exporters
    and provider down as soon as it runs: the program goes on recording to an
    instance nothing exports. *)
Theorem setup_shuts_metrics_down env nodeID :
  ∃ r p, SetupApplicationWithMetrics env nodeID (mkProcess [] None) = Some (r, p) ∧
    match r with
    | inl _ => pr_global p = None
    | inr goroutine => ∃ m p', complete m ∧ pr_global p = Some m ∧ pr_calls p = [CSetMeterProvider] ∧
        goroutine p = Some (tt, p') ∧ pr_global p' = Some m ∧
        CShutdownPrometheus ∈ pr_calls p' ∧ last (pr_calls p') = Some CShutdownProvider
    end.
Proof.
  unfold SetupApplicationWithMetrics.
  set (config := mkMetricsConfig _ _ _ _ _ _).
  destruct (initialize_all_or_nothing env config) as (r & p & E & Hr).
  unfold mthen. rewrite E. destruct r as [[m otlp]|e].
  - destruct Hr as (Hm & Hg & Hc & Ho). do 2 eexists. split; [done|]. cbn beta iota.
    exists m. unfold cleanup, call. rewrite Hc. destruct otlp; eexists; (split_and!; [done..| | |]); try done;
      simpl; set_solver.
  - do 2 eexists. split; [done|]. apply Hr.
Qed.

End setup.
